(* ===== verification/_CoqProject ===== *)
-Q . S2P
Prelude.v
Text.v
Clock.v
Json.v
FileUtil.v
JobPool.v
Platform.v
Hash.v
Seed.v
FastCDC.v
Protocol.v
ChunkAssembler.v
SegmentIO.v
Scheduler.v
SchedulerProofs.v
SchedulerSpec.v
PeerSession.v
NetUtil.v
Tracker.v
TrackerSpec.v
PeerSessionSpec.v
PeerManager.v
PeerManagerSpec.v
Workers.v
Transfer.v
TaskManager.v
TaskStart.v
Discovery.v
TaskRun.v
Download.v
Serving.v
Ipc.v
Cli.v
Distribution.v
Daemon.v
Requests.v
System.v
Removal.v
Windows.v
