(* ===== verification/Prelude.v ===== *)
(** * thinBT: a verification development

    thinBT distributes files in a local network.  [tbt make] cuts a file into
    chunks and writes a seed; daemons that are told of the seed find each other
    through a tracker, exchange sub-blocks of 16 KiB over TCP, write them into
    the memory-mapped output file and verify every chunk.  The sources are
    under src/src; the development follows them file by file.

    ** The parts, from the bottom up

    - [Prelude]: machine integers (values in [Z], reduced explicitly), indexed
      access to vectors ([None] out of range), [memcpy] into a buffer, results
      with errors, tactics and hints.  [Text]: [std::string] search, decimal
      numbers, [strtol], [std::stoull].  [Clock]: time stamps.  [Json]: documents, a printer, the class
      [JsonReader] for the yyjson library.
    - [Platform] (common/platform.hpp): byte order.  [Hash] (common/hash.cpp):
      digests over the class [Evp] for OpenSSL, xxhash64.  [FileUtil]
      (common/file_util.cpp): copies between files, mapped files.  [NetUtil]
      (common/net_util.cpp): tracker URLs, name resolution, peer ids, choice of
      the interface.  These and [SegmentIO] are the Linux branches; [Windows]
      has the others, in the modules [WinFile], [WinSegment] and [WinNet].
    - [Seed] (seed/): the .tseed format, its writer and reader.  [FastCDC]
      (cdc/fastcdc.cpp): the chunking.
    - [Protocol] (daemon/protocol.cpp): handshake and messages.
    - [ChunkAssembler], [SegmentIO] (daemon/chunk_assembler.cpp,
      segment_io.cpp): the chunks of the output file.  The class [ChunkStore] is
      what the assemblers rely on, [segment_store] its implementation.
    - [Scheduler], [SchedulerProofs], [SchedulerSpec] (daemon/scheduler.cpp):
      which sub-block to request from which peer.
    - [PeerSession], [PeerSessionSpec] (daemon/peer_session.cpp): a connection.
      [PeerManager], [PeerManagerSpec] (daemon/peer_manager.cpp): the
      connections of a task.
    - [JobPool] (daemon/file_read_pool.cpp, sendfile_pool.cpp), [Workers]
      (daemon/io_worker.cpp, verify_worker.cpp): the threads.
    - [Tracker], [TrackerSpec] (daemon/tracker_server.cpp, tracker_acceptor.cpp,
      tracker_client.cpp): the tracker and its client.
    - [Transfer]: a request from one peer's scheduler to the other's file and
      back, composed of the parts above.
    - [TaskManager], [TaskStart], [TaskRun] (daemon/task_manager.cpp): the
      commands and the tick; what a started download satisfies; what it
      satisfies for the rest of its life.  [Discovery]: from an announce to the
      connections it leads to.  [Download]: a download from honest
      peers.  [Serving]: a task that seeds.  [Removal]: the destructors of a
      task among its running threads.
    - [Ipc], [Cli] (daemon/ipc_server.cpp, cli/): the commands on both ends of
      the local connection; [tbt make] and [tbt info].  [Requests]: what a
      request can change, and [send_ipc].  [Distribution]: a file from [tbt make]
      on one host to a complete download on another.
    - [Daemon] (daemon/main.cpp): options and heartbeat.  [System]: the whole
      program; [world_start] is what [main] sets up, [step] one handler of the
      event loop.

    ** How code becomes definitions

    A class is a record with the source's fields, a method a function that
    returns the new state.  Out-of-range accesses, writes outside a mapping and
    casts with undefined result are [None], so a theorem that an operation
    returns [Some] says that none of them happens; exceptions are [Err] or
    [Threw].  What a component does to others through callbacks is a log
    ([calls] of the scheduler, [events_] of a session) that its owner carries
    out when the operation returns.  Threads are interleaved: [step] in
    [ChunkAssembler] interleaves the memory operations of [on_piece] (memory
    sequentially consistent), [sys_step] in [JobPool] the sections under the
    mutex and the notifications; [Workers] takes one iteration of a thread as a
    step, and [step] in [System] one handler of the event loop or one step of a
    task's threads.  Clocks, random choices and results of system calls are arguments,
    [double] is IEEE binary64.  SHA-256, SHA-1, [inet_addr], name resolution and
    the JSON reader are parameters, with classes or hypotheses for what is
    documented about them; each such hypothesis is met by a concrete function
    in a witness.

    Most loops recurse on the data they walk through.  Where the source counts,
    the definition has fuel that is enough: the bits of a 32-bit value for
    [mask_bits_loop] ([FastCDC]), the length of the input for the loops of
    [Hash] (a round consumes at least one byte) and for the readers of [Json],
    the number of digits for [print_digits] ([Text]), the range of exponents of
    a double for [dec_exponent] ([Ipc]); [rebalance_loop] ([Scheduler]) has the
    bound of the source's own loop.

    ** What is proved

    - The daemon.  [System]: in every state the event loop can reach, with any
      tasks and in any order of events, whatever fits is handled without
      undefined behaviour, outputs of different tasks are different files, and
      a task that is listed as complete has the right file on disk.
      [Requests]: a request that is refused changes nothing, one that succeeds
      touches only its output.  [Removal]: when a task can be removed without a
      thread using what is gone.
    - From host to host.  [Distribution]: a file that [tbt make] made a seed of is
      served for ever, and a download served from there ends complete with its
      bytes.  [Discovery]: an announce leads to connections with exactly the
      live peers of the torrent.
    - Downloads.  [TaskRun]: from the state [add] or [update] leaves, through
      every interleaving of network, threads and ticks, the bytes counted as
      done are those of chunks whose content has the listed digest, and
      "complete" means the whole file is right; once all chunks are verified the
      next tick completes the download.  [Download]: if the peers send the
      right bytes the threads come to rest and the download completes, with the
      file.  [TaskStart]: [add] and [update] leave such a state, and a finished
      file is recognised.  [Serving]: what [seed] starts answers every request
      for ever with the bytes of the file.
    - Chunks.  [ChunkAssembler]: under every interleaving a chunk is reported
      complete at most once, with all bytes in place, and is reported if every
      sub-block arrives.  [SegmentIO]: pointers into the mapping show the right
      bytes.  [Workers]: verification passes exactly for the listed digest.
      [Transfer]: the sub-blocks a peer answers with complete the chunk.
    - Scheduling.  No vector is indexed out of range whatever peers send,
      counters agree with tables, requests are made once, from the best peer,
      within its cap, progress is made, a peer that leaves releases its
      requests.  [PeerManagerSpec]: the manager keeps the promises the scheduler
      relies on; choke rounds serve the computed number of peers.
    - Messages and files.  Framing recovers messages however the stream is cut,
      handshake, bitfield and peer exchange arrive as sent, the write queue is
      first in first out, overdue requests expire; a .tseed is read back as
      written and the reader accepts nothing else; chunks tile the file within
      their bounds; the file digest is the digest of the file.
    - Tracker, pools, commands.  The tracker refines a map and its text protocol
      is exact, the client gives up after a bounded number of attempts, the job
      pools do every job, commands reach the task manager unchanged, and
      [tbt make] writes a seed the daemon accepts, about exactly the file.
    - Platforms.  [Windows]: mapped files are released and behave as on Linux
      except for [preallocate]; the choice of an interface agrees; downloads are
      prepared as on Linux up to 64 MiB and refused beyond.
    - Where the code falls short a theorem shows it on the definitions, next to
      the component: for instance [TaskStart.update_in_place_corrupts],
      [TaskRun.resumed_chunk_counted_twice],
      [TrackerSpec.malformed_announce_throws],
      [Daemon.add_unresolved_ends_heartbeat], [System.one_task_per_daemon],
      [System.signals_stop_only_the_heartbeat], [Removal.removed_task_accepts],
      [ChunkAssembler.on_piece_bounds_check_wraps].

    ** Bounds and assumptions

    Files of at most 2^57 bytes: the number of segments is a 32-bit integer;
    [Distribution] has 2^51, so that there are not too many chunks.
    Less than 2^32 - 8 chunks: the bitfield is padded to whole bytes.  The host
    is little-endian; outside [Windows] the platform is Linux.

    ** Not modelled

    Sockets and the scheduling of asio (their completions are events), memory
    orders weaker than sequential consistency, hints to the system that do not
    change contents ([madvise], [PrefetchVirtualMemory]), logging and the banner,
    and the third-party libraries (asio, moodycamel, yyjson, OpenSSL),
    of which the documented behaviour is assumed. *)

From Stdlib Require Export ZArith Lia ZifyBool.
From coqutil Require Export Byte Word.LittleEndianList Datatypes.RecordSetters.
From stdpp Require Export base list strings relations sorting gmap.

Declare Scope thinbt_scope.
Delimit Scope thinbt_scope with thinbt.
#[global] Open Scope Z_scope.
#[global] Open Scope thinbt_scope.

(** A buffer ([std::vector<uint8_t>], [uint8_t*] with a length). *)
Abbreviation bytes := (list byte).

(** ** Unsigned machine integers: values are [Z], every arithmetic result of
    a fixed-width type is reduced explicitly. *)
Definition u8 (z : Z) : Z := z mod 2 ^ 8.
Definition u16 (z : Z) : Z := z mod 2 ^ 16.
Definition u32 (z : Z) : Z := z mod 2 ^ 32.
Definition u64 (z : Z) : Z := z mod 2 ^ 64.

Definition UINT32_MAX : Z := 2 ^ 32 - 1.

Definition is_u8 (z : Z) : Prop := 0 <= z < 2 ^ 8.
Definition is_u16 (z : Z) : Prop := 0 <= z < 2 ^ 16.
Definition is_u32 (z : Z) : Prop := 0 <= z < 2 ^ 32.
Definition is_u64 (z : Z) : Prop := 0 <= z < 2 ^ 64.

#[export] Instance byte_eq_dec : EqDecision byte := Byte.byte_eq_dec.

(** ** Arrays indexed by unsigned integers.  [zget] is [None] and [zset] is
    [None] out of range: the source's [operator[]] is undefined there. *)
Definition zlength {A} (l : list A) : Z := Z.of_nat (length l).

Definition in_range {A} (l : list A) (i : Z) : bool :=
  (0 <=? i) && (i <? zlength l).

Definition zget {A} (l : list A) (i : Z) : option A :=
  if in_range l i then l !! Z.to_nat i else None.

Definition zset {A} (l : list A) (i : Z) (x : A) : option (list A) :=
  if in_range l i then Some (<[Z.to_nat i := x]> l) else None.

(** The update that does nothing out of range, for code that guards it. *)
Definition zupd {A} (l : list A) (i : Z) (x : A) : list A :=
  if in_range l i then <[Z.to_nat i := x]> l else l.

(** [len] elements from [off]; shorter when the list ends before. *)
Definition zslice {A} (l : list A) (off len : Z) : list A :=
  take (Z.to_nat len) (drop (Z.to_nat off) l).

(** [memcpy(dst + off, src, |src|)] inside [dst]. *)
Definition blit {A} (dst : list A) (off : Z) (src : list A) : list A :=
  take (Z.to_nat off) dst ++ src ++ drop (Z.to_nat off + length src) dst.

(** [memcpy] into a buffer: out of the buffer's bounds it is undefined. *)
Definition memcpy_at {A} (dst : list A) (off : Z) (src : list A) : option (list A) :=
  if (0 <=? off) && (off + zlength src <=? zlength dst) then Some (blit dst off src) else None.

(** ** Errors: a computation returns a value or the error it throws. *)
Inductive result (E A : Type) : Type :=
| Ok (a : A)
| Err (e : E).
Arguments Ok {E A} a.
Arguments Err {E A} e.

Definition rbind {E A B} (m : result E A) (k : A -> result E B) : result E B :=
  match m with Ok a => k a | Err e => Err e end.

Notation "'let!' x ':=' m 'in' k" := (rbind m (fun x => k))
  (at level 10, x pattern, m at level 100, k at level 200)
  : thinbt_scope.

(** ** Lemmas on machine integers *)
(** Record updates [{ r with field := v }]: an update names the other fields
    by their projections, so that [cbn] leaves them folded.  [eta] rebuilds a
    record from its projections. *)
#[global] Arguments constant {E} newValue _ /.

Ltac set_field eta getter :=
  exact (fun f r => ltac:(
    let b := eval cbv beta delta [eta] in (eta r) in
    match b with
    | context C [getter r] => let b' := context C [f (getter r)] in exact b'
    end)).

Ltac unfold_ints :=
  unfold u8, u16, u32, u64, UINT32_MAX, is_u8, is_u16, is_u32, is_u64 in *.

(** Linear arithmetic over wrapped integers. *)
Ltac ulia := unfold_ints; Z.div_mod_to_equations; lia.

Lemma u8_range z : is_u8 (u8 z). Proof. apply Z.mod_pos_bound; lia. Qed.
Lemma u16_range z : is_u16 (u16 z). Proof. apply Z.mod_pos_bound; lia. Qed.
Lemma u32_range z : is_u32 (u32 z). Proof. apply Z.mod_pos_bound; lia. Qed.
Lemma u64_range z : is_u64 (u64 z). Proof. apply Z.mod_pos_bound; lia. Qed.

Lemma u8_small z : is_u8 z -> u8 z = z. Proof. apply Z.mod_small. Qed.
Lemma u16_small z : is_u16 z -> u16 z = z. Proof. apply Z.mod_small. Qed.
Lemma u32_small z : is_u32 z -> u32 z = z. Proof. apply Z.mod_small. Qed.
Lemma u64_small z : is_u64 z -> u64 z = z. Proof. apply Z.mod_small. Qed.

Create HintDb thinbt.
#[export] Hint Resolve u8_range u16_range u32_range u64_range : thinbt.

(** ** Lemmas on arrays *)
Section arrays.
Context {A : Type}.
Implicit Types (l k dst src : list A) (i j off len : Z) (x y : A).

Lemma in_range_iff l i : in_range l i = true <-> 0 <= i < zlength l.
Proof. unfold in_range. lia. Qed.

Lemma zlength_nonneg l : 0 <= zlength l.
Proof. unfold zlength. lia. Qed.

Lemma zlength_app l k : zlength (l ++ k) = zlength l + zlength k.
Proof. unfold zlength. rewrite length_app. lia. Qed.

Lemma zlength_insert l (n : nat) x : zlength (<[n := x]> l) = zlength l.
Proof. unfold zlength. by rewrite length_insert. Qed.

Lemma zget_Some l i x :
  zget l i = Some x <-> 0 <= i /\ l !! Z.to_nat i = Some x.
Proof.
  unfold zget. destruct (in_range l i) eqn:E; unfold in_range, zlength in E.
  - split; [intros; split; [lia | done] | by intros [_ ?]].
  - split; [done | intros [Hi Hx]]. apply lookup_lt_Some in Hx. lia.
Qed.

Lemma zget_is_Some l i : is_Some (zget l i) <-> 0 <= i < zlength l.
Proof.
  split.
  - intros [x [Hi Hx]%zget_Some]. apply lookup_lt_Some in Hx.
    unfold zlength. lia.
  - intros Hi. unfold zget. rewrite (proj2 (in_range_iff l i) Hi).
    apply lookup_lt_is_Some. unfold zlength in Hi. lia.
Qed.

Lemma zget_range l i x : zget l i = Some x -> 0 <= i < zlength l.
Proof. intros H. apply zget_is_Some. eauto. Qed.

Lemma zget_of_nat l (n : nat) : zget l (Z.of_nat n) = l !! n.
Proof.
  unfold zget, in_range, zlength. rewrite Nat2Z.id.
  destruct (decide (n < length l)%nat).
  - replace (_ && _) with true by lia. done.
  - replace (_ && _) with false by lia.
    symmetry. apply lookup_ge_None. lia.
Qed.

Lemma zset_is_Some l i x : is_Some (zset l i x) <-> 0 <= i < zlength l.
Proof.
  unfold zset. rewrite <- in_range_iff.
  destruct (in_range l i); naive_solver.
Qed.

Lemma zset_zupd l i x : 0 <= i < zlength l -> zset l i x = Some (zupd l i x).
Proof. intros H%in_range_iff. unfold zset, zupd. by rewrite H. Qed.

Lemma zlength_zupd l i x : zlength (zupd l i x) = zlength l.
Proof. unfold zupd. destruct (in_range l i); [apply zlength_insert | done]. Qed.

Lemma length_zupd l i x : length (zupd l i x) = length l.
Proof. pose proof (zlength_zupd l i x). unfold zlength in *. lia. Qed.

Lemma zget_zupd_eq l i x : 0 <= i < zlength l -> zget (zupd l i x) i = Some x.
Proof.
  intros H. apply zget_Some. split; [lia|].
  unfold zupd. rewrite (proj2 (in_range_iff l i) H).
  apply list_lookup_insert_eq. unfold zlength in H. lia.
Qed.

Lemma zget_zupd_ne l i j x : i <> j -> zget (zupd l i x) j = zget l j.
Proof.
  intros Hne. unfold zget, in_range. rewrite zlength_zupd.
  destruct ((0 <=? j) && (j <? zlength l)) eqn:E; [|done].
  unfold zupd. destruct (in_range l i) eqn:E'; [|done].
  apply list_lookup_insert_ne. unfold in_range in E'. lia.
Qed.

Lemma zget_zupd l i j x :
  zget (zupd l i x) j = if (i =? j) && in_range l i then Some x else zget l j.
Proof.
  destruct (Z.eqb_spec i j) as [->|]; simpl; [|by apply zget_zupd_ne].
  destruct (in_range l j) eqn:E.
  - apply zget_zupd_eq. by apply in_range_iff.
  - unfold zupd. by rewrite E.
Qed.

Lemma zget_app_l l k i : i < zlength l -> zget (l ++ k) i = zget l i.
Proof.
  intros Hi. unfold zget, in_range. rewrite zlength_app.
  pose proof (zlength_nonneg k).
  destruct (0 <=? i) eqn:E; simpl; [|done].
  replace (i <? zlength l + zlength k) with true by lia.
  replace (i <? zlength l) with true by lia.
  apply lookup_app_l. unfold zlength in Hi. lia.
Qed.

Lemma zget_replicate (n : nat) x i :
  zget (replicate n x) i = if (0 <=? i) && (i <? Z.of_nat n) then Some x else None.
Proof.
  unfold zget, in_range, zlength. rewrite length_replicate.
  destruct ((0 <=? i) && (i <? Z.of_nat n)) eqn:E; [|done].
  apply lookup_replicate_2. lia.
Qed.

Lemma length_zslice l off len :
  0 <= off -> 0 <= len -> off + len <= zlength l ->
  zlength (zslice l off len) = len.
Proof.
  unfold zslice, zlength. intros. rewrite length_take, length_drop. lia.
Qed.

Lemma zlength_zslice l off len :
  0 <= off <= zlength l -> 0 <= len -> zlength (zslice l off len) = Z.min len (zlength l - off).
Proof. intros. unfold zslice, zlength in *. rewrite length_take, length_drop. lia. Qed.

(** A slice of a slice. *)
Lemma zslice_zslice l off len o n :
  0 <= off -> 0 <= o -> 0 <= n -> o + n <= len -> zslice (zslice l off len) o n = zslice l (off + o) n.
Proof.
  intros. unfold zslice.
  rewrite Z2Nat.inj_add by lia. rewrite <- drop_drop.
  rewrite skipn_firstn_comm, take_take. f_equal. lia.
Qed.

(** Nothing follows the end. *)
Lemma zslice_to_end l off n m :
  0 <= off -> 0 <= n -> 0 <= m -> zlength l <= off + n -> zlength l <= off + m ->
  zslice l off n = zslice l off m.
Proof.
  intros. unfold zslice. rewrite !take_ge; [done|rewrite length_drop; unfold zlength in *; lia..].
Qed.

Lemma zslice_app_split l off len1 len2 :
  0 <= off -> 0 <= len1 -> 0 <= len2 ->
  zslice l off (len1 + len2) = zslice l off len1 ++ zslice l (off + len1) len2.
Proof.
  intros. unfold zslice.
  rewrite !Z2Nat.inj_add by lia.
  rewrite <- drop_drop. generalize (drop (Z.to_nat off) l) as m. intros m.
  rewrite <- (take_drop (Z.to_nat len1) m) at 1.
  rewrite take_app. f_equal.
  - rewrite take_take. f_equal. lia.
  - rewrite length_take.
    destruct (decide (Z.to_nat len1 <= length m)%nat).
    + f_equal. lia.
    + rewrite !(drop_ge m) by lia. by rewrite !take_nil.
Qed.

Lemma zslice_0_all l : zslice l 0 (zlength l) = l.
Proof. unfold zslice, zlength. rewrite Nat2Z.id. apply take_ge. simpl. lia. Qed.

Lemma length_blit dst off src :
  0 <= off -> off + zlength src <= zlength dst ->
  length (blit dst off src) = length dst.
Proof.
  unfold blit, zlength. intros. rewrite !length_app, length_take, length_drop. lia.
Qed.

Lemma lookup_blit_inside dst off src (n : nat) :
  0 <= off -> off + zlength src <= zlength dst -> (n < length src)%nat ->
  blit dst off src !! (Z.to_nat off + n)%nat = src !! n.
Proof.
  unfold blit, zlength. intros.
  rewrite lookup_app_r by (rewrite length_take; lia).
  rewrite length_take.
  rewrite lookup_app_l by lia. f_equal. lia.
Qed.

Lemma lookup_blit_outside dst off src (n : nat) :
  0 <= off -> off + zlength src <= zlength dst ->
  (n < Z.to_nat off \/ Z.to_nat off + length src <= n)%nat ->
  blit dst off src !! n = dst !! n.
Proof.
  unfold blit, zlength. intros ? ? [Hn|Hn].
  - rewrite lookup_app_l by (rewrite length_take; lia).
    by apply lookup_take_lt.
  - rewrite lookup_app_r by (rewrite length_take; lia).
    rewrite length_take, lookup_app_r by lia.
    rewrite lookup_drop. f_equal. lia.
Qed.

Lemma zslice_blit dst off src :
  0 <= off -> off + zlength src <= zlength dst ->
  zslice (blit dst off src) off (zlength src) = src.
Proof.
  intros Ho Hl. unfold zslice, blit, zlength in *.
  rewrite drop_app_length' by (rewrite length_take; lia). by rewrite take_app_length' by lia.
Qed.

(** Slices are determined by their elements. *)
Lemma zslice_ext l k off len :
  0 <= off -> (forall i, off <= i < off + len -> zget l i = zget k i) ->
  zslice l off len = zslice k off len.
Proof.
  intros Ho Hk. unfold zslice. apply list_eq. intros i.
  destruct (decide (i < Z.to_nat len)%nat).
  - rewrite !lookup_take_lt, !lookup_drop by lia.
    specialize (Hk (Z.of_nat (Z.to_nat off + i))). rewrite !zget_of_nat in Hk. apply Hk. lia.
  - rewrite !lookup_take_ge by lia. done.
Qed.

(** Writing what is there changes nothing. *)
Lemma blit_same l off len :
  0 <= off -> 0 <= len -> off + len <= zlength l -> blit l off (zslice l off len) = l.
Proof.
  intros. unfold blit, zslice, zlength in *. rewrite length_take, length_drop.
  replace (_ `min` _)%nat with (Z.to_nat len) by lia.
  rewrite <-drop_drop, take_drop. apply take_drop.
Qed.

Lemma zget_zslice l off len i :
  0 <= off -> off + len <= zlength l -> 0 <= i < len -> zget (zslice l off len) i = zget l (off + i).
Proof.
  intros Ho Hl Hi. replace i with (Z.of_nat (Z.to_nat i)) at 1 by lia.
  replace (off + i) with (Z.of_nat (Z.to_nat off + Z.to_nat i)) by lia. rewrite !zget_of_nat.
  unfold zslice. by rewrite lookup_take_lt, lookup_drop by lia.
Qed.

(** A copy of a part of [src] to the same place of [dst]. *)
Lemma zget_blit_same dst src off len i :
  0 <= off -> 0 <= len -> off + len <= zlength dst -> off + len <= zlength src ->
  zget (blit dst off (zslice src off len)) i =
  if (off <=? i) && (i <? off + len) then zget src i else zget dst i.
Proof.
  intros Ho Hl Hd Hs. pose proof (length_zslice src off len Ho Hl Hs) as Hz.
  destruct (Z.ltb_spec i 0) as [|Hi].
  { replace (_ && _) with false by lia. unfold zget, in_range. by replace (0 <=? i) with false by lia. }
  replace i with (Z.of_nat (Z.to_nat i)) at 1 5 by lia. rewrite !zget_of_nat.
  destruct (_ && _) eqn:E.
  - replace (Z.to_nat i) with (Z.to_nat off + Z.to_nat (i - off))%nat by lia.
    rewrite lookup_blit_inside by (unfold zlength in *; lia). rewrite <-zget_of_nat.
    rewrite zget_zslice by lia. f_equal. lia.
  - apply lookup_blit_outside; unfold zlength in *; lia.
Qed.

Lemma memcpy_at_Some dst off src :
  0 <= off -> off + zlength src <= zlength dst ->
  memcpy_at dst off src = Some (blit dst off src).
Proof. intros. unfold memcpy_at. by replace (_ && _) with true by lia. Qed.

(** Filling a zeroed buffer from left to right. *)
Lemma blit_fill src1 src2 (n : nat) x off :
  off = zlength src1 ->
  blit (src1 ++ replicate (length src2 + n) x) off src2 = (src1 ++ src2) ++ replicate n x.
Proof.
  intros ->. unfold blit, zlength. rewrite Nat2Z.id.
  rewrite take_app_length, <- app_assoc. do 2 f_equal.
  rewrite drop_app_add. rewrite drop_replicate. f_equal. lia.
Qed.

Lemma zset_fill src (m n : nat) x y off :
  off = zlength src -> m = S n ->
  zset (src ++ replicate m x) off y = Some ((src ++ [y]) ++ replicate n x).
Proof.
  intros -> ->. unfold zset, in_range. rewrite zlength_app.
  unfold zlength. rewrite length_replicate, Nat2Z.id.
  replace (_ && _) with true by lia.
  rewrite insert_app_r_alt, Nat.sub_diag by lia. simpl. by rewrite <- app_assoc.
Qed.

Lemma memcpy_at_fill src1 src2 (m n : nat) x off :
  off = zlength src1 -> m = (length src2 + n)%nat ->
  memcpy_at (src1 ++ replicate m x) off src2 = Some ((src1 ++ src2) ++ replicate n x).
Proof.
  intros -> ->. rewrite memcpy_at_Some.
  - by rewrite blit_fill.
  - apply zlength_nonneg.
  - rewrite zlength_app. unfold zlength. rewrite length_replicate. lia.
Qed.

(** The same at the front of the buffer. *)
Lemma zset_fill_front (m n : nat) x y :
  m = S n -> zset (replicate m x) 0 y = Some ([y] ++ replicate n x).
Proof. intros H. by rewrite <- (app_nil_l (replicate m x)), (zset_fill [] m n). Qed.

Lemma memcpy_at_fill_front src (m n : nat) x :
  m = (length src + n)%nat ->
  memcpy_at (replicate m x) 0 src = Some (src ++ replicate n x).
Proof. intros H. by rewrite <- (app_nil_l (replicate m x)), (memcpy_at_fill [] src m n). Qed.
End arrays.

(** ** Counting set flags ([std::count(b, e, true)]) *)
Fixpoint count_true (l : list bool) : Z :=
  match l with
  | [] => 0
  | b :: r => (if b then 1 else 0) + count_true r
  end.

Lemma count_true_bounds l : 0 <= count_true l <= zlength l.
Proof. unfold zlength. induction l as [|[] l IH]; simpl in *; lia. Qed.

Lemma count_true_replicate_false n : count_true (replicate n false) = 0.
Proof. induction n; simpl; lia. Qed.

Lemma count_true_replicate_true n : count_true (replicate n true) = Z.of_nat n.
Proof. induction n; simpl count_true; lia. Qed.

Lemma count_true_insert (l : list bool) (n : nat) (old new : bool) :
  l !! n = Some old ->
  count_true (<[n := new]> l) =
  count_true l - (if old then 1 else 0) + (if new then 1 else 0).
Proof.
  revert n. induction l as [|b l IH]; intros [|n] H; simpl in *; try done.
  - simplify_eq. lia.
  - rewrite (IH _ H). lia.
Qed.

Lemma count_true_zupd (l : list bool) (i : Z) (old new : bool) :
  zget l i = Some old ->
  count_true (zupd l i new) =
  count_true l - (if old then 1 else 0) + (if new then 1 else 0).
Proof.
  intros H. pose proof (zget_range _ _ _ H) as Hr%in_range_iff.
  apply zget_Some in H as [_ H]. unfold zupd. rewrite Hr.
  by apply count_true_insert.
Qed.

Lemma count_true_full l : count_true l = zlength l -> Forall (eq true) l.
Proof.
  unfold zlength. induction l as [|b l IH]; intros H; [constructor|].
  pose proof (count_true_bounds l) as Hb. unfold zlength in Hb.
  destruct b; simpl in H; [|lia]. constructor; [done|]. apply IH. lia.
Qed.
