(* ===== verification/Text.v ===== *)
(** * Text

    What the text protocols of the daemon use of [std::string] and of the C
    library: search, decimal numbers, [strtol], [strtoull] and [std::stoull].
    A string is the list of its characters. *)

From Stdlib Require Import Ascii.
From S2P Require Import Prelude.

Abbreviation text := (list ascii).

Definition quote : ascii := Ascii.ascii_of_nat 34.
Definition newline : ascii := Ascii.ascii_of_nat 10.
Definition backslash : ascii := Ascii.ascii_of_nat 92.

Definition txt (s : string) : text := String.list_ascii_of_string s.

(** A literal in which the apostrophe stands for the double quote. *)
Definition js (s : string) : text :=
  (fun c => if decide (c = "'"%char) then quote else c) <$> txt s.

(** ** Search *)
Fixpoint is_prefix (pat s : text) : bool :=
  match pat, s with
  | [], _ => true
  | p :: pat, c :: s => bool_decide (p = c) && is_prefix pat s
  | _ :: _, [] => false
  end.

(** The position of the first occurrence. *)
Fixpoint find (pat s : text) : option nat :=
  if is_prefix pat s then Some 0%nat
  else match s with [] => None | _ :: s => S <$> find pat s end.

(** [s.find(pat, pos)]. *)
Definition find_from (pat s : text) (pos : nat) : option nat :=
  if decide (pos <= length s)%nat then Nat.add pos <$> find pat (drop pos s) else None.

(** [s.rfind(c)]. *)
Fixpoint rfind (c : ascii) (s : text) : option nat :=
  match s with
  | [] => None
  | x :: s =>
    match rfind c s with
    | Some i => Some (S i)
    | None => if decide (x = c) then Some 0%nat else None
    end
  end.

(** [s.substr(pos, n)] for [pos <= s.size()]. *)
Definition substr (s : text) (pos n : nat) : text := take n (drop pos s).

(** ** Decimal numbers *)
Definition digit (n : Z) : ascii := Ascii.ascii_of_nat (Z.to_nat (48 + n)).

Fixpoint print_digits (fuel : nat) (n : Z) : text :=
  match fuel with
  | O => []
  | S fuel =>
    if n <? 10 then [digit n] else print_digits fuel (n / 10) ++ [digit (n mod 10)]
  end.

(** [os << n] and [std::to_string(n)] for an unsigned [n]. *)
Definition print_dec (n : Z) : text := print_digits (S (Z.to_nat (Z.log2 n))) n.

Definition is_digit (c : ascii) : bool :=
  (48 <=? Ascii.nat_of_ascii c)%nat && (Ascii.nat_of_ascii c <=? 57)%nat.

Definition digit_val (c : ascii) : Z := Z.of_nat (Ascii.nat_of_ascii c) - 48.

(** [isspace] in the C locale. *)
Definition is_space (c : ascii) : bool :=
  (Ascii.nat_of_ascii c =? 32)%nat ||
  ((9 <=? Ascii.nat_of_ascii c)%nat && (Ascii.nat_of_ascii c <=? 13)%nat).

Fixpoint read_digits (acc : Z) (s : text) : Z * text :=
  match s with
  | c :: s' => if is_digit c then read_digits (10 * acc + digit_val c) s' else (acc, s)
  | [] => (acc, [])
  end.

Fixpoint skip_space (s : text) : text :=
  match s with
  | c :: s' => if is_space c then skip_space s' else s
  | [] => []
  end.

(** The subject sequence of [strtol] and [strtoull] in base 10: the sign, the
    magnitude and the rest; nothing if there are no digits. *)
Definition read_number (s : text) : option (bool * Z * text) :=
  let s := skip_space s in
  let '(neg, s) := match s with
                   | c :: s' => if decide (c = "-"%char) then (true, s')
                                else if decide (c = "+"%char) then (false, s') else (false, s)
                   | [] => (false, [])
                   end in
  match s with
  | c :: _ => if is_digit c then let '(v, rest) := read_digits 0 s in Some (neg, v, rest) else None
  | [] => None
  end.

Definition LONG_MAX : Z := 2 ^ 63 - 1.

(** [strtol(s, &end, 10)]; nothing when [end == s]. *)
Definition strtol (s : text) : option (Z * text) :=
  '(neg, v, rest) ← read_number s;
  Some (Z.max (- LONG_MAX - 1) (Z.min LONG_MAX (if neg : bool then - v else v)), rest).

Inductive stoull_error := InvalidArgument | OutOfRange.

(** [std::stoull(s)]: a minus sign negates modulo 2^64. *)
Definition stoull (s : text) : result stoull_error Z :=
  match read_number s with
  | None => Err InvalidArgument
  | Some (neg, v, _) =>
    if 2 ^ 64 <=? v then Err OutOfRange else Ok (if neg : bool then u64 (- v) else v)
  end.

(** ** Printing and reading numbers *)
Definition no_digit (s : text) : Prop := match s with c :: _ => is_digit c = false | [] => True end.

Definition digits_val (acc : Z) (ds : text) : Z := foldl (fun a c => 10 * a + digit_val c) acc ds.

Lemma digit_facts n : 0 <= n < 10 -> is_digit (digit n) = true /\ digit_val (digit n) = n.
Proof.
  intros H. unfold is_digit, digit_val, digit.
  rewrite Ascii.nat_ascii_embedding by lia. split; [|lia].
  rewrite andb_true_iff, !Nat.leb_le. lia.
Qed.

Lemma print_digits_spec fuel n :
  0 <= n -> (Z.to_nat (Z.log2 n) < fuel)%nat ->
  Forall (fun c => is_digit c = true) (print_digits fuel n) /\
  digits_val 0 (print_digits fuel n) = n /\ print_digits fuel n <> [].
Proof.
  revert n. induction fuel as [|fuel IH]; intros n Hn Hf; [lia|]. cbn [print_digits].
  destruct (Z.ltb_spec n 10) as [Hs|Hs].
  { destruct (digit_facts n) as [H1 H2]; [lia|].
    split; [by constructor|]. split; [|done]. unfold digits_val. cbn [foldl]. rewrite H2. lia. }
  destruct (IH (n / 10)) as (H1 & H2 & _); [by apply Z.div_pos|..].
  { assert (Z.log2 (n / 10) < Z.log2 n); [|pose proof (Z.log2_nonneg (n / 10)); lia].
    apply Z.lt_le_trans with (Z.log2 (2 * (n / 10))).
    - rewrite Z.log2_double; [lia|]. Z.div_mod_to_equations; lia.
    - apply Z.log2_le_mono. Z.div_mod_to_equations; lia. }
  destruct (digit_facts (n mod 10)) as [H3 H4]; [by apply Z.mod_pos_bound|].
  split; [apply Forall_app; by auto|]. split; [|by destruct (print_digits _ _)].
  unfold digits_val in *. rewrite foldl_app, H2. cbn [foldl]. rewrite H4.
  Z.div_mod_to_equations; lia.
Qed.

Lemma print_dec_spec n :
  0 <= n -> Forall (fun c => is_digit c = true) (print_dec n) /\
            digits_val 0 (print_dec n) = n /\ print_dec n <> [].
Proof. intros H. apply print_digits_spec; [done|lia]. Qed.

Lemma read_digits_app ds s acc :
  Forall (fun c => is_digit c = true) ds -> no_digit s ->
  read_digits acc (ds ++ s) = (digits_val acc ds, s).
Proof.
  intros Hd Hs. revert acc. induction Hd as [|c ds Hc _ IH]; intros acc; cbn [app read_digits].
  - destruct s as [|c s]; [done|]. cbn [read_digits]. by rewrite Hs.
  - rewrite Hc, IH. done.
Qed.

Lemma read_digits_print n s : 0 <= n -> no_digit s -> read_digits 0 (print_dec n ++ s) = (n, s).
Proof.
  intros Hn Hs. destruct (print_dec_spec n Hn) as (Hd & Hv & _).
  by rewrite read_digits_app, Hv.
Qed.

Lemma digit_not_space c : is_digit c = true -> is_space c = false.
Proof.
  unfold is_digit, is_space. rewrite andb_true_iff, !Nat.leb_le.
  intros [H1 H2]. rewrite orb_false_iff, andb_false_iff, Nat.eqb_neq, !Nat.leb_gt. lia.
Qed.

Lemma digit_ne c d : is_digit c = true -> is_digit d = false -> c <> d.
Proof. congruence. Qed.

Lemma read_number_print n s :
  0 <= n -> no_digit s -> read_number (print_dec n ++ s) = Some (false, n, s).
Proof.
  intros Hn Hs. pose proof (read_digits_print n s Hn Hs) as Hr.
  destruct (print_dec_spec n Hn) as (Hd & _ & Hne).
  unfold read_number. destruct (print_dec n) as [|c ds]; [done|].
  apply Forall_cons in Hd as [Hc _]. cbn [app skip_space] in *.
  rewrite (digit_not_space _ Hc). rewrite !decide_False by (by intros ->).
  rewrite Hc, Hr. done.
Qed.

Lemma stoull_print n s : is_u64 n -> no_digit s -> stoull (print_dec n ++ s) = Ok n.
Proof.
  intros Hn Hs. unfold stoull. rewrite read_number_print; [|unfold is_u64 in Hn; lia|done].
  unfold is_u64 in Hn. by replace (2 ^ 64 <=? n) with false by lia.
Qed.

Lemma strtol_print n s : 0 <= n <= LONG_MAX -> no_digit s -> strtol (print_dec n ++ s) = Some (n, s).
Proof.
  intros Hn Hs. unfold strtol. rewrite read_number_print by (done || lia). cbn [mbind option_bind].
  do 2 f_equal. lia.
Qed.

(** ** Search *)
Lemma find_skip c pat a s :
  c ∉ a -> find (c :: pat) (a ++ s) = Nat.add (length a) <$> find (c :: pat) s.
Proof.
  induction a as [|x a IH]; intros Hc; cbn [app].
  - by destruct (find (c :: pat) s).
  - apply not_elem_of_cons in Hc as [Hx Hc]. cbn [find is_prefix].
    rewrite bool_decide_false by done. cbn [andb]. rewrite (IH Hc).
    by destruct (find (c :: pat) s).
Qed.

Lemma find_char c a s : c ∉ a -> find [c] (a ++ c :: s) = Some (length a).
Proof.
  intros Hc. rewrite (find_skip c [] a _ Hc). cbn [find is_prefix].
  rewrite bool_decide_true by done. cbn. f_equal. lia.
Qed.

Lemma is_prefix_app a b s : is_prefix (a ++ b) (a ++ s) = is_prefix b s.
Proof.
  induction a as [|x a IH]; [done|]. cbn [app is_prefix]. by rewrite bool_decide_true, IH.
Qed.

(** A quoted word is found at a quoted value only where they are equal. *)
Lemma is_prefix_quoted k t x y :
  quote ∉ k -> quote ∉ x ->
  is_prefix (k ++ quote :: t) (x ++ quote :: y) = bool_decide (k = x) && is_prefix t y.
Proof.
  revert x. induction k as [|a k IH]; intros x Hk Hx; destruct x as [|b x]; cbn [app is_prefix].
  - by rewrite !bool_decide_true.
  - apply not_elem_of_cons in Hx as [Hb _]. by rewrite !(bool_decide_false (_ = _)).
  - apply not_elem_of_cons in Hk as [Ha _]. by rewrite !(bool_decide_false (_ = _)).
  - apply not_elem_of_cons in Hk as [_ Hk]. apply not_elem_of_cons in Hx as [_ Hx].
    rewrite IH by done. destruct (decide (a = b)) as [->|Hab].
    + rewrite bool_decide_true by done. cbn [andb]. f_equal.
      apply bool_decide_ext. naive_solver.
    + by rewrite (bool_decide_false (a = b)), (bool_decide_false (a :: k = b :: x)) by congruence.
Qed.

(** ** Texts cut at their quotes *)
Definition unquoted (s : text) : Prop := quote ∉ s.

Fixpoint pieces (l : list text) : text :=
  match l with
  | [] => []
  | [w] => w
  | w :: l => w ++ quote :: pieces l
  end.

(** The quoted word [k] followed by [t] is not found before [rest]. *)
Fixpoint no_match (k t : text) (pre rest : list text) : Prop :=
  match pre with
  | [] => True
  | w :: pre => (k = w -> is_prefix t (pieces (pre ++ rest)) = false) /\ no_match k t pre rest
  end.

Lemma pieces_cons w l : l <> [] -> pieces (w :: l) = w ++ quote :: pieces l.
Proof. by destruct l. Qed.

Lemma find_at_quote k t pre post :
  unquoted k -> Forall unquoted pre -> no_match k t pre (k :: post) -> post <> [] ->
  is_prefix t (pieces post) = true ->
  find (quote :: k ++ quote :: t) (quote :: pieces (pre ++ k :: post)) =
    Some (length (concat (cons quote <$> pre))) /\
  quote :: pieces (pre ++ k :: post) =
    concat (cons quote <$> pre) ++ (quote :: k ++ [quote]) ++ pieces post.
Proof.
  intros Hk Hpre Hnm Hpost Ht. induction Hpre as [|w pre Hw _ IH]; cbn [app fmap list_fmap concat].
  - rewrite pieces_cons by done. split; [|by cbn; rewrite <-app_assoc].
    cbn [find is_prefix]. rewrite is_prefix_quoted by done. by rewrite !bool_decide_true, Ht by done.
  - cbn [no_match] in Hnm. destruct Hnm as [Hm Hnm]. destruct (IH Hnm) as [IH1 IH2].
    rewrite pieces_cons by (by destruct pre). split; [|rewrite IH2; cbn; rewrite <-?app_assoc; reflexivity].
    assert (is_prefix (quote :: k ++ quote :: t) (quote :: w ++ quote :: pieces (pre ++ k :: post)) = false)
      as Hf.
    { cbn [is_prefix]. rewrite is_prefix_quoted by done. rewrite bool_decide_true by done. cbn [andb].
      destruct (decide (k = w)) as [Hkw|Hkw].
      - by rewrite (Hm Hkw), andb_false_r.
      - by rewrite bool_decide_false. }
    cbn [find]. rewrite Hf.
    change (quote :: k ++ quote :: t) with (quote :: (k ++ quote :: t)).
    rewrite find_skip by done. rewrite IH1. cbn. rewrite length_app. done.
Qed.

Lemma find_quoted_word k t w0 pre post :
  unquoted k -> unquoted w0 -> Forall unquoted pre -> no_match k t pre (k :: post) -> post <> [] ->
  is_prefix t (pieces post) = true ->
  let a := w0 ++ concat (cons quote <$> pre) in
  pieces (w0 :: pre ++ k :: post) = a ++ (quote :: k ++ [quote]) ++ pieces post /\
  find (quote :: k ++ quote :: t) (pieces (w0 :: pre ++ k :: post)) = Some (length a).
Proof.
  intros Hk H0 Hpre Hnm Hpost Ht. cbv zeta. rewrite pieces_cons by (by destruct pre).
  destruct (find_at_quote k t pre post Hk Hpre Hnm Hpost Ht) as [H1 H2].
  split; [by rewrite H2, <-app_assoc|].
  rewrite find_skip by done. rewrite H1. cbn. by rewrite length_app.
Qed.
