(* ===== verification/Clock.v ===== *)
(** * Time stamps (iso8601_now of src/src/daemon/task_manager.cpp)

    [std::gmtime] as the Gregorian calendar: 400 years have the same number of
    days wherever they begin, so the year is found among the 400 from 1970 on,
    the month among twelve.  The theorem says that the fields that are printed
    are a valid date and time, and that counting them gives the seconds since
    the epoch again. *)

From Stdlib Require Import Ascii.
From S2P Require Import Prelude Text.

(** [struct tm], with the full year and the month from 1. *)
Record tm := {
  tm_year : Z; tm_mon : Z; tm_mday : Z; tm_hour : Z; tm_min : Z; tm_sec : Z;
}.

Definition is_leap (y : Z) : bool := (y mod 4 =? 0) && (negb (y mod 100 =? 0) || (y mod 400 =? 0)).
Definition year_days (y : Z) : Z := if is_leap y then 366 else 365.
Definition month_days (y : Z) : list Z := [31; if is_leap y then 29 else 28; 31; 30; 31; 30; 31; 31; 30; 31; 30; 31].

(** The period that day [d] is in, and the day in it. *)
Fixpoint locate (lens : list Z) (d : Z) : Z * Z :=
  match lens with
  | [] => (0, d)
  | l :: lens => if d <? l then (0, d) else let '(k, r) := locate lens (d - l) in (k + 1, r)
  end.

Definition cycle : list Z := (fun i => year_days (1970 + i)) <$> seqZ 0 400.
Definition CYCLE_DAYS : Z := 146097.

Definition gmtime (t : Z) : tm :=
  let days := t / 86400 in
  let s := t mod 86400 in
  let '(yi, yd) := locate cycle (days mod CYCLE_DAYS) in
  let y := 1970 + 400 * (days / CYCLE_DAYS) + yi in
  let '(mi, md) := locate (month_days y) yd in
  {| tm_year := y; tm_mon := mi + 1; tm_mday := md + 1; tm_hour := s / 3600; tm_min := s / 60 mod 60;
     tm_sec := s mod 60 |}.

Definition two_digits (n : Z) : text := [digit (n / 10); digit (n mod 10)].

(** [put_time] with "%Y-%m-%dT%H:%M:%SZ"; [now] is in nanoseconds. *)
Definition iso8601_now (now : Z) : text :=
  let t := gmtime (now / 10 ^ 9) in
  print_dec (tm_year t) ++ txt "-" ++ two_digits (tm_mon t) ++ txt "-" ++ two_digits (tm_mday t) ++ txt "T" ++
  two_digits (tm_hour t) ++ txt ":" ++ two_digits (tm_min t) ++ txt ":" ++ two_digits (tm_sec t) ++ txt "Z".

(** ** The calendar *)
Fixpoint total (lens : list Z) : Z := match lens with [] => 0 | l :: lens => l + total lens end.

(** The days from 1970 to the beginning of year [y], and from there to the
    beginning of the month. *)
Definition days_before_year (y : Z) : Z := total (year_days <$> seqZ 1970 (y - 1970)).
Definition days_before_month (y m : Z) : Z := total (take (Z.to_nat (m - 1)) (month_days y)).

Definition seconds (t : tm) : Z :=
  (days_before_year (tm_year t) + days_before_month (tm_year t) (tm_mon t) + tm_mday t - 1) * 86400 +
  tm_hour t * 3600 + tm_min t * 60 + tm_sec t.

Definition valid_tm (t : tm) : Prop :=
  1970 <= tm_year t /\ 1 <= tm_mon t <= 12 /\
  (exists n, month_days (tm_year t) !! Z.to_nat (tm_mon t - 1) = Some n /\ 1 <= tm_mday t <= n) /\
  0 <= tm_hour t < 24 /\ 0 <= tm_min t < 60 /\ 0 <= tm_sec t < 60.

Lemma total_app a b : total (a ++ b) = total a + total b.
Proof. induction a as [|x a IH]; cbn; lia. Qed.

Lemma locate_spec lens : forall d k r,
  0 <= d < total lens -> locate lens d = (k, r) ->
  0 <= k < zlength lens /\ d = total (take (Z.to_nat k) lens) + r /\
  exists n, lens !! Z.to_nat k = Some n /\ 0 <= r < n.
Proof.
  induction lens as [|l lens IH]; intros d k r Hd; cbn [locate total] in *; [lia|].
  assert (zlength (l :: lens) = 1 + zlength lens) as -> by (unfold zlength; simpl; lia).
  pose proof (zlength_nonneg lens). destruct (Z.ltb_spec d l) as [Hl|Hl].
  - intros [= <- <-]. split; [lia|]. split; [done|]. exists l. split; [done|lia].
  - destruct (locate lens (d - l)) as [k' r'] eqn:E. intros [= <- <-].
    destruct (IH (d - l) k' r' ltac:(lia) E) as (Hk & He & n & Hn & Hr).
    replace (Z.to_nat (k' + 1)) with (S (Z.to_nat k')) by lia. cbn [take total lookup list_lookup].
    split; [lia|]. split; [lia|]. by exists n.
Qed.

Lemma is_leap_period y k : is_leap (y + 400 * k) = is_leap y.
Proof.
  unfold is_leap. replace ((y + 400 * k) mod 4) with (y mod 4) by (Z.div_mod_to_equations; lia).
  replace ((y + 400 * k) mod 100) with (y mod 100) by (Z.div_mod_to_equations; lia).
  by replace ((y + 400 * k) mod 400) with (y mod 400) by (Z.div_mod_to_equations; lia).
Qed.

Lemma year_days_period y k : year_days (y + 400 * k) = year_days y.
Proof. unfold year_days. by rewrite is_leap_period. Qed.

Lemma total_cycle : total cycle = CYCLE_DAYS.
Proof. vm_compute. reflexivity. Qed.

Lemma total_months y : total (month_days y) = year_days y.
Proof. unfold month_days, year_days. by destruct (is_leap y). Qed.

(** The years of a cycle have the lengths of those of the first. *)
Lemma later_years k i :
  0 <= i <= 400 -> year_days <$> seqZ (1970 + 400 * k) i = take (Z.to_nat i) cycle.
Proof.
  intros Hi. unfold cycle. rewrite <- fmap_take.
  replace (take (Z.to_nat i) (seqZ 0 400)) with (seqZ 0 i).
  - rewrite <- (Z.add_0_r (1970 + 400 * k)), <- fmap_add_seqZ, <- list_fmap_compose.
    apply list_fmap_ext. intros _ x _. cbn. rewrite <- (year_days_period (1970 + x) k). f_equal. lia.
  - replace 400 with (i + (400 - i)) by lia. rewrite seqZ_app by lia.
    rewrite take_app_length'; [done|]. by rewrite length_seqZ.
Qed.

Lemma days_before_cycle k : 0 <= k -> days_before_year (1970 + 400 * k) = CYCLE_DAYS * k.
Proof.
  revert k. apply natlike_ind; [done|]. intros k Hk IH. unfold days_before_year in *.
  replace (1970 + 400 * Z.succ k - 1970) with ((1970 + 400 * k - 1970) + 400) by lia.
  rewrite seqZ_app, fmap_app, total_app, IH by lia. replace (1970 + (1970 + 400 * k - 1970)) with (1970 + 400 * k) by lia.
  rewrite later_years by lia. rewrite take_ge by done. rewrite total_cycle. lia.
Qed.

Lemma days_before_year_in k i :
  0 <= k -> 0 <= i <= 400 ->
  days_before_year (1970 + 400 * k + i) = CYCLE_DAYS * k + total (take (Z.to_nat i) cycle).
Proof.
  intros Hk Hi. rewrite <- days_before_cycle by done. unfold days_before_year.
  replace (1970 + 400 * k + i - 1970) with ((1970 + 400 * k - 1970) + i) by lia.
  rewrite seqZ_app, fmap_app, total_app by lia. f_equal.
  replace (1970 + (1970 + 400 * k - 1970)) with (1970 + 400 * k) by lia. by rewrite later_years.
Qed.

(** The time stamp of any moment since the epoch has the fields of a valid
    date and time, in the order of their size, and they count the whole
    seconds since the epoch. *)
Theorem gmtime_correct t : 0 <= t -> valid_tm (gmtime t) /\ seconds (gmtime t) = t.
Proof.
  intros Ht. unfold gmtime. set (days := t / 86400). set (s := t mod 86400).
  assert (0 <= s < 86400) as Hs by (apply Z.mod_pos_bound; lia). assert (0 <= days) as Hd by (by apply Z.div_pos).
  assert (t = days * 86400 + s) as Et by (unfold days, s; pose proof (Z.div_mod t 86400); lia).
  set (k := days / CYCLE_DAYS). assert (0 <= k) as Hk by (by apply Z.div_pos).
  assert (0 <= days mod CYCLE_DAYS < CYCLE_DAYS) as Hm by (by apply Z.mod_pos_bound).
  assert (days = CYCLE_DAYS * k + days mod CYCLE_DAYS) as Ed by (by apply Z.div_mod).
  destruct (locate cycle _) as [yi yd] eqn:Ey. apply locate_spec in Ey as (Hyi & Eyd & n & Hn & Hyd); [|by rewrite total_cycle].
  change (zlength cycle) with 400 in Hyi. set (y := 1970 + 400 * k + yi).
  assert (n = year_days y) as ->.
  { unfold cycle in Hn. apply list_lookup_fmap_Some_1 in Hn as (x & -> & [-> _]%lookup_seqZ).
    unfold y. rewrite <- (year_days_period _ k). f_equal. lia. }
  destruct (locate (month_days y) yd) as [mi md] eqn:Em.
  apply locate_spec in Em as (Hmi & Emd & l & Hl & Hmd); [|by rewrite total_months].
  change (zlength (month_days y)) with 12 in Hmi. split.
  - unfold valid_tm. cbn [tm_year tm_mon tm_mday tm_hour tm_min tm_sec].
    replace (mi + 1 - 1) with mi by lia. split; [lia|]. split; [lia|]. split; [exists l; split; [done|lia]|].
    split_and!; Z.div_mod_to_equations; lia.
  - unfold seconds. cbn [tm_year tm_mon tm_mday tm_hour tm_min tm_sec]. unfold y at 1. rewrite days_before_year_in by lia.
    unfold days_before_month. replace (mi + 1 - 1) with mi by lia. rewrite Et.
    assert (s / 3600 * 3600 + s / 60 mod 60 * 60 + s mod 60 = s) by (Z.div_mod_to_equations; lia). lia.
Qed.

Lemma gmtime_example : iso8601_now (1780992000 * 10 ^ 9) = txt "2026-06-09T08:00:00Z".
Proof. vm_compute. reflexivity. Qed.
