(* ===== verification/Json.v ===== *)
(** * JSON documents

    The daemon prints JSON by hand and reads it with the yyjson library.  The
    reader is a parameter ([JsonReader]) with its documented behaviour on
    plain documents: no escapes in strings, numbers that are unsigned
    integers.  [read_json] is a reader of such documents that shows the
    behaviour can be had. *)

From Stdlib Require Import Ascii.
From S2P Require Import Prelude Text.

#[warnings="-register-all"]
Inductive json :=
| JNull
| JBool (b : bool)
| JNum (n : Z)
| JReal (repr : text)
| JStr (s : text)
| JArr (l : list json)
| JObj (l : list (text * json)).

(** Items separated by commas. *)
Fixpoint commas (l : list text) : text :=
  match l with
  | [] => []
  | [x] => x
  | x :: l => x ++ ","%char :: commas l
  end.

Definition quoted (s : text) : text := quote :: s ++ [quote].

Fixpoint print_json (v : json) : text :=
  match v with
  | JNull => txt "null"
  | JBool b => txt (if b then "true" else "false")
  | JNum n => print_dec n
  | JReal repr => repr
  | JStr s => quoted s
  | JArr l => "["%char :: commas (map print_json l) ++ ["]"%char]
  | JObj l => "{"%char :: commas (map (fun kv => quoted kv.1 ++ ":"%char :: print_json kv.2) l) ++ ["}"%char]
  end.

(** Printable characters that need no escape. *)
Definition plain_char (c : ascii) : bool :=
  (32 <=? Ascii.nat_of_ascii c)%nat && (Ascii.nat_of_ascii c <? 127)%nat &&
  negb (bool_decide (c = quote)) && negb (bool_decide (c = backslash)).

Definition plain_text (s : text) : Prop := Forall (fun c => plain_char c = true) s.

Fixpoint plain (v : json) : Prop :=
  match v with
  | JNum n => is_u64 n
  | JStr s => plain_text s
  | JArr l => foldr (fun v P => plain v /\ P) True l
  | JObj l => foldr (fun kv P => plain_text kv.1 /\ plain kv.2 /\ P) True l
  | JNull | JBool _ | JReal _ => False
  end.

Class JsonReader := {
  json_read : text -> option json;
  json_read_print v : plain v -> json_read (print_json v ++ [newline]) = Some v;
}.

(** [yyjson_obj_get]: the value of the first member with the key. *)
Definition obj_get (v : json) (key : string) : option json :=
  match v with
  | JObj l => snd <$> (snd <$> list_find (fun kv => kv.1 = txt key) l)
  | _ => None
  end.

(** [yyjson_get_uint], [yyjson_get_str]. *)
Definition get_uint (v : json) : Z := match v with JNum n => u64 n | _ => 0 end.
Definition get_str (v : json) : option text := match v with JStr s => Some s | _ => None end.

(** ** A reader of plain documents *)
Fixpoint read_string (s : text) : option (text * text) :=
  match s with
  | [] => None
  | c :: s => if decide (c = quote) then Some ([], s) else '(x, r) ← read_string s; Some (c :: x, r)
  end.

(** Items up to the closing character, the first of them at the front. *)
Fixpoint read_items {A} (fuel : nat) (p : text -> option (A * text)) (close : ascii) (s : text)
  : option (list A * text) :=
  match fuel with
  | O => None
  | S fuel =>
    '(x, r) ← p s;
    match r with
    | c :: r =>
      if decide (c = close) then Some ([x], r)
      else if decide (c = ","%char) then '(xs, r) ← read_items fuel p close r; Some (x :: xs, r)
      else None
    | [] => None
    end
  end.

Definition read_list {A} (fuel : nat) (p : text -> option (A * text)) (close : ascii) (s : text)
  : option (list A * text) :=
  match s with
  | c :: r => if decide (c = close) then Some ([], r) else read_items fuel p close s
  | [] => None
  end.

Definition read_member (p : text -> option (json * text)) (s : text)
  : option ((text * json) * text) :=
  match s with
  | q :: s =>
    if decide (q = quote) then
      '(k, s) ← read_string s;
      match s with
      | c :: s => if decide (c = ":"%char) then '(v, s) ← p s; Some ((k, v), s) else None
      | [] => None
      end
    else None
  | [] => None
  end.

Fixpoint read_value (fuel : nat) (s : text) : option (json * text) :=
  match fuel with
  | O => None
  | S fuel =>
    match s with
    | [] => None
    | c :: s' =>
      if decide (c = quote) then '(x, r) ← read_string s'; Some (JStr x, r)
      else if decide (c = "["%char) then
        '(l, r) ← read_list fuel (read_value fuel) "]" s'; Some (JArr l, r)
      else if decide (c = "{"%char) then
        '(l, r) ← read_list fuel (read_member (read_value fuel)) "}" s'; Some (JObj l, r)
      else if is_digit c then let '(n, r) := read_digits 0 s in Some (JNum n, r)
      else None
    end
  end.

Definition read_json (s : text) : option json :=
  '(v, r) ← read_value (length s) s;
  if decide (r = [newline]) then Some v else None.

Lemma read_string_app x r : quote ∉ x -> read_string (x ++ quote :: r) = Some (x, r).
Proof.
  induction x as [|c x IH]; intros H; cbn [app read_string].
  - by rewrite decide_True.
  - apply not_elem_of_cons in H as [H1 H2]. rewrite decide_False by congruence. by rewrite IH.
Qed.

Lemma plain_no_quote s : plain_text s -> quote ∉ s.
Proof. unfold plain_text. rewrite Forall_forall. intros H Hin. by apply H in Hin. Qed.

(** Reading back what [f] prints, with enough fuel for the items. *)
Lemma read_items_commas {A} (f : A -> text) (p : text -> option (A * text)) close l x fuel r :
  (close = "]"%char \/ close = "}"%char) ->
  Forall (fun y => forall r, no_digit r -> p (f y ++ r) = Some (y, r)) (x :: l) ->
  (length l < fuel)%nat -> read_items fuel p close (commas (f <$> x :: l) ++ close :: r) = Some (x :: l, r).
Proof.
  intros Hc. revert x fuel. induction l as [|y l IH]; intros x fuel Hp Hf;
    (destruct fuel as [|fuel]; [cbn in Hf; lia|]); apply Forall_cons in Hp as [Hx Hp].
  - cbn [fmap list_fmap commas read_items]. rewrite Hx by (by destruct Hc as [-> | ->]).
    cbn [mbind option_bind]. by rewrite decide_True.
  - change (commas (f <$> x :: y :: l)) with (f x ++ ","%char :: commas (f <$> y :: l)).
    cbn [read_items]. rewrite <-app_assoc, <-app_comm_cons, Hx by done. cbn [mbind option_bind].
    rewrite decide_False by (by destruct Hc as [-> | ->]). rewrite decide_True by done.
    rewrite IH; [done|done|cbn in Hf; lia].
Qed.

(** ** The reader reads back plain documents *)
Section json_ind.
Variable P : json -> Prop.
Hypothesis Hnull : P JNull.
Hypothesis Hbool : forall b, P (JBool b).
Hypothesis Hnum : forall n, P (JNum n).
Hypothesis Hreal : forall r, P (JReal r).
Hypothesis Hstr : forall s, P (JStr s).
Hypothesis Harr : forall l, Forall P l -> P (JArr l).
Hypothesis Hobj : forall l, Forall (fun kv => P kv.2) l -> P (JObj l).

Fixpoint json_nested_ind (v : json) : P v :=
  match v with
  | JNull => Hnull
  | JBool b => Hbool b
  | JNum n => Hnum n
  | JReal r => Hreal r
  | JStr s => Hstr s
  | JArr l =>
    Harr l ((fix go l := match l return Forall P l with
                         | [] => Forall_nil_2 P
                         | v :: l => Forall_cons_2 P v l (json_nested_ind v) (go l)
                         end) l)
  | JObj l =>
    Hobj l ((fix go l := match l return Forall (fun kv => P kv.2) l with
                         | [] => Forall_nil_2 _
                         | kv :: l => Forall_cons_2 _ kv l (json_nested_ind kv.2) (go l)
                         end) l)
  end.
End json_ind.

Definition print_member (kv : text * json) : text := quoted kv.1 ++ ":"%char :: print_json kv.2.

Lemma commas_elem (l : list text) x : x ∈ l -> (length x <= length (commas l))%nat.
Proof.
  induction l as [|y l IH]; [by intros ?%not_elem_of_nil|]. rewrite elem_of_cons. destruct l as [|z l].
  - by intros [->|?%not_elem_of_nil].
  - change (commas (y :: z :: l)) with (y ++ ","%char :: commas (z :: l)).
    rewrite length_app. cbn [length]. intros [->|Hx]; [lia|]. apply IH in Hx. lia.
Qed.

Lemma commas_count (l : list text) : (length l <= S (length (commas l)))%nat.
Proof.
  induction l as [|y l IH]; [cbn; lia|]. destruct l as [|z l]; [cbn; lia|].
  change (commas (y :: z :: l)) with (y ++ ","%char :: commas (z :: l)).
  rewrite length_app. cbn [length] in *. lia.
Qed.

Lemma print_plain_head v :
  plain v -> exists c s, print_json v = c :: s /\ c <> "]"%char.
Proof.
  destruct v; cbn [plain print_json]; try done; intros Hv; [|by eexists _, _..].
  unfold is_u64 in Hv. destruct (print_dec_spec n) as (Hd & _ & Hne); [lia|].
  destruct (print_dec n) as [|c s]; [done|]. apply Forall_cons in Hd as [Hc _].
  eexists _, _. split; [done|]. by intros ->.
Qed.

Lemma read_list_commas {A} (f : A -> text) (p : text -> option (A * text)) close l fuel r :
  (close = "]"%char \/ close = "}"%char) ->
  Forall (fun y => (exists c s, f y = c :: s /\ c <> close) /\
    forall r, no_digit r -> p (f y ++ r) = Some (y, r)) l ->
  (length (commas (f <$> l)) < fuel)%nat ->
  read_list fuel p close (commas (f <$> l) ++ close :: r) = Some (l, r).
Proof.
  intros Hc Hl Hf. destruct l as [|x l]; [cbn; by rewrite decide_True|].
  pose proof (commas_count (f <$> x :: l)) as Hn. rewrite length_fmap in Hn. cbn [length] in Hn.
  pose proof (read_items_commas f p close l x fuel r Hc) as Hi.
  specialize (Hi ltac:(eapply Forall_impl; [exact Hl|by intros y [_ Hy]]) ltac:(lia)).
  apply Forall_cons in Hl as [[(c & s & Hs & Hne) _] _].
  assert (exists s', commas (f <$> x :: l) = c :: s') as [s' Hs'].
  { destruct l; cbn [fmap list_fmap commas]; rewrite Hs; eexists; reflexivity. }
  unfold read_list. rewrite Hs' in Hi |- *. cbn [app] in *. by rewrite decide_False.
Qed.

Lemma read_value_print v fuel r :
  plain v -> no_digit r -> (length (print_json v) <= fuel)%nat ->
  read_value fuel (print_json v ++ r) = Some (v, r).
Proof.
  intros Hv Hr. revert fuel r Hr Hv.
  induction v as [|b|n|rp|s|l IH|l IH] using json_nested_ind; intros fuel r Hr Hv Hf; try done.
  - cbn [plain print_json] in *. unfold is_u64 in Hv.
    pose proof (read_digits_print n r ltac:(lia) Hr) as Hd.
    destruct (print_dec_spec n) as (Hds & _ & Hne); [lia|].
    destruct (print_dec n) as [|c ds]; [done|]. destruct fuel as [|fuel]; [cbn in Hf; lia|].
    apply Forall_cons in Hds as [Hc _]. cbn [app read_value] in *.
    rewrite !decide_False by (by intros ->). by rewrite Hc, Hd.
  - destruct fuel as [|fuel]; [cbn in Hf; lia|]. cbn [plain print_json read_value app quoted] in *.
    rewrite decide_True by done. rewrite <-app_assoc. cbn [app].
    by rewrite read_string_app by by apply plain_no_quote.
  - destruct fuel as [|fuel]; [cbn in Hf; lia|]. cbn [plain print_json read_value app] in *.
    rewrite decide_False, decide_True by done. rewrite <-app_assoc. cbn [app].
    cbn [length] in Hf. rewrite length_app in Hf. cbn [length] in Hf.
    change (map print_json l) with (print_json <$> l) in *.
    rewrite read_list_commas; [done|by left| |lia].
    assert (forall v, v ∈ l -> (length (print_json v) < fuel)%nat) as Hlen.
    { intros v Hin. apply (list_elem_of_fmap_2 print_json), commas_elem in Hin. lia. }
    clear Hf. induction l as [|v l IHl]; [constructor|].
    apply Forall_cons in IH as [IHv IH]. cbn in Hv. destruct Hv as [Hv Hl].
    constructor; [split; [by apply print_plain_head|]|apply IHl; try done].
    + intros r' Hr'. apply IHv; [done..|]. specialize (Hlen v ltac:(by left)). lia.
    + intros x Hx. apply Hlen. by right.
  - destruct fuel as [|fuel]; [cbn in Hf; lia|]. cbn [plain print_json read_value app] in *.
    rewrite !decide_False, decide_True by done. rewrite <-app_assoc. cbn [app].
    cbn [length] in Hf. rewrite length_app in Hf. cbn [length] in Hf.
    change (map _ l) with (print_member <$> l) in *.
    rewrite read_list_commas; [done|by right| |lia].
    assert (forall kv, kv ∈ l -> (length (print_member kv) < fuel)%nat) as Hlen.
    { intros kv Hin. apply (list_elem_of_fmap_2 print_member), commas_elem in Hin. lia. }
    clear Hf. induction l as [|[k v] l IHl]; [constructor|].
    apply Forall_cons in IH as [IHv IH]. cbn in Hv. destruct Hv as (Hk & Hv & Hl).
    constructor; [split; [by eexists _, _|]|apply IHl; try done].
    + intros r' Hr'. unfold print_member, quoted. cbn [fst snd app read_member].
      rewrite decide_True by done. rewrite <-!app_assoc. cbn [app].
      rewrite read_string_app by by apply plain_no_quote. cbn [mbind option_bind].
      rewrite decide_True by done. rewrite IHv; [done..|].
      specialize (Hlen (k, v) ltac:(by left)). unfold print_member in Hlen.
      rewrite length_app in Hlen. cbn [length snd] in *. lia.
    + intros x Hx. apply Hlen. by right.
Qed.

#[export, refine] Instance plain_reader : JsonReader := {| json_read := read_json |}.
Proof.
  intros v Hv. unfold read_json. rewrite read_value_print; [|done|done|rewrite length_app; cbn; lia].
  cbn [mbind option_bind]. by rewrite decide_True.
Defined.
