(* ===== verification/FileUtil.v ===== *)
(** * Files (src/src/common/file_util.hpp, file_util.cpp; the Linux code)

    Copying between files, and memory-mapped files as owners of a descriptor
    and a mapping.  The file system is a map from paths to contents; the
    results of system calls are arguments.  [Windows] has the other branches
    of the same functions. *)

From S2P Require Import Prelude.
Import OCamlLikeNotations.

(** ** File contents *)
Abbreviation FileSystem := (gmap string bytes).

Definition zeros (n : Z) : bytes := replicate (Z.to_nat n) Byte.x00.

(** Writing at an offset; a gap is filled with zeros. *)
Definition file_write (f : bytes) (off : Z) (data : bytes) : bytes :=
  let f := f ++ zeros (off + zlength data - zlength f) in
  blit f off data.

(** A file made at least, or exactly, [size] bytes long, and one with a range
    of zeros. *)
Definition extend (f : bytes) (size : Z) : bytes := f ++ zeros (size - zlength f).
Definition set_size (f : bytes) (size : Z) : bytes := take (Z.to_nat size) (extend f size).
Definition zero_range (f : bytes) (off len : Z) : bytes := blit f off (zeros (Z.min len (zlength f - off))).

(** [clone_range]: [copied] is what [copy_file_range] returns. *)
Definition clone_range (fs : FileSystem) (src : string) (src_off : Z) (dst : string) (dst_off len copied : Z)
  : FileSystem * bool :=
  match fs !! src, fs !! dst with
  | Some s, Some d =>
    if 0 <? copied then (<[dst := file_write d dst_off (zslice s src_off copied)]> fs, copied =? len)
    else (fs, copied =? len)
  | _, _ => (fs, false)
  end.

(** What [copy_file_range] promises about its result: at most what was asked
    for and what the source has. *)
Definition copied_ok (fs : FileSystem) (src : string) (src_off len copied : Z) : Prop :=
  copied <= len /\ (0 < copied -> exists s, fs !! src = Some s /\ src_off + copied <= zlength s).

(** [sendfile_zero_copy]: [n] is what [sendfile] returns; the offset advances
    by what was sent. *)
Definition sendfile_zero_copy (offset n : Z) : Z * Z :=
  if 0 <? n then (u64 (offset + n), n) else (offset, n).

(** ** Mapped files *)
Inductive mapping := Null | MapFailed | Mapped (id : Z).

Record MappedFile := {
  fd_ : Z;
  data_ : mapping;
  size_ : Z;
}.

Definition mapped_eta (m : MappedFile) : MappedFile :=
  {| fd_ := fd_ m; data_ := data_ m; size_ := size_ m |}.

#[export] Hint Extern 0 (@Setter MappedFile _ ?g) => set_field mapped_eta g : typeclass_instances.

Definition mapped_new : MappedFile := {| fd_ := -1; data_ := Null; size_ := 0 |}.

(** What the process holds: open descriptors and mappings. *)
Record Sys := {
  open_fds : gset Z;
  mappings : gset Z;
}.

Definition sys_close (s : Sys) (fd : Z) : Sys :=
  {| open_fds := open_fds s ∖ {[fd]}; mappings := mappings s |}.
Definition sys_munmap (s : Sys) (id : Z) : Sys :=
  {| open_fds := open_fds s; mappings := mappings s ∖ {[id]} |}.
Definition sys_open (s : Sys) (fd : Z) : Sys :=
  if fd <? 0 then s else {| open_fds := {[fd]} ∪ open_fds s; mappings := mappings s |}.
Definition sys_mmap (s : Sys) (id : option Z) : Sys :=
  match id with
  | Some id => {| open_fds := open_fds s; mappings := {[id]} ∪ mappings s |}
  | None => s
  end.

Definition mmap_result (id : option Z) : mapping :=
  match id with Some id => Mapped id | None => MapFailed end.

Definition is_mapped (d : mapping) : bool := match d with Mapped _ => true | _ => false end.

(** [fd] is what [open] returns, [id] the mapping, if [mmap] makes one. *)
Definition create_and_map (s : Sys) (m : MappedFile) (file_size fd : Z) (fallocate_ok : bool) (id : option Z)
  : Sys * MappedFile * bool :=
  let s := sys_open s fd in
  let m := { m with fd_ := fd } in
  if fd <? 0 then (s, m, false)
  else if negb fallocate_ok then (sys_close s fd, { m with fd_ := -1 }, false)
  else
    let m := { m with data_ := mmap_result id; size_ := file_size } in
    (sys_mmap s id, m, is_mapped (data_ m)).

Definition open_and_map (s : Sys) (m : MappedFile) (st_size fd : Z) (id : option Z)
  : Sys * MappedFile * bool :=
  let s := sys_open s fd in
  let m := { m with fd_ := fd } in
  if fd <? 0 then (s, m, false)
  else
    let m := { m with size_ := st_size; data_ := mmap_result id } in
    (sys_mmap s id, m, is_mapped (data_ m)).

Definition unmap (s : Sys) (m : MappedFile) : Sys * MappedFile :=
  match data_ m with
  | Null => (s, m)
  | d =>
    let '(s, m) := match d with
                   | Mapped id => (sys_munmap s id, { m with data_ := Null })
                   | _ => (s, m)
                   end in
    if 0 <=? fd_ m then (sys_close s (fd_ m), { m with fd_ := -1 }) else (s, m)
  end.

(** The move constructor: the new object and what is left of the other. *)
Definition move_from (other : MappedFile) : MappedFile * MappedFile :=
  ({| fd_ := fd_ other; data_ := data_ other; size_ := size_ other |},
   {| fd_ := -1; data_ := Null; size_ := 0 |}).

(** Move assignment between different objects. *)
Definition move_assign (s : Sys) (m other : MappedFile) : Sys * MappedFile * MappedFile :=
  let '(s, m) := unmap s m in
  (s, {| fd_ := fd_ other; data_ := data_ other; size_ := size_ other |},
   {| fd_ := -1; data_ := Null; size_ := 0 |}).

(** The calls on an open file [f]; [ret] is what the system call returns. *)
Definition preallocate (m : MappedFile) (f : bytes) (size ret : Z) : MappedFile * bytes * bool :=
  if ret =? 0 then (m, extend f size, true) else (m, f, false).

Definition advise_sequential (ret : Z) : bool := ret =? 0.

Definition punch_hole (m : MappedFile) (f : bytes) (off len ret : Z) : MappedFile * bytes * bool :=
  if ret =? 0 then (m, zero_range f off len, true) else (m, f, false).

Definition truncate (m : MappedFile) (f : bytes) (new_size ret : Z) : MappedFile * bytes * bool :=
  if negb (ret =? 0) then (m, f, false) else ({ m with size_ := new_size }, set_size f new_size, true).

Definition sync (ret : Z) : bool := ret =? 0.

(** ** Copies *)
Lemma zlength_extended f n : zlength (f ++ zeros (n - zlength f)) = Z.max (zlength f) n.
Proof. unfold zlength. rewrite length_app. unfold zeros. rewrite length_replicate. lia. Qed.

Lemma zlength_file_write f off data :
  0 <= off -> zlength (file_write f off data) = Z.max (zlength f) (off + zlength data).
Proof.
  intros Ho. unfold file_write. cbv zeta. rewrite <-zlength_extended. unfold zlength at 1.
  rewrite length_blit; [done|done|]. rewrite zlength_extended. lia.
Qed.

Lemma zslice_file_write f off data : 0 <= off -> zslice (file_write f off data) off (zlength data) = data.
Proof. intros Ho. apply zslice_blit; [done|]. rewrite zlength_extended. lia. Qed.

(** A write inside the file is a [blit]. *)
Lemma file_write_inside f off data :
  off + zlength data <= zlength f -> file_write f off data = blit f off data.
Proof.
  intros H. unfold file_write, zeros. replace (Z.to_nat _) with 0%nat by lia. by rewrite app_nil_r.
Qed.

(** ** Mapped files give back what they take *)
(** An object holds nothing that unmapping it would not release. *)
Definition releasable (m : MappedFile) : Prop := 0 <= fd_ m -> data_ m <> Null.

Lemma sys_ext (s s' : Sys) : open_fds s = open_fds s' -> mappings s = mappings s' -> s = s'.
Proof. destruct s, s'. cbn. congruence. Qed.

(** Mapping a file, whatever the system calls return, and unmapping it leaves
    the process with what it held before; so does giving the object away and
    destroying the new owner. *)
Theorem mapped_file_releases s (create : bool) size fd (fallocate_ok : bool) (id : option Z) :
  fd ∉ open_fds s -> (forall i, id = Some i -> i ∉ mappings s) ->
  let '(s1, m, ok) := if create then create_and_map s mapped_new size fd fallocate_ok id
                      else open_and_map s mapped_new size fd id in
  releasable m /\ (ok = true -> size_ m = size /\ 0 <= fd_ m) /\
  (unmap s1 m).1 = s /\
  let '(s2, owner, rest) := move_assign s1 mapped_new m in
  (unmap (unmap s2 rest).1 owner).1 = s.
Proof.
  intros Hfd Hid.
  assert (forall i, id = Some i -> ({[i]} ∪ mappings s) ∖ {[i]} = mappings s) as Hm.
  { intros i Hi. specialize (Hid i Hi). set_solver. }
  assert (({[fd]} ∪ open_fds s) ∖ {[fd]} = open_fds s) as Hf by set_solver.
  unfold create_and_map, open_and_map, move_assign, sys_open, releasable.
  destruct create, (Z.ltb_spec fd 0) as [Hn|Hn]; cbn [mapped_new]; cbn.
  - split_and!; try done; lia.
  - destruct fallocate_ok; cbn.
    + destruct id as [i|]; cbn; unfold unmap; cbn; rewrite ?(proj2 (Z.leb_le 0 fd) Hn); cbn;
        split_and!; try done; apply sys_ext; cbn; auto.
    + unfold unmap. cbn. split_and!; try done; apply sys_ext; cbn; auto.
  - split_and!; try done; lia.
  - destruct id as [i|]; cbn; unfold unmap; cbn; rewrite ?(proj2 (Z.leb_le 0 fd) Hn); cbn;
      split_and!; try done; apply sys_ext; cbn; auto.
Qed.

Lemma mapped_file_releases_witness :
  (unmap (open_and_map {| open_fds := {[3]}; mappings := ∅ |} mapped_new 10 4 (Some 7)).1.1
         (open_and_map {| open_fds := {[3]}; mappings := ∅ |} mapped_new 10 4 (Some 7)).1.2).1
  = {| open_fds := {[3]}; mappings := ∅ |}.
Proof.
  destruct (mapped_file_releases {| open_fds := {[3]}; mappings := ∅ |} false 10 4 true (Some 7))
    as (_ & _ & H & _); [set_solver|set_solver|]. exact H.
Defined.
