(* ===== verification/JobPool.v ===== *)
(** * Job queues with worker threads (src/src/daemon/file_read_pool.cpp,
    sendfile_pool.cpp)

    The two pools have the same [start], [stop], queue and [worker_loop]; a
    job is a read with its callback or a function.  The atomic steps are the
    sections under the mutex, the notifications of the condition variable,
    and the end of a job.  A waiting thread is woken by a notification or
    spuriously; [started], [finished] and [posted] record what happened. *)

From S2P Require Import Prelude.
Import OCamlLikeNotations.

Section pool.
Context {J : Type}.

(** Waiting on the condition variable; about to take the mutex; doing a job;
    returned. *)
Inductive thread := Waiting | Ready | Running (j : J) | Exited.

(** Where [stop] is. *)
Inductive stop_state := NotStopped | Flagged | Notified | Joined.

Record Pool := {
  threads_ : list thread;
  q_ : list J;
  running_ : bool;
  to_notify : nat;
  stop_at : stop_state;
  started : list J;
  finished : list J;
  posted : list J;
  posted_at_stop : list J;
}.

Definition pool_eta (p : Pool) : Pool := {|
  threads_ := threads_ p; q_ := q_ p; running_ := running_ p; to_notify := to_notify p;
  stop_at := stop_at p; started := started p; finished := finished p; posted := posted p;
  posted_at_stop := posted_at_stop p;
|}.

#[local] Hint Extern 0 (@Setter Pool _ ?g) => set_field pool_eta g : typeclass_instances.

Definition pool_new : Pool := {|
  threads_ := []; q_ := []; running_ := false; to_notify := 0; stop_at := NotStopped;
  started := []; finished := []; posted := []; posted_at_stop := [];
|}.

(** ** The program *)
Definition pool_start (p : Pool) (n : nat) : Pool :=
  if running_ p then p else { p with running_ := true; threads_ ::= (fun l => l ++ replicate n Ready) }.

(** [post]: the queue under the mutex; [notify_one] comes later. *)
Definition pool_post (p : Pool) (j : J) : Pool :=
  { p with q_ ::= (fun q => q ++ [j]); to_notify ::= S; posted ::= (fun l => l ++ [j]) }.

Definition is_waiting (t : thread) : bool := match t with Waiting => true | _ => false end.
Definition wake (t : thread) : thread := match t with Waiting => Ready | t => t end.

(** [notify_one]: wakes the waiting thread [i]; nothing if none waits. *)
Definition notify_one (p : Pool) (i : nat) : option Pool :=
  match to_notify p with
  | O => None
  | S n =>
    let p := { p with to_notify := n } in
    if existsb is_waiting (threads_ p) then
      match threads_ p !! i with
      | Some Waiting => Some { p with threads_ ::= <[i := Ready]> }
      | _ => None
      end
    else Some p
  end.

(** An iteration of [worker_loop] up to the job, or the end of the job. *)
Definition worker_step (p : Pool) (i : nat) : option Pool :=
  match threads_ p !! i with
  | Some Ready =>
    match q_ p with
    | [] => Some { p with threads_ ::= <[i := if running_ p then Waiting else Exited]> }
    | j :: q => Some { p with q_ := q; threads_ ::= <[i := Running j]>; started ::= (fun l => l ++ [j]) }
    end
  | Some (Running j) => Some { p with threads_ ::= <[i := Ready]>; finished ::= (fun l => l ++ [j]) }
  | _ => None
  end.

(** The three parts of [stop]. *)
Definition stop_flag (p : Pool) : Pool :=
  if running_ p then { p with running_ := false; stop_at := Flagged; posted_at_stop := posted p } else p.

Definition stop_notify (p : Pool) : option Pool :=
  match stop_at p with
  | Flagged => Some { p with threads_ ::= fmap wake; stop_at := Notified }
  | _ => None
  end.

Definition is_exited (t : thread) : bool := match t with Exited => true | _ => false end.

Definition stop_join (p : Pool) : option Pool :=
  match stop_at p with
  | Notified => if forallb is_exited (threads_ p)
                then Some { p with stop_at := Joined; threads_ := []; q_ := [] } else None
  | _ => None
  end.

(** ** Runs *)
(** What the program does on its own once something was posted. *)
Inductive sys_step : Pool -> Pool -> Prop :=
| step_worker p i p' : worker_step p i = Some p' -> sys_step p p'
| step_notify p i p' : notify_one p i = Some p' -> sys_step p p'.

(** What its clients do, and spurious wake-ups.  The pool is started and
    posted to only before [stop] is over, and started only before it begins. *)
Inductive env_step : Pool -> Pool -> Prop :=
| step_start p n : stop_at p = NotStopped -> env_step p (pool_start p (S n))
| step_post p j : stop_at p <> Joined -> env_step p (pool_post p j)
| step_stop p : env_step p (stop_flag p)
| step_stop_notify p p' : stop_notify p = Some p' -> env_step p p'
| step_spurious p i : threads_ p !! i = Some Waiting -> env_step p { p with threads_ ::= <[i := Ready]> }.

Inductive pool_reach : Pool -> Prop :=
| pool_reach_new : pool_reach pool_new
| pool_reach_sys p p' : pool_reach p -> sys_step p p' -> pool_reach p'
| pool_reach_env p p' : pool_reach p -> env_step p p' -> pool_reach p'.

Definition jobs_of (t : thread) : list J := match t with Running j => [j] | _ => [] end.

Definition awake (t : thread) : Prop := match t with Ready | Running _ => True | _ => False end.

Record pool_inv (p : Pool) : Prop := {
  pi_fifo : started p ++ q_ p = posted p;
  pi_jobs : started p ≡ₚ finished p ++ (threads_ p ≫= jobs_of);
  pi_wake : q_ p <> [] -> Exists awake (threads_ p) \/ (0 < to_notify p)%nat \/
    Forall (fun t => t <> Waiting) (threads_ p);
  pi_idle : stop_at p = NotStopped -> running_ p = false -> threads_ p = [];
  pi_exit : Exited ∈ threads_ p -> running_ p = false /\ posted_at_stop p `prefix_of` started p;
  pi_stop : stop_at p <> NotStopped -> running_ p = false /\ posted_at_stop p `prefix_of` posted p;
}.

(** ** The invariant *)
Lemma jobs_insert l i t t' :
  l !! i = Some t -> (<[i := t']> l ≫= jobs_of) ++ jobs_of t ≡ₚ (l ≫= jobs_of) ++ jobs_of t'.
Proof.
  intros Hi. pose proof (lookup_lt_Some _ _ _ Hi) as Hl.
  rewrite insert_take_drop by done. rewrite <-(take_drop_middle l i t Hi) at 3.
  rewrite !bind_app. cbn. solve_Permutation.
Qed.

(** Replacing a thread by one with the same jobs. *)
Lemma jobs_insert_same l i t t' :
  l !! i = Some t -> jobs_of t' = jobs_of t -> <[i := t']> l ≫= jobs_of ≡ₚ l ≫= jobs_of.
Proof.
  intros Hi Ht. pose proof (jobs_insert l i t t' Hi) as H. rewrite Ht in H.
  by apply Permutation_app_inv_r in H.
Qed.

Lemma insert_elem (l : list thread) i t x : x ∈ <[i := t]> l -> x = t \/ x ∈ l.
Proof.
  rewrite !list_elem_of_lookup. intros [k Hk].
  apply list_lookup_insert_Some in Hk as [(_ & <- & _)|[_ Hk]]; [by left|right; by exists k].
Qed.

Lemma awake_insert l i t : (i < length l)%nat -> awake t -> Exists awake (<[i := t]> l).
Proof.
  intros Hi Ht. apply Exists_exists. exists t. split; [|done].
  apply list_elem_of_lookup. exists i. by apply list_lookup_insert_eq.
Qed.

Lemma worker_step_inv p i p' : pool_inv p -> worker_step p i = Some p' -> pool_inv p'.
Proof.
  intros [H1 H2 H3 H4 H5 H6]. unfold worker_step.
  destruct (threads_ p !! i) as [t|] eqn:Hi; [|done]. pose proof (lookup_lt_Some _ _ _ Hi) as Hl.
  destruct t as [| |j|]; [done| | |done].
  - destruct (q_ p) as [|j q] eqn:Hq; intros [= <-].
    + rewrite app_nil_r in H1.
      split; cbn; rewrite ?Hq, ?app_nil_r; try done.
      * rewrite H2. f_equiv. symmetry. apply (jobs_insert_same _ i Ready); [done|by destruct (running_ p)].
      * intros Hs Hr. by rewrite (H4 Hs Hr) in Hi.
      * intros [He|He]%insert_elem; [|auto]. destruct (running_ p) eqn:Hr; [done|]. split; [done|].
        destruct (stop_at p) eqn:Hs; [by rewrite (H4 eq_refl eq_refl) in Hi|..];
          rewrite H1; by apply H6.
    + split; cbn.
      * by rewrite <-app_assoc.
      * pose proof (jobs_insert _ i Ready (Running j) Hi) as Hp. cbn in Hp. rewrite app_nil_r in Hp.
        rewrite H2, Hp. solve_Permutation.
      * intros _. left. by apply awake_insert.
      * intros Hs Hr. by rewrite (H4 Hs Hr) in Hi.
      * intros [He|He]%insert_elem; [done|]. destruct (H5 He) as [? ?]. split; [done|].
        by apply prefix_app_r.
      * done.
  - intros [= <-]. split; cbn; try done.
    + pose proof (jobs_insert _ i (Running j) Ready Hi) as Hp. cbn in Hp. rewrite app_nil_r in Hp.
      rewrite H2, <-Hp. solve_Permutation.
    + intros _. left. by apply awake_insert.
    + intros Hs Hr. by rewrite (H4 Hs Hr) in Hi.
    + intros [He|He]%insert_elem; [done|auto].
Qed.

Lemma wake_inv p i :
  threads_ p !! i = Some Waiting -> pool_inv p -> pool_inv { p with threads_ ::= <[i := Ready]> }.
Proof.
  intros Hi [H1 H2 H3 H4 H5 H6]. pose proof (lookup_lt_Some _ _ _ Hi) as Hl. split; cbn; try done.
  - rewrite H2. f_equiv. symmetry. by apply (jobs_insert_same _ i Waiting).
  - intros _. left. by apply awake_insert.
  - intros Hs Hr. by rewrite (H4 Hs Hr) in Hi.
  - intros [He|He]%insert_elem; [done|auto].
Qed.

Lemma notify_one_inv p i p' : pool_inv p -> notify_one p i = Some p' -> pool_inv p'.
Proof.
  intros Hp. unfold notify_one. destruct (to_notify p) as [|n] eqn:Hn; [done|]. cbn.
  destruct (existsb is_waiting (threads_ p)) eqn:He.
  - destruct (threads_ p !! i) as [t|] eqn:Hi; [|done]. destruct t; try done. intros [= <-].
    destruct (wake_inv p i Hi Hp) as [H1 H2 H3 H4 H5 H6]. cbn in *.
    split; cbn; try done. intros _. left. apply awake_insert; [by eapply lookup_lt_Some|done].
  - intros [= <-]. destruct Hp as [H1 H2 H3 H4 H5 H6]. split; cbn; try done.
    intros _. right. right. apply Forall_forall. intros t Ht ->.
    assert (existsb is_waiting (threads_ p) = true); [|congruence].
    apply existsb_exists. exists Waiting. split; [|done]. by apply list_elem_of_In.
Qed.

Lemma wake_all_jobs l : (wake <$> l) ≫= jobs_of = l ≫= jobs_of.
Proof. induction l as [|t l IH]; [done|]. cbn. rewrite IH. by destruct t. Qed.

Lemma env_step_inv p p' : pool_inv p -> env_step p p' -> pool_inv p'.
Proof.
  intros Hp. destruct 1 as [p n Hs|p j Hs|p|p p' Hn|p i Hi].
  - unfold pool_start. destruct (running_ p) eqn:Hr; [done|]. destruct Hp as [H1 H2 H3 H4 H5 H6].
    pose proof (H4 Hs Hr) as Ht. split; cbn; rewrite ?Ht in *; cbn; try done.
    + rewrite H2. cbn. f_equiv. clear. induction n as [|n IH]; [done|]. done.
    + intros _. left. by left.
    + rewrite elem_of_cons. intros [?|He]; [done|]. by apply elem_of_replicate in He as [? _].
  - destruct Hp as [H1 H2 H3 H4 H5 H6]. unfold pool_post. split; cbn; try done.
    + by rewrite <-H1, app_assoc.
    + intros _. right. left. lia.
    + intros Hst. destruct (H6 Hst) as [? ?]. split; [done|]. by apply prefix_app_r.
  - unfold stop_flag. destruct (running_ p) eqn:Hr; [|done]. destruct Hp as [H1 H2 H3 H4 H5 H6].
    split; cbn; try done. intros He. destruct (H5 He); congruence.
  - unfold stop_notify in Hn. destruct (stop_at p) eqn:Hs; try done. injection Hn as <-.
    destruct Hp as [H1 H2 H3 H4 H5 H6]. rewrite Hs in *. split; cbn; try done.
    + by rewrite wake_all_jobs.
    + intros _. right. right. apply Forall_forall. intros t (x & -> & _)%list_elem_of_fmap. by destruct x.
    + intros (x & Hx & Hin)%list_elem_of_fmap. destruct x; try done. auto.
    + intros _. auto.
  - by apply wake_inv.
Qed.

Lemma pool_reach_inv p : pool_reach p -> pool_inv p.
Proof.
  induction 1 as [|p p' _ IH Hs|p p' _ IH He].
  - by split.
  - destruct Hs; [by eapply worker_step_inv|by eapply notify_one_inv].
  - by eapply env_step_inv.
Qed.

(** ** Every job is done *)
Definition weight (t : thread) : nat := match t with Ready => 1 | Running _ => 2 | _ => 0 end.

Definition work (p : Pool) : nat :=
  2 * length (q_ p) + 2 * to_notify p + sum_list_with weight (threads_ p).

Lemma weight_insert l i t t' :
  l !! i = Some t ->
  (sum_list_with weight (<[i := t']> l) + weight t = sum_list_with weight l + weight t')%nat.
Proof.
  revert i. induction l as [|x l IH]; intros [|i] Hi; [done..| |]; cbn in *.
  - injection Hi as ->. lia.
  - specialize (IH i Hi). unfold insert in *. lia.
Qed.

Lemma sys_step_work p p' : sys_step p p' -> (work p' < work p)%nat.
Proof.
  unfold work. destruct 1 as [p i p' Hw|p i p' Hn].
  - unfold worker_step in Hw. destruct (threads_ p !! i) as [t|] eqn:Hi; [|done].
    destruct t as [| |j|]; [done| | |done].
    + destruct (q_ p) as [|j q] eqn:Hq; injection Hw as <-; cbn; rewrite ?Hq; cbn;
        match goal with |- context [<[i := ?t]> _] => pose proof (weight_insert _ _ _ t Hi) as Hs end;
        [destruct (running_ p)|]; cbn in *; lia.
    + injection Hw as <-. cbn. pose proof (weight_insert _ _ _ Ready Hi) as Hs. cbn in *. lia.
  - unfold notify_one in Hn. destruct (to_notify p) as [|n]; [done|]. cbn in Hn.
    destruct (existsb _ _); [|injection Hn as <-; cbn; lia].
    destruct (threads_ p !! i) as [t|] eqn:Hi; [|done]. destruct t; try done. injection Hn as <-.
    cbn. pose proof (weight_insert _ _ _ Ready Hi) as Hs. cbn in *. lia.
Qed.

Lemma stuck_asleep p : (forall p', ~ sys_step p p') -> ~ Exists awake (threads_ p) /\ to_notify p = 0%nat.
Proof.
  intros Hstuck. split.
  - intros (t & Hin & Ha)%Exists_exists. apply list_elem_of_lookup in Hin as [i Hi].
    assert (exists p', worker_step p i = Some p') as [p' Hp']; [|by eapply Hstuck, step_worker].
    unfold worker_step. rewrite Hi. destruct t; try done; [|eauto]. destruct (q_ p); eauto.
  - destruct (to_notify p) as [|n] eqn:Hn; [done|]. exfalso.
    assert (exists i p', notify_one p i = Some p') as (i & p' & Hp'); [|by eapply Hstuck, step_notify].
    unfold notify_one. rewrite Hn. cbn. destruct (existsb is_waiting (threads_ p)) eqn:He; [|by exists 0%nat; eauto].
    apply existsb_exists in He as (t & Hin & Hw). apply list_elem_of_In, list_elem_of_lookup in Hin as [i Hi].
    exists i. rewrite Hi. destruct t; try done. eauto.
Qed.

Lemma asleep_no_jobs l : ~ Exists awake l -> l ≫= jobs_of = [].
Proof.
  intros H. induction l as [|t l IH]; [done|]. rewrite Exists_cons in H. cbn.
  rewrite IH by tauto. destruct t; try done. cbn in H. tauto.
Qed.

(** C20: Jobs are begun in the order they were posted.  Whatever the clients
    did, the threads and pending notifications make only finitely many steps
    on their own; when they can make no more and a thread is left, every job
    posted is done, exactly once: no wake-up is lost.  When all threads have
    returned, which [stop] waits for, every job posted before [stop] is
    done. *)
Theorem job_pool_does_every_job (p : Pool) :
  pool_reach p ->
  started p ++ q_ p = posted p /\
  (forall k p', nsteps sys_step k p p' -> (k <= work p)%nat) /\
  ((forall p', ~ sys_step p p') -> Exists (fun t => t <> Exited) (threads_ p) -> finished p ≡ₚ posted p) /\
  (threads_ p <> [] -> Forall (fun t => t = Exited) (threads_ p) ->
     exists rest, finished p ≡ₚ posted_at_stop p ++ rest).
Proof.
  intros Hr%pool_reach_inv. destruct Hr as [H1 H2 H3 H4 H5 H6]. split_and!.
  - done.
  - clear. intros k p' Hk. induction Hk as [p|k p p1 p' Hs _ IH]; [lia|]. apply sys_step_work in Hs. lia.
  - intros Hstuck Hex. destruct (stuck_asleep p Hstuck) as [Ha Hn].
    rewrite (asleep_no_jobs _ Ha), app_nil_r in H2. rewrite <-H2, <-H1.
    destruct (q_ p) as [|j q]; [by rewrite app_nil_r|].
    exfalso. destruct H3 as [?|[?|Hw]]; [done|done|lia|].
    apply Exists_exists in Hex as (t & Hin & Ht). rewrite Forall_forall in Hw.
    pose proof (Hw t Hin) as Hw'. apply Ha, Exists_exists. exists t. split; [done|]. by destruct t.
  - intros Hne Hall. destruct H5 as [_ [rest Hrest]].
    { destruct (threads_ p) as [|t l]; [done|]. apply Forall_cons in Hall as [-> _]. by left. }
    exists rest. rewrite <-Hrest, H2, asleep_no_jobs, app_nil_r; [done|].
    apply Forall_not_Exists. eapply Forall_impl; [exact Hall|]. intros t ->. cbn. tauto.
Qed.
End pool.

Arguments Pool : clear implicits.

Definition demo_pool (ts : list (@thread nat)) (q st fin : list nat) (n : nat) : Pool nat := {|
  threads_ := ts; q_ := q; running_ := true; to_notify := n; stop_at := NotStopped;
  started := st; finished := fin; posted := [7%nat]; posted_at_stop := [];
|}.

Lemma demo_pool_reach : pool_reach (demo_pool [Waiting] [] [7%nat] [7%nat] 0).
Proof.
  apply (pool_reach_sys (demo_pool [Ready] [] [7%nat] [7%nat] 0)); [|by apply (step_worker _ 0)].
  apply (pool_reach_sys (demo_pool [Waiting] [] [7%nat] [7%nat] 1)); [|by apply (step_notify _ 0)].
  apply (pool_reach_sys (demo_pool [Ready] [] [7%nat] [7%nat] 1)); [|by apply (step_worker _ 0)].
  apply (pool_reach_sys (demo_pool [Running 7%nat] [] [7%nat] [] 1)); [|by apply (step_worker _ 0)].
  apply (pool_reach_sys (demo_pool [Ready] [7%nat] [] [] 1)); [|by apply (step_worker _ 0)].
  apply (pool_reach_env (pool_start pool_new 1)); [|by apply (step_post (pool_start pool_new 1) 7%nat)].
  apply (pool_reach_env pool_new); [constructor|by apply (step_start pool_new 0)].
Qed.

Lemma job_pool_does_every_job_witness :
  let p := demo_pool [Waiting] [] [7%nat] [7%nat] 0 in finished p ≡ₚ posted p.
Proof.
  destruct (job_pool_does_every_job _ demo_pool_reach) as (_ & _ & H & _). apply H.
  - intros p' Hs. inversion Hs as [p1 i p2 Hw|p1 i p2 Hw]; subst.
    + by destruct i as [|[|i]].
    + done.
  - by left.
Defined.
