(* ===== verification/Platform.v ===== *)
(** * Byte order (src/src/common/platform.hpp)

    The host is little-endian (x86-64, the platform of the build scripts): the
    object representation of an integer, which [memcpy] and
    [reinterpret_cast] expose, is [le_split], and reading it back is
    [le_combine].  [ntoh*] and [hton*] reverse the bytes.  [be_bytes] is what
    a big-endian field looks like on the wire or on disk. *)

From S2P Require Import Prelude.

(** Reversal of the [n] bytes of an integer. *)
Definition bswap (n : nat) (v : Z) : Z := le_combine (rev (le_split n v)).

Definition ntoh16 (v : Z) : Z := bswap 2 v.
Definition ntoh32 (v : Z) : Z := bswap 4 v.
Definition ntoh64 (v : Z) : Z := bswap 8 v.
Definition hton16 (v : Z) : Z := bswap 2 v.
Definition hton32 (v : Z) : Z := bswap 4 v.
Definition hton64 (v : Z) : Z := bswap 8 v.

(** The [_WIN32] bodies of [ntoh64] and [hton64], written with two 32-bit
    swaps. *)
Definition ntoh64_win32 (v : Z) : Z :=
  Z.lor (u64 (Z.shiftl (ntoh32 (u32 v)) 32)) (ntoh32 (u32 (Z.shiftr v 32))).

Definition hton64_win32 (v : Z) : Z :=
  Z.lor (hton32 (u32 (Z.shiftr v 32))) (u64 (Z.shiftl (hton32 (u32 v)) 32)).

(** The bytes of an [n]-byte integer in network order. *)
Definition be_bytes (n : nat) (v : Z) : bytes := rev (le_split n v).

(** The integer stored in the first [n] bytes of a buffer, in host order
    ([memcpy(&x, p, n)]). *)
Definition load (n : nat) (b : bytes) : Z := le_combine (take n b).

(** ** Lemmas *)
Section byte_order.
Implicit Types (n : nat) (v : Z) (b r : bytes).

Lemma length_be_bytes n v : length (be_bytes n v) = n.
Proof. unfold be_bytes. by rewrite length_rev, length_le_split. Qed.

Lemma zlength_be_bytes n v : zlength (be_bytes n v) = Z.of_nat n.
Proof. unfold zlength. by rewrite length_be_bytes. Qed.

Lemma bswap_range n v : 0 <= bswap n v < 2 ^ (8 * Z.of_nat n).
Proof.
  unfold bswap. pose proof (le_combine_bound (rev (le_split n v))) as H.
  rewrite length_rev, length_le_split in H. done.
Qed.

Lemma le_split_bswap n v : le_split n (bswap n v) = be_bytes n v.
Proof.
  unfold bswap, be_bytes. apply split_le_combine'.
  by rewrite length_rev, length_le_split.
Qed.

Lemma bswap_bswap n v : bswap n (bswap n v) = v mod 2 ^ (Z.of_nat n * 8).
Proof.
  unfold bswap at 1. rewrite le_split_bswap. unfold be_bytes.
  rewrite rev_involutive. apply le_combine_split.
Qed.

Lemma load_le_split n v r : load n (le_split n v ++ r) = v mod 2 ^ (Z.of_nat n * 8).
Proof.
  unfold load. rewrite take_app_length'; [apply le_combine_split|].
  by rewrite length_le_split.
Qed.

(** Fields of a packed struct: the buffer starts with the field. *)
Lemma load_at n v b r :
  b = le_split n v ++ r -> 0 <= v < 2 ^ (Z.of_nat n * 8) -> load n b = v.
Proof. intros -> H. rewrite load_le_split. by apply Z.mod_small. Qed.

(** What is loaded is what is stored. *)
Lemma le_split_load n b : (n <= length b)%nat -> le_split n (load n b) = take n b.
Proof. intros Hn. unfold load. apply split_le_combine'. rewrite length_take. lia. Qed.

Lemma load_range n b : 0 <= load n b < 2 ^ (8 * Z.of_nat n).
Proof.
  unfold load. pose proof (le_combine_bound (take n b)) as H. split; [apply H|].
  eapply Z.lt_le_trans; [apply H|]. apply Z.pow_le_mono_r; [lia|]. rewrite length_take. lia.
Qed.

Lemma take_at n (x b r : bytes) : b = x ++ r -> length x = n -> take n b = x.
Proof. intros -> H. by apply take_app_length'. Qed.

Lemma take_drop_at m n (y x b r : bytes) :
  b = y ++ x ++ r -> length y = m -> length x = n -> take n (drop m b) = x.
Proof. intros -> ? ?. rewrite drop_app_length' by done. by apply take_app_length'. Qed.

(** Reading a big-endian field and swapping it gives the value stored. *)
Lemma bswap_load_be n v r :
  bswap n (load n (be_bytes n v ++ r)) = v mod 2 ^ (Z.of_nat n * 8).
Proof.
  rewrite <- le_split_bswap, load_le_split.
  rewrite Z.mod_small by (rewrite (Z.mul_comm (Z.of_nat n)); apply bswap_range).
  apply bswap_bswap.
Qed.

Lemma le_split_app n m v :
  le_split (n + m) v = le_split n v ++ le_split m (Z.shiftr v (8 * Z.of_nat n)).
Proof.
  revert v. induction n as [|n IH]; intros v.
  { simpl. by rewrite Z.shiftr_0_r. }
  change (le_split (S n + m) v)
    with (byte.of_Z v :: le_split (n + m) (Z.shiftr v 8)).
  change (le_split (S n) v) with (byte.of_Z v :: le_split n (Z.shiftr v 8)).
  rewrite IH, Z.shiftr_shiftr by lia. simpl. do 4 f_equal. lia.
Qed.
End byte_order.

Lemma ntoh16_hton16 v : is_u16 v -> ntoh16 (hton16 v) = v.
Proof. intros H. unfold ntoh16, hton16. rewrite bswap_bswap. by apply u16_small. Qed.

Lemma ntoh32_hton32 v : is_u32 v -> ntoh32 (hton32 v) = v.
Proof. intros H. unfold ntoh32, hton32. rewrite bswap_bswap. by apply u32_small. Qed.

Lemma ntoh64_hton64 v : is_u64 v -> ntoh64 (hton64 v) = v.
Proof. intros H. unfold ntoh64, hton64. rewrite bswap_bswap. by apply u64_small. Qed.

(** Two 4-byte swaps of the halves, exchanged, are the 8-byte swap. *)
Lemma bswap8_halves v :
  bswap 8 v = Z.lor (bswap 4 (Z.shiftr v 32)) (Z.shiftl (bswap 4 v) 32).
Proof.
  unfold bswap at 1. rewrite (le_split_app 4 4), rev_app_distr, le_combine_app.
  rewrite length_rev, length_le_split. done.
Qed.

Lemma bswap4_u32 v : bswap 4 (u32 v) = bswap 4 v.
Proof. unfold bswap, u32. by rewrite (le_split_mod v 4). Qed.

Lemma shiftl_bswap4_u64 v : u64 (Z.shiftl (bswap 4 v) 32) = Z.shiftl (bswap 4 v) 32.
Proof.
  apply u64_small. unfold is_u64. rewrite Z.shiftl_mul_pow2 by lia.
  pose proof (bswap_range 4 v). simpl in *. lia.
Qed.

(** The Windows bodies of [ntoh64] and [hton64] compute the same function
    as the Linux ones ([be64toh]/[htobe64]): a .tseed file written on one
    platform is read on the other. *)
Theorem hton64_win32_equiv v :
  hton64_win32 v = hton64 v /\ ntoh64_win32 v = ntoh64 v.
Proof.
  unfold hton64_win32, ntoh64_win32, hton32, ntoh32, hton64, ntoh64.
  rewrite !bswap4_u32, shiftl_bswap4_u64, bswap8_halves. split; [done|].
  apply Z.lor_comm.
Qed.
