(* ===== verification/Hash.v ===== *)
(** * Digests and hashes (src/src/common/hash.hpp, hash.cpp)

    The digests come from OpenSSL, which is not part of the repository: the
    [EVP_*] calls are a class [Evp] of operations, [EvpLaws] the documented
    facts the code relies on.  [sha256_file] is modelled with its 64 KiB read
    loop, the hex printers and [xxhash64] are translated in full. *)

From S2P Require Import Prelude Platform.
From Stdlib Require Import Ascii.


(** ** OpenSSL's digest interface for one algorithm; [None] is a return code
    other than 1 (or a null context). *)
Class Evp := {
  evp_ctx : Type;
  evp_ctx_new : option evp_ctx;
  evp_init : evp_ctx -> option evp_ctx;
  evp_update : evp_ctx -> bytes -> option evp_ctx;
  evp_final : evp_ctx -> option bytes;
  evp_digest : bytes -> option bytes;
  evp_size : Z;
}.

(** A context that has absorbed [m] is described by [evp_absorbed c m]. *)
Class EvpLaws (E : Evp) := {
  evp_absorbed : evp_ctx -> bytes -> Prop;
  evp_init_absorbed c c' : evp_init c = Some c' -> evp_absorbed c' [];
  evp_update_absorbed c c' m x :
    evp_absorbed c m -> evp_update c x = Some c' -> evp_absorbed c' (m ++ x);
  evp_final_absorbed c m d :
    evp_absorbed c m -> evp_final c = Some d -> evp_digest m = Some d;
  evp_digest_size m d : evp_digest m = Some d -> zlength d = evp_size;
}.

(** The exceptions ([std::runtime_error]) of this file. *)
Inductive hash_error :=
| DigestFailed
| CannotOpen
| CtxNewFailed
| DigestInitFailed
| DigestUpdateFailed
| DigestFinalFailed.

Section digests.
Context {E : Evp}.

(** [sha256] and [sha1] (one call to [EVP_Digest]). *)
Definition sha256 (data : bytes) : result hash_error bytes :=
  match evp_digest data with Some d => Ok d | None => Err DigestFailed end.

Definition sha1 (data : bytes) : result hash_error bytes :=
  match evp_digest data with Some d => Ok d | None => Err DigestFailed end.

Definition BUF : Z := 65536.

(** The read loop of [sha256_file]: [rest] is what the stream has not
    delivered yet, [size] the bytes the loop still expects. *)
Fixpoint sha256_file_loop (fuel : nat) (ctx : evp_ctx) (rest : bytes) (size : Z)
  : result hash_error evp_ctx :=
  match fuel with
  | O => Ok ctx
  | S fuel =>
    if negb (0 <? size) then Ok ctx else
    let chunk := if BUF <? size then BUF else size in
    let got_data := zslice rest 0 chunk in
    let got := zlength got_data in
    if got <=? 0 then Ok ctx else
    match evp_update ctx got_data with
    | None => Err DigestUpdateFailed
    | Some ctx' => sha256_file_loop fuel ctx' (drop (Z.to_nat chunk) rest) (size - got)
    end
  end.

(** [sha256_file]; [file] is the content at the path, [None] when it cannot
    be opened.  The loop reads at least one byte per turn, so its length is
    enough fuel. *)
Definition sha256_file (file : option bytes) : result hash_error bytes :=
  match file with
  | None => Err CannotOpen
  | Some data =>
    let size := zlength data in
    match evp_ctx_new with
    | None => Err CtxNewFailed
    | Some c =>
      match evp_init c with
      | None => Err DigestInitFailed
      | Some c0 =>
        let! c1 := sha256_file_loop (length data) c0 data size in
        match evp_final c1 with None => Err DigestFinalFailed | Some d => Ok d end
      end
    end
  end.
End digests.

(** ** Hexadecimal printing *)
Definition hex_digit (n : Z) : ascii :=
  ascii_of_N (Z.to_N (if n <? 10 then 48 + n else 87 + n)).

(** [oss.width(2); oss << (unsigned) b] with [std::hex] and fill ['0']. *)
Definition hex_byte (b : byte) : list ascii :=
  [hex_digit (byte.unsigned b / 16); hex_digit (byte.unsigned b mod 16)].

Definition sha256_hex (d : bytes) : string := String.string_of_list_ascii (d ≫= hex_byte).
Definition sha1_hex (d : bytes) : string := String.string_of_list_ascii (d ≫= hex_byte).

(** The inverse, used to state that printing loses nothing. *)
Definition unhex_digit (a : ascii) : Z :=
  let n := Z.of_N (N_of_ascii a) in if n <? 58 then n - 48 else n - 87.

Fixpoint unhex (l : list ascii) : bytes :=
  match l with
  | a :: b :: r => byte.of_Z (16 * unhex_digit a + unhex_digit b) :: unhex r
  | _ => []
  end.

(** ** xxHash64 *)
Definition XXH_PRIME64_1 : Z := 0x9E3779B185EBCA87.
Definition XXH_PRIME64_2 : Z := 0xC2B2AE3D27D4EB4F.
Definition XXH_PRIME64_3 : Z := 0x165667B19E3779F9.
Definition XXH_PRIME64_4 : Z := 0x85EBCA77C2B2AE63.
Definition XXH_PRIME64_5 : Z := 0x27D4EB2F165667C5.

Definition xxh_rotl64 (x r : Z) : Z :=
  Z.lor (u64 (Z.shiftl x r)) (Z.shiftr x (64 - r)).

Definition xxh64_round (acc input : Z) : Z :=
  let acc := u64 (acc + u64 (input * XXH_PRIME64_2)) in
  let acc := xxh_rotl64 acc 31 in
  u64 (acc * XXH_PRIME64_1).

Definition xxh64_avalanche (h : Z) : Z :=
  let h := Z.lxor h (Z.shiftr h 33) in
  let h := u64 (h * XXH_PRIME64_2) in
  let h := Z.lxor h (Z.shiftr h 29) in
  let h := u64 (h * XXH_PRIME64_3) in
  Z.lxor h (Z.shiftr h 32).

Definition xxh_read64le (p : bytes) : Z := load 8 p.

(** The accumulators [v1 .. v4]. *)
Record xxh_acc := XxhAcc { v1 : Z; v2 : Z; v3 : Z; v4 : Z }.

Definition xxh_stripe (v : xxh_acc) (p : bytes) : xxh_acc :=
  {| v1 := xxh64_round (v1 v) (xxh_read64le p);
     v2 := xxh64_round (v2 v) (xxh_read64le (drop 8 p));
     v3 := xxh64_round (v3 v) (xxh_read64le (drop 16 p));
     v4 := xxh64_round (v4 v) (xxh_read64le (drop 24 p)) |}.

(** [for (; data + min_rest <= end; data += 32)] over the bytes from [data]
    to [end]; returns the accumulators and where [data] stops. *)
Fixpoint xxh_stripes (min_rest : Z) (fuel : nat) (v : xxh_acc) (p : bytes)
  : xxh_acc * bytes :=
  match fuel with
  | O => (v, p)
  | S fuel =>
    if min_rest <=? zlength p
    then xxh_stripes min_rest fuel (xxh_stripe v p) (drop 32 p)
    else (v, p)
  end.

(** One merge round of lines 163-173. *)
Definition xxh_merge (h v : Z) : Z :=
  let v := u64 (v * XXH_PRIME64_2) in
  let v := xxh_rotl64 v 31 in
  let v := u64 (v * XXH_PRIME64_1) in
  let h := Z.lxor h v in
  u64 (u64 (h * XXH_PRIME64_1) + XXH_PRIME64_4).

Fixpoint xxh_tail8 (fuel : nat) (h : Z) (p : bytes) : Z * bytes :=
  match fuel with
  | O => (h, p)
  | S fuel =>
    if 8 <=? zlength p then
      let k1 := xxh64_round 0 (xxh_read64le p) in
      let h := Z.lxor h k1 in
      let h := u64 (u64 (xxh_rotl64 h 27 * XXH_PRIME64_1) + XXH_PRIME64_4) in
      xxh_tail8 fuel h (drop 8 p)
    else (h, p)
  end.

Definition xxh_tail4 (h : Z) (p : bytes) : Z * bytes :=
  if 4 <=? zlength p then
    let h := Z.lxor h (u64 (load 4 p * XXH_PRIME64_1)) in
    let h := u64 (u64 (xxh_rotl64 h 23 * XXH_PRIME64_2) + XXH_PRIME64_3) in
    (h, drop 4 p)
  else (h, p).

Fixpoint xxh_tail1 (h : Z) (p : bytes) : Z :=
  match p with
  | [] => h
  | b :: p =>
    let h := Z.lxor h (u64 (byte.unsigned b * XXH_PRIME64_5)) in
    xxh_tail1 (u64 (xxh_rotl64 h 11 * XXH_PRIME64_1)) p
  end.

(** [xxhash64] with the stripe loop running while [min_rest] bytes remain. *)
Definition xxh64_with (min_rest : Z) (data : bytes) (seed : Z) : Z :=
  let len := zlength data in
  let '(h64, p) :=
    if 32 <=? len then
      let v0 := {| v1 := u64 (u64 (seed + XXH_PRIME64_1) + XXH_PRIME64_2);
                   v2 := u64 (seed + XXH_PRIME64_2);
                   v3 := seed;
                   v4 := u64 (seed - XXH_PRIME64_1) |} in
      let '(v, p) := xxh_stripes min_rest (length data) v0 data in
      let h := u64 (u64 (u64 (xxh_rotl64 (v1 v) 1 + xxh_rotl64 (v2 v) 7)
                         + xxh_rotl64 (v3 v) 12) + xxh_rotl64 (v4 v) 18) in
      (xxh_merge (xxh_merge (xxh_merge (xxh_merge h (v1 v)) (v2 v)) (v3 v)) (v4 v), p)
    else (u64 (seed + XXH_PRIME64_5), data) in
  let h64 := u64 (h64 + len) in
  let '(h64, p) := xxh_tail8 (length p) h64 p in
  let '(h64, p) := xxh_tail4 h64 p in
  xxh64_avalanche (xxh_tail1 h64 p).

(** The source compares [data <= limit - 32] where [limit] is already
    [end - 32]: the loop needs 64 remaining bytes. *)
Definition xxhash64 (data : bytes) (seed : Z) : Z := xxh64_with 64 data seed.

(** The published XXH64 algorithm, whose loop runs while a 32-byte stripe
    remains. *)
Definition xxh64_reference (data : bytes) (seed : Z) : Z := xxh64_with 32 data seed.

(** A concrete digest (the first [n] bytes of the zero-padded message) for
    the parameters of the components that hash. *)
Definition toy_digest (n : nat) (m : bytes) : bytes := take n (m ++ replicate n Byte.x00).

(** The interface instantiated with it, to show that the laws can hold. *)
#[export] Instance toy_evp : Evp := {|
  evp_ctx := bytes;
  evp_ctx_new := Some [];
  evp_init _ := Some [];
  evp_update c x := Some (c ++ x);
  evp_final c := Some (toy_digest 4 c);
  evp_digest m := Some (toy_digest 4 m);
  evp_size := 4;
|}.

Lemma zlength_toy_digest n m : zlength (toy_digest n m) = Z.of_nat n.
Proof.
  unfold toy_digest, zlength. rewrite length_take, length_app, length_replicate. lia.
Qed.

(** ** sha256_file *)
#[export] Program Instance toy_evp_laws : EvpLaws toy_evp := {|
  evp_absorbed c m := c = m;
|}.
Next Obligation. intros; simpl in *; congruence. Qed.
Next Obligation. intros; simpl in *; congruence. Qed.
Next Obligation. intros; simpl in *; congruence. Qed.
Next Obligation.
  intros m d H. change (Some (toy_digest 4 m) = Some d) in H.
  simplify_eq. apply zlength_toy_digest.
Qed.

Section sha256_file.
Context {E : Evp} {L : EvpLaws E}.

Lemma sha256_file_loop_absorbs fuel c m rest size :
  (forall c x, is_Some (evp_update c x)) ->
  evp_absorbed c m -> size = zlength rest -> (length rest <= fuel)%nat ->
  exists c', sha256_file_loop fuel c rest size = Ok c' /\ evp_absorbed c' (m ++ rest).
Proof.
  intros Hupd. revert c m rest size.
  induction fuel as [|fuel IH]; intros c m rest size Hc -> Hf; simpl.
  { destruct rest; [|simpl in Hf; lia]. exists c. by rewrite app_nil_r. }
  destruct (0 <? zlength rest) eqn:Hz; simpl.
  2: { assert (rest = []) as -> by (destruct rest; [done|unfold zlength in Hz; simpl in Hz; lia]).
       exists c. by rewrite app_nil_r. }
  set (chunk := if BUF <? zlength rest then BUF else zlength rest).
  assert (0 < chunk <= zlength rest) as Hchunk.
  { unfold chunk. destruct (BUF <? zlength rest) eqn:?; unfold BUF in *; lia. }
  assert (zlength (zslice rest 0 chunk) = chunk) as Hlen by (apply length_zslice; lia).
  rewrite Hlen. replace (chunk <=? 0) with false by lia.
  destruct (Hupd c (zslice rest 0 chunk)) as [c1 Hc1]. rewrite Hc1.
  destruct (IH c1 (m ++ zslice rest 0 chunk) (drop (Z.to_nat chunk) rest)
              (zlength rest - chunk)) as (c' & -> & Habs).
  - eapply evp_update_absorbed; eauto.
  - unfold zlength in *. rewrite length_drop. lia.
  - rewrite length_drop. unfold zlength in *. lia.
  - exists c'. split; [done|]. rewrite <- app_assoc in Habs.
    unfold zslice in Habs. simpl in Habs. by rewrite take_drop in Habs.
Qed.

(** C36: When the EVP calls succeed, [sha256_file] returns, and what it returns
    is the digest of the whole content: reading in 64 KiB blocks changes
    nothing. *)
Theorem sha256_file_correct (data : bytes) (c c0 : evp_ctx) :
  evp_ctx_new = Some c -> evp_init c = Some c0 ->
  (forall c x, is_Some (evp_update c x)) -> (forall c, is_Some (evp_final c)) ->
  exists d, sha256_file (Some data) = Ok d /\ sha256 data = Ok d.
Proof.
  intros Hnew Hinit Hupd Hfin. unfold sha256_file, sha256. rewrite Hnew, Hinit.
  destruct (sha256_file_loop_absorbs (length data) c0 [] data (zlength data) Hupd)
    as (c1 & -> & Habs); [by eapply evp_init_absorbed|done|lia|]. simpl.
  destruct (Hfin c1) as [d Hd]. exists d.
  apply (evp_final_absorbed _ _ d) in Habs; [|done]. simpl in Habs.
  by rewrite Hd, Habs.
Qed.
End sha256_file.

Lemma sha256_file_correct_witness :
  exists d, sha256_file (E:=toy_evp) (Some [Byte.x01; Byte.x02; Byte.x03; Byte.x04; Byte.x05])
            = Ok d /\ sha256 [Byte.x01; Byte.x02; Byte.x03; Byte.x04; Byte.x05] = Ok d.
Proof.
  apply (sha256_file_correct (E:=toy_evp) _ [] []); [done|done|simpl; eauto|simpl; eauto].
Defined.

(** ** Hexadecimal *)
Lemma unhex_hex_digit n : 0 <= n < 16 -> unhex_digit (hex_digit n) = n.
Proof.
  intros H. assert (In n (map Z.of_nat (seq 0 16))) as Hin.
  { apply in_map_iff. exists (Z.to_nat n). split; [lia|]. apply in_seq. lia. }
  simpl in Hin. by repeat destruct Hin as [<-|Hin].
Qed.

Lemma unhex_hex_byte b l : unhex (hex_byte b ++ l) = b :: unhex l.
Proof.
  simpl. pose proof (byte.unsigned_range b).
  rewrite !unhex_hex_digit by (Z.div_mod_to_equations; lia). f_equal.
  rewrite <- (byte.of_Z_unsigned b) at 3. f_equal.
  Z.div_mod_to_equations; lia.
Qed.

Lemma unhex_bind d : unhex (d ≫= hex_byte) = d.
Proof.
  induction d as [|b d IH]; [done|].
  rewrite bind_cons, unhex_hex_byte. by rewrite IH.
Qed.

Lemma length_hex_bind d : length (d ≫= hex_byte) = (2 * length d)%nat.
Proof. induction d as [|b d IH]; [done|]. rewrite bind_cons, length_app, IH. simpl. lia. Qed.

(** The hexadecimal form of a digest has two characters per byte and
    determines the digest: info-hashes compared as strings by the tracker are
    equal exactly when the digests are. *)
Theorem sha1_hex_faithful (d d' : bytes) :
  String.length (sha1_hex d) = (2 * length d)%nat /\
  (sha1_hex d = sha1_hex d' <-> d = d').
Proof.
  unfold sha1_hex. split.
  - rewrite <- (length_hex_bind d). generalize (d ≫= hex_byte).
    intros l. induction l; simpl; congruence.
  - split; [|by intros ->]. intros H.
    apply (f_equal String.list_ascii_of_string) in H.
    rewrite !String.list_ascii_of_string_of_list_ascii in H.
    by rewrite <- (unhex_bind d), H, unhex_bind.
Qed.

(** ** xxHash64 *)
Lemma xxh_stripes_rest (k : Z) fuel v p :
  32 <= k -> (length p <= fuel)%nat ->
  zlength (snd (xxh_stripes k fuel v p)) =
  if k <=? zlength p then k - 32 + (zlength p - (k - 32)) mod 32 else zlength p.
Proof.
  intros Hk. revert v p. induction fuel as [|fuel IH]; intros v p Hf; simpl.
  { unfold zlength. replace (length p) with 0%nat by lia.
    replace (k <=? Z.of_nat 0) with false by lia. done. }
  destruct (k <=? zlength p) eqn:E; [|done].
  assert (zlength (drop 32 p) = zlength p - 32) as Hl.
  { unfold zlength in *. rewrite length_drop. lia. }
  rewrite IH by (rewrite length_drop; unfold zlength in *; lia). rewrite Hl.
  destruct (k <=? zlength p - 32) eqn:E'.
  - f_equal. replace (zlength p - (k - 32)) with (zlength p - 32 - (k - 32) + 1 * 32) by lia.
    by rewrite Z.mod_add by lia.
  - Z.div_mod_to_equations. lia.
Qed.

(** The stripe loop of [xxhash64] stops one stripe early: on every input
    of at least 32 bytes it leaves 32 + (len mod 32) bytes to the tail loops,
    where XXH64 leaves len mod 32.  Shorter inputs hash as XXH64 does, and on
    32 zero bytes the results differ. *)
Theorem xxhash64_stops_one_stripe_early :
  (forall data v, 32 <= zlength data ->
     zlength (snd (xxh_stripes 64 (length data) v data)) = 32 + zlength data mod 32 /\
     zlength (snd (xxh_stripes 32 (length data) v data)) = zlength data mod 32) /\
  (forall data seed, zlength data < 32 -> xxhash64 data seed = xxh64_reference data seed) /\
  xxhash64 (replicate 32 Byte.x00) 0 <> xxh64_reference (replicate 32 Byte.x00) 0.
Proof.
  split; [|split].
  - intros data v Hlen. rewrite !xxh_stripes_rest by lia. split.
    + destruct (64 <=? zlength data) eqn:E; [|Z.div_mod_to_equations; lia].
      change (64 - 32) with 32. f_equal.
      rewrite <- (Z.mod_add (zlength data - 32) 1 32) by lia. f_equal. lia.
    + replace (32 <=? zlength data) with true by lia.
      change (32 - 32) with 0. by rewrite Z.sub_0_r, Z.add_0_l.
  - intros data seed Hlen. unfold xxhash64, xxh64_reference, xxh64_with.
    by replace (32 <=? zlength data) with false by lia.
  - vm_compute. discriminate.
Qed.
