(* ===== verification/Seed.v ===== *)
(** * The .tseed file (src/src/seed: tseed.hpp, seed_writer.cpp, seed_reader.cpp)

    [TSeedHeader] and [ChunkEntry] are packed structs: their object
    representation is the concatenation of their fields, 92 and 44 bytes.  The
    writer emits them in network order; the reader recognises network order
    by the magic number and also accepts files in host order.  A stream is
    the list of bytes not read yet; the exceptions of the two files are
    [seed_error].  SHA-256 and SHA-1 are parameters. *)

From S2P Require Import Prelude Platform Hash.

(** ** Packed structs *)
Record TSeedHeader := {
  magic : Z;
  version : Z;
  flags : Z;
  chunk_count : Z;
  file_size : Z;
  min_chunk_size : Z;
  avg_chunk_size : Z;
  max_chunk_size : Z;
  file_name_len : Z;
  announce_len : Z;
  reserved : bytes;
  file_sha256 : bytes;
}.

Definition MAGIC : Z := 0x54425344.

Record ChunkEntry := {
  ce_offset : Z;
  ce_length : Z;
  ce_sha256 : bytes;
}.

Record TSeedFile := {
  header : TSeedHeader;
  file_name : bytes;
  announce_url : bytes;
  chunks : list ChunkEntry;
  info_hash : bytes;
}.

(** [TSeedHeader::to_host_endian] and [to_network_endian]. *)
Definition header_to_host_endian (h : TSeedHeader) : TSeedHeader := {|
  magic := ntoh32 (magic h);
  version := ntoh16 (version h);
  flags := ntoh16 (flags h);
  chunk_count := ntoh32 (chunk_count h);
  file_size := ntoh64 (file_size h);
  min_chunk_size := ntoh32 (min_chunk_size h);
  avg_chunk_size := ntoh32 (avg_chunk_size h);
  max_chunk_size := ntoh32 (max_chunk_size h);
  file_name_len := ntoh32 (file_name_len h);
  announce_len := ntoh32 (announce_len h);
  reserved := reserved h;
  file_sha256 := file_sha256 h;
|}.

Definition header_to_network_endian (h : TSeedHeader) : TSeedHeader := {|
  magic := hton32 (magic h);
  version := hton16 (version h);
  flags := hton16 (flags h);
  chunk_count := hton32 (chunk_count h);
  file_size := hton64 (file_size h);
  min_chunk_size := hton32 (min_chunk_size h);
  avg_chunk_size := hton32 (avg_chunk_size h);
  max_chunk_size := hton32 (max_chunk_size h);
  file_name_len := hton32 (file_name_len h);
  announce_len := hton32 (announce_len h);
  reserved := reserved h;
  file_sha256 := file_sha256 h;
|}.

Definition entry_to_host_endian (c : ChunkEntry) : ChunkEntry :=
  {| ce_offset := ntoh64 (ce_offset c); ce_length := ntoh32 (ce_length c);
     ce_sha256 := ce_sha256 c |}.

Definition entry_to_network_endian (c : ChunkEntry) : ChunkEntry :=
  {| ce_offset := hton64 (ce_offset c); ce_length := hton32 (ce_length c);
     ce_sha256 := ce_sha256 c |}.

(** Object representations ([reinterpret_cast<const char*>(&hdr)]). *)
Definition header_repr (h : TSeedHeader) : bytes :=
  le_split 4 (magic h) ++ le_split 2 (version h) ++ le_split 2 (flags h) ++
  le_split 4 (chunk_count h) ++ le_split 8 (file_size h) ++
  le_split 4 (min_chunk_size h) ++ le_split 4 (avg_chunk_size h) ++
  le_split 4 (max_chunk_size h) ++ le_split 4 (file_name_len h) ++
  le_split 4 (announce_len h) ++ reserved h ++ file_sha256 h.

Definition entry_repr (c : ChunkEntry) : bytes :=
  le_split 8 (ce_offset c) ++ le_split 4 (ce_length c) ++ ce_sha256 c.

(** The structs stored in a buffer. *)
Definition header_of_repr (b : bytes) : TSeedHeader := {|
  magic := load 4 b;
  version := load 2 (drop 4 b);
  flags := load 2 (drop 6 b);
  chunk_count := load 4 (drop 8 b);
  file_size := load 8 (drop 12 b);
  min_chunk_size := load 4 (drop 20 b);
  avg_chunk_size := load 4 (drop 24 b);
  max_chunk_size := load 4 (drop 28 b);
  file_name_len := load 4 (drop 32 b);
  announce_len := load 4 (drop 36 b);
  reserved := take 20 (drop 40 b);
  file_sha256 := take 32 (drop 60 b);
|}.

Definition entry_of_repr (b : bytes) : ChunkEntry := {|
  ce_offset := load 8 b;
  ce_length := load 4 (drop 8 b);
  ce_sha256 := take 32 (drop 12 b);
|}.

Definition HEADER_SIZE : Z := 92.
Definition ENTRY_SIZE : Z := 44.

Inductive seed_error :=
| SeedHash (e : hash_error)
| CannotCreate
| WriteFailed
| CannotOpenSeed
| UnexpectedEof
| BadMagic (digest : string)
| BadVersion (v : Z).

Section seed.
Variable sha256 : bytes -> bytes.
Variable sha1 : bytes -> bytes.

(** [TSeedFile::compute_info_hash]: the buffer hashed, then the hash. *)
Definition info_hash_input (sha : bytes) (cs : list ChunkEntry) : bytes :=
  sha ++ (cs ≫= fun c => le_split 8 (hton64 (ce_offset c)) ++
                         le_split 4 (hton32 (ce_length c)) ++ ce_sha256 c).

Definition compute_info_hash (h : TSeedHeader) (cs : list ChunkEntry) : bytes :=
  sha1 (info_hash_input (file_sha256 h) cs).

(** ** Writer *)
(** The end of the furthest chunk (lines 19-23). *)
Fixpoint total_file_size (acc : Z) (cs : list ChunkEntry) : Z :=
  match cs with
  | [] => acc
  | c :: cs =>
    let chunk_end := u64 (ce_offset c + ce_length c) in
    total_file_size (if acc <? chunk_end then chunk_end else acc) cs
  end.

Definition build_header (digest name url : bytes) (cs : list ChunkEntry)
    (min_size avg_size max_size : Z) : TSeedHeader := {|
  magic := MAGIC;
  version := 1;
  flags := 0;
  chunk_count := u32 (zlength cs);
  file_size := total_file_size 0 cs;
  min_chunk_size := min_size;
  avg_chunk_size := avg_size;
  max_chunk_size := max_size;
  file_name_len := u32 (zlength name);
  announce_len := u32 (zlength url);
  reserved := replicate 20 Byte.x00;
  file_sha256 := digest;
|}.

(** [write_tseed]: the content of the created file.  [file] is the source
    file ([None] if it cannot be opened), [created] whether the output stream
    opens, [written] whether every write succeeds. *)
Definition write_tseed (created written : bool) (file : option bytes)
    (name url : bytes) (cs : list ChunkEntry) (min_size avg_size max_size : Z)
  : result seed_error bytes :=
  match file with
  | None => Err (SeedHash CannotOpen)
  | Some data =>
    let hdr := build_header (sha256 data) name url cs min_size avg_size max_size in
    let hdr := header_to_network_endian hdr in
    if negb created then Err CannotCreate else
    if negb written then Err WriteFailed else
    Ok (header_repr hdr ++ name ++ url ++
        (cs ≫= fun c => entry_repr (entry_to_network_endian c)))
  end.

(** ** Reader *)
(** [read_exact]: the bytes read and the rest of the stream. *)
Definition read_exact (f : bytes) (len : Z) : result seed_error (bytes * bytes) :=
  if zlength f <? len then Err UnexpectedEof
  else Ok (take (Z.to_nat len) f, drop (Z.to_nat len) f).

(** The chunk loop (lines 57-63). *)
Fixpoint read_chunks (n : nat) (needs_swap : bool) (f : bytes)
  : result seed_error (list ChunkEntry * bytes) :=
  match n with
  | O => Ok ([], f)
  | S n =>
    let! (b, f) := read_exact f ENTRY_SIZE in
    let c := entry_of_repr b in
    let c := if needs_swap then entry_to_host_endian c else c in
    let! (cs, f) := read_chunks n needs_swap f in
    Ok (c :: cs, f)
  end.

Definition read_tseed (file : option bytes) : result seed_error TSeedFile :=
  match file with
  | None => Err CannotOpenSeed
  | Some f =>
    let! (b, f) := read_exact f HEADER_SIZE in
    let raw := header_of_repr b in
    let needs_swap := negb (magic raw =? MAGIC) in
    let hdr := if needs_swap then header_to_host_endian raw else raw in
    if needs_swap && negb (magic hdr =? MAGIC) then
      Err (BadMagic (String.substring 0 8
             (sha256_hex (sha256 (take 4 (header_repr hdr))))))
    else if (version hdr <? 1) || (4 <? version hdr) then Err (BadVersion (version hdr))
    else
      let! (name, f) := read_exact f (file_name_len hdr) in
      let! (url, f) := read_exact f (announce_len hdr) in
      let! (cs, f) := read_chunks (Z.to_nat (chunk_count hdr)) needs_swap f in
      Ok {| header := hdr; file_name := name; announce_url := url; chunks := cs;
            info_hash := compute_info_hash hdr cs |}
  end.
End seed.

(** ** Well-formed values *)
Definition entry_ok (c : ChunkEntry) : Prop :=
  is_u64 (ce_offset c) /\ is_u32 (ce_length c) /\ zlength (ce_sha256 c) = 32.

Record header_ok (h : TSeedHeader) : Prop := {
  ok_magic : is_u32 (magic h);
  ok_version : is_u16 (version h);
  ok_flags : is_u16 (flags h);
  ok_chunk_count : is_u32 (chunk_count h);
  ok_file_size : is_u64 (file_size h);
  ok_min : is_u32 (min_chunk_size h);
  ok_avg : is_u32 (avg_chunk_size h);
  ok_max : is_u32 (max_chunk_size h);
  ok_name_len : is_u32 (file_name_len h);
  ok_ann_len : is_u32 (announce_len h);
  ok_reserved : zlength (reserved h) = 20;
  ok_sha : zlength (file_sha256 h) = 32;
}.

(** ** Object representations *)
Lemma header_of_header_repr h r :
  header_ok h -> header_of_repr (header_repr h ++ r) = h.
Proof.
  intros []. unfold header_of_repr, header_repr, zlength in *.
  rewrite <- !app_assoc. destruct h; simpl in * |-.
  f_equal; try (eapply load_at; [reflexivity|done]).
  - eapply take_at; [reflexivity|simpl; lia].
  - change (drop 60) with (drop (A:=byte) (40 + 20)). rewrite <- drop_drop.
    eapply take_drop_at; [reflexivity|simpl; lia|simpl; lia].
Qed.

Lemma entry_of_entry_repr c r :
  entry_ok c -> entry_of_repr (entry_repr c ++ r) = c.
Proof.
  intros (? & ? & Hs). unfold entry_of_repr, entry_repr, zlength in *.
  rewrite <- !app_assoc. destruct c; simpl in * |-.
  f_equal; try (eapply load_at; [reflexivity|done]).
  eapply take_at; [reflexivity|simpl; lia].
Qed.

Lemma zlength_header_repr h : header_ok h -> zlength (header_repr h) = HEADER_SIZE.
Proof.
  intros []. unfold header_repr, zlength in *. rewrite !length_app, !length_le_split.
  unfold HEADER_SIZE. lia.
Qed.

Lemma zlength_entry_repr c : entry_ok c -> zlength (entry_repr c) = ENTRY_SIZE.
Proof.
  intros (_ & _ & H). unfold entry_repr, zlength in *.
  rewrite !length_app, !length_le_split. unfold ENTRY_SIZE. lia.
Qed.

(** ** Byte order of the structs *)
Lemma header_host_network h :
  header_ok h -> header_to_host_endian (header_to_network_endian h) = h.
Proof.
  intros []. unfold header_to_host_endian, header_to_network_endian. destruct h.
  simpl in *. f_equal; auto using ntoh16_hton16, ntoh32_hton32, ntoh64_hton64.
Qed.

Lemma header_ok_network h : header_ok h -> header_ok (header_to_network_endian h).
Proof.
  intros []. constructor; try done; simpl;
    first [apply (bswap_range 2)|apply (bswap_range 4)|apply (bswap_range 8)].
Qed.

Lemma entry_host_network c :
  entry_ok c -> entry_to_host_endian (entry_to_network_endian c) = c.
Proof.
  intros (? & ? & _). destruct c. unfold entry_to_host_endian, entry_to_network_endian.
  simpl in *. f_equal; auto using ntoh32_hton32, ntoh64_hton64.
Qed.

Lemma entry_ok_network c : entry_ok c -> entry_ok (entry_to_network_endian c).
Proof.
  intros (? & ? & ?). split_and!; [apply (bswap_range 8)|apply (bswap_range 4)|done].
Qed.

(** The bytes of a header and of the chunk table in either byte order. *)
Definition header_bytes (swap : bool) (h : TSeedHeader) : bytes :=
  header_repr (if swap then header_to_network_endian h else h).

Definition entry_bytes (swap : bool) (c : ChunkEntry) : bytes :=
  entry_repr (if swap then entry_to_network_endian c else c).

Definition seed_bytes (swap : bool) (h : TSeedHeader) (name url : bytes)
    (cs : list ChunkEntry) : bytes :=
  header_bytes swap h ++ name ++ url ++ (cs ≫= entry_bytes swap).

Lemma zlength_header_bytes swap h : header_ok h -> zlength (header_bytes swap h) = HEADER_SIZE.
Proof. unfold header_bytes. destruct swap; auto using zlength_header_repr, header_ok_network. Qed.

Lemma zlength_entry_bytes swap c : entry_ok c -> zlength (entry_bytes swap c) = ENTRY_SIZE.
Proof. unfold entry_bytes. destruct swap; auto using zlength_entry_repr, entry_ok_network. Qed.

(** ** Reading a prefix of an encoding *)
Lemma read_exact_take (x r : bytes) (len : Z) (k : nat) :
  zlength x = len ->
  read_exact (take k (x ++ r)) len =
  if Z.of_nat k <? len then Err UnexpectedEof else Ok (x, take (k - length x) r).
Proof.
  unfold read_exact, zlength. intros Hx. rewrite length_take, length_app.
  destruct (Z.of_nat k <? len) eqn:E.
  - by replace (Z.of_nat _ <? len) with true by lia.
  - replace (Z.of_nat _ <? len) with false by lia.
    rewrite take_app_ge by lia. do 2 f_equal.
    + apply take_app_length'. lia.
    + apply drop_app_length'. lia.
Qed.

Lemma read_exact_app (x r : bytes) (len : Z) :
  zlength x = len -> read_exact (x ++ r) len = Ok (x, r).
Proof.
  intros Hx. rewrite <- (take_ge (x ++ r) (length (x ++ r))) by done.
  rewrite (read_exact_take _ _ len) by done. unfold zlength in *. rewrite length_app.
  replace (Z.of_nat _ <? len) with false by lia.
  do 2 f_equal. apply take_ge. lia.
Qed.

Lemma read_chunks_take swap (cs : list ChunkEntry) (r : bytes) (k : nat) :
  Forall entry_ok cs ->
  read_chunks (length cs) swap (take k ((cs ≫= entry_bytes swap) ++ r)) =
  if Z.of_nat k <? zlength (cs ≫= entry_bytes swap) then Err UnexpectedEof
  else Ok (cs, take (k - length (cs ≫= entry_bytes swap)) r).
Proof.
  intros Hcs. revert k. induction Hcs as [|c cs Hc Hcs IH]; intros k.
  { replace (Z.of_nat k <? _) with false by (unfold zlength; simpl; lia).
    simpl. by rewrite Nat.sub_0_r. }
  pose proof (zlength_entry_bytes swap c Hc) as Hl.
  rewrite bind_cons, <- app_assoc, zlength_app, length_app.
  cbn [length read_chunks].
  rewrite (read_exact_take _ _ ENTRY_SIZE) by done.
  destruct (Z.of_nat k <? ENTRY_SIZE) eqn:E; cbn [rbind].
  { replace (_ <? _) with true; [done|].
    pose proof (zlength_nonneg (cs ≫= entry_bytes swap)). lia. }
  rewrite IH. unfold zlength in *.
  destruct (_ <? Z.of_nat (length (cs ≫= _))) eqn:E'.
  { cbn [rbind]. replace (_ <? _) with true by lia. done. }
  cbn [rbind]. replace (_ <? _) with false by lia. do 2 f_equal; [|f_equal; lia].
  f_equal. destruct swap; unfold entry_bytes.
  - rewrite <- (app_nil_r (entry_repr _)), entry_of_entry_repr by by apply entry_ok_network.
    by apply entry_host_network.
  - by rewrite <- (app_nil_r (entry_repr _)), entry_of_entry_repr.
Qed.

(** ** Reading a complete file, or a prefix of one *)
Section reading.
Variable sha256 : bytes -> bytes.
Variable sha1 : bytes -> bytes.

(** The header and the variable parts agree, as the writer makes them. *)
Record seed_ok (h : TSeedHeader) (name url : bytes) (cs : list ChunkEntry) : Prop := {
  seed_header : header_ok h;
  seed_magic : magic h = MAGIC;
  seed_version : 1 <= version h <= 4;
  seed_name : file_name_len h = zlength name;
  seed_url : announce_len h = zlength url;
  seed_count : chunk_count h = zlength cs;
  seed_entries : Forall entry_ok cs;
}.

Lemma header_bytes_decode swap h :
  header_ok h -> magic h = MAGIC ->
  let raw := header_of_repr (header_bytes swap h) in
  negb (magic raw =? MAGIC) = swap /\
  (if swap then header_to_host_endian raw else raw) = h.
Proof.
  intros Hh Hm. unfold header_bytes. rewrite <- (app_nil_r (header_repr _)).
  destruct swap; cbv zeta; rewrite header_of_header_repr by auto using header_ok_network.
  - rewrite header_host_network by done. cbn [header_to_network_endian magic].
    by rewrite Hm.
  - by rewrite Hm.
Qed.

Lemma read_tseed_take swap h name url cs (k : nat) :
  seed_ok h name url cs ->
  read_tseed sha256 sha1 (Some (take k (seed_bytes swap h name url cs))) =
  if (k <? length (seed_bytes swap h name url cs))%nat then Err UnexpectedEof
  else Ok {| header := h; file_name := name; announce_url := url; chunks := cs;
             info_hash := compute_info_hash sha1 h cs |}.
Proof.
  intros [Hh Hm Hv Hn Hu Hc He]. unfold read_tseed, seed_bytes.
  pose proof (zlength_header_bytes swap h Hh) as HH.
  destruct (header_bytes_decode swap h Hh Hm) as [Hsw Hdec].
  rewrite !length_app. unfold zlength in *.
  rewrite (read_exact_take _ _ HEADER_SIZE) by done.
  destruct (Z.of_nat k <? HEADER_SIZE) eqn:E1; cbn [rbind].
  { by replace (_ <? _)%nat with true by lia. }
  rewrite Hsw, Hdec, Hm. rewrite Z.eqb_refl. rewrite andb_false_r.
  replace ((version h <? 1) || (4 <? version h)) with false by lia.
  rewrite (read_exact_take _ _ (file_name_len h)) by done.
  destruct (_ <? file_name_len h) eqn:E2; cbn [rbind].
  { by replace (_ <? _)%nat with true by lia. }
  rewrite (read_exact_take _ _ (announce_len h)) by done.
  destruct (_ <? announce_len h) eqn:E3; cbn [rbind].
  { by replace (_ <? _)%nat with true by lia. }
  rewrite Hc, Nat2Z.id. rewrite <- (app_nil_r (cs ≫= _)).
  rewrite read_chunks_take by done. unfold zlength.
  destruct (_ <? Z.of_nat (length (cs ≫= _))) eqn:E4; cbn [rbind].
  { rewrite app_nil_r. by replace (_ <? _)%nat with true by lia. }
  rewrite app_nil_r. by replace (_ <? _)%nat with false by lia.
Qed.

Lemma read_seed_bytes swap h name url cs :
  seed_ok h name url cs ->
  read_tseed sha256 sha1 (Some (seed_bytes swap h name url cs)) =
  Ok {| header := h; file_name := name; announce_url := url; chunks := cs;
        info_hash := compute_info_hash sha1 h cs |}.
Proof.
  intros H. rewrite <- (take_ge (seed_bytes _ _ _ _ _) _ (le_n _)).
  rewrite read_tseed_take by done. by rewrite Nat.ltb_irrefl.
Qed.
End reading.

(** ** Only encodings are accepted *)
Lemma take_drop_step (k n m : nat) (b : bytes) :
  m = (k + n)%nat -> take n (drop k b) ++ drop m b = drop k b.
Proof. intros ->. rewrite <-drop_drop. apply take_drop. Qed.

Lemma header_repr_of_repr b :
  zlength b = HEADER_SIZE -> header_repr (header_of_repr b) = b /\ header_ok (header_of_repr b).
Proof.
  unfold HEADER_SIZE, zlength. intros Hb.
  split; [|constructor; cbn; try apply (load_range 8); try apply (load_range 4); try apply (load_range 2);
    unfold zlength; rewrite length_take, length_drop; lia].
  unfold header_repr, header_of_repr. cbn.
  rewrite !le_split_load by (rewrite ?length_drop; lia).
  rewrite (take_ge (drop 60 b)) by (rewrite length_drop; lia).
  by rewrite !take_drop_step, take_drop.
Qed.

Lemma entry_repr_of_repr b :
  zlength b = ENTRY_SIZE -> entry_repr (entry_of_repr b) = b /\ entry_ok (entry_of_repr b).
Proof.
  unfold ENTRY_SIZE, zlength. intros Hb.
  split; [|split_and!; [apply (load_range 8)|apply (load_range 4)|]; cbn; unfold zlength;
    rewrite length_take, length_drop; lia].
  unfold entry_repr, entry_of_repr. cbn. rewrite !le_split_load by (rewrite ?length_drop; lia).
  rewrite (take_ge (drop 12 b)) by (rewrite length_drop; lia).
  by rewrite take_drop_step, take_drop.
Qed.

(** [ntoh] and [hton] are the same functions. *)
Lemma header_network_host h : header_ok h -> header_to_network_endian (header_to_host_endian h) = h.
Proof. apply header_host_network. Qed.

Lemma entry_network_host c : entry_ok c -> entry_to_network_endian (entry_to_host_endian c) = c.
Proof. apply entry_host_network. Qed.

Lemma read_exact_Ok f len b r :
  read_exact f len = Ok (b, r) -> f = b ++ r /\ (0 <= len -> zlength b = len).
Proof.
  unfold read_exact. destruct (Z.ltb_spec (zlength f) len) as [|H]; [done|]. intros [= <- <-].
  split; [by rewrite take_drop|]. unfold zlength in *. rewrite length_take. lia.
Qed.

Lemma read_chunks_Ok swap n : forall f cs r,
  read_chunks n swap f = Ok (cs, r) ->
  f = (cs ≫= entry_bytes swap) ++ r /\ length cs = n /\ Forall entry_ok cs.
Proof.
  induction n as [|n IH]; intros f cs r; cbn [read_chunks]; [by intros [= <- <-]|].
  destruct (read_exact f ENTRY_SIZE) as [[b f1]|e] eqn:E; [|done]. cbn [rbind].
  destruct (read_chunks n swap f1) as [[cs1 f2]|e] eqn:E2; [|done]. intros [= <- <-].
  apply read_exact_Ok in E as [-> Hb]. destruct (entry_repr_of_repr b) as [Hrepr Hok]; [by apply Hb|].
  destruct (IH _ _ _ E2) as (-> & Hlen & Hcs). rewrite bind_cons, <-app_assoc.
  split_and!; [f_equal|cbn; lia|constructor; [|done]]; unfold entry_bytes; destruct swap; try done.
  - by rewrite entry_network_host.
  - by apply (entry_ok_network (entry_of_repr b)).
Qed.

Lemma read_tseed_inv sha256 sha1 f sd :
  read_tseed sha256 sha1 (Some f) = Ok sd ->
  (exists swap rest, f = seed_bytes swap (header sd) (file_name sd) (announce_url sd) (chunks sd) ++ rest) /\
  seed_ok (header sd) (file_name sd) (announce_url sd) (chunks sd) /\
  info_hash sd = compute_info_hash sha1 (header sd) (chunks sd).
Proof.
  unfold read_tseed. destruct (read_exact f HEADER_SIZE) as [[b f1]|] eqn:E1; [|done]. cbn [rbind].
  apply read_exact_Ok in E1 as [-> Hb]. destruct (header_repr_of_repr b) as [Hrepr Hok]; [by apply Hb|].
  cbv zeta. set (raw := header_of_repr b) in *. set (swap := negb (magic raw =? MAGIC)).
  set (hdr := if swap then header_to_host_endian raw else raw).
  assert (header_ok hdr /\ header_bytes swap hdr = b) as [Hh Hhb].
  { unfold header_bytes. subst hdr. destruct swap; [|done].
    split; [by apply (header_ok_network raw)|by rewrite header_network_host]. }
  destruct (swap && negb (magic hdr =? MAGIC)) eqn:Em; [done|].
  assert (magic hdr = MAGIC) as Hm.
  { subst hdr swap. destruct (Z.eqb_spec (magic raw) MAGIC) as [|]; [done|]. cbn in Em |- *.
    by apply negb_false_iff, Z.eqb_eq in Em. }
  destruct ((version hdr <? 1) || (4 <? version hdr)) eqn:Ev; [done|].
  destruct (read_exact f1 (file_name_len hdr)) as [[name f2]|] eqn:E2; [|done]. cbn [rbind].
  destruct (read_exact f2 (announce_len hdr)) as [[url f3]|] eqn:E3; [|done]. cbn [rbind].
  destruct (read_chunks _ swap f3) as [[cs f4]|] eqn:E4; [|done]. cbn [rbind]. intros [= <-]. cbn.
  apply read_exact_Ok in E2 as [-> Hn]. apply read_exact_Ok in E3 as [-> Hu].
  apply read_chunks_Ok in E4 as (-> & Hlen & Hcs).
  assert (0 <= chunk_count hdr /\ 0 <= file_name_len hdr /\ 0 <= announce_len hdr) as (? & ? & ?)
    by (destruct Hh; ulia).
  split_and!; [|constructor; try done|done].
  - exists swap, f4. unfold seed_bytes. by rewrite Hhb, <-!app_assoc.
  - lia.
  - by rewrite Hn.
  - by rewrite Hu.
  - unfold zlength. lia.
Qed.

Lemma read_tseed_app sha256 sha1 swap h name url cs rest :
  seed_ok h name url cs ->
  read_tseed sha256 sha1 (Some (seed_bytes swap h name url cs ++ rest)) =
  Ok {| header := h; file_name := name; announce_url := url; chunks := cs;
        info_hash := compute_info_hash sha1 h cs |}.
Proof.
  intros [Hh Hm Hv Hn Hu Hc He]. unfold read_tseed, seed_bytes. rewrite <-!app_assoc.
  destruct (header_bytes_decode swap h Hh Hm) as [Hsw Hdec].
  rewrite (read_exact_app _ _ HEADER_SIZE) by (by apply zlength_header_bytes). cbn [rbind].
  rewrite Hsw, Hdec, Hm. rewrite Z.eqb_refl. rewrite andb_false_r.
  replace ((version h <? 1) || (4 <? version h)) with false by lia.
  rewrite (read_exact_app name _ (file_name_len h)) by done. cbn [rbind].
  rewrite (read_exact_app url _ (announce_len h)) by done. cbn [rbind].
  rewrite Hc. unfold zlength. rewrite Nat2Z.id.
  rewrite <-(take_ge ((cs ≫= entry_bytes swap) ++ rest) _ (le_n _)), read_chunks_take by done.
  unfold zlength. rewrite length_app. replace (_ <? _) with false by lia. done.
Qed.

(** C22: The reader accepts exactly the encodings of seeds, in either byte
    order and whatever follows them: what it returns has fields in the range
    of their types, a supported version, lengths and counts that agree with
    the parts, and the info-hash of its chunk table, and its encoding is the
    beginning of the file. *)
Theorem read_tseed_iff sha256 sha1 f sd :
  read_tseed sha256 sha1 (Some f) = Ok sd <->
  (exists swap rest, f = seed_bytes swap (header sd) (file_name sd) (announce_url sd) (chunks sd) ++ rest) /\
  seed_ok (header sd) (file_name sd) (announce_url sd) (chunks sd) /\
  info_hash sd = compute_info_hash sha1 (header sd) (chunks sd).
Proof.
  split; [apply read_tseed_inv|]. intros ((swap & rest & ->) & Hok & Hi).
  rewrite read_tseed_app by done. rewrite <-Hi. by destruct sd.
Qed.

(** What [write_tseed] is given by its callers. *)
Record write_args_ok (sha256 : bytes -> bytes) (data name url : bytes)
    (cs : list ChunkEntry) (min_size avg_size max_size : Z) : Prop := {
  wa_digest : zlength (sha256 data) = 32;
  wa_name : is_u32 (zlength name);
  wa_url : is_u32 (zlength url);
  wa_count : is_u32 (zlength cs);
  wa_entries : Forall entry_ok cs;
  wa_min : is_u32 min_size;
  wa_avg : is_u32 avg_size;
  wa_max : is_u32 max_size;
}.

Lemma total_file_size_range acc cs : is_u64 acc -> is_u64 (total_file_size acc cs).
Proof.
  revert acc. induction cs as [|c cs IH]; intros acc Hacc; simpl; [done|].
  apply IH. destruct (acc <? _); auto with thinbt.
Qed.

Lemma seed_ok_build sha256 data name url cs mi av ma :
  write_args_ok sha256 data name url cs mi av ma ->
  seed_ok (build_header (sha256 data) name url cs mi av ma) name url cs.
Proof.
  intros [? ? ? ? ? ? ? ?].
  assert (is_u64 (total_file_size 0 cs)) by (apply total_file_size_range; ulia).
  constructor; simpl; try done; try (by apply u32_small); try lia.
  constructor; simpl; auto with thinbt; unfold_ints; unfold MAGIC; lia.
Qed.

Lemma write_tseed_bytes sha256 data name url cs mi av ma :
  write_tseed sha256 true true (Some data) name url cs mi av ma =
  Ok (seed_bytes true (build_header (sha256 data) name url cs mi av ma) name url cs).
Proof. done. Qed.

(** C23: Reading a file [write_tseed] produced gives back the header in host
    order, the two strings and the chunk table, with the info-hash of that
    table. *)
Theorem tseed_roundtrip (sha256 sha1 : bytes -> bytes) data name url cs mi av ma :
  write_args_ok sha256 data name url cs mi av ma ->
  exists f, write_tseed sha256 true true (Some data) name url cs mi av ma = Ok f /\
    read_tseed sha256 sha1 (Some f) =
    Ok {| header := build_header (sha256 data) name url cs mi av ma;
          file_name := name; announce_url := url; chunks := cs;
          info_hash := sha1 (info_hash_input (sha256 data) cs) |}.
Proof.
  intros H. eexists. split; [apply write_tseed_bytes|].
  by rewrite read_seed_bytes by by apply seed_ok_build.
Qed.

(** Every strict prefix of a written .tseed file is rejected with the
    end-of-file error: a truncated seed is never accepted. *)
Theorem tseed_truncation_rejected (sha256 sha1 : bytes -> bytes) data name url cs mi av ma f k :
  write_args_ok sha256 data name url cs mi av ma ->
  write_tseed sha256 true true (Some data) name url cs mi av ma = Ok f ->
  (k < length f)%nat ->
  read_tseed sha256 sha1 (Some (take k f)) = Err UnexpectedEof.
Proof.
  intros H Hw Hk. rewrite write_tseed_bytes in Hw. simplify_eq.
  rewrite read_tseed_take by by apply seed_ok_build.
  by replace (_ <? _)%nat with true by lia.
Qed.

(** The byte-order detection is sound: the same seed stored in host order
    (the format of older writers) and in network order reads as the same
    value. *)
Theorem tseed_byte_order_detected (sha256 sha1 : bytes -> bytes) h name url cs :
  seed_ok h name url cs ->
  read_tseed sha256 sha1 (Some (seed_bytes false h name url cs)) =
  read_tseed sha256 sha1 (Some (seed_bytes true h name url cs)) /\
  exists s, read_tseed sha256 sha1 (Some (seed_bytes false h name url cs)) = Ok s /\
            header s = h /\ chunks s = cs.
Proof. intros H. rewrite !read_seed_bytes by done. eauto. Qed.

(** A two-chunk seed for the witnesses. *)
Definition demo_chunks : list ChunkEntry :=
  [{| ce_offset := 0; ce_length := 65536; ce_sha256 := replicate 32 Byte.x07 |};
   {| ce_offset := 65536; ce_length := 1000; ce_sha256 := replicate 32 Byte.x09 |}].
Definition demo_name : bytes := [Byte.x61; Byte.x62].
Definition demo_url : bytes := [Byte.x74].
Definition demo_data : bytes := [Byte.x01; Byte.x02; Byte.x03].

Lemma demo_args_ok :
  write_args_ok (toy_digest 32) demo_data demo_name demo_url demo_chunks 16384 131072 1048576.
Proof. repeat constructor; try done; vm_compute; congruence. Qed.

Lemma tseed_roundtrip_witness :
  exists f, write_tseed (toy_digest 32) true true (Some demo_data) demo_name demo_url
              demo_chunks 16384 131072 1048576 = Ok f /\
    read_tseed (toy_digest 32) (toy_digest 20) (Some f) =
    Ok {| header := build_header (toy_digest 32 demo_data) demo_name demo_url demo_chunks
                      16384 131072 1048576;
          file_name := demo_name; announce_url := demo_url; chunks := demo_chunks;
          info_hash := toy_digest 20 (info_hash_input (toy_digest 32 demo_data) demo_chunks) |}.
Proof. exact (tseed_roundtrip _ (toy_digest 20) _ _ _ _ _ _ _ demo_args_ok). Defined.

Lemma tseed_truncation_rejected_witness :
  exists f, write_tseed (toy_digest 32) true true (Some demo_data) demo_name demo_url
              demo_chunks 16384 131072 1048576 = Ok f /\
    read_tseed (toy_digest 32) (toy_digest 20) (Some (take 150 f)) = Err UnexpectedEof.
Proof.
  eexists. split; [apply write_tseed_bytes|].
  refine (tseed_truncation_rejected _ (toy_digest 20) _ _ _ _ _ _ _ _ 150 demo_args_ok _ _).
  - apply write_tseed_bytes.
  - apply Nat.ltb_lt. vm_compute. reflexivity.
Defined.

Lemma tseed_byte_order_detected_witness :
  let h := build_header (toy_digest 32 demo_data) demo_name demo_url demo_chunks
             16384 131072 1048576 in
  read_tseed (toy_digest 32) (toy_digest 20) (Some (seed_bytes false h demo_name demo_url demo_chunks)) =
  read_tseed (toy_digest 32) (toy_digest 20) (Some (seed_bytes true h demo_name demo_url demo_chunks)).
Proof.
  exact (proj1 (tseed_byte_order_detected _ _ _ _ _ _ (seed_ok_build _ _ _ _ _ _ _ _ demo_args_ok))).
Defined.
