(* ===== verification/FastCDC.v ===== *)
(** * Content-defined chunking (src/src/cdc/fastcdc.hpp, fastcdc.cpp)

    [fastcdc_scan_buffer] walks the buffer once; the model recurses on the
    bytes not visited yet and returns the callback's arguments in call order.
    SHA-256 is a parameter.  The theorems: the chunks tile the buffer, their
    sizes respect the configuration, the scan resynchronises after a cut, and
    the effect of the rolling hash [gear_update] on the cuts. *)

From S2P Require Import Prelude Platform Hash Seed.

Record FastCDCConfig := {
  cfg_min_size : Z;
  cfg_avg_size : Z;
  cfg_max_size : Z;
}.

Definition default_config : FastCDCConfig :=
  {| cfg_min_size := 16 * 1024; cfg_avg_size := 128 * 1024; cfg_max_size := 1024 * 1024 |}.

(** The gear table: 256 states of the multiplicative generator. *)
Fixpoint gear_table (n : nat) (seed : Z) : list Z :=
  match n with
  | O => []
  | S n =>
    let seed := u64 (Z.lxor seed (Z.shiftr seed 12) * 0x2545F4914F6CDD1D) in
    seed :: gear_table n seed
  end.

Definition GEAR : list Z := Eval vm_compute in gear_table 256 0x9E3779B185EBCA87.

Definition gear (b : byte) : Z := GEAR !!! Z.to_nat (byte.unsigned b).

Definition gear_update (b : byte) (fp : Z) : Z :=
  Z.lor (u64 (Z.shiftl fp 1)) (Z.lxor (Z.shiftr fp 63) (gear b)).

#[global] Arguments gear_update : simpl never.

Record ScanState := {
  min_size : Z;
  avg_size : Z;
  max_size : Z;
  mask_bits : Z;
  chunk_mask : Z;
}.

(** [while (v > 1) { v >>= 1; mask_bits++; }]; 32 turns suffice for a 32-bit
    value. *)
Fixpoint mask_bits_loop (fuel : nat) (v bits : Z) : Z :=
  match fuel with
  | O => bits
  | S fuel => if 1 <? v then mask_bits_loop fuel (Z.shiftr v 1) (bits + 1) else bits
  end.

Definition init_scan_state (cfg : FastCDCConfig) : ScanState :=
  let bits := mask_bits_loop 32 (cfg_avg_size cfg) 0 in
  let bits := if 1 <? bits then bits - 2 else bits in
  {| mask_bits := bits;
     chunk_mask := u32 (u32 (Z.shiftl 1 bits) - 1);
     min_size := cfg_min_size cfg;
     avg_size := cfg_avg_size cfg;
     max_size := cfg_max_size cfg |}.

Section scan.
Variable sha256 : bytes -> bytes.

(** The loop of [fastcdc_scan_buffer]: [rest] is [data + i .. data + size]. *)
Fixpoint scan_loop (st : ScanState) (data : bytes) (size : Z) (rest : bytes)
    (i offset_start fingerprint : Z) : list ChunkEntry :=
  match rest with
  | [] => []
  | b :: rest =>
    let fingerprint := gear_update b fingerprint in
    let pos := i - offset_start + 1 in
    let at_min := min_size st <=? pos in
    let at_max := max_size st <=? pos in
    let matched := at_min && (Z.land fingerprint (chunk_mask st) =? 0) in
    if matched || at_max || (i =? size - 1) then
      let chunk_len := if i =? size - 1 then size - offset_start else pos in
      {| ce_offset := offset_start;
         ce_length := u32 chunk_len;
         ce_sha256 := sha256 (zslice data offset_start chunk_len) |}
      :: scan_loop st data size rest (i + 1) (i + 1) 0
    else scan_loop st data size rest (i + 1) offset_start fingerprint
  end.

Definition fastcdc_scan_buffer (data : bytes) (cfg : FastCDCConfig) : list ChunkEntry :=
  let size := zlength data in
  if size =? 0 then [] else scan_loop (init_scan_state cfg) data size data 0 0 0.

(** [fastcdc_scan_file]: [mapped] is the content of the mapping when
    [open_and_map] succeeds (it fails on an empty file), [opened] what the
    [fopen] fallback reads. *)
Definition fastcdc_scan_file (mapped opened : option bytes) (cfg : FastCDCConfig)
  : list ChunkEntry :=
  match mapped with
  | Some data => fastcdc_scan_buffer data cfg
  | None =>
    match opened with
    | None => []
    | Some buf => fastcdc_scan_buffer buf cfg
    end
  end.
End scan.

(** ** Specification of a chunking *)
(** The entries follow each other from [off] to [size] without a gap, none is
    empty, and each carries the digest of its bytes. *)
Fixpoint tiles (sha256 : bytes -> bytes) (data : bytes) (off size : Z)
    (cs : list ChunkEntry) : Prop :=
  match cs with
  | [] => off = size
  | c :: cs =>
    ce_offset c = off /\ 0 < ce_length c /\
    ce_sha256 c = sha256 (zslice data off (ce_length c)) /\
    tiles sha256 data (off + ce_length c) size cs
  end.

(** Every entry but the last satisfies [P]. *)
Fixpoint all_but_last {A} (P : A -> Prop) (l : list A) : Prop :=
  match l with
  | [] | [_] => True
  | x :: l => P x /\ all_but_last P l
  end.

Definition shift_entry (d : Z) (c : ChunkEntry) : ChunkEntry :=
  {| ce_offset := d + ce_offset c; ce_length := ce_length c; ce_sha256 := ce_sha256 c |}.

(** ** The rolling hash *)
Lemma gear_range b : is_u64 (gear b).
Proof. destruct b; vm_compute; split; congruence. Qed.

Lemma testbit_u64_high z j : is_u64 z -> 64 <= j -> Z.testbit z j = false.
Proof.
  intros Hz Hj. rewrite <- (u64_small z Hz). unfold u64.
  by apply Z.mod_pow2_bits_high.
Qed.

Lemma u64_of_bits z : 0 <= z -> (forall j, 64 <= j -> Z.testbit z j = false) -> is_u64 z.
Proof.
  intros Hz Hb. assert (z = u64 z) as ->; [|apply u64_range].
  apply Z.bits_inj'. intros j Hj. unfold u64.
  destruct (decide (j < 64)).
  - by rewrite Z.mod_pow2_bits_low.
  - rewrite Z.mod_pow2_bits_high by lia. apply Hb. lia.
Qed.

Lemma gear_update_range b fp : is_u64 fp -> is_u64 (gear_update b fp).
Proof.
  intros Hfp. pose proof (gear_range b) as Hg. pose proof (u64_range (Z.shiftl fp 1)) as Hs.
  unfold gear_update. apply u64_of_bits.
  - apply Z.lor_nonneg. split; [apply Hs|]. apply Z.lxor_nonneg.
    split; intros _; [apply Hg|apply Z.shiftr_nonneg, Hfp].
  - intros j Hj. rewrite Z.lor_spec, Z.lxor_spec, Z.shiftr_spec by lia.
    rewrite !testbit_u64_high by (done || lia). done.
Qed.

(** Above bit 0 the bits of the table entry survive in the fingerprint: the
    update combines them with "or". *)
Lemma gear_update_bit b fp j :
  is_u64 fp -> 0 < j -> Z.testbit (gear b) j = true ->
  Z.testbit (gear_update b fp) j = true.
Proof.
  intros Hfp Hj Hg. unfold gear_update.
  rewrite Z.lor_spec, Z.lxor_spec, Z.shiftr_spec, Hg by lia.
  rewrite (testbit_u64_high fp) by (done || lia). apply orb_true_r.
Qed.

Lemma gear_low_bits b : exists j, 1 <= j <= 8 /\ Z.testbit (gear b) j = true.
Proof.
  assert (existsb (Z.testbit (gear b)) (map Z.of_nat (seq 1 8)) = true) as H
    by (destruct b; vm_compute; reflexivity).
  apply existsb_exists in H as (j & Hin & Hj).
  apply in_map_iff in Hin as (n & <- & Hn). apply in_seq in Hn.
  exists (Z.of_nat n). split; [lia|done].
Qed.

Lemma mask_bits_loop_log2 fuel v k :
  0 < v < 2 ^ Z.of_nat fuel -> mask_bits_loop fuel v k = k + Z.log2 v.
Proof.
  revert v k. induction fuel as [|fuel IH]; intros v k Hv; [simpl in Hv; lia|].
  cbn [mask_bits_loop]. destruct (1 <? v) eqn:E.
  - rewrite Nat2Z.inj_succ, Z.pow_succ_r in Hv by lia.
    rewrite IH, Z.log2_shiftr by (rewrite ?Z.shiftr_div_pow2 by lia; Z.div_mod_to_equations; lia).
    assert (1 <= Z.log2 v) by (apply Z.log2_le_pow2; lia). lia.
  - replace v with 1 by lia. simpl. lia.
Qed.

Lemma chunk_mask_ones cfg :
  2 ^ 11 <= cfg_avg_size cfg < 2 ^ 32 ->
  exists bits, 9 <= bits /\ chunk_mask (init_scan_state cfg) = Z.ones bits.
Proof.
  intros Ha. unfold init_scan_state. cbn [chunk_mask].
  rewrite mask_bits_loop_log2 by (change (Z.of_nat 32) with 32; lia).
  assert (11 <= Z.log2 (cfg_avg_size cfg)) by (apply Z.log2_le_pow2; lia).
  assert (Z.log2 (cfg_avg_size cfg) < 32) by (apply Z.log2_lt_pow2; lia).
  rewrite Z.add_0_l. replace (1 <? _) with true by lia.
  exists (Z.log2 (cfg_avg_size cfg) - 2). split; [lia|].
  rewrite Z.shiftl_mul_pow2, Z.mul_1_l by lia. rewrite Z.ones_equiv.
  assert (2 ^ (Z.log2 (cfg_avg_size cfg) - 2) < 2 ^ 32) by (apply Z.pow_lt_mono_r; lia).
  assert (0 < 2 ^ (Z.log2 (cfg_avg_size cfg) - 2)) by lia.
  rewrite (u32_small (2 ^ _)) by (split; lia). apply u32_small. split; lia.
Qed.

(** With an average size of 2 KiB or more the cut condition on the
    fingerprint never holds. *)
Lemma never_matched cfg b fp :
  2 ^ 11 <= cfg_avg_size cfg < 2 ^ 32 -> is_u64 fp ->
  (Z.land (gear_update b fp) (chunk_mask (init_scan_state cfg)) =? 0) = false.
Proof.
  intros Ha Hfp. destruct (chunk_mask_ones cfg Ha) as (bits & Hb & ->).
  destruct (gear_low_bits b) as (j & Hj & Hg). apply Z.eqb_neq. intros H0.
  assert (Z.testbit (Z.land (gear_update b fp) (Z.ones bits)) j = true) as Ht.
  { rewrite Z.land_spec, Z.ones_spec_low, andb_true_r by lia.
    apply gear_update_bit; [done|lia|done]. }
  by rewrite H0, Z.bits_0 in Ht.
Qed.

(** ** Tiling and sizes *)
Section loop.
Variable sha256 : bytes -> bytes.
Context (st : ScanState) (data : bytes) (size : Z).

(** The state of the loop at byte [i]: the current chunk started at [off] and
    is shorter than the maximum; at the end of the buffer it is empty. *)
Record scan_inv (rest : bytes) (i off : Z) : Prop := {
  inv_pos : i + zlength rest = size;
  inv_off : 0 <= off <= i;
  inv_len : i - off < Z.max 1 (max_size st);
  inv_end : rest = [] -> off = i;
}.

Lemma scan_inv_cut b rest i off : scan_inv (b :: rest) i off -> scan_inv rest (i + 1) (i + 1).
Proof. intros [H1 H2 H3 H4]. unfold zlength in *. simpl in *. split; unfold zlength; lia. Qed.

Lemma scan_inv_step b rest i off :
  scan_inv (b :: rest) i off ->
  (max_size st <=? i - off + 1) = false -> (i =? size - 1) = false ->
  scan_inv rest (i + 1) off.
Proof.
  intros [H1 H2 H3 H4] Hm He. unfold zlength in *. simpl in *.
  split; unfold zlength; [lia..|]. intros ->. simpl in *. lia.
Qed.

Lemma scan_chunk_len b rest i off :
  scan_inv (b :: rest) i off -> is_u32 (max_size st) ->
  let pos := i - off + 1 in
  (if i =? size - 1 then size - off else pos) = pos /\ u32 pos = pos /\
  1 <= pos <= Z.max 1 (max_size st).
Proof.
  intros [H1 H2 H3 _] Hm. unfold zlength in *. simpl in *.
  assert (1 <= i - off + 1 <= Z.max 1 (max_size st)) by lia.
  split_and!; [destruct (i =? size - 1) eqn:?; lia| |lia..].
  apply u32_small. ulia.
Qed.

Lemma scan_loop_tiles rest i off fp :
  scan_inv rest i off -> is_u32 (max_size st) ->
  tiles sha256 data off size (scan_loop sha256 st data size rest i off fp).
Proof.
  intros Hinv Hmax. revert i off fp Hinv.
  induction rest as [|b rest IH]; intros i off fp Hinv; simpl.
  { destruct Hinv as [H1 H2 H3 H4]. unfold zlength in H1. simpl in H1. rewrite H4 by done. lia. }
  destruct (scan_chunk_len _ _ _ _ Hinv Hmax) as (Hlen & Hu & Hpos).
  destruct (_ || _ || _) eqn:E; simpl.
  - rewrite Hlen, Hu. split_and!; [done|lia|done|].
    replace (off + (i - off + 1)) with (i + 1) by lia.
    apply IH. by eapply scan_inv_cut.
  - apply IH. apply orb_false_iff in E as [E He]. apply orb_false_iff in E as [_ Hm].
    by eapply scan_inv_step.
Qed.

Lemma scan_loop_max rest i off fp :
  scan_inv rest i off -> is_u32 (max_size st) ->
  Forall (fun c => ce_length c <= Z.max 1 (max_size st))
    (scan_loop sha256 st data size rest i off fp).
Proof.
  intros Hinv Hmax. revert i off fp Hinv.
  induction rest as [|b rest IH]; intros i off fp Hinv; simpl; [constructor|].
  destruct (scan_chunk_len _ _ _ _ Hinv Hmax) as (Hlen & Hu & Hpos).
  destruct (_ || _ || _) eqn:E.
  - constructor; [simpl; rewrite Hlen, Hu; lia|]. apply IH. by eapply scan_inv_cut.
  - apply IH. apply orb_false_iff in E as [E He]. apply orb_false_iff in E as [_ Hm].
    by eapply scan_inv_step.
Qed.

(** What holds at every cut that is not the end of the buffer holds of every
    chunk but the last. *)
Lemma scan_loop_cuts (P : ChunkEntry -> Prop) rest i off fp :
  scan_inv rest i off -> is_u32 (max_size st) -> is_u64 fp ->
  (forall b i off fp c,
     is_u64 fp -> 0 <= off <= i -> i - off < Z.max 1 (max_size st) ->
     ce_length c = i - off + 1 ->
     (min_size st <=? i - off + 1) &&
       (Z.land (gear_update b fp) (chunk_mask st) =? 0)
       || (max_size st <=? i - off + 1) = true -> P c) ->
  all_but_last P (scan_loop sha256 st data size rest i off fp).
Proof.
  intros Hinv Hmax Hfp HP. revert i off fp Hinv Hfp.
  induction rest as [|b rest IH]; intros i off fp Hinv Hfp; simpl; [done|].
  destruct (scan_chunk_len _ _ _ _ Hinv Hmax) as (Hlen & Hu & Hpos).
  destruct (_ || _ || _) eqn:E.
  2: { apply IH; [|by apply gear_update_range].
       apply orb_false_iff in E as [E He]. apply orb_false_iff in E as [_ Hm].
       by eapply scan_inv_step. }
  rewrite Hlen, Hu.
  pose proof (IH _ _ 0 (scan_inv_cut _ _ _ _ Hinv) ltac:(ulia)) as IHr.
  destruct rest as [|b' rest]; [done|].
  assert ((i =? size - 1) = false) as He.
  { destruct Hinv as [H1 _ _ _]. unfold zlength in H1. simpl in H1. lia. }
  rewrite He, orb_false_r in E.
  destruct (scan_loop _ _ _ _ (b' :: rest) _ _ _); [done|]. split; [|done].
  destruct Hinv as [_ H2 H3 _]. eapply (HP b i off fp); eauto.
Qed.
End loop.

Lemma scan_inv_start st (data : bytes) :
  0 < zlength data -> scan_inv st (zlength data) data 0 0.
Proof. intros H. split; [lia..|]. intros ->. unfold zlength in H. simpl in H. lia. Qed.

Lemma scan_buffer_tiles (sha256 : bytes -> bytes) (data : bytes) (cfg : FastCDCConfig) :
  is_u32 (cfg_max_size cfg) ->
  tiles sha256 data 0 (zlength data) (fastcdc_scan_buffer sha256 data cfg).
Proof.
  intros Hm. unfold fastcdc_scan_buffer.
  destruct (zlength data =? 0) eqn:E; [simpl; lia|].
  pose proof (zlength_nonneg data). apply scan_loop_tiles; [|done].
  apply scan_inv_start. lia.
Qed.

Lemma scan_buffer_max (sha256 : bytes -> bytes) (data : bytes) (cfg : FastCDCConfig) :
  is_u32 (cfg_max_size cfg) ->
  Forall (fun c => ce_length c <= Z.max 1 (cfg_max_size cfg)) (fastcdc_scan_buffer sha256 data cfg).
Proof.
  intros Hm. unfold fastcdc_scan_buffer. destruct (zlength data =? 0) eqn:E; [done|].
  pose proof (zlength_nonneg data). apply (scan_loop_max sha256 (init_scan_state cfg)); [|done].
  apply scan_inv_start. lia.
Qed.

(** Each entry of a tiling lies in the buffer and has the digest of its bytes. *)
Lemma tiles_entry (sha256 : bytes -> bytes) (data : bytes) size cs : forall off c,
  tiles sha256 data off size cs -> c ∈ cs ->
  off <= ce_offset c /\ 0 < ce_length c /\ ce_offset c + ce_length c <= size /\
  ce_sha256 c = sha256 (zslice data (ce_offset c) (ce_length c)).
Proof.
  assert (forall cs off, tiles sha256 data off size cs -> off <= size) as Hle.
  { induction cs0 as [|c cs0 IH]; cbn [tiles]; [lia|]. intros off (_ & H & _ & Ht).
    apply IH in Ht. lia. }
  induction cs as [|x cs IH]; intros off c; [by intros _ ?%not_elem_of_nil|].
  intros (Ho & Hl & Hs & Ht) [->|Hc]%elem_of_cons.
  - rewrite Ho. apply Hle in Ht. by split_and!; try lia.
  - destruct (IH _ _ Ht Hc) as (? & ? & ? & ?). split_and!; [lia|done..].
Qed.

(** C34: The chunks of a scan tile the buffer: they start at 0, follow each
    other without gap or overlap up to the size, none is empty, and each one
    carries the digest of exactly its bytes. *)
Theorem fastcdc_tiles (sha256 : bytes -> bytes) (data : bytes) (cfg : FastCDCConfig) :
  is_u32 (cfg_max_size cfg) ->
  tiles sha256 data 0 (zlength data) (fastcdc_scan_buffer sha256 data cfg).
Proof. apply scan_buffer_tiles. Qed.

(** C39: Chunk sizes respect the configuration: no chunk is longer than
    max_size, and every chunk but the last is at least min_size long (or
    max_size, if that is smaller). *)
Theorem fastcdc_chunk_bounds (sha256 : bytes -> bytes) (data : bytes) (cfg : FastCDCConfig) :
  is_u32 (cfg_max_size cfg) -> 1 <= cfg_max_size cfg ->
  Forall (fun c => ce_length c <= cfg_max_size cfg) (fastcdc_scan_buffer sha256 data cfg) /\
  all_but_last (fun c => Z.min (cfg_min_size cfg) (cfg_max_size cfg) <= ce_length c)
    (fastcdc_scan_buffer sha256 data cfg).
Proof.
  intros Hm H1. unfold fastcdc_scan_buffer.
  destruct (zlength data =? 0) eqn:E; [done|].
  pose proof (zlength_nonneg data).
  assert (scan_inv (init_scan_state cfg) (zlength data) data 0 0) as Hinv
    by (apply scan_inv_start; lia).
  split.
  - eapply Forall_impl; [by apply scan_loop_max|]. simpl. intros c Hc. lia.
  - apply scan_loop_cuts; [done|done|ulia|]. cbn [init_scan_state min_size max_size].
    intros b i off fp c _ Ho Hl Hc Hcut.
    apply orb_true_iff in Hcut as [Hcut|Hcut]; lia.
Qed.

(** The fingerprint condition never cuts. *)
Lemma scan_cuts_at_max (sha256 : bytes -> bytes) (data : bytes) (cfg : FastCDCConfig) :
  2 ^ 11 <= cfg_avg_size cfg < 2 ^ 32 -> 1 <= cfg_max_size cfg < 2 ^ 32 ->
  all_but_last (fun c => ce_length c = cfg_max_size cfg)
    (fastcdc_scan_buffer sha256 data cfg).
Proof.
  intros Ha Hm. unfold fastcdc_scan_buffer.
  destruct (zlength data =? 0) eqn:E; [done|]. pose proof (zlength_nonneg data).
  apply scan_loop_cuts; [apply scan_inv_start; lia|split; cbn; lia|ulia|].
  intros b i off fp c Hfp Ho Hl Hc Hcut.
  rewrite never_matched in Hcut by done. rewrite andb_false_r in Hcut.
  cbn [init_scan_state max_size] in *. simpl in Hcut. lia.
Qed.

(** So a chunk is of maximal length or the last one. *)
Lemma scan_full_or_last (sha256 : bytes -> bytes) (data : bytes) (cfg : FastCDCConfig) c :
  2 ^ 11 <= cfg_avg_size cfg < 2 ^ 32 -> 1 <= cfg_max_size cfg < 2 ^ 32 ->
  c ∈ fastcdc_scan_buffer sha256 data cfg ->
  ce_length c = cfg_max_size cfg \/ ce_offset c + ce_length c = zlength data.
Proof.
  intros Ha Hm Hc. pose proof (scan_cuts_at_max sha256 data cfg Ha Hm) as Hall.
  assert (tiles sha256 data 0 (zlength data) (fastcdc_scan_buffer sha256 data cfg)) as Ht
    by (apply scan_buffer_tiles; unfold is_u32; lia).
  revert Ht Hall Hc. generalize 0 as off. generalize (fastcdc_scan_buffer sha256 data cfg) as cs.
  induction cs as [|x cs IH]; intros off; [by intros _ _ ?%not_elem_of_nil|].
  intros (Ho & _ & _ & Ht) Hall [->|Hc]%elem_of_cons; destruct cs as [|y cs].
  - right. cbn in Ht. lia.
  - left. apply Hall.
  - by apply not_elem_of_nil in Hc.
  - by apply (IH _ Ht (proj2 Hall)).
Qed.

(** C40: With the default configuration (and any average size from 2 KiB up)
    the scan is fixed-size chunking: the fingerprint condition never cuts, so
    every chunk but the last is exactly max_size long, whatever the content. *)
Theorem fastcdc_is_fixed_size (sha256 : bytes -> bytes) (data : bytes) (cfg : FastCDCConfig) :
  2 ^ 11 <= cfg_avg_size cfg < 2 ^ 32 -> 1 <= cfg_max_size cfg < 2 ^ 32 ->
  all_but_last (fun c => ce_length c = cfg_max_size cfg)
    (fastcdc_scan_buffer sha256 data cfg).
Proof. apply scan_cuts_at_max. Qed.

(** ** Resynchronisation *)
Section resync.
Variable sha256 : bytes -> bytes.
Context (st : ScanState).

Lemma zslice_app_shift (a s : bytes) off len :
  0 <= off -> zslice (a ++ s) (zlength a + off) len = zslice s off len.
Proof.
  intros Hoff. unfold zslice, zlength. rewrite Z2Nat.inj_add, Nat2Z.id by lia.
  by rewrite drop_app_add.
Qed.

(** The loop looks at the buffer only from the start of the current chunk. *)
Lemma scan_loop_shift (a s rest : bytes) size i off fp :
  0 <= off <= i ->
  scan_loop sha256 st (a ++ s) (zlength a + size) rest (zlength a + i) (zlength a + off) fp =
  shift_entry (zlength a) <$> scan_loop sha256 st s size rest i off fp.
Proof.
  revert i off fp. induction rest as [|b rest IH]; intros i off fp Hoff; [done|].
  cbn [scan_loop].
  replace (zlength a + i - (zlength a + off)) with (i - off) by lia.
  replace (zlength a + i =? zlength a + size - 1) with (i =? size - 1) by lia.
  replace (zlength a + size - (zlength a + off)) with (size - off) by lia.
  replace (zlength a + i + 1) with (zlength a + (i + 1)) by lia.
  destruct (_ || _ || _); cbn [fmap list_fmap]; rewrite IH by lia; [|done].
  rewrite zslice_app_shift by lia. done.
Qed.

Lemma scan_loop_offsets data size rest i off fp :
  off <= i ->
  Forall (fun c => ce_offset c = off \/ i < ce_offset c)
    (scan_loop sha256 st data size rest i off fp).
Proof.
  revert i off fp. induction rest as [|b rest IH]; intros i off fp Hoff; [constructor|].
  cbn [scan_loop]. destruct (_ || _ || _).
  - constructor; [by left|]. eapply Forall_impl; [apply (IH (i + 1) (i + 1)); lia|].
    simpl. intros c [->|?]; lia.
  - eapply Forall_impl; [apply (IH (i + 1) off); lia|]. simpl. intros c [?|?]; lia.
Qed.

(** If some chunk starts right after [p], the rest of the scan is a scan that
    starts there. *)
Lemma scan_loop_split data size (p s : bytes) i off fp c :
  p <> [] -> off <= i ->
  c ∈ scan_loop sha256 st data size (p ++ s) i off fp ->
  ce_offset c = i + zlength p ->
  exists pre, scan_loop sha256 st data size (p ++ s) i off fp =
    pre ++ scan_loop sha256 st data size s (i + zlength p) (i + zlength p) 0 /\
    Forall (fun c => ce_offset c < i + zlength p) pre.
Proof.
  revert i off fp. induction p as [|b p IH]; intros i off fp Hp Hoff Hin Hc; [done|].
  replace (i + zlength (b :: p)) with ((i + 1) + zlength p) in *
    by (unfold zlength; simpl; lia).
  pose proof (zlength_nonneg p) as Hp0.
  cbn [scan_loop app] in *. destruct (_ || _ || _).
  - apply elem_of_cons in Hin as [->|Hin]; [simpl in Hc; lia|].
    destruct (decide (p = [])) as [->|Hne].
    + eexists [_]. split; [simpl; by rewrite Z.add_0_r|].
      constructor; [simpl; lia|constructor].
    + destruct (IH (i + 1) (i + 1) 0 Hne ltac:(lia) Hin Hc) as (pre & -> & Hpre).
      eexists (_ :: pre). split; [done|]. constructor; [simpl; lia|done].
  - destruct (decide (p = [])) as [->|Hne].
    + exfalso. pose proof (scan_loop_offsets data size s (i + 1) off
        (gear_update b fp) ltac:(lia)) as Ho.
      rewrite Forall_forall in Ho. apply Ho in Hin. unfold zlength in Hc. simpl in Hc. lia.
    + by apply (IH (i + 1) off); [|lia|..].
Qed.
End resync.

(** The scan resynchronises: if a chunk of [a ++ s] starts exactly at
    [s], then from there on the chunks are those of [s] scanned alone, moved
    by the length of [a].  Two files that share a suffix and both cut at its
    start therefore share its chunk digests, which is what the incremental
    update reuses. *)
Theorem fastcdc_resynchronises (sha256 : bytes -> bytes) (a s : bytes) (cfg : FastCDCConfig) c :
  c ∈ fastcdc_scan_buffer sha256 (a ++ s) cfg -> ce_offset c = zlength a ->
  exists pre, fastcdc_scan_buffer sha256 (a ++ s) cfg =
    pre ++ (shift_entry (zlength a) <$> fastcdc_scan_buffer sha256 s cfg) /\
    Forall (fun c => ce_offset c < zlength a) pre.
Proof.
  unfold fastcdc_scan_buffer. intros Hin Hc.
  destruct (zlength (a ++ s) =? 0) eqn:E; [by apply elem_of_nil in Hin|].
  assert (forall l : bytes, (if zlength l =? 0 then []
          else scan_loop sha256 (init_scan_state cfg) l (zlength l) l 0 0 0) =
          scan_loop sha256 (init_scan_state cfg) l (zlength l) l 0 0 0) as Hs.
  { intros [|x l]; [done|]. by replace (_ =? 0) with false by (unfold zlength; simpl; lia). }
  rewrite Hs. destruct (decide (a = [])) as [->|Ha].
  { exists []. split; [|constructor]. rewrite <- scan_loop_shift by lia. done. }
  destruct (scan_loop_split sha256 _ _ _ a s 0 0 0 c Ha ltac:(lia) Hin ltac:(lia))
    as (pre & Heq & Hpre).
  exists pre. split; [|done]. rewrite Heq. f_equal. rewrite <- scan_loop_shift by lia.
  by rewrite zlength_app, Z.add_0_l, Z.add_0_r.
Qed.

(** ** Instances *)
Definition demo_bytes : bytes := byte.of_Z <$> [3; 1; 4; 1; 5; 9; 2; 6; 5; 3; 5; 8; 9; 7; 9].
Definition tiny_config : FastCDCConfig :=
  {| cfg_min_size := 2; cfg_avg_size := 4096; cfg_max_size := 4 |}.

Lemma fastcdc_tiles_witness :
  tiles (toy_digest 32) demo_bytes 0 15 (fastcdc_scan_buffer (toy_digest 32) demo_bytes tiny_config) /\
  length (fastcdc_scan_buffer (toy_digest 32) demo_bytes tiny_config) = 4%nat.
Proof.
  split; [|reflexivity].
  apply (fastcdc_tiles (toy_digest 32) demo_bytes tiny_config). unfold is_u32; simpl; lia.
Defined.

Lemma fastcdc_chunk_bounds_witness :
  Forall (fun c => ce_length c <= 4) (fastcdc_scan_buffer (toy_digest 32) demo_bytes tiny_config) /\
  all_but_last (fun c => 2 <= ce_length c)
    (fastcdc_scan_buffer (toy_digest 32) demo_bytes tiny_config).
Proof.
  apply (fastcdc_chunk_bounds (toy_digest 32) demo_bytes tiny_config);
    unfold is_u32; simpl; lia.
Defined.

Lemma fastcdc_is_fixed_size_witness :
  all_but_last (fun c => ce_length c = 4)
    (fastcdc_scan_buffer (toy_digest 32) demo_bytes tiny_config).
Proof.
  apply (fastcdc_is_fixed_size (toy_digest 32) demo_bytes tiny_config); simpl; lia.
Defined.

Lemma fastcdc_resynchronises_witness :
  exists pre, fastcdc_scan_buffer (toy_digest 32) (take 8 demo_bytes ++ drop 8 demo_bytes) tiny_config =
    pre ++ (shift_entry 8 <$> fastcdc_scan_buffer (toy_digest 32) (drop 8 demo_bytes) tiny_config) /\
    Forall (fun c => ce_offset c < 8) pre.
Proof.
  apply (fastcdc_resynchronises (toy_digest 32) (take 8 demo_bytes) (drop 8 demo_bytes) tiny_config
    {| ce_offset := 8; ce_length := 4; ce_sha256 := toy_digest 32 (zslice demo_bytes 8 4) |}).
  - apply (list_elem_of_lookup_2 _ 2%nat). vm_compute. reflexivity.
  - reflexivity.
Defined.
