(* ===== verification/Protocol.v ===== *)
(** * The peer wire protocol (src/src/daemon/protocol.hpp, protocol.cpp)

    The handshake struct with its object representation, the message builders
    and the header parser.  A builder allocates a zeroed buffer and copies the
    fields into it, as the source does; a copy outside the buffer is [None].
    The decoders of message bodies are in [PeerSession]. *)

From S2P Require Import Prelude Platform.

Inductive P2PMsgId :=
| CHOKE | UNCHOKE | INTERESTED | NOT_INTERESTED | HAVE
| BITFIELD | REQUEST | PIECE | CANCEL | PEX.

#[export] Instance P2PMsgId_eq_dec : EqDecision P2PMsgId.
Proof. solve_decision. Defined.

(** [static_cast<uint8_t>(id)] and back; a value without enumerator reaches
    the [default] branch of every [switch]. *)
Definition msg_code (id : P2PMsgId) : Z :=
  match id with
  | CHOKE => 0 | UNCHOKE => 1 | INTERESTED => 2 | NOT_INTERESTED => 3 | HAVE => 4
  | BITFIELD => 5 | REQUEST => 6 | PIECE => 7 | CANCEL => 8 | PEX => 9
  end.

Definition msg_of_code (c : Z) : option P2PMsgId :=
  match c with
  | 0 => Some CHOKE | 1 => Some UNCHOKE | 2 => Some INTERESTED | 3 => Some NOT_INTERESTED
  | 4 => Some HAVE | 5 => Some BITFIELD | 6 => Some REQUEST | 7 => Some PIECE
  | 8 => Some CANCEL | 9 => Some PEX | _ => None
  end.

Record Handshake := {
  protocol_id : bytes;
  hs_reserved : bytes;
  speed_mbps : Z;
  hs_info_hash : bytes;
  peer_id : bytes;
}.

(** The characters of "thinBT Protocol". *)
Definition PROTOCOL_ID : bytes :=
  byte.of_Z <$> [116; 104; 105; 110; 66; 84; 32; 80; 114; 111; 116; 111; 99; 111; 108].

Definition zeros (n : nat) : bytes := replicate n Byte.x00.

(** [Handshake h; h.build(ih, speed, listen_port)], the peer id left as it is. *)
Definition handshake_build (h : Handshake) (ih : bytes) (speed listen_port : Z) : Handshake := {|
  protocol_id := blit (zeros 19) 0 PROTOCOL_ID;
  hs_reserved := blit (zeros 4) 0 (le_split 2 (hton16 listen_port));
  speed_mbps := hton32 speed;
  hs_info_hash := take 20 ih;
  peer_id := peer_id h;
|}.

Definition validate_protocol_id (h : Handshake) : bool :=
  bool_decide (take 15 (protocol_id h) = PROTOCOL_ID) &&
  bool_decide (drop 15 (protocol_id h) = zeros 4).

Definition hs_listen_port (h : Handshake) : Z := ntoh16 (load 2 (hs_reserved h)).

Definition serialize_handshake (h : Handshake) : bytes :=
  protocol_id h ++ hs_reserved h ++ le_split 4 (speed_mbps h) ++ hs_info_hash h ++ peer_id h.

Definition handshake_of_repr (b : bytes) : Handshake := {|
  protocol_id := take 19 b;
  hs_reserved := take 4 (drop 19 b);
  speed_mbps := load 4 (drop 23 b);
  hs_info_hash := take 20 (drop 27 b);
  peer_id := take 20 (drop 47 b);
|}.

Definition parse_handshake (data : bytes) : option Handshake :=
  if zlength data <? 67 then None
  else
    let h := handshake_of_repr data in
    if negb (validate_protocol_id h) then None
    else Some {| protocol_id := protocol_id h; hs_reserved := hs_reserved h;
                 speed_mbps := ntoh32 (speed_mbps h);
                 hs_info_hash := hs_info_hash h; peer_id := peer_id h |}.

Record PexPeer := {
  pex_ip : Z;
  pex_port : Z;
  pex_flags : Z;
  pex_reserved : Z;
}.

(** [memcpy(p, &peer, 8)] and [memcpy(&peer, p, 8)]. *)
Definition pex_repr (p : PexPeer) : bytes :=
  le_split 4 (pex_ip p) ++ le_split 2 (pex_port p) ++
  [byte.of_Z (pex_flags p); byte.of_Z (pex_reserved p)].

Definition pex_of_repr (b : bytes) : PexPeer := {|
  pex_ip := load 4 b;
  pex_port := load 2 (drop 4 b);
  pex_flags := load 1 (drop 6 b);
  pex_reserved := load 1 (drop 7 b);
|}.

(** ** Builders *)
Definition build_message (id : P2PMsgId) (payload : bytes) : option bytes :=
  let payload_len := zlength payload in
  let buf := zeros (Z.to_nat (u32 (5 + payload_len))) in
  let len_be := hton32 (u32 (1 + payload_len)) in
  buf ← memcpy_at buf 0 (le_split 4 len_be);
  buf ← zset buf 4 (byte.of_Z (msg_code id));
  if 0 <? payload_len then memcpy_at buf 5 payload else Some buf.

Definition build_have (chunk_idx : Z) : option bytes :=
  build_message HAVE (le_split 4 (hton32 chunk_idx)).

(** The loop of [build_bitfield] over [i < have.size()]. *)
Fixpoint bitfield_loop (have : list bool) (i : Z) (bf : bytes) : option bytes :=
  match have with
  | [] => Some bf
  | h :: have =>
    bf ← (if h then
            b ← zget bf (i / 8);
            zset bf (i / 8) (byte.of_Z (Z.lor (byte.unsigned b) (Z.shiftl 1 (7 - i mod 8))))
          else Some bf);
    bitfield_loop have (i + 1) bf
  end.

Definition build_bitfield (have : list bool) : option bytes :=
  let byte_count := u32 (u32 (zlength have) + 7) / 8 in
  bf ← bitfield_loop have 0 (zeros (Z.to_nat byte_count));
  build_message BITFIELD bf.

Definition request_payload (index begin length : Z) : bytes :=
  le_split 4 (hton32 index) ++ le_split 4 (hton32 begin) ++ le_split 4 (hton32 length).

Definition build_request (index begin length : Z) : option bytes :=
  build_message REQUEST (request_payload index begin length).

Definition build_cancel (index begin length : Z) : option bytes :=
  build_message CANCEL (request_payload index begin length).

Definition build_piece (index begin : Z) (data : bytes) : option bytes :=
  let msg_len := u32 (1 + 8 + zlength data) in
  let buf := zeros (Z.to_nat (u32 (4 + msg_len))) in
  buf ← memcpy_at buf 0 (le_split 4 (hton32 msg_len));
  buf ← zset buf 4 (byte.of_Z (msg_code PIECE));
  buf ← memcpy_at buf 5 (le_split 4 (hton32 index));
  buf ← memcpy_at buf 9 (le_split 4 (hton32 begin));
  memcpy_at buf 13 data.

Definition build_interested : option bytes := build_message INTERESTED [].
Definition build_not_interested : option bytes := build_message NOT_INTERESTED [].

(** The loop of [build_pex] copies the peers one after the other. *)
Fixpoint pex_loop (peers : list PexPeer) (i : Z) (payload : bytes) : option bytes :=
  match peers with
  | [] => Some payload
  | p :: peers =>
    payload ← memcpy_at payload (3 + i * 8) (pex_repr p);
    pex_loop peers (i + 1) payload
  end.

Definition build_pex (is_delta : bool) (peers : list PexPeer) : option bytes :=
  let plen := u32 (3 + u32 (u32 (zlength peers) * 8)) in
  let payload := zeros (Z.to_nat plen) in
  payload ← zset payload 0 (byte.of_Z (if is_delta then 1 else 0));
  payload ← memcpy_at payload 1 (le_split 2 (hton16 (u16 (zlength peers))));
  payload ← pex_loop peers 0 payload;
  build_message PEX payload.

(** [parse_message_header]: the length field and the id byte. *)
Definition parse_message_header (data : bytes) : option (Z * Z) :=
  if zlength data <? 5 then None
  else
    let msg_len := ntoh32 (load 4 data) in
    let id := load 1 (drop 4 data) in
    if 1 <=? msg_len then Some (msg_len, id) else None.

(** ** Specification: the bytes on the wire *)
Definition frame (id : P2PMsgId) (payload : bytes) : bytes :=
  be_bytes 4 (1 + zlength payload) ++ [byte.of_Z (msg_code id)] ++ payload.

Definition piece_payload (index begin : Z) (data : bytes) : bytes :=
  be_bytes 4 index ++ be_bytes 4 begin ++ data.

Definition pex_payload (is_delta : bool) (peers : list PexPeer) : bytes :=
  [byte.of_Z (if is_delta then 1 else 0)] ++ be_bytes 2 (zlength peers) ++
  (peers ≫= pex_repr).

(** Bit [r] (from the left) of byte [q] of the bitfield is flag [8 q + r]. *)
Definition flag_at (have : list bool) (i : Z) : bool :=
  match zget have i with Some b => b | None => false end.

(** Bit [k] of a bitfield, counted from the left of each byte. *)
Definition bit_at (bf : bytes) (k : Z) : bool :=
  match zget bf (k / 8) with
  | Some b => Z.testbit (byte.unsigned b) (7 - k mod 8)
  | None => false
  end.

Definition pex_ok (p : PexPeer) : Prop :=
  is_u32 (pex_ip p) /\ is_u16 (pex_port p) /\ is_u8 (pex_flags p) /\ is_u8 (pex_reserved p).

(** ** Lemmas *)
Lemma msg_of_code_code id : msg_of_code (msg_code id) = Some id.
Proof. by destruct id. Qed.

Lemma byte_code id : byte.unsigned (byte.of_Z (msg_code id)) = msg_code id.
Proof. by destruct id. Qed.

Lemma hton32_be v : le_split 4 (hton32 v) = be_bytes 4 v.
Proof. apply le_split_bswap. Qed.

Lemma hton16_be v : le_split 2 (hton16 v) = be_bytes 2 v.
Proof. apply le_split_bswap. Qed.

(** A 32-bit field read back from the front of a buffer. *)
Lemma ntoh32_load_be v r : is_u32 v -> ntoh32 (load 4 (be_bytes 4 v ++ r)) = v.
Proof. intros H. unfold ntoh32. rewrite bswap_load_be. by apply u32_small. Qed.

Lemma ntoh16_load_be v r : is_u16 v -> ntoh16 (load 2 (be_bytes 2 v ++ r)) = v.
Proof. intros H. unfold ntoh16. rewrite bswap_load_be. by apply u16_small. Qed.

Lemma load_1_cons b r : load 1 (b :: r) = byte.unsigned b.
Proof. apply le_combine_1. Qed.

Lemma build_message_frame id payload :
  zlength payload < 2 ^ 32 - 5 -> build_message id payload = Some (frame id payload).
Proof.
  intros Hlen. pose proof (zlength_nonneg payload) as H0.
  unfold build_message. rewrite !u32_small by (unfold is_u32; lia).
  rewrite hton32_be. unfold zeros.
  erewrite (memcpy_at_fill_front _ _ (1 + length payload));
    [|rewrite length_be_bytes; unfold zlength; lia].
  cbn [mbind option_bind].
  erewrite (zset_fill _ _ (length payload));
    [|by rewrite zlength_be_bytes|done]. cbn [mbind option_bind].
  unfold frame. destruct (0 <? zlength payload) eqn:E.
  - erewrite (memcpy_at_fill _ _ _ 0);
      [|by rewrite zlength_app, zlength_be_bytes|lia].
    simpl replicate. rewrite app_nil_r. by rewrite <- app_assoc.
  - destruct payload; [|unfold zlength in E; simpl in E; lia].
    simpl replicate. by rewrite app_nil_r, app_nil_r.
Qed.

Lemma build_piece_frame index begin data :
  zlength data < 2 ^ 32 - 13 ->
  build_piece index begin data = Some (frame PIECE (piece_payload index begin data)).
Proof.
  intros Hlen. pose proof (zlength_nonneg data) as H0.
  unfold build_piece. cbv zeta.
  rewrite (u32_small (1 + 8 + _)), u32_small by (unfold is_u32; lia).
  rewrite !hton32_be. unfold zeros.
  erewrite (memcpy_at_fill_front _ _ (9 + length data));
    [|rewrite length_be_bytes; unfold zlength; lia]. cbn [mbind option_bind].
  erewrite (zset_fill _ _ (8 + length data)); [|by rewrite zlength_be_bytes|done].
  cbn [mbind option_bind].
  erewrite (memcpy_at_fill _ _ _ (4 + length data));
    [|by rewrite zlength_app, zlength_be_bytes|by rewrite length_be_bytes].
  cbn [mbind option_bind].
  erewrite (memcpy_at_fill _ _ _ (length data));
    [|by rewrite !zlength_app, !zlength_be_bytes|by rewrite length_be_bytes].
  cbn [mbind option_bind].
  erewrite (memcpy_at_fill _ _ _ 0);
    [|by rewrite !zlength_app, !zlength_be_bytes|lia].
  simpl replicate. rewrite app_nil_r, <- !app_assoc. unfold frame, piece_payload.
  rewrite !zlength_app, !zlength_be_bytes. do 3 f_equal. lia.
Qed.

Lemma length_pex_repr p : length (pex_repr p) = 8%nat.
Proof. unfold pex_repr. by rewrite !length_app, !length_le_split. Qed.

Lemma pex_loop_fill peers i (pre : bytes) (n : nat) :
  zlength pre = 3 + i * 8 ->
  pex_loop peers i (pre ++ replicate (length peers * 8 + n) Byte.x00) =
  Some ((pre ++ (peers ≫= pex_repr)) ++ replicate n Byte.x00).
Proof.
  revert i pre. induction peers as [|p peers IH]; intros i pre Hpre.
  { simpl. by rewrite app_nil_r. }
  cbn [pex_loop].
  erewrite (memcpy_at_fill _ _ _ (length peers * 8 + n));
    [|done|rewrite length_pex_repr; simpl; lia]. cbn [mbind option_bind].
  rewrite IH; [cbn [mbind list_bind]; by rewrite <- !app_assoc|].
  rewrite zlength_app. unfold zlength at 2. rewrite length_pex_repr. lia.
Qed.

Lemma length_pex_bodies peers : length (peers ≫= pex_repr) = (length peers * 8)%nat.
Proof.
  induction peers as [|p peers IH]; [done|]. cbn [mbind list_bind].
  rewrite length_app, length_pex_repr. fold (mbind (M := list) pex_repr peers).
  cbn [mbind list_bind] in IH. simpl. lia.
Qed.

Lemma build_pex_frame is_delta peers :
  zlength peers < 2 ^ 16 ->
  build_pex is_delta peers = Some (frame PEX (pex_payload is_delta peers)).
Proof.
  intros Hlen. pose proof (zlength_nonneg peers) as H0.
  unfold build_pex. rewrite (u32_small (zlength peers)), (u32_small (_ * 8)),
    u32_small, u16_small by (unfold is_u32, is_u16; lia).
  rewrite hton16_be. unfold zeros.
  erewrite (zset_fill_front _ (2 + length peers * 8)); [|unfold zlength; lia].
  cbn [mbind option_bind].
  erewrite (memcpy_at_fill _ _ _ (length peers * 8 + 0));
    [|done|by rewrite length_be_bytes, Nat.add_0_r].
  cbn [mbind option_bind]. rewrite pex_loop_fill by done.
  cbn [mbind option_bind]. rewrite app_nil_r.
  rewrite build_message_frame; [unfold pex_payload; by rewrite <- !app_assoc|].
  rewrite !zlength_app, zlength_be_bytes. unfold zlength in *.
  rewrite length_pex_bodies. simpl. lia.
Qed.

Lemma build_request_frame i b n :
  build_request i b n = Some (frame REQUEST (be_bytes 4 i ++ be_bytes 4 b ++ be_bytes 4 n)).
Proof.
  unfold build_request, request_payload. rewrite !hton32_be.
  apply build_message_frame. rewrite !zlength_app, !zlength_be_bytes. lia.
Qed.

Lemma build_cancel_frame i b n :
  build_cancel i b n = Some (frame CANCEL (be_bytes 4 i ++ be_bytes 4 b ++ be_bytes 4 n)).
Proof.
  unfold build_cancel, request_payload. rewrite !hton32_be.
  apply build_message_frame. rewrite !zlength_app, !zlength_be_bytes. lia.
Qed.

Lemma build_have_frame i : build_have i = Some (frame HAVE (be_bytes 4 i)).
Proof.
  unfold build_have. rewrite hton32_be. apply build_message_frame.
  by rewrite zlength_be_bytes.
Qed.

(** ** Bitfields *)
Lemma bit_at_zeros n k : bit_at (zeros n) k = false.
Proof.
  unfold bit_at, zeros. rewrite zget_replicate.
  destruct (_ && _); [apply Z.bits_0 | done].
Qed.

(** [bf[i / 8] |= 1u << (7 - i % 8)] sets bit [i] and no other. *)
Lemma bit_at_set bf i b k :
  zget bf (i / 8) = Some b ->
  bit_at (zupd bf (i / 8) (byte.of_Z (Z.lor (byte.unsigned b) (Z.shiftl 1 (7 - i mod 8))))) k =
  bit_at bf k || (k =? i).
Proof.
  intros Hb. pose proof (zget_range _ _ _ Hb) as Hr.
  unfold bit_at. rewrite zget_zupd, (proj2 (in_range_iff _ _) Hr), andb_true_r.
  destruct (Z.eqb_spec (i / 8) (k / 8)) as [E|E].
  - rewrite <- E, Hb, byte.unsigned_of_Z. unfold byte.wrap.
    rewrite Z.mod_pow2_bits_low by (Z.div_mod_to_equations; lia).
    rewrite Z.lor_spec, Z.shiftl_spec by (Z.div_mod_to_equations; lia). f_equal.
    destruct (Z.eqb_spec k i) as [->|Hne].
    + by replace (_ - _) with 0 by lia.
    + destruct (Z.ltb_spec (7 - k mod 8 - (7 - i mod 8)) 0); [by apply Z.testbit_neg_r|].
      apply (Z.bits_above_log2 1); simpl; [lia|].
      pose proof (Z.div_mod i 8). pose proof (Z.div_mod k 8). lia.
  - replace (k =? i) with false; [by rewrite orb_false_r|].
    symmetry. apply Z.eqb_neq. congruence.
Qed.

Lemma flag_at_cons h have i k :
  flag_at (h :: have) (k - i) = (if k =? i then h else false) || flag_at have (k - (i + 1)).
Proof.
  assert (zlength (h :: have) = 1 + zlength have) as Hl by (unfold zlength; simpl; lia).
  pose proof (zlength_nonneg have) as Hh.
  unfold flag_at, zget, in_range. rewrite Hl. destruct (Z.eqb_spec k i) as [->|].
  - rewrite Z.sub_diag. replace (_ && _) with true by lia.
    replace (_ && _) with false by lia. simpl. by rewrite orb_false_r.
  - destruct (Z.ltb_spec (k - i) 0).
    + by rewrite !(proj2 (Z.leb_gt _ _)) by lia.
    + replace (k - (i + 1) <? zlength have) with (k - i <? 1 + zlength have) by lia.
      replace (0 <=? k - (i + 1)) with (0 <=? k - i) by lia.
      destruct (_ && _); [|done].
      by replace (Z.to_nat (k - i)) with (S (Z.to_nat (k - (i + 1)))) by lia.
Qed.

Lemma bitfield_loop_spec have i bf :
  0 <= i -> i + zlength have <= 8 * zlength bf ->
  exists bf', bitfield_loop have i bf = Some bf' /\ zlength bf' = zlength bf /\
    forall k, bit_at bf' k = bit_at bf k || flag_at have (k - i).
Proof.
  revert i bf. induction have as [|h have IH]; intros i bf Hi Hlen.
  { exists bf. split_and!; [done|done|]. intros k. unfold flag_at, zget, in_range.
    destruct (_ && _); by rewrite orb_false_r. }
  assert (zlength (h :: have) = 1 + zlength have) as Hl by (unfold zlength; simpl; lia).
  pose proof (zlength_nonneg have) as Hh.
  destruct (proj2 (zget_is_Some bf (i / 8))) as [b Hb]; [Z.div_mod_to_equations; lia|].
  cbn [bitfield_loop]. destruct h.
  - rewrite Hb. cbn [mbind option_bind].
    rewrite zset_zupd by (eapply zget_range; eauto). cbn [mbind option_bind].
    destruct (IH (i + 1) (zupd bf (i / 8) (byte.of_Z (Z.lor (byte.unsigned b)
      (Z.shiftl 1 (7 - i mod 8)))))) as (bf' & -> & Hlen' & Hbits);
      [lia|rewrite zlength_zupd; lia|].
    exists bf'. split_and!; [done|by rewrite Hlen', zlength_zupd|].
    intros k. rewrite Hbits, bit_at_set, flag_at_cons by done.
    destruct (k =? i); by rewrite ?orb_true_r, ?orb_false_r.
  - cbn [mbind option_bind]. destruct (IH (i + 1) bf) as (bf' & -> & Hlen' & Hbits); [lia|lia|].
    exists bf'. split_and!; [done|done|]. intros k. rewrite Hbits, flag_at_cons.
    by destruct (k =? i).
Qed.

Lemma build_bitfield_frame have :
  zlength have < 2 ^ 32 - 8 ->
  exists bf, build_bitfield have = Some (frame BITFIELD bf) /\
    zlength bf = (zlength have + 7) / 8 /\ forall k, bit_at bf k = flag_at have k.
Proof.
  intros Hlen. pose proof (zlength_nonneg have) as H0.
  unfold build_bitfield. cbv zeta.
  rewrite (u32_small (zlength have)), u32_small by (unfold is_u32; lia).
  set (n := Z.to_nat ((zlength have + 7) / 8)).
  assert (zlength (zeros n) = (zlength have + 7) / 8) as Hn.
  { unfold zlength at 1, zeros. rewrite length_replicate. subst n.
    Z.div_mod_to_equations. lia. }
  destruct (bitfield_loop_spec have 0 (zeros n)) as (bf & -> & Hlen' & Hbits);
    [lia|rewrite Hn; Z.div_mod_to_equations; lia|].
  exists bf. cbn [mbind option_bind]. split_and!; [|lia|].
  - apply build_message_frame. rewrite Hlen', Hn. Z.div_mod_to_equations. lia.
  - intros k. rewrite Hbits, bit_at_zeros. simpl. by rewrite Z.sub_0_r.
Qed.

(** ** Headers *)
Lemma parse_frame id payload rest :
  1 + zlength payload < 2 ^ 32 ->
  parse_message_header (frame id payload ++ rest) = Some (1 + zlength payload, msg_code id).
Proof.
  intros Hlen. pose proof (zlength_nonneg payload). pose proof (zlength_nonneg rest).
  unfold parse_message_header, frame. rewrite <- !app_assoc.
  replace (_ <? 5) with false
    by (unfold zlength; rewrite !length_app, length_be_bytes; simpl; lia).
  rewrite ntoh32_load_be by (unfold is_u32; lia).
  rewrite drop_app_length' by (by rewrite length_be_bytes).
  cbn [app]. rewrite load_1_cons, byte_code.
  by replace (1 <=? _) with true by lia.
Qed.

(** ** Handshake *)
Lemma handshake_build_repr h ih speed port :
  serialize_handshake (handshake_build h ih speed port) =
  (PROTOCOL_ID ++ zeros 4) ++ (be_bytes 2 port ++ zeros 2) ++ be_bytes 4 speed ++
  take 20 ih ++ peer_id h.
Proof.
  unfold serialize_handshake, handshake_build. cbn [protocol_id hs_reserved speed_mbps
    hs_info_hash peer_id]. rewrite hton32_be, hton16_be.
  assert (blit (zeros 4) 0 (be_bytes 2 port) = be_bytes 2 port ++ zeros 2) as ->.
  { unfold blit. rewrite length_be_bytes. done. }
  done.
Qed.

(** A handshake built by one peer and parsed by the other gives back the
    info hash, the link speed, the peer id and the listen port. *)
Lemma handshake_roundtrip h0 ih speed port (rest : bytes) :
  length ih = 20%nat -> length (peer_id h0) = 20%nat -> is_u32 speed -> is_u16 port ->
  exists h, parse_handshake (serialize_handshake (handshake_build h0 ih speed port) ++ rest) = Some h /\
    hs_info_hash h = ih /\ speed_mbps h = speed /\ peer_id h = peer_id h0 /\
    hs_listen_port h = port.
Proof.
  intros Hih Hid Hs Hp. rewrite handshake_build_repr, (take_ge ih) by lia.
  pose proof (length_be_bytes 4 speed) as L4. pose proof (length_be_bytes 2 port) as L2.
  unfold parse_handshake.
  replace (_ <? 67) with false
    by (unfold zlength; rewrite !length_app, L4, L2, Hih, Hid; simpl; lia).
  rewrite <- !app_assoc.
  unfold validate_protocol_id, handshake_of_repr. cbn [protocol_id hs_reserved speed_mbps
    hs_info_hash peer_id].
  rewrite (take_at 19 (PROTOCOL_ID ++ zeros 4) _ (be_bytes 2 port ++ zeros 2 ++
    be_bytes 4 speed ++ ih ++ peer_id h0 ++ rest)) by done.
  change (negb _) with false. cbn [negb]. eexists. split; [done|].
  cbn [hs_info_hash speed_mbps peer_id].
  set (x := PROTOCOL_ID ++ zeros 4). set (y := be_bytes 2 port ++ zeros 2).
  assert (length y = 4%nat) as Ly by (subst y; rewrite length_app, L2; done).
  split_and!.
  - apply (take_drop_at 27 20 (x ++ y ++ be_bytes 4 speed) _ _ (peer_id h0 ++ rest));
      [by subst x y; rewrite <- !app_assoc| |done].
    rewrite !length_app, L4, Ly. done.
  - replace (PROTOCOL_ID ++ _) with ((x ++ y) ++ be_bytes 4 speed ++ ih ++ peer_id h0 ++ rest)
      by (subst x y; by rewrite <- !app_assoc).
    rewrite drop_app_length' by (rewrite length_app, Ly; done). by apply ntoh32_load_be.
  - apply (take_drop_at 47 20 (x ++ y ++ be_bytes 4 speed ++ ih) _ _ rest);
      [by subst x y; rewrite <- !app_assoc| |done].
    rewrite !length_app, L4, Ly, Hih. done.
  - unfold hs_listen_port. cbn [hs_reserved].
    rewrite (take_drop_at 19 4 x y _ (be_bytes 4 speed ++ ih ++ peer_id h0 ++ rest));
      [by apply ntoh16_load_be|by subst x y; rewrite <- !app_assoc|done|done].
Qed.

(** Bytes that do not start with the first character of the protocol name. *)
Lemma parse_handshake_wrong_start (n : nat) (data : bytes) b :
  data !! 0%nat = Some b -> b <> Byte.x74 -> parse_handshake (take n data) = None.
Proof.
  intros Hd Hb. unfold parse_handshake. destruct (_ <? 67) eqn:E; [done|].
  destruct data as [|x data]; [done|]. injection Hd as ->.
  destruct n as [|n]; [done|]. unfold validate_protocol_id, handshake_of_repr. cbn [protocol_id take].
  rewrite bool_decide_false; [done|]. intros H. by injection H.
Qed.

(** A handshake is refused exactly when fewer than 67 bytes are there or
    the first 19 are not the protocol name padded with zeros. *)
Theorem handshake_refused_iff (data : bytes) :
  parse_handshake data = None <->
  (zlength data < 67 \/ take 19 data <> PROTOCOL_ID ++ zeros 4).
Proof.
  unfold parse_handshake. destruct (Z.ltb_spec (zlength data) 67) as [?|Hlen].
  { split; [by left|done]. }
  unfold validate_protocol_id, handshake_of_repr. cbn [protocol_id].
  assert (bool_decide (take 15 (take 19 data) = PROTOCOL_ID) &&
          bool_decide (drop 15 (take 19 data) = zeros 4) = true <->
          take 19 data = PROTOCOL_ID ++ zeros 4) as Hiff.
  { rewrite andb_true_iff, !bool_decide_eq_true. split.
    - intros [H1 H2]. by rewrite <- (take_drop 15 (take 19 data)), H1, H2.
    - intros ->. done. }
  destruct (_ && _) eqn:E; simpl.
  - split; [done|]. intros [?|[]]; [lia|]. by apply Hiff.
  - split; [|done]. intros _. right. intros H%Hiff. done.
Qed.
