(* ===== verification/ChunkAssembler.v ===== *)
(** * Chunk assembly (src/src/daemon/chunk_assembler.hpp, chunk_assembler.cpp)

    An assembler writes the sub-blocks of one chunk into the mapped output
    file and tells the caller which write completed the chunk.  [mem] is the
    content of the output file, shared by all mappings of it (MAP_SHARED); a
    pointer into a mapping is the file offset it stands for and the offset at
    which its mapping ends, and a write outside the mapping is [None].

    [on_piece] is called by several I/O threads at once, for different
    sub-blocks.  Its three memory operations (the copy, [fetch_or] on the
    mask, [fetch_sub] on the counter) are separate definitions, and [step]
    interleaves them. *)

From S2P Require Import Prelude Platform.

Definition SUB_BLOCK_SIZE : Z := 16 * 1024.

Record ChunkCompleteMsg := {
  msg_chunk_idx : Z;
  winning_peer_slot : Z;
}.

Record Ptr := {
  p_off : Z;
  p_lim : Z;
}.

Record SubBlock := {
  sb_begin : Z;
  sb_length : Z;
}.

Record ChunkAssembler := {
  base_ : option Ptr;
  chunk_size_ : Z;
  sub_block_size_ : Z;
  total_slots_ : Z;
  completed_mask_ : list Z;
  mask_words_ : Z;
  pending_count_ : Z;
  sub_blocks_ : list SubBlock;
}.

(** The default constructor. *)
Definition assembler_new : ChunkAssembler := {|
  base_ := None; chunk_size_ := 0; sub_block_size_ := SUB_BLOCK_SIZE; total_slots_ := 0;
  completed_mask_ := []; mask_words_ := 0; pending_count_ := 0; sub_blocks_ := [];
|}.

Definition assembler_init (mmap_base : option Ptr) (chunk_size sub_block_size : Z)
  : ChunkAssembler :=
  let total_slots := u32 (chunk_size + sub_block_size - 1) / sub_block_size in
  let mask_words := u32 (total_slots + 31) / 32 in
  {| base_ := mmap_base;
     chunk_size_ := chunk_size;
     sub_block_size_ := sub_block_size;
     total_slots_ := total_slots;
     mask_words_ := mask_words;
     completed_mask_ := replicate (Z.to_nat mask_words) 0;
     pending_count_ := total_slots;
     sub_blocks_ :=
       (fun i => let begin := u32 (i * sub_block_size) in
                 {| sb_begin := begin;
                    sb_length := Z.min sub_block_size (u32 (chunk_size - begin)) |})
       <$> seqZ 0 total_slots |}.

Definition is_complete (a : ChunkAssembler) : bool := pending_count_ a =? 0.

(** [memcpy(base_ + begin, data, len)] through a mapping. *)
Definition memcpy_ptr (mem : bytes) (p : Ptr) (begin : Z) (data : bytes) : option bytes :=
  if p_off p + begin + zlength data <=? p_lim p
  then memcpy_at mem (p_off p + begin) data else None.

(** [completed_mask_[word].fetch_or(bit_mask)]; the flag says that the bit
    was clear. *)
Definition fetch_or_slot (a : ChunkAssembler) (slot : Z) : option (ChunkAssembler * bool) :=
  let word := slot / 32 in
  let bit_mask := Z.shiftl 1 (slot mod 32) in
  old_mask ← zget (completed_mask_ a) word;
  mask ← zset (completed_mask_ a) word (Z.lor old_mask bit_mask);
  Some ({| base_ := base_ a; chunk_size_ := chunk_size_ a;
           sub_block_size_ := sub_block_size_ a; total_slots_ := total_slots_ a;
           completed_mask_ := mask; mask_words_ := mask_words_ a;
           pending_count_ := pending_count_ a; sub_blocks_ := sub_blocks_ a |},
        Z.land old_mask bit_mask =? 0).

(** [pending_count_.fetch_sub(1) == 1]. *)
Definition fetch_sub_pending (a : ChunkAssembler) : ChunkAssembler * bool :=
  ({| base_ := base_ a; chunk_size_ := chunk_size_ a;
      sub_block_size_ := sub_block_size_ a; total_slots_ := total_slots_ a;
      completed_mask_ := completed_mask_ a; mask_words_ := mask_words_ a;
      pending_count_ := u32 (pending_count_ a - 1); sub_blocks_ := sub_blocks_ a |},
   pending_count_ a =? 1).

(** The guards of [on_piece]. *)
Definition piece_guard (a : ChunkAssembler) (begin len : Z) : bool :=
  match base_ a with
  | None => false
  | Some _ => u32 (begin + len) <=? chunk_size_ a
  end.

Definition on_piece (a : ChunkAssembler) (mem : bytes) (begin : Z) (data : bytes)
  : option (ChunkAssembler * bytes * bool) :=
  if sub_block_size_ a =? 0 then None
  else
    let slot := begin / sub_block_size_ a in
    match base_ a with
    | None => Some (a, mem, false)
    | Some base =>
      if chunk_size_ a <? u32 (begin + zlength data) then Some (a, mem, false)
      else
        mem ← memcpy_ptr mem base begin data;
        '(a, first) ← fetch_or_slot a slot;
        if first : bool then
          let '(a, last) := fetch_sub_pending a in Some (a, mem, last)
        else Some (a, mem, false)
    end.

(** ** I/O threads working on one assembler *)
Record Piece := {
  pc_begin : Z;
  pc_data : bytes;
}.

(** Where a thread is inside [on_piece]. *)
Inductive stage := Ready | Copied (slot : Z) | Marked.

Record thread := {
  th_stage : stage;
  th_queue : list Piece;
}.

Record machine := {
  m_asm : ChunkAssembler;
  m_mem : bytes;
  m_threads : list thread;
  m_completions : Z;
}.

Definition set_thread (m : machine) (i : nat) (t : thread) : list thread :=
  <[i := t]> (m_threads m).

Inductive step : machine -> machine -> Prop :=
| step_reject m i p q :
    m_threads m !! i = Some {| th_stage := Ready; th_queue := p :: q |} ->
    piece_guard (m_asm m) (pc_begin p) (zlength (pc_data p)) = false ->
    step m {| m_asm := m_asm m; m_mem := m_mem m;
              m_threads := set_thread m i {| th_stage := Ready; th_queue := q |};
              m_completions := m_completions m |}
| step_copy m i p q base mem' :
    m_threads m !! i = Some {| th_stage := Ready; th_queue := p :: q |} ->
    piece_guard (m_asm m) (pc_begin p) (zlength (pc_data p)) = true ->
    base_ (m_asm m) = Some base ->
    memcpy_ptr (m_mem m) base (pc_begin p) (pc_data p) = Some mem' ->
    step m {| m_asm := m_asm m; m_mem := mem';
              m_threads := set_thread m i
                {| th_stage := Copied (pc_begin p / sub_block_size_ (m_asm m)); th_queue := q |};
              m_completions := m_completions m |}
| step_mark m i slot q a' first :
    m_threads m !! i = Some {| th_stage := Copied slot; th_queue := q |} ->
    fetch_or_slot (m_asm m) slot = Some (a', first) ->
    step m {| m_asm := a'; m_mem := m_mem m;
              m_threads := set_thread m i
                {| th_stage := if first : bool then Marked else Ready; th_queue := q |};
              m_completions := m_completions m |}
| step_dec m i q a' (last : bool) :
    m_threads m !! i = Some {| th_stage := Marked; th_queue := q |} ->
    fetch_sub_pending (m_asm m) = (a', last) ->
    step m {| m_asm := a'; m_mem := m_mem m;
              m_threads := set_thread m i {| th_stage := Ready; th_queue := q |};
              m_completions := m_completions m + (if last then 1 else 0) |}.

Definition steps : machine -> machine -> Prop := rtc step.

(** ** Specification *)
(** Slot [s] has its bit set. *)
Definition slot_done (mask : list Z) (s : Z) : bool :=
  match zget mask (s / 32) with
  | Some w => Z.testbit w (s mod 32)
  | None => false
  end.

Definition done_flags (mask : list Z) (n : Z) : list bool := slot_done mask <$> seqZ 0 n.

(** The sub-block of slot [s]: what [sub_blocks_] and the scheduler's requests
    describe. *)
Definition slot_len (chunk_size sbs s : Z) : Z := Z.min sbs (chunk_size - s * sbs).

(** A piece that answers a request for a sub-block of [content]. *)
Definition piece_ok (content : bytes) (sbs : Z) (p : Piece) : Prop :=
  0 <= pc_begin p < zlength content /\ pc_begin p mod sbs = 0 /\
  pc_data p = zslice content (pc_begin p) (slot_len (zlength content) sbs (pc_begin p / sbs)).

(** The chunk fits the mapping its base pointer leads to, and the counters fit
    their 32 bits. *)
Definition target_ok (content : bytes) (sbs : Z) (base : Ptr) (mem : bytes) : Prop :=
  0 < sbs /\ 0 < zlength content /\ zlength content + sbs + 32 <= 2 ^ 32 /\
  0 <= p_off base /\ p_off base + zlength content <= p_lim base /\ p_lim base <= zlength mem.

Definition start_machine (base : Ptr) (size sbs : Z) (mem : bytes) (queues : list (list Piece))
  : machine := {|
  m_asm := assembler_init (Some base) size sbs;
  m_mem := mem;
  m_threads := (fun q => {| th_stage := Ready; th_queue := q |}) <$> queues;
  m_completions := 0;
|}.

(** Pieces handed to [on_piece] one after the other, with its results. *)
Fixpoint run_pieces (a : ChunkAssembler) (mem : bytes) (ps : list Piece)
  : option (ChunkAssembler * bytes * list bool) :=
  match ps with
  | [] => Some (a, mem, [])
  | p :: ps =>
    '(a, mem, r) ← on_piece a mem (pc_begin p) (pc_data p);
    '(a, mem, rs) ← run_pieces a mem ps;
    Some (a, mem, r :: rs)
  end.

(** ** The mask *)
Lemma land_bit_zero w k : 0 <= k -> (Z.land w (Z.shiftl 1 k) =? 0) = negb (Z.testbit w k).
Proof.
  intros Hk. destruct (Z.testbit w k) eqn:E; simpl; lia || idtac.
  - apply Z.eqb_neq. intros H0. apply (f_equal (fun z => Z.testbit z k)) in H0.
    rewrite Z.land_spec, E, Z.shiftl_spec, Z.sub_diag, Z.bits_0 in H0 by lia. done.
  - apply Z.eqb_eq. apply Z.bits_inj'. intros j Hj.
    rewrite Z.land_spec, Z.bits_0, Z.shiftl_spec by lia.
    destruct (Z.eqb_spec j k) as [->|]; [by rewrite E|].
    destruct (Z.ltb_spec (j - k) 0); [by rewrite (Z.testbit_neg_r 1), andb_false_r|].
    by rewrite (Z.bits_above_log2 1), andb_false_r by (simpl; lia).
Qed.

Lemma testbit_set w k j :
  0 <= k -> 0 <= j ->
  Z.testbit (Z.lor w (Z.shiftl 1 k)) j = Z.testbit w j || (j =? k).
Proof.
  intros Hk Hj. rewrite Z.lor_spec, Z.shiftl_spec by lia. f_equal.
  destruct (Z.eqb_spec j k) as [->|]; [by rewrite Z.sub_diag|].
  destruct (Z.ltb_spec (j - k) 0); [by apply Z.testbit_neg_r|].
  apply Z.bits_above_log2; simpl; lia.
Qed.

(** The part of the state that never changes after [init]. *)
Definition same_geometry (a a' : ChunkAssembler) : Prop :=
  base_ a' = base_ a /\ chunk_size_ a' = chunk_size_ a /\
  sub_block_size_ a' = sub_block_size_ a /\ total_slots_ a' = total_slots_ a /\
  zlength (completed_mask_ a') = zlength (completed_mask_ a).

Lemma fetch_or_slot_spec a slot :
  0 <= slot < 32 * zlength (completed_mask_ a) ->
  exists a', fetch_or_slot a slot = Some (a', negb (slot_done (completed_mask_ a) slot)) /\
    same_geometry a a' /\ pending_count_ a' = pending_count_ a /\
    forall s, slot_done (completed_mask_ a') s = slot_done (completed_mask_ a) s || (s =? slot).
Proof.
  intros Hs. unfold fetch_or_slot, slot_done.
  destruct (proj2 (zget_is_Some (completed_mask_ a) (slot / 32))) as [w Hw];
    [Z.div_mod_to_equations; lia|].
  pose proof (zget_range _ _ _ Hw) as Hr.
  rewrite Hw. cbn [mbind option_bind]. rewrite zset_zupd by done.
  cbn [mbind option_bind]. pose proof (Z.mod_pos_bound slot 32).
  rewrite land_bit_zero by lia. eexists. split; [reflexivity|].
  unfold same_geometry. cbn. rewrite zlength_zupd. split_and!; try done.
  intros s. rewrite zget_zupd, (proj2 (in_range_iff _ _) Hr), andb_true_r.
  destruct (Z.eqb_spec (slot / 32) (s / 32)) as [E|E].
  - rewrite <- E, Hw, testbit_set by (pose proof (Z.mod_pos_bound s 32); lia). f_equal.
    pose proof (Z.div_mod slot 32). pose proof (Z.div_mod s 32). lia.
  - replace (s =? slot) with false; [by rewrite orb_false_r|].
    symmetry. apply Z.eqb_neq. congruence.
Qed.

Lemma zlength_done_flags mask n : 0 <= n -> zlength (done_flags mask n) = n.
Proof. intros. unfold done_flags, zlength. rewrite length_fmap, length_seqZ. lia. Qed.

Lemma zget_done_flags mask n s :
  0 <= s < n -> zget (done_flags mask n) s = Some (slot_done mask s).
Proof.
  intros Hs. apply zget_Some. split; [lia|]. unfold done_flags.
  rewrite list_lookup_fmap, lookup_seqZ_lt by lia. simpl. do 2 f_equal. lia.
Qed.

(** Marking a slot adds one to the number of completed slots, or nothing if
    it was completed before. *)
Lemma done_flags_mark mask mask' n slot :
  0 <= slot < n ->
  (forall s, slot_done mask' s = slot_done mask s || (s =? slot)) ->
  count_true (done_flags mask' n) =
  count_true (done_flags mask n) + (if slot_done mask slot then 0 else 1).
Proof.
  intros Hs Hmask.
  assert (done_flags mask' n = zupd (done_flags mask n) slot true) as ->.
  { apply list_eq. intros k. rewrite <- !zget_of_nat.
    rewrite zget_zupd, (proj2 (in_range_iff _ _)) by (rewrite zlength_done_flags; lia).
    rewrite andb_true_r. destruct (Z.ltb_spec (Z.of_nat k) n).
    - rewrite !zget_done_flags, Hmask by lia.
      destruct (Z.eqb_spec slot (Z.of_nat k)) as [<-|].
      + by rewrite Z.eqb_refl, orb_true_r.
      + by rewrite (proj2 (Z.eqb_neq _ _)), orb_false_r by lia.
    - replace (slot =? _) with false by lia. unfold zget, in_range.
      rewrite !zlength_done_flags by lia. by rewrite (proj2 (Z.ltb_ge _ _)), andb_false_r by lia. }
  rewrite (count_true_zupd _ _ (slot_done mask slot)) by (by apply zget_done_flags).
  destruct (slot_done mask slot); lia.
Qed.

(** ** Interleavings *)
Section machine.
Context (content : bytes) (sbs : Z) (base : Ptr) (mem0 : bytes).
Hypothesis Hsbs : 0 < sbs.
Hypothesis Hcontent : 0 < zlength content.
Hypothesis Hwidth : zlength content + sbs + 32 <= 2 ^ 32.
Hypothesis Hoff : 0 <= p_off base.
Hypothesis Hlim : p_off base + zlength content <= p_lim base.
Hypothesis Hmem : p_lim base <= zlength mem0.

Let n := (zlength content + sbs - 1) / sbs.

Lemma slots_pos : 0 < n < 2 ^ 32.
Proof. subst n. Z.div_mod_to_equations. nia. Qed.

Definition slot_ok (mem : bytes) (s : Z) : Prop :=
  forall k, 0 <= k < zlength content -> k / sbs = s ->
            zget mem (p_off base + k) = zget content k.

(** Bytes outside the chunk are those of the file before. *)
Definition frame_ok (mem : bytes) : Prop :=
  length mem = length mem0 /\
  forall k, ~ (p_off base <= k < p_off base + zlength content) -> zget mem k = zget mem0 k.

Definition geom_ok (a : ChunkAssembler) : Prop :=
  base_ a = Some base /\ chunk_size_ a = zlength content /\ sub_block_size_ a = sbs /\
  total_slots_ a = n /\ zlength (completed_mask_ a) = (n + 31) / 32.

Definition is_marked (t : thread) : bool :=
  match th_stage t with Marked => true | _ => false end.

Definition marked_threads (ts : list thread) : Z := count_true (is_marked <$> ts).

Definition thread_ok (mem : bytes) (t : thread) : Prop :=
  Forall (piece_ok content sbs) (th_queue t) /\
  match th_stage t with Copied s => 0 <= s < n /\ slot_ok mem s | _ => True end.

(** The invariant of the machine. *)
Record inv (m : machine) : Prop := {
  inv_geom : geom_ok (m_asm m);
  inv_frame : frame_ok (m_mem m);
  inv_pending : pending_count_ (m_asm m) =
    n - count_true (done_flags (completed_mask_ (m_asm m)) n) + marked_threads (m_threads m);
  inv_bound : pending_count_ (m_asm m) <= n;
  inv_completions : m_completions m = if pending_count_ (m_asm m) =? 0 then 1 else 0;
  inv_done : forall s, 0 <= s < n -> slot_done (completed_mask_ (m_asm m)) s = true ->
    slot_ok (m_mem m) s;
  inv_threads : Forall (thread_ok (m_mem m)) (m_threads m);
}.

Lemma piece_range p :
  piece_ok content sbs p ->
  let s := pc_begin p / sbs in
  pc_begin p = s * sbs /\ 0 <= s < n /\
  zlength (pc_data p) = slot_len (zlength content) sbs s /\
  0 < zlength (pc_data p) /\ pc_begin p + zlength (pc_data p) <= zlength content.
Proof.
  intros (Hb & Hmod & Hd). cbv zeta.
  assert (pc_begin p = pc_begin p / sbs * sbs) as Heq
    by (pose proof (Z.div_mod (pc_begin p) sbs); lia).
  set (s := pc_begin p / sbs) in *.
  assert (0 <= s < n) as Hs by (subst n; Z.div_mod_to_equations; nia).
  assert (0 < slot_len (zlength content) sbs s <= zlength content - pc_begin p) as Hl
    by (unfold slot_len; lia).
  rewrite Hd, length_zslice by lia. unfold slot_len in *. lia.
Qed.

Lemma piece_guard_ok a p :
  geom_ok a -> piece_ok content sbs p ->
  piece_guard a (pc_begin p) (zlength (pc_data p)) = true.
Proof.
  intros (Hb & Hc & _) Hp. destruct (piece_range p Hp) as (_ & _ & _ & ? & ?).
  destruct Hp as [? _]. unfold piece_guard. rewrite Hb, Hc.
  rewrite u32_small by (unfold is_u32; lia). lia.
Qed.

Lemma memcpy_piece mem p :
  frame_ok mem -> piece_ok content sbs p ->
  memcpy_ptr mem base (pc_begin p) (pc_data p) =
  Some (blit mem (p_off base + pc_begin p) (pc_data p)).
Proof.
  intros [Hl _] Hp. destruct (piece_range p Hp) as (_ & _ & _ & ? & ?).
  destruct Hp as [? _]. unfold memcpy_ptr.
  replace (_ <=? _) with true by lia. apply memcpy_at_Some; [lia|].
  unfold zlength in *. lia.
Qed.

(** What the copy of a piece does to the file, byte by byte. *)
Lemma zget_copy mem p k :
  frame_ok mem -> piece_ok content sbs p -> 0 <= k < zlength content ->
  zget (blit mem (p_off base + pc_begin p) (pc_data p)) (p_off base + k) =
  if k / sbs =? pc_begin p / sbs then zget content k else zget mem (p_off base + k).
Proof.
  intros [Hl _] Hp Hk. destruct (piece_range p Hp) as (Hb & Hs & Hlen & Hpos & Hend).
  assert (k / sbs = pc_begin p / sbs <->
          pc_begin p <= k < pc_begin p + zlength (pc_data p)) as Hin.
  { rewrite Hlen. unfold slot_len. rewrite Hb. rewrite Z.div_mul by lia.
    split; [intros <-; Z.div_mod_to_equations; nia|].
    intros. symmetry. apply Z.div_unique with (k - pc_begin p / sbs * sbs); lia. }
  destruct Hp as (Hr & Hmod & Hd).
  assert (length (blit mem (p_off base + pc_begin p) (pc_data p)) = length mem) as Hbl
    by (apply length_blit; unfold zlength in *; lia).
  replace (p_off base + k) with (Z.of_nat (Z.to_nat (p_off base + k))) by lia.
  rewrite !zget_of_nat. destruct (Z.eqb_spec (k / sbs) (pc_begin p / sbs)) as [E|E].
  - apply Hin in E.
    replace (Z.to_nat (p_off base + k)) with
      (Z.to_nat (p_off base + pc_begin p) + Z.to_nat (k - pc_begin p))%nat by lia.
    rewrite lookup_blit_inside by (unfold zlength in *; lia).
    rewrite Hd. unfold zslice. rewrite lookup_take_lt.
    + rewrite lookup_drop, <- zget_of_nat. f_equal. lia.
    + rewrite Hlen in E. lia.
  - apply lookup_blit_outside; unfold zlength in *; lia.
Qed.

Lemma frame_copy mem p :
  frame_ok mem -> piece_ok content sbs p ->
  frame_ok (blit mem (p_off base + pc_begin p) (pc_data p)).
Proof.
  intros [Hl Hf] Hp. destruct (piece_range p Hp) as (_ & _ & _ & ? & ?).
  destruct Hp as [? _].
  assert (length (blit mem (p_off base + pc_begin p) (pc_data p)) = length mem) as Hbl
    by (apply length_blit; unfold zlength in *; lia).
  split; [lia|]. intros k Hk. rewrite <- (Hf k) by done.
  unfold zget, in_range, zlength. rewrite Hbl. destruct (_ && _) eqn:E; [|done].
  apply lookup_blit_outside; unfold zlength in *; lia.
Qed.

Lemma slot_ok_copy mem p s :
  frame_ok mem -> piece_ok content sbs p -> s = pc_begin p / sbs \/ slot_ok mem s ->
  slot_ok (blit mem (p_off base + pc_begin p) (pc_data p)) s.
Proof.
  intros Hf Hp Hs k Hk Hks. rewrite zget_copy by done.
  destruct (Z.eqb_spec (k / sbs) (pc_begin p / sbs)) as [|Hne]; [done|].
  destruct Hs as [Hs|Hs]; [congruence|]. by apply Hs.
Qed.

Lemma thread_ok_copy mem p t :
  frame_ok mem -> piece_ok content sbs p -> thread_ok mem t ->
  thread_ok (blit mem (p_off base + pc_begin p) (pc_data p)) t.
Proof.
  intros Hf Hp [Hq Hs]. split; [done|]. destruct (th_stage t); [done| |done].
  destruct Hs as [? ?]. split; [done|]. apply slot_ok_copy; auto.
Qed.

Lemma marked_set ts (i : nat) t t' :
  ts !! i = Some t ->
  marked_threads (<[i := t']> ts) =
  marked_threads ts - (if is_marked t then 1 else 0) + (if is_marked t' then 1 else 0).
Proof.
  intros Hi. unfold marked_threads. rewrite list_fmap_insert.
  apply count_true_insert. by rewrite list_lookup_fmap, Hi.
Qed.

Lemma marked_nonneg ts : 0 <= marked_threads ts.
Proof. apply count_true_bounds. Qed.

Lemma marked_pos ts (i : nat) t :
  ts !! i = Some t -> is_marked t = true -> 1 <= marked_threads ts.
Proof.
  intros Hi Ht. pose proof (marked_set ts i t t Hi) as H.
  pose proof (marked_set ts i t {| th_stage := Ready; th_queue := [] |} Hi) as H'.
  rewrite Ht in H'. simpl in H'. pose proof (marked_nonneg
    (<[i := {| th_stage := Ready; th_queue := [] |}]> ts)). lia.
Qed.

Lemma flags_bounds mask : 0 <= count_true (done_flags mask n) <= n.
Proof.
  pose proof (count_true_bounds (done_flags mask n)) as H.
  rewrite zlength_done_flags in H; [done|]. pose proof slots_pos. lia.
Qed.

Lemma slot_done_zeros k s : slot_done (replicate k 0) s = false.
Proof.
  unfold slot_done. rewrite zget_replicate. destruct (_ && _); [apply Z.bits_0|done].
Qed.

Lemma inv_init threads :
  Forall (fun t => th_stage t = Ready /\ Forall (piece_ok content sbs) (th_queue t)) threads ->
  inv {| m_asm := assembler_init (Some base) (zlength content) sbs; m_mem := mem0;
         m_threads := threads; m_completions := 0 |}.
Proof.
  intros Hth. pose proof slots_pos as Hn.
  assert (u32 (zlength content + sbs - 1) / sbs = n) as Hslots
    by (rewrite u32_small by (unfold is_u32; lia); done).
  assert (u32 (n + 31) / 32 = (n + 31) / 32) as Hwords.
  { rewrite u32_small; [done|]. unfold is_u32. subst n. Z.div_mod_to_equations. nia. }
  assert (marked_threads threads = 0) as Hmk.
  { unfold marked_threads. clear -Hth. induction Hth as [|t ts [Ht _] _ IH]; [done|].
    cbn [fmap list_fmap count_true]. unfold is_marked at 1. by rewrite Ht, IH. }
  assert (count_true (done_flags (completed_mask_ (assembler_init (Some base)
    (zlength content) sbs)) n) = 0) as Hflags.
  { unfold done_flags. cbn. generalize (seqZ 0 n). intros l. induction l as [|s l IH]; [done|].
    cbn [fmap list_fmap count_true]. by rewrite slot_done_zeros, IH. }
  split; cbn [m_asm m_mem m_threads m_completions].
  - unfold geom_ok, assembler_init. cbv zeta. rewrite Hslots, Hwords. cbn.
    split_and!; try done. unfold zlength. rewrite length_replicate.
    Z.div_mod_to_equations. lia.
  - split; done.
  - rewrite Hflags, Hmk. unfold assembler_init. cbn. rewrite Hslots. lia.
  - unfold assembler_init. cbn. lia.
  - unfold assembler_init. cbn. rewrite Hslots. by replace (n =? 0) with false by lia.
  - intros s _. cbn. by rewrite slot_done_zeros.
  - eapply Forall_impl; [exact Hth|]. intros t [Ht Hq]. split; [done|]. by rewrite Ht.
Qed.

Lemma geom_trans a a' : geom_ok a -> same_geometry a a' -> geom_ok a'.
Proof. unfold geom_ok, same_geometry. intuition congruence. Qed.

Lemma thread_at m (i : nat) t :
  inv m -> m_threads m !! i = Some t -> thread_ok (m_mem m) t.
Proof. intros Hinv Hi. eapply Forall_lookup_1; [apply Hinv|done]. Qed.

Lemma fetch_or_inv m slot :
  inv m -> 0 <= slot < n ->
  exists a', fetch_or_slot (m_asm m) slot =
      Some (a', negb (slot_done (completed_mask_ (m_asm m)) slot)) /\
    same_geometry (m_asm m) a' /\ pending_count_ a' = pending_count_ (m_asm m) /\
    forall s, slot_done (completed_mask_ a') s =
              slot_done (completed_mask_ (m_asm m)) s || (s =? slot).
Proof.
  intros Hinv Hs. apply fetch_or_slot_spec.
  destruct (inv_geom _ Hinv) as (_ & _ & _ & _ & ->). Z.div_mod_to_equations. lia.
Qed.

Lemma inv_copy m (i : nat) p q :
  inv m -> m_threads m !! i = Some {| th_stage := Ready; th_queue := p :: q |} ->
  inv {| m_asm := m_asm m; m_mem := blit (m_mem m) (p_off base + pc_begin p) (pc_data p);
         m_threads := set_thread m i
           {| th_stage := Copied (pc_begin p / sub_block_size_ (m_asm m)); th_queue := q |};
         m_completions := m_completions m |}.
Proof.
  intros Hinv Hi. destruct (thread_at _ _ _ Hinv Hi) as [Hq _]. simpl in Hq.
  apply Forall_cons in Hq as [Hp Hq]. pose proof (inv_frame _ Hinv) as Hf.
  destruct (piece_range p Hp) as (_ & Hs & _).
  assert (sub_block_size_ (m_asm m) = sbs) as -> by apply Hinv.
  split; cbn [m_asm m_mem m_threads m_completions].
  - apply Hinv.
  - by apply frame_copy.
  - unfold set_thread. rewrite (marked_set _ _ _ _ Hi). simpl.
    rewrite (inv_pending _ Hinv). lia.
  - apply Hinv.
  - apply Hinv.
  - intros s Hs' Hd. apply slot_ok_copy; [done|done|]. right. by apply (inv_done _ Hinv).
  - apply Forall_insert.
    + eapply Forall_impl; [apply (inv_threads _ Hinv)|]. intros t. by apply thread_ok_copy.
    + split; [done|]. simpl. split; [done|]. apply slot_ok_copy; auto.
Qed.

Lemma inv_mark m (i : nat) slot q a' first :
  inv m -> m_threads m !! i = Some {| th_stage := Copied slot; th_queue := q |} ->
  fetch_or_slot (m_asm m) slot = Some (a', first) ->
  inv {| m_asm := a'; m_mem := m_mem m;
         m_threads := set_thread m i
           {| th_stage := if first : bool then Marked else Ready; th_queue := q |};
         m_completions := m_completions m |}.
Proof.
  intros Hinv Hi Hor. destruct (thread_at _ _ _ Hinv Hi) as [Hq [Hs Hok]].
  destruct (fetch_or_inv m slot Hinv Hs) as (a & Hor' & Hgeo & Hpend & Hdone).
  rewrite Hor' in Hor. simplify_eq.
  split; cbn [m_asm m_mem m_threads m_completions].
  - eapply geom_trans; [apply Hinv|done].
  - apply Hinv.
  - unfold set_thread. rewrite (marked_set _ _ _ _ Hi), Hpend, (inv_pending _ Hinv).
    rewrite (done_flags_mark _ _ n slot Hs Hdone).
    destruct (slot_done _ slot); simpl; lia.
  - rewrite Hpend. apply Hinv.
  - rewrite Hpend. apply Hinv.
  - intros s Hs'. rewrite Hdone. intros [Hd| ->%Z.eqb_eq]%orb_true_iff; [|done].
    by apply (inv_done _ Hinv).
  - apply Forall_insert; [apply Hinv|]. split; [done|]. by destruct (slot_done _ slot).
Qed.

Lemma inv_dec m (i : nat) q a' (last : bool) :
  inv m -> m_threads m !! i = Some {| th_stage := Marked; th_queue := q |} ->
  fetch_sub_pending (m_asm m) = (a', last) ->
  inv {| m_asm := a'; m_mem := m_mem m;
         m_threads := set_thread m i {| th_stage := Ready; th_queue := q |};
         m_completions := m_completions m + (if last then 1 else 0) |}.
Proof.
  intros Hinv Hi Hsub. unfold fetch_sub_pending in Hsub. simplify_eq.
  pose proof (flags_bounds (completed_mask_ (m_asm m))) as Hfl.
  pose proof (marked_pos _ _ _ Hi eq_refl) as Hpos.
  pose proof (inv_pending _ Hinv) as Hpend. pose proof (inv_completions _ Hinv) as Hc.
  pose proof slots_pos as Hn.
  pose proof (marked_set _ _ _ {| th_stage := Ready; th_queue := q |} Hi) as Hset. simpl in Hset.
  pose proof (inv_bound _ Hinv) as Hb.
  assert (u32 (pending_count_ (m_asm m) - 1) = pending_count_ (m_asm m) - 1) as Hu
    by (apply u32_small; unfold is_u32; lia).
  split; cbn [m_asm m_mem m_threads m_completions pending_count_ completed_mask_].
  - eapply geom_trans; [apply Hinv|]. by unfold same_geometry.
  - apply Hinv.
  - unfold set_thread. rewrite Hset, Hu. lia.
  - lia.
  - rewrite Hc, Hu. replace (_ =? 0) with false by lia.
    replace (_ - 1 =? 0) with (pending_count_ (m_asm m) =? 1) by lia. lia.
  - apply (inv_done _ Hinv).
  - apply Forall_insert; [apply Hinv|]. split; [|done].
    apply (thread_at _ _ _ Hinv Hi).
Qed.

Lemma inv_step m m' : inv m -> step m m' -> inv m'.
Proof.
  intros Hinv Hstep. destruct Hstep as [m i p q Hi Hg|m i p q b mem' Hi Hg Hb Hcp|
    m i slot q a' first Hi Hor|m i q a' last Hi Hsub].
  - destruct (thread_at _ _ _ Hinv Hi) as [[Hp _]%Forall_cons _].
    rewrite piece_guard_ok in Hg; [done|apply Hinv|done].
  - destruct (thread_at _ _ _ Hinv Hi) as [[Hp _]%Forall_cons _].
    assert (b = base) as -> by (destruct (inv_geom _ Hinv) as [? _]; congruence).
    rewrite memcpy_piece in Hcp; [|apply Hinv|done]. simplify_eq. by apply inv_copy.
  - by eapply inv_mark.
  - by apply inv_dec.
Qed.

Lemma inv_steps m m' : inv m -> steps m m' -> inv m'.
Proof. induction 2; eauto using inv_step. Qed.

(** The counter is zero only when every slot is marked. *)
Lemma complete_all_done m :
  inv m -> m_completions m = 1 ->
  forall s, 0 <= s < n -> slot_done (completed_mask_ (m_asm m)) s = true.
Proof.
  intros Hinv Hc s Hs. pose proof (inv_completions _ Hinv) as Hc'.
  destruct (Z.eqb_spec (pending_count_ (m_asm m)) 0) as [H0|]; [|lia].
  pose proof (inv_pending _ Hinv) as Hp. pose proof (marked_nonneg (m_threads m)).
  pose proof (flags_bounds (completed_mask_ (m_asm m))).
  assert (Forall (eq true) (done_flags (completed_mask_ (m_asm m)) n)) as Hall.
  { apply count_true_full. rewrite zlength_done_flags; lia. }
  rewrite Forall_forall in Hall. symmetry. apply Hall.
  apply (list_elem_of_lookup_2 _ (Z.to_nat s)). rewrite <- zget_of_nat.
  rewrite Z2Nat.id by lia. by apply zget_done_flags.
Qed.

(** All slots copied: the chunk is in the file. *)
Lemma all_slots_content mem :
  frame_ok mem -> (forall s, 0 <= s < n -> slot_ok mem s) ->
  zslice mem (p_off base) (zlength content) = content.
Proof.
  intros [Hl _] Hs. apply list_eq. intros k. unfold zslice.
  destruct (decide (k < length content)%nat) as [Hk|Hk].
  - rewrite lookup_take_lt, lookup_drop by (unfold zlength; lia).
    rewrite <- !zget_of_nat. rewrite <- (Hs (Z.of_nat k / sbs)); unfold zlength in *.
    + f_equal. lia.
    + subst n. unfold zlength in *. Z.div_mod_to_equations. nia.
    + lia.
    + done.
  - rewrite lookup_take_ge by (unfold zlength; lia). symmetry. apply lookup_ge_None. lia.
Qed.

(** ** Progress and coverage *)
(** Thread [t] still has slot [s] to mark. *)
Definition waits (s : Z) (t : thread) : Prop :=
  th_stage t = Copied s \/ Exists (fun p => pc_begin p / sbs = s) (th_queue t).

Definition covered (m : machine) : Prop :=
  forall s, 0 <= s < n -> slot_done (completed_mask_ (m_asm m)) s = true \/
    exists i t, m_threads m !! i = Some t /\ waits s t.

Lemma waits_set (ts : list thread) (i : nat) told tnew s (P : Prop) :
  ts !! i = Some told -> (waits s told -> P \/ waits s tnew) ->
  (exists j t, ts !! j = Some t /\ waits s t) ->
  P \/ exists j t, <[i := tnew]> ts !! j = Some t /\ waits s t.
Proof.
  intros Hi Hw (j & t & Hj & Ht). pose proof (lookup_lt_Some _ _ _ Hi) as Hlt.
  destruct (decide (i = j)) as [->|Hne].
  - rewrite Hi in Hj. simplify_eq. destruct (Hw Ht) as [|?]; [by left|].
    right. exists j, tnew. by rewrite list_lookup_insert_eq.
  - right. exists j, t. by rewrite list_lookup_insert_ne.
Qed.

Lemma covered_step m m' : inv m -> step m m' -> covered m -> covered m'.
Proof.
  intros Hinv Hstep Hcov s Hs. specialize (Hcov s Hs).
  destruct Hstep as [m i p q Hi Hg|m i p q b mem' Hi Hg Hb Hcp|
    m i slot q a' first Hi Hor|m i q a' last Hi Hsub]; cbn [m_asm m_threads].
  - destruct (thread_at _ _ _ Hinv Hi) as [[Hp _]%Forall_cons _].
    rewrite piece_guard_ok in Hg; [done|apply Hinv|done].
  - destruct Hcov as [|Hcov]; [by left|].
    eapply waits_set; [exact Hi| |exact Hcov]. unfold waits; simpl.
    assert (sub_block_size_ (m_asm m) = sbs) as -> by apply Hinv.
    intros [?|[->|?]%Exists_cons]; auto; done.
  - destruct (thread_at _ _ _ Hinv Hi) as [_ [Hslot _]].
    destruct (fetch_or_inv m slot Hinv Hslot) as (a & Hor' & _ & _ & Hdone).
    rewrite Hor' in Hor. simplify_eq. rewrite Hdone.
    destruct Hcov as [->|Hcov]; [by left|].
    eapply waits_set; [exact Hi| |exact Hcov]. unfold waits; simpl.
    intros [[= ->]|?]; [|by right; right]. left. by rewrite Z.eqb_refl, orb_true_r.
  - unfold fetch_sub_pending in Hsub. simplify_eq. destruct Hcov as [|Hcov]; [by left|].
    eapply waits_set; [exact Hi| |exact Hcov]. unfold waits; simpl.
    intros [?|?]; [done|by right; right].
Qed.

Definition idle (t : thread) : bool :=
  match th_stage t, th_queue t with Ready, [] => true | _, _ => false end.

(** A thread with work to do can do its next operation: no write leaves the
    mapping, no mask word is out of range. *)
Lemma progress m (i : nat) t :
  inv m -> m_threads m !! i = Some t -> idle t = false -> exists m', step m m'.
Proof.
  intros Hinv Hi Hidle. destruct t as [[|slot|] q]; simpl in Hidle.
  - destruct q as [|p q]; [done|].
    destruct (thread_at _ _ _ Hinv Hi) as [[Hp _]%Forall_cons _].
    destruct (inv_geom _ Hinv) as [Hb _].
    eexists. eapply step_copy; [exact Hi| |exact Hb|apply memcpy_piece; [apply Hinv|done]].
    apply piece_guard_ok; [apply Hinv|done].
  - destruct (thread_at _ _ _ Hinv Hi) as [_ [Hslot _]].
    destruct (fetch_or_inv m slot Hinv Hslot) as (a & Hor & _).
    eexists. by eapply step_mark.
  - destruct (fetch_sub_pending (m_asm m)) eqn:E. eexists. by eapply step_dec.
Qed.

Lemma idle_complete m :
  inv m -> covered m -> Forall (fun t => idle t = true) (m_threads m) -> m_completions m = 1.
Proof.
  intros Hinv Hcov Hidle. rewrite Forall_lookup in Hidle.
  assert (forall s, 0 <= s < n -> slot_done (completed_mask_ (m_asm m)) s = true) as Hall.
  { intros s Hs. destruct (Hcov s Hs) as [|(i & t & Hi & Ht)]; [done|].
    specialize (Hidle i t Hi). unfold idle in Hidle. destruct Ht as [Ht|Ht].
    - by rewrite Ht in Hidle.
    - destruct (th_stage t), (th_queue t); try done. by apply Exists_nil in Ht. }
  assert (marked_threads (m_threads m) = 0) as Hmk.
  { unfold marked_threads. assert (is_marked <$> m_threads m =
      replicate (length (m_threads m)) false) as ->; [|apply count_true_replicate_false].
    apply list_eq. intros i. rewrite list_lookup_fmap.
    destruct (m_threads m !! i) as [t|] eqn:Hi; simpl.
    - rewrite lookup_replicate_2 by (by eapply lookup_lt_Some). specialize (Hidle i t Hi).
      unfold idle, is_marked in *. by destruct (th_stage t).
    - symmetry. apply lookup_ge_None. rewrite length_replicate. by apply lookup_ge_None. }
  assert (count_true (done_flags (completed_mask_ (m_asm m)) n) = n) as Hflags.
  { pose proof slots_pos. unfold done_flags.
    rewrite (list_fmap_ext _ (fun _ => true)).
    - rewrite (const_fmap (fun _ => true) _ true) by done. rewrite count_true_replicate_true, length_seqZ. lia.
    - intros j s Hj%lookup_seqZ. apply Hall. lia. }
  rewrite (inv_completions _ Hinv), (inv_pending _ Hinv), Hmk, Hflags.
  by replace (_ =? 0) with true by lia.
Qed.

End machine.

(** Operations left to a thread. *)
Definition thread_work (t : thread) : nat :=
  3 * length (th_queue t) +
  match th_stage t with Ready => 0 | Copied _ => 2 | Marked => 1 end.

Definition work (m : machine) : nat := sum_list_with thread_work (m_threads m).

Lemma sum_list_insert {A} (f : A -> nat) (l : list A) (i : nat) x y :
  l !! i = Some x ->
  (sum_list_with f (<[i := y]> l) + f x = sum_list_with f l + f y)%nat.
Proof.
  revert i. induction l as [|z l IH]; intros [|i] H; simpl in *; try done.
  - simplify_eq. lia.
  - specialize (IH i H). lia.
Qed.

Lemma work_step m m' : step m m' -> (work m' < work m)%nat.
Proof.
  unfold work. destruct 1 as [m i p q Hi Hg|m i p q b mem' Hi Hg Hb Hcp|
    m i slot q a' first Hi Hor|m i q a' last Hi Hsub]; cbn [m_threads]; unfold set_thread;
    match goal with |- context [<[i := ?t']> _] =>
      pose proof (sum_list_insert thread_work _ i _ t' Hi) as H end;
    unfold thread_work at 2 4 in H; cbn [th_queue th_stage length] in H; try lia.
  destruct first; lia.
Qed.

Lemma work_nsteps k m m' : nsteps step k m m' -> (k + work m' <= work m)%nat.
Proof. induction 1 as [|k m1 m2 m3 H _ IH]; [lia|]. apply work_step in H. lia. Qed.

Lemma start_inv content sbs base mem0 queues :
  target_ok content sbs base mem0 ->
  Forall (Forall (piece_ok content sbs)) queues ->
  inv content sbs base mem0 (start_machine base (zlength content) sbs mem0 queues).
Proof.
  intros (? & ? & ? & ? & ? & ?) Hq. apply inv_init; try done.
  apply Forall_fmap. eapply Forall_impl; [exact Hq|]. done.
Qed.

Lemma interleaving_safe content sbs base mem0 queues m :
  target_ok content sbs base mem0 ->
  Forall (Forall (piece_ok content sbs)) queues ->
  steps (start_machine base (zlength content) sbs mem0 queues) m ->
  m_completions m <= 1 /\
  (is_complete (m_asm m) = true <-> m_completions m = 1) /\
  (m_completions m = 1 -> zslice (m_mem m) (p_off base) (zlength content) = content) /\
  (forall k, ~ (p_off base <= k < p_off base + zlength content) ->
             zget (m_mem m) k = zget mem0 k).
Proof.
  intros Ht Hq Hsteps. pose proof Ht as (? & ? & ? & ? & ? & ?).
  assert (inv content sbs base mem0 m) as Hinv.
  { eapply inv_steps; [..|exact Hsteps]; try done. by apply start_inv. }
  pose proof (inv_completions _ _ _ _ _ Hinv) as Hc. unfold is_complete.
  split_and!.
  - destruct (_ =? 0); lia.
  - destruct (_ =? 0); lia.
  - intros Hone. apply (all_slots_content content sbs base mem0); try done; [apply Hinv|].
    intros s Hs. apply (inv_done _ _ _ _ _ Hinv); [done|].
    eapply complete_all_done; [..|exact Hinv| |]; done.
  - apply Hinv.
Qed.

Lemma interleaving_completes content sbs base mem0 queues :
  target_ok content sbs base mem0 ->
  Forall (Forall (piece_ok content sbs)) queues ->
  (forall s, 0 <= s < (zlength content + sbs - 1) / sbs ->
     Exists (Exists (fun p => pc_begin p / sbs = s)) queues) ->
  let m0 := start_machine base (zlength content) sbs mem0 queues in
  (forall k m, nsteps step k m0 m -> (k <= work m0)%nat) /\
  (forall m, steps m0 m -> (exists m', step m m') \/ m_completions m = 1).
Proof.
  intros Ht Hq Hcov m0. pose proof Ht as (? & ? & ? & ? & ? & ?). split.
  { intros k m Hk%work_nsteps. lia. }
  assert (inv content sbs base mem0 m0) as Hinv0 by (by apply start_inv).
  assert (covered content sbs m0) as Hc0.
  { intros s Hs. right. destruct (proj1 (Exists_exists _ _) (Hcov s Hs)) as (q & Hin & Hex).
    apply list_elem_of_lookup in Hin as [i Hi]. exists i. eexists. split.
    - unfold m0, start_machine. cbn [m_threads]. by rewrite list_lookup_fmap, Hi.
    - by right. }
  intros m Hsteps.
  assert (inv content sbs base mem0 m /\ covered content sbs m) as [Hinv Hc].
  { clear Ht Hq Hcov. induction Hsteps as [|m1 m2 m3 H12 _ IH]; [done|]. apply IH.
    - by eapply inv_step.
    - by eapply covered_step. }
  destruct (decide (Forall (fun t => idle t = true) (m_threads m))) as [Hi|Hi].
  - right. eapply idle_complete; [..|exact Hinv|exact Hc|exact Hi]; done.
  - left. apply not_Forall_Exists in Hi; [|intros t; apply _].
    apply Exists_exists in Hi as (t & [i Ht']%list_elem_of_lookup & Hn).
    simpl in Hn. eapply progress; [..|exact Hinv|exact Ht'|by apply not_true_is_false]; done.
Qed.



(** One call of [on_piece] is a sequence of the threads' atomic steps:
    for any assembler, file and piece, a thread that runs alone reaches the
    state [on_piece] returns, and counts the completion it reports. *)
Theorem on_piece_refines_steps a mem begin data a' mem' (last : bool) c :
  on_piece a mem begin data = Some (a', mem', last) ->
  steps {| m_asm := a; m_mem := mem; m_completions := c;
           m_threads := [{| th_stage := Ready;
                            th_queue := [{| pc_begin := begin; pc_data := data |}] |}] |}
        {| m_asm := a'; m_mem := mem'; m_completions := c + (if last then 1 else 0);
           m_threads := [{| th_stage := Ready; th_queue := [] |}] |}.
Proof.
  unfold on_piece. destruct (_ =? 0); [done|].
  set (p := {| pc_begin := begin; pc_data := data |}).
  assert (base_ a = None \/ piece_guard a begin (zlength data) =
          negb (chunk_size_ a <? u32 (begin + zlength data))) as Hg.
  { unfold piece_guard. destruct (base_ a); [right; lia|by left]. }
  assert (piece_guard a begin (zlength data) = false ->
    steps {| m_asm := a; m_mem := mem; m_completions := c;
             m_threads := [{| th_stage := Ready; th_queue := [p] |}] |}
          {| m_asm := a; m_mem := mem; m_completions := c + 0;
             m_threads := [{| th_stage := Ready; th_queue := [] |}] |}) as Hrej.
  { intros H. rewrite Z.add_0_r. apply rtc_once.
    exact (step_reject (Build_machine a mem [Build_thread Ready [p]] c) 0 p [] eq_refl H). }
  destruct (base_ a) as [base|] eqn:Hb.
  2: { intros [= <- <- <-]. apply Hrej. unfold piece_guard. by rewrite Hb. }
  destruct Hg as [|Hg]; [done|].
  destruct (chunk_size_ a <? _).
  { intros [= <- <- <-]. by apply Hrej. }
  destruct (memcpy_ptr mem base begin data) as [mem1|] eqn:Hcp; [|done].
  cbn [mbind option_bind].
  destruct (fetch_or_slot a _) as [[a1 first]|] eqn:Hor; [|done]. cbn [mbind option_bind].
  intros Hres. eapply rtc_l; [by apply (step_copy _ 0 p [] base mem1)|].
  eapply rtc_l; [by eapply (step_mark _ 0 _ [] a1 first)|]. cbn [m_asm m_mem m_completions].
  destruct first; [|simplify_eq; rewrite Z.add_0_r; apply rtc_refl].
  destruct (fetch_sub_pending a1) as [a2 last'] eqn:Hsub. simplify_eq.
  apply rtc_once.
  exact (step_dec (Build_machine a1 mem' [Build_thread Marked []] c) 0 [] a' last eq_refl Hsub).
Qed.

(** ** Pieces that do not answer a request *)
(** The bounds check of [on_piece] adds in 32 bits: a piece whose begin
    and length add up to 2^32 passes it and is written outside the mapping. *)
Theorem on_piece_bounds_check_wraps a mem base data :
  base_ a = Some base -> 0 < sub_block_size_ a -> 0 <= chunk_size_ a ->
  0 < zlength data < 2 ^ 32 -> p_lim base < p_off base + 2 ^ 32 ->
  piece_guard a (2 ^ 32 - zlength data) (zlength data) = true /\
  on_piece a mem (2 ^ 32 - zlength data) data = None.
Proof.
  intros Hb Hs Hc Hd Hlim. unfold piece_guard, on_piece. rewrite Hb.
  replace (2 ^ 32 - zlength data + zlength data) with (2 ^ 32) by lia.
  change (u32 (2 ^ 32)) with 0. split; [lia|].
  replace (_ =? 0) with false by lia. replace (_ <? 0) with false by lia.
  unfold memcpy_ptr. by replace (_ <=? p_lim base) with false by lia.
Qed.

(** A piece without data at the end of the chunk counts as a sub-block
    of its own: after one real sub-block of two, [on_piece] reports
    completion although the second sub-block never arrived. *)
Theorem empty_piece_completes_chunk :
  let base := {| p_off := 0; p_lim := 2 * SUB_BLOCK_SIZE |} in
  let mem := replicate (Z.to_nat (2 * SUB_BLOCK_SIZE)) Byte.x00 in
  let block := replicate (Z.to_nat SUB_BLOCK_SIZE) Byte.x01 in
  exists a mem', run_pieces (assembler_init (Some base) (2 * SUB_BLOCK_SIZE) SUB_BLOCK_SIZE) mem
      [{| pc_begin := 0; pc_data := block |}; {| pc_begin := 2 * SUB_BLOCK_SIZE; pc_data := [] |}] =
    Some (a, mem', [false; true]) /\
    slot_done (completed_mask_ a) 1 = false /\
    zslice mem' SUB_BLOCK_SIZE SUB_BLOCK_SIZE = replicate (Z.to_nat SUB_BLOCK_SIZE) Byte.x00.
Proof.
  cbv zeta.
  match goal with |- exists a mem', ?r = _ /\ _ /\ _ =>
    assert (match r with
            | Some (a, mem', rs) => bool_decide (rs = [false; true]) &&
                negb (slot_done (completed_mask_ a) 1) &&
                bool_decide (zslice mem' SUB_BLOCK_SIZE SUB_BLOCK_SIZE =
                             replicate (Z.to_nat SUB_BLOCK_SIZE) Byte.x00)
            | None => false
            end = true) as H by (vm_compute; reflexivity);
    destruct r as [[[a mem'] rs]|]; [|done]
  end.
  rewrite !andb_true_iff, negb_true_iff, !bool_decide_eq_true in H.
  destruct H as [[-> ?] ?]. by exists a, mem'.
Qed.

(** An empty piece at the end of a chunk of a multiple of 512 KiB (every
    full chunk of the default configuration) passes the checks and sets a bit
    in a word behind the end of the mask. *)
Theorem empty_piece_marks_outside_mask base mem k :
  0 < k <= 8000 -> 0 <= p_off base -> p_off base + k * (32 * SUB_BLOCK_SIZE) <= p_lim base ->
  p_lim base <= zlength mem ->
  piece_guard (assembler_init (Some base) (k * (32 * SUB_BLOCK_SIZE)) SUB_BLOCK_SIZE)
    (k * (32 * SUB_BLOCK_SIZE)) 0 = true /\
  on_piece (assembler_init (Some base) (k * (32 * SUB_BLOCK_SIZE)) SUB_BLOCK_SIZE) mem
    (k * (32 * SUB_BLOCK_SIZE)) [] = None.
Proof.
  unfold SUB_BLOCK_SIZE. intros Hk Ho Hl Hm. set (size := k * (32 * (16 * 1024))).
  assert (u32 (size + 0) = size) as Hu by (rewrite u32_small; unfold is_u32, size; lia).
  assert (u32 (size + 16 * 1024 - 1) = size + 16 * 1024 - 1) as Hu2
    by (rewrite u32_small; unfold is_u32, size; lia).
  assert ((size + 16 * 1024 - 1) / (16 * 1024) = 32 * k) as Hd
    by (unfold size; Z.div_mod_to_equations; lia).
  assert (u32 (32 * k + 31) / 32 = k) as Hw
    by (rewrite u32_small by (unfold is_u32; lia); Z.div_mod_to_equations; lia).
  split.
  { unfold piece_guard. cbn [base_ chunk_size_ assembler_init]. rewrite Hu. lia. }
  unfold on_piece. cbn [base_ chunk_size_ sub_block_size_ assembler_init].
  change (zlength []) with 0. rewrite Hu. change (16 * 1024 =? 0) with false. cbn iota.
  replace (size <? size) with false by lia.
  unfold memcpy_ptr. change (zlength []) with 0. replace (_ <=? p_lim base) with true by lia.
  rewrite memcpy_at_Some by (change (zlength []) with 0; unfold size in *; lia).
  cbn [mbind option_bind]. unfold fetch_or_slot.
  cbn [completed_mask_ assembler_init]. rewrite Hu2, Hd, Hw.
  assert (size / (16 * 1024) / 32 = k) as -> by (unfold size; Z.div_mod_to_equations; lia).
  rewrite zget_replicate. replace (_ && _) with false by lia. done.
Qed.

(** A piece for a slot that is already marked. *)
Lemma on_piece_stale content sbs base mem0 mem a p :
  target_ok content sbs base mem0 -> geom_ok content sbs base a ->
  frame_ok content base mem0 mem -> piece_ok content sbs p ->
  slot_done (completed_mask_ a) (pc_begin p / sbs) = true ->
  exists a' mem', on_piece a mem (pc_begin p) (pc_data p) = Some (a', mem', false) /\
    geom_ok content sbs base a' /\ frame_ok content base mem0 mem' /\
    forall s, slot_done (completed_mask_ a) s = true -> slot_done (completed_mask_ a') s = true.
Proof.
  intros (? & ? & ? & ? & ? & ?) Hg Hf Hp Hd.
  destruct (piece_range content sbs ltac:(done) ltac:(done) p Hp) as (_ & Hs & _ & ? & ?).
  destruct (fetch_or_slot_spec a (pc_begin p / sbs)) as (a' & Hor & Hgeo & _ & Hdone).
  { destruct Hg as (_ & _ & _ & _ & ->). Z.div_mod_to_equations. lia. }
  exists a', (blit mem (p_off base + pc_begin p) (pc_data p)).
  pose proof Hg as (Hb & Hc & Hsz & _). split_and!.
  - unfold on_piece. rewrite Hsz, Hb, Hc, (u32_small (_ + _)) by (destruct Hp; unfold is_u32; lia).
    replace (sbs =? 0) with false by lia. replace (_ <? _) with false by lia.
    rewrite (memcpy_piece content sbs base mem0) by done. cbn [mbind option_bind].
    rewrite Hor, Hd. done.
  - by eapply geom_trans.
  - eapply frame_copy; [..|exact Hf|exact Hp]; done.
  - intros s Hs'. by rewrite Hdone, Hs'.
Qed.

(** A chunk completes at most once in the life of its assembler: when all
    slots are marked, no sequence of sub-blocks makes [on_piece] report
    completion again.  The download of a chunk whose verification failed is
    repeated without a new [init], so it never completes. *)
Theorem assembler_completes_only_once content sbs base mem0 mem a ps :
  target_ok content sbs base mem0 -> geom_ok content sbs base a ->
  frame_ok content base mem0 mem ->
  (forall s, 0 <= s < total_slots_ a -> slot_done (completed_mask_ a) s = true) ->
  Forall (piece_ok content sbs) ps ->
  exists a' mem' rs, run_pieces a mem ps = Some (a', mem', rs) /\ Forall (eq false) rs.
Proof.
  intros Ht Hg Hf Hd Hps. revert a mem Hg Hf Hd.
  induction Hps as [|p ps Hp Hps IH]; intros a mem Hg Hf Hd; [by exists a, mem, []|].
  pose proof Ht as (? & ? & ? & ? & ? & ?).
  destruct (piece_range content sbs ltac:(done) ltac:(done) p Hp) as (_ & Hs & _).
  assert (total_slots_ a = (zlength content + sbs - 1) / sbs) as Htot by apply Hg.
  destruct (on_piece_stale content sbs base mem0 mem a p) as (a1 & mem1 & Ho & Hg1 & Hf1 & Hd1);
    try done; [apply Hd; lia|].
  destruct (IH a1 mem1 Hg1 Hf1) as (a2 & mem2 & rs & Hr & Hrs).
  { intros s Hs'. apply Hd1, Hd. rewrite Htot. destruct Hg1 as (_ & _ & _ & <- & _). done. }
  exists a2, mem2, (false :: rs). cbn [run_pieces]. rewrite Ho. cbn [mbind option_bind].
  rewrite Hr. cbn [mbind option_bind]. split; [done|by constructor].
Qed.

(** ** Instances *)
Definition demo_content : bytes := byte.of_Z <$> seqZ 1 10.
Definition demo_base : Ptr := {| p_off := 3; p_lim := 14 |}.
Definition demo_mem : bytes := replicate 20 Byte.x00.
Definition demo_piece (s : Z) : Piece :=
  {| pc_begin := s * 4; pc_data := zslice demo_content (s * 4) (slot_len 10 4 s) |}.

Lemma demo_target : target_ok demo_content 4 demo_base demo_mem.
Proof. unfold target_ok. vm_compute. intuition discriminate. Qed.

Lemma demo_pieces : Forall (piece_ok demo_content 4) [demo_piece 2; demo_piece 0; demo_piece 1].
Proof. repeat constructor; done. Qed.



Lemma on_piece_refines_steps_witness :
  exists a' mem', on_piece (assembler_init (Some demo_base) 10 4) demo_mem 0
      (pc_data (demo_piece 0)) = Some (a', mem', false) /\
    steps {| m_asm := assembler_init (Some demo_base) 10 4; m_mem := demo_mem; m_completions := 0;
             m_threads := [{| th_stage := Ready;
               th_queue := [{| pc_begin := 0; pc_data := pc_data (demo_piece 0) |}] |}] |}
          {| m_asm := a'; m_mem := mem'; m_completions := 0;
             m_threads := [{| th_stage := Ready; th_queue := [] |}] |}.
Proof.
  eexists _, _. split; [vm_compute; reflexivity|].
  apply (on_piece_refines_steps _ _ _ _ _ _ false 0). vm_compute. reflexivity.
Defined.

Lemma on_piece_bounds_check_wraps_witness :
  piece_guard (assembler_init (Some demo_base) 10 4) (2 ^ 32 - 3) 3 = true /\
  on_piece (assembler_init (Some demo_base) 10 4) demo_mem (2 ^ 32 - 3)
    [Byte.x01; Byte.x02; Byte.x03] = None.
Proof.
  apply (on_piece_bounds_check_wraps (assembler_init (Some demo_base) 10 4) demo_mem demo_base
    [Byte.x01; Byte.x02; Byte.x03]); try done; simpl; lia.
Defined.

(** An assembler that has seen all its pieces. *)
Definition demo_full : ChunkAssembler := {|
  base_ := Some demo_base; chunk_size_ := 10; sub_block_size_ := 4; total_slots_ := 3;
  completed_mask_ := [7]; mask_words_ := 1; pending_count_ := 0;
  sub_blocks_ := sub_blocks_ (assembler_init (Some demo_base) 10 4) |}.

Lemma assembler_completes_only_once_witness :
  exists a' mem' rs, run_pieces demo_full demo_mem [demo_piece 2; demo_piece 0; demo_piece 1] =
    Some (a', mem', rs) /\ Forall (eq false) rs.
Proof.
  apply (assembler_completes_only_once demo_content 4 demo_base demo_mem).
  - exact demo_target.
  - repeat split.
  - split; done.
  - intros s Hs. cbn in Hs. assert (s = 0 \/ s = 1 \/ s = 2) as [-> | [-> | ->]] by lia; done.
  - exact demo_pieces.
Defined.

Lemma empty_piece_marks_outside_mask_witness :
  let base := {| p_off := 0; p_lim := 524288 |} in
  piece_guard (assembler_init (Some base) 524288 SUB_BLOCK_SIZE) 524288 0 = true /\
  on_piece (assembler_init (Some base) 524288 SUB_BLOCK_SIZE) (replicate (Z.to_nat 524288) Byte.x00)
    524288 [] = None.
Proof.
  apply (empty_piece_marks_outside_mask {| p_off := 0; p_lim := 524288 |} _ 1).
  - lia.
  - cbn. lia.
  - vm_compute. discriminate.
  - unfold zlength. rewrite length_replicate. cbn [p_lim]. lia.
Defined.
