(* ===== verification/SegmentIO.v ===== *)
(** * Mapped output file (src/src/daemon/segment_io.hpp, segment_io.cpp)

    [SegmentWriter] maps the output file in segments of [segment_size_] bytes,
    each extended by [MAX_CHUNK_SIZE] so that a chunk that starts in a segment
    ends inside its mapping.  A mapped pointer is the file offset it shows
    (see [ChunkAssembler.Ptr]); the element pointer [cached_seg_] into the
    segment map is the key of the element, since [std::unordered_map] never
    moves its elements.  The outcomes of the system calls are arguments.

    [ChunkStore] states what the users of the writer (the assemblers) rely on;
    [segment_store] shows that the writer provides it. *)

From S2P Require Import Prelude Platform ChunkAssembler.

Definition MAX_CHUNK_SIZE : Z := 1 * 1024 * 1024.
Definition DEFAULT_SEGMENT_SIZE : Z := 64 * 1024 * 1024.

Record MappedSeg := {
  seg_data : Z;
  seg_size : Z;
}.

Record SegmentWriter := {
  file_path_ : string;
  file_size_ : Z;
  segment_size_ : Z;
  segment_count_ : Z;
  fd_ : Z;
  mapped_segments_ : gmap Z MappedSeg;
  cached_seg_idx_ : Z;
  cached_seg_ : option Z;
}.

Definition writer_new : SegmentWriter := {|
  file_path_ := EmptyString; file_size_ := 0; segment_size_ := 0; segment_count_ := 0;
  fd_ := -1; mapped_segments_ := ∅; cached_seg_idx_ := UINT32_MAX; cached_seg_ := None;
|}.

(** Results of the system calls [open] makes: the descriptor of [::open]
    (negative on error), success of [fallocate] and [ftruncate]. *)
Record open_calls := {
  sys_fd : Z;
  sys_fallocate : bool;
  sys_ftruncate : bool;
}.

(** The layout [open] computes, with a descriptor. *)
Definition opened (w : SegmentWriter) (file_path : string) (file_size segment_size fd : Z) : SegmentWriter :=
  let segment_size := if segment_size <? MAX_CHUNK_SIZE then MAX_CHUNK_SIZE else segment_size in
  {| file_path_ := file_path; file_size_ := file_size; segment_size_ := segment_size;
     segment_count_ := u32 (u64 (file_size + segment_size - 1) / segment_size);
     fd_ := fd; mapped_segments_ := mapped_segments_ w;
     cached_seg_idx_ := cached_seg_idx_ w; cached_seg_ := cached_seg_ w |}.

(** [disk] is the file at [file_path], if there is one; [O_TRUNC] empties it,
    [fallocate] and [ftruncate] extend it with zeros. *)
Definition writer_open (w : SegmentWriter) (file_path : string) (file_size segment_size : Z)
    (sys : open_calls) (disk : option bytes) : bool * SegmentWriter * option bytes :=
  if file_size =? 0 then (false, w, disk)
  else
    let with_fd := opened w file_path file_size segment_size in
    let size_matches :=
      match disk with Some content => zlength content =? file_size | None => false end in
    if sys_fd sys <? 0 then (false, with_fd (sys_fd sys), disk)
    else if size_matches then (true, with_fd (sys_fd sys), disk)
    else if sys_fallocate sys || sys_ftruncate sys then
      (true, with_fd (sys_fd sys), Some (replicate (Z.to_nat file_size) Byte.x00))
    else (false, with_fd (-1), Some []).

(** [mmap_ok]: the [mmap] call succeeds. *)
Definition map_segment (w : SegmentWriter) (seg_idx : Z) (mmap_ok : bool)
  : bool * SegmentWriter :=
  let seg_start := u64 (seg_idx * segment_size_ w) in
  let map_size := Z.min (u64 (segment_size_ w + MAX_CHUNK_SIZE)) (u64 (file_size_ w - seg_start)) in
  if mmap_ok then
    (true, {| file_path_ := file_path_ w; file_size_ := file_size_ w;
              segment_size_ := segment_size_ w; segment_count_ := segment_count_ w;
              fd_ := fd_ w;
              mapped_segments_ :=
                <[seg_idx := {| seg_data := seg_start; seg_size := map_size |}]> (mapped_segments_ w);
              cached_seg_idx_ := cached_seg_idx_ w; cached_seg_ := cached_seg_ w |})
  else (false, w).

Definition set_cache (w : SegmentWriter) (seg_idx : Z) : SegmentWriter := {|
  file_path_ := file_path_ w; file_size_ := file_size_ w;
  segment_size_ := segment_size_ w; segment_count_ := segment_count_ w; fd_ := fd_ w;
  mapped_segments_ := mapped_segments_ w;
  cached_seg_idx_ := seg_idx; cached_seg_ := Some seg_idx |}.

(** The segment of index [seg_idx], mapped if it is not yet: the cache, the
    lookup, then [map_segment]. *)
Definition find_segment (w : SegmentWriter) (seg_idx : Z) (mmap_ok : bool)
  : SegmentWriter * option MappedSeg :=
  if seg_idx =? cached_seg_idx_ w then
    (w, match cached_seg_ w with Some k => mapped_segments_ w !! k | None => None end)
  else
    match mapped_segments_ w !! seg_idx with
    | Some seg => (set_cache w seg_idx, Some seg)
    | None =>
      match map_segment w seg_idx mmap_ok with
      | (false, w) => (w, None)
      | (true, w) => (set_cache w seg_idx, mapped_segments_ w !! seg_idx)
      end
    end.

Definition get_chunk_base (w : SegmentWriter) (chunk_offset chunk_size : Z) (mmap_ok : bool)
  : SegmentWriter * option Ptr :=
  if fd_ w <? 0 then (w, None)
  else if file_size_ w <? u64 (chunk_offset + chunk_size) then (w, None)
  else if MAX_CHUNK_SIZE <? chunk_size then (w, None)
  else
    let seg_idx := u32 (chunk_offset / segment_size_ w) in
    if segment_count_ w <=? seg_idx then (w, None)
    else
      match find_segment w seg_idx mmap_ok with
      | (w, None) => (w, None)
      | (w, Some seg) =>
        let offset_in_seg := u64 (chunk_offset - u64 (seg_idx * segment_size_ w)) in
        if seg_size seg <? u64 (offset_in_seg + chunk_size) then (w, None)
        else (w, Some {| p_off := seg_data seg + offset_in_seg;
                         p_lim := seg_data seg + seg_size seg |})
      end.

(** [unmap_all] and [close]. *)
Definition unmap_all (w : SegmentWriter) : SegmentWriter := {|
  file_path_ := file_path_ w; file_size_ := file_size_ w;
  segment_size_ := segment_size_ w; segment_count_ := segment_count_ w; fd_ := fd_ w;
  mapped_segments_ := ∅; cached_seg_idx_ := UINT32_MAX; cached_seg_ := None |}.

Definition writer_close (w : SegmentWriter) : SegmentWriter :=
  let w := unmap_all w in
  {| file_path_ := file_path_ w; file_size_ := 0; segment_size_ := 0; segment_count_ := 0;
     fd_ := if 0 <=? fd_ w then -1 else fd_ w;
     mapped_segments_ := mapped_segments_ w; cached_seg_idx_ := cached_seg_idx_ w;
     cached_seg_ := cached_seg_ w |}.

(** The move constructor and move assignment between different objects: the
    elements of the map keep their addresses. *)
Definition writer_moved (other : SegmentWriter) : SegmentWriter := {|
  file_path_ := EmptyString; file_size_ := file_size_ other; segment_size_ := segment_size_ other;
  segment_count_ := segment_count_ other; fd_ := -1; mapped_segments_ := ∅;
  cached_seg_idx_ := UINT32_MAX; cached_seg_ := None |}.

Definition writer_move (other : SegmentWriter) : SegmentWriter * SegmentWriter := (other, writer_moved other).

(** The target, the source and the writer whose resources are released. *)
Definition writer_move_assign (w other : SegmentWriter) : SegmentWriter * SegmentWriter * SegmentWriter :=
  (other, writer_moved other, writer_close w).

(** ** What the users of the writer rely on *)
Class ChunkStore (W : Type) := {
  store_ok : W -> Prop;
  store_size : W -> Z;
  store_base : W -> Z -> Z -> bool -> W * option Ptr;
  live : W -> Ptr -> Prop;
}.

(** A base pointer shows the chunk's own bytes of the file, to the end of the
    chunk at least; handing out a pointer keeps the earlier ones alive; and a
    chunk inside the file has one, if it is not too long and the system can
    map. *)
Class ChunkStoreLaws (W : Type) {S : ChunkStore W} : Prop := {
  store_base_ok w off size mmap_ok w' r :
    store_ok w -> is_u64 off -> is_u32 size ->
    store_base w off size mmap_ok = (w', r) ->
    store_ok w' /\ store_size w' = store_size w /\
    (forall p, r = Some p ->
       p_off p = off /\ off + size <= p_lim p <= store_size w /\ live w' p) /\
    (forall p, live w p -> live w' p);
  store_base_total w off size :
    store_ok w -> 0 <= off -> 0 < size <= MAX_CHUNK_SIZE -> off + size <= store_size w ->
    is_Some (snd (store_base w off size true));
  store_base_max w off size mmap_ok w' p :
    store_base w off size mmap_ok = (w', Some p) -> size <= MAX_CHUNK_SIZE;
}.

(** The mapping of segment [i], as [map_segment] computes it. *)
Definition segment_at (w : SegmentWriter) (i : Z) : MappedSeg := {|
  seg_data := i * segment_size_ w;
  seg_size := Z.min (segment_size_ w + MAX_CHUNK_SIZE) (file_size_ w - i * segment_size_ w);
|}.

(** An open writer with the default segment size.  The limit on the file size
    keeps the number of segments within 32 bits. *)
Record writer_ok (w : SegmentWriter) : Prop := {
  wok_fd : 0 <= fd_ w;
  wok_size : 0 < file_size_ w <= 2 ^ 57;
  wok_seg : segment_size_ w = DEFAULT_SEGMENT_SIZE;
  wok_count : segment_count_ w = (file_size_ w + segment_size_ w - 1) / segment_size_ w;
  wok_map : forall i seg, mapped_segments_ w !! i = Some seg ->
    0 <= i < segment_count_ w /\ seg = segment_at w i;
  wok_cache : cached_seg_idx_ w = UINT32_MAX \/
    (cached_seg_ w = Some (cached_seg_idx_ w) /\
     is_Some (mapped_segments_ w !! cached_seg_idx_ w));
}.

Definition ptr_live (w : SegmentWriter) (p : Ptr) : Prop :=
  exists i seg, mapped_segments_ w !! i = Some seg /\
    seg_data seg <= p_off p /\ p_lim p = seg_data seg + seg_size seg.

#[export] Instance segment_store : ChunkStore SegmentWriter := {|
  store_ok := writer_ok;
  store_size := file_size_;
  store_base := get_chunk_base;
  live := ptr_live;
|}.

(** A sequence of requests: offset, size, and whether the system can map. *)
Fixpoint get_bases {W} `{ChunkStore W} (w : W) (reqs : list (Z * Z * bool))
  : W * list (option Ptr) :=
  match reqs with
  | [] => (w, [])
  | (off, size, ok) :: reqs =>
    let '(w, p) := store_base w off size ok in
    let '(w, ps) := get_bases w reqs in (w, p :: ps)
  end.

Definition request_ok (r : Z * Z * bool) : Prop := is_u64 r.1.1 /\ is_u32 r.1.2.

(** The pointer returned for a request is right and its mapping exists. *)
Definition pointer_right {W} `{ChunkStore W} (w : W) (r : Z * Z * bool) (p : option Ptr) : Prop :=
  forall q, p = Some q ->
    p_off q = r.1.1 /\ r.1.1 + r.1.2 <= p_lim q <= store_size w /\ live w q.

(** ** Lemmas *)
Ltac segments :=
  unfold DEFAULT_SEGMENT_SIZE, MAX_CHUNK_SIZE, UINT32_MAX in *;
  Z.div_mod_to_equations; lia.

Lemma segment_count_bound w : writer_ok w -> 0 < segment_count_ w <= 2 ^ 31.
Proof.
  intros [? Hs Hg Hc _ _]. rewrite Hc, Hg. segments.
Qed.

Lemma set_cache_ok w i :
  writer_ok w -> is_Some (mapped_segments_ w !! i) -> writer_ok (set_cache w i).
Proof. intros [] Hi. split; try done. right. done. Qed.

(** The parameters of the [mmap] call are those of [segment_at]. *)
Lemma map_segment_spec w i w' :
  writer_ok w -> 0 <= i < segment_count_ w -> mapped_segments_ w !! i = None ->
  map_segment w i true = (true, w') ->
  writer_ok w' /\ mapped_segments_ w' = <[i := segment_at w i]> (mapped_segments_ w) /\
  file_size_ w' = file_size_ w.
Proof.
  intros Hw Hi Hnone. pose proof (segment_count_bound w Hw) as Hb.
  destruct Hw as [Hfd Hs Hg Hc Hm Hca]. unfold map_segment.
  assert (i * segment_size_ w < file_size_ w) as Hlt by (rewrite Hc, Hg in Hi; rewrite Hg; segments).
  rewrite (u64_small (i * _)), (u64_small (_ + _)), u64_small
    by (rewrite Hg in *; unfold is_u64; segments).
  intros [= <-]. split_and!; [|done|done]. split; cbn; try done.
  - intros j seg. rewrite lookup_insert_Some. intros [[<- <-]|[_ Hj]]; [done|].
    by apply Hm.
  - destruct Hca as [|[? ?]]; [by left|]. right. split; [done|].
    rewrite lookup_insert_is_Some. by destruct (decide (i = cached_seg_idx_ w)); auto.
Qed.

(** [find_segment] returns the segment's mapping and only adds mappings. *)
Lemma find_segment_spec w i mmap_ok w' r :
  writer_ok w -> 0 <= i < segment_count_ w -> find_segment w i mmap_ok = (w', r) ->
  writer_ok w' /\ file_size_ w' = file_size_ w /\
  mapped_segments_ w ⊆ mapped_segments_ w' /\
  (forall seg, r = Some seg -> seg = segment_at w i /\ mapped_segments_ w' !! i = Some seg) /\
  (mmap_ok = true -> is_Some r).
Proof.
  intros Hw Hi. pose proof (segment_count_bound w Hw) as Hb. unfold find_segment.
  destruct (Z.eqb_spec i (cached_seg_idx_ w)) as [->|Hne].
  - intros [= <- <-]. destruct (wok_cache _ Hw) as [Hc|[-> [seg Hseg]]].
    { unfold UINT32_MAX in Hc. lia. }
    rewrite Hseg. split_and!; try done. intros ? [= <-]. by destruct (wok_map _ Hw _ _ Hseg) as [_ ->].
  - destruct (mapped_segments_ w !! i) as [seg|] eqn:Hseg.
    + intros [= <- <-]. split_and!; try done; [apply set_cache_ok; [done|by rewrite Hseg]|].
      intros ? [= <-]. by destruct (wok_map _ Hw _ _ Hseg) as [_ ->].
    + destruct mmap_ok.
      * destruct (map_segment w i true) as [b w1] eqn:Hmap.
        assert (b = true) as -> by (unfold map_segment in Hmap; by simplify_eq).
        destruct (map_segment_spec w i w1 Hw Hi Hseg Hmap) as (Hw1 & Hm1 & Hf1).
        assert (mapped_segments_ w1 !! i = Some (segment_at w i)) as Hlk
          by (by rewrite Hm1, lookup_insert_eq).
        intros [= <- <-]. rewrite Hlk. split_and!; try done.
        -- apply set_cache_ok; [done|]. by rewrite Hlk.
        -- cbn. rewrite Hm1. by apply insert_subseteq.
        -- intros ? [= <-]. done.
      * cbn. intros [= <- <-]. split_and!; done.
Qed.

(** The offsets computed by [get_chunk_base] for a chunk of the file: no
    32-bit or 64-bit wrap-around, and the guard covers the chunk. *)
Lemma chunk_in_segment w off size :
  writer_ok w -> is_u64 off -> is_u32 size ->
  u64 (off + size) <= file_size_ w -> size <= MAX_CHUNK_SIZE ->
  u32 (off / segment_size_ w) < segment_count_ w ->
  let i := u32 (off / segment_size_ w) in
  0 <= i < segment_count_ w /\ off + size <= file_size_ w /\
  u64 (off - u64 (i * segment_size_ w)) = off - seg_data (segment_at w i) /\
  0 <= off - seg_data (segment_at w i) /\
  u64 (off - seg_data (segment_at w i) + size) = off - seg_data (segment_at w i) + size /\
  off - seg_data (segment_at w i) + size <= seg_size (segment_at w i).
Proof.
  intros Hw Hoff Hsize Hend Hmax Hi. pose proof (segment_count_bound w Hw) as Hb.
  destruct Hw as [_ Hs Hg Hc _ _]. cbv zeta. unfold segment_at. cbn [seg_data seg_size].
  rewrite Hg in *. unfold is_u64, is_u32 in *.
  assert (u64 (off + size) = off + size) as Hsum.
  { destruct (Z.ltb_spec (off + size) (2 ^ 64)); [by apply u64_small; unfold is_u64; lia|].
    exfalso. assert (off / DEFAULT_SEGMENT_SIZE = 2 ^ 38 - 1) as Hq by segments.
    rewrite Hq in Hi. change (u32 (2 ^ 38 - 1)) with 4294967295 in Hi. lia. }
  rewrite Hsum in Hend.
  assert (u32 (off / DEFAULT_SEGMENT_SIZE) = off / DEFAULT_SEGMENT_SIZE) as Hq
    by (apply u32_small; unfold is_u32; segments).
  rewrite Hq in *. set (i := off / DEFAULT_SEGMENT_SIZE) in *.
  assert (0 <= i /\ i * DEFAULT_SEGMENT_SIZE <= off < i * DEFAULT_SEGMENT_SIZE + DEFAULT_SEGMENT_SIZE)
    as [Hi0 Hrange] by (subst i; segments).
  clearbody i. unfold DEFAULT_SEGMENT_SIZE, MAX_CHUNK_SIZE in *.
  rewrite (u64_small (i * _)) by (unfold is_u64; lia).
  rewrite !u64_small by (unfold is_u64; lia). lia.
Qed.

Lemma get_chunk_base_spec w off size mmap_ok w' r :
  writer_ok w -> is_u64 off -> is_u32 size -> get_chunk_base w off size mmap_ok = (w', r) ->
  writer_ok w' /\ file_size_ w' = file_size_ w /\ mapped_segments_ w ⊆ mapped_segments_ w' /\
  (forall p, r = Some p ->
     p_off p = off /\ off + size <= p_lim p <= file_size_ w /\ ptr_live w' p).
Proof.
  intros Hw Hoff Hsize. unfold get_chunk_base.
  destruct (fd_ w <? 0); [intros [= <- <-]; by split_and!|].
  destruct (Z.ltb_spec (file_size_ w) (u64 (off + size))) as [|Hend]; [intros [= <- <-]; by split_and!|].
  destruct (Z.ltb_spec MAX_CHUNK_SIZE size) as [|Hmax]; [intros [= <- <-]; by split_and!|].
  destruct (Z.leb_spec (segment_count_ w) (u32 (off / segment_size_ w))) as [|Hlt];
    [intros [= <- <-]; by split_and!|].
  destruct (chunk_in_segment w off size Hw Hoff Hsize Hend Hmax Hlt)
    as (Hi & Hfs & He1 & Hnn & He2 & Hguard). set (i := u32 (off / segment_size_ w)) in *.
  destruct (find_segment w i mmap_ok) as [w1 r1] eqn:Hfind.
  destruct (find_segment_spec w i mmap_ok w1 r1 Hw Hi Hfind) as (Hw1 & Hf1 & Hsub & Hr & _).
  destruct r1 as [seg|]; [|intros [= <- <-]; by split_and!].
  destruct (Hr seg eq_refl) as [-> Hlk].
  assert (segment_size_ w1 = segment_size_ w) as -> by (by rewrite (wok_seg _ Hw), (wok_seg _ Hw1)).
  rewrite He1, He2. replace (_ <? _) with false by lia.
  intros [= <- <-]. split_and!; try done. intros p [= <-]. cbn [p_off p_lim].
  split; [lia|]. split; [unfold segment_at in *; cbn [seg_data seg_size] in *; lia|].
  exists i, (segment_at w i). cbn [p_off p_lim]. split_and!; [done|lia|done].
Qed.

#[export] Instance segment_store_laws : ChunkStoreLaws SegmentWriter.
Proof.
  split.
  - intros w off size mmap_ok w' r Hw Hoff Hsize Heq.
    destruct (get_chunk_base_spec w off size mmap_ok w' r Hw Hoff Hsize Heq)
      as (Hw' & Hf & Hsub & Hp). split_and!; try done.
    intros p (i & seg & Hi & ?). exists i, seg. split; [|done]. by eapply lookup_weaken.
  - intros w off size Hw Hoff Hsize Hend. cbn in Hend.
    pose proof (wok_size _ Hw) as Hs. pose proof (wok_seg _ Hw) as Hg.
    cbn [store_base segment_store]. unfold get_chunk_base.
    assert (u64 (off + size) = off + size) as -> by (apply u64_small; unfold is_u64; lia).
    assert (u32 (off / segment_size_ w) < segment_count_ w) as Hlt.
    { rewrite (wok_count _ Hw), Hg. rewrite u32_small by (unfold is_u32; segments). segments. }
    pose proof (wok_fd _ Hw). replace (fd_ w <? 0) with false by lia.
    replace (file_size_ w <? off + size) with false by lia.
    replace (MAX_CHUNK_SIZE <? size) with false by lia.
    replace (_ <=? _) with false by lia.
    destruct (chunk_in_segment w off size Hw) as (Hi & Hfs & He1 & Hnn & He2 & Hguard);
      [unfold is_u64; lia|unfold is_u32; segments|rewrite u64_small; unfold is_u64; lia|lia|done|].
    set (i := u32 (off / segment_size_ w)) in *.
    destruct (find_segment w i true) as [w1 r1] eqn:Hfind.
    destruct (find_segment_spec w i true w1 r1 Hw Hi Hfind) as (Hw1 & Hf1 & _ & Hr & Hsome).
    destruct (Hsome eq_refl) as [seg ->]. destruct (Hr seg eq_refl) as [-> _].
    assert (segment_size_ w1 = segment_size_ w) as -> by (by rewrite Hg, (wok_seg _ Hw1)).
    rewrite He1, He2. by replace (_ <? _) with false by lia.
  - intros w off size mmap_ok w' p. cbn. unfold get_chunk_base.
    destruct (_ <? 0); [done|]. destruct (_ <? _); [done|].
    by destruct (Z.ltb_spec MAX_CHUNK_SIZE size); [|lia].
Qed.

(** A moved writer serves the pointers handed out before; what is left of the
    other has neither a descriptor nor mappings to give back. *)
Lemma writer_move_live other p :
  writer_ok other -> ptr_live other p ->
  let '(w, rest) := writer_move other in
  writer_ok w /\ ptr_live w p /\ fd_ rest < 0 /\ mapped_segments_ rest = ∅ /\
  mapped_segments_ (writer_close rest) = ∅.
Proof. intros. by split_and!. Qed.

(** ** Clients of the store *)
Section client.
Context {W : Type} {S : ChunkStore W} {L : ChunkStoreLaws W}.

(** All pointers handed out stay right while more are handed out. *)
Lemma get_bases_right (w : W) reqs w' ps :
  store_ok w -> Forall request_ok reqs -> get_bases w reqs = (w', ps) ->
  store_ok w' /\ store_size w' = store_size w /\ (forall p, live w p -> live w' p) /\
  Forall2 (pointer_right w') reqs ps.
Proof.
  revert w ps. induction reqs as [|[[off size] ok] reqs IH]; intros w ps Hw Hreq.
  { intros [= <- <-]. split_and!; try done. }
  apply Forall_cons in Hreq as [[Ho Hs] Hreq]. cbn [get_bases].
  destruct (store_base w off size ok) as [w1 p] eqn:Hb.
  destruct (store_base_ok w off size ok w1 p Hw Ho Hs Hb) as (Hw1 & Hsz & Hp & Hlive).
  destruct (get_bases w1 reqs) as [w2 ps2] eqn:Hgb. intros [= <- <-].
  destruct (IH w1 ps2 Hw1 Hreq Hgb) as (Hw2 & Hsz2 & Hlive2 & Hps).
  split_and!; [done|congruence|auto|]. constructor; [|done].
  intros q ->. destruct (Hp q eq_refl) as (? & ? & ?). cbn. split_and!; auto; lia.
Qed.
End client.

Lemma opened_ok path size fd :
  0 < size <= 2 ^ 57 -> 0 <= fd -> writer_ok (opened writer_new path size DEFAULT_SEGMENT_SIZE fd).
Proof.
  intros Hs Hfd. unfold opened. change (DEFAULT_SEGMENT_SIZE <? MAX_CHUNK_SIZE) with false.
  split; cbn; try done; [|by left].
  rewrite (u64_small (_ - 1)) by (unfold is_u64; segments). by rewrite u32_small by (unfold is_u32; segments).
Qed.

Lemma writer_open_ok path size sys disk w disk' :
  size <= 2 ^ 57 -> 0 <= size ->
  writer_open writer_new path size DEFAULT_SEGMENT_SIZE sys disk = (true, w, disk') ->
  writer_ok w /\ file_size_ w = size /\ mapped_segments_ w = ∅.
Proof.
  intros Hs H0. unfold writer_open. destruct (Z.eqb_spec size 0); [done|].
  destruct (Z.ltb_spec (sys_fd sys) 0); [done|]. cbv zeta. intros Heq.
  assert (w = opened writer_new path size DEFAULT_SEGMENT_SIZE (sys_fd sys)) as ->.
  { destruct (match disk with Some _ => _ | None => _ end); [by simplify_eq|].
    by destruct (_ || _); simplify_eq. }
  split_and!; [|done|done]. apply opened_ok; lia.
Qed.

(** C27: Every base pointer that a writer hands out during its life shows
    exactly the bytes of its chunk: it stands for the chunk's file offset, its
    mapping reaches the end of the chunk and stays inside the file, and later
    requests never invalidate it.  This holds for all 64-bit offsets and
    32-bit sizes, so none of the sums in [get_chunk_base] can be tricked by
    wrap-around. *)
Theorem segment_pointers_right path size sys disk w disk' reqs w' ps :
  0 <= size <= 2 ^ 57 ->
  writer_open writer_new path size DEFAULT_SEGMENT_SIZE sys disk = (true, w, disk') ->
  Forall request_ok reqs -> get_bases w reqs = (w', ps) ->
  Forall2 (pointer_right w') reqs ps.
Proof.
  intros [H0 Hs] Hopen Hreq Hgb.
  destruct (writer_open_ok _ _ _ _ _ _ Hs H0 Hopen) as [Hw _].
  by apply (get_bases_right (S := segment_store) w reqs w' ps Hw Hreq Hgb).
Qed.

(** C28: Every chunk of at most MAX_CHUNK_SIZE bytes inside the file gets a
    base pointer, wherever it lies relative to the segment boundaries: the
    guard region after each segment is large enough.  It fails only if the
    system refuses the mapping. *)
Theorem segment_guard_suffices path size sys disk w disk' reqs off len :
  0 <= size <= 2 ^ 57 ->
  writer_open writer_new path size DEFAULT_SEGMENT_SIZE sys disk = (true, w, disk') ->
  Forall request_ok reqs -> 0 <= off -> 0 < len <= MAX_CHUNK_SIZE -> off + len <= size ->
  exists p, snd (get_chunk_base (fst (get_bases w reqs)) off len true) = Some p /\
    p_off p = off /\ off + len <= p_lim p.
Proof.
  intros [H0 Hs] Hopen Hreq Hoff Hlen Hend.
  destruct (writer_open_ok _ _ _ _ _ _ Hs H0 Hopen) as (Hw & Hfs & _).
  destruct (get_bases w reqs) as [w1 ps] eqn:Hgb. cbn [fst].
  destruct (get_bases_right (S := segment_store) w reqs w1 ps Hw Hreq Hgb) as (Hw1 & Hsz & _).
  cbn in Hsz. destruct (store_base_total (S := segment_store) w1 off len Hw1 Hoff Hlen) as [p Hp];
    [cbn; lia|].
  exists p. split; [done|]. cbn [store_base segment_store] in Hp.
  destruct (get_chunk_base w1 off len true) as [w2 r] eqn:Hg. cbn in Hp. subst r.
  destruct (get_chunk_base_spec w1 off len true w2 _ Hw1 ltac:(unfold is_u64; lia)
    ltac:(unfold is_u32, MAX_CHUNK_SIZE in *; lia) Hg) as (_ & _ & _ & Hp).
  destruct (Hp p eq_refl) as (? & ? & _). split; [done|lia].
Qed.

(** A successful [open] leaves a file of exactly the requested size.  A
    file that had that size keeps its content (so that a download can be
    resumed); any other is replaced by zeros. *)
Theorem writer_open_file w path size seg sys disk w' disk' :
  0 < size -> writer_open w path size seg sys disk = (true, w', disk') ->
  exists content, disk' = Some content /\ zlength content = size /\
    (disk = Some content \/
     (forall old, disk = Some old -> zlength old <> size) /\
     content = replicate (Z.to_nat size) Byte.x00).
Proof.
  intros Hs. unfold writer_open. replace (size =? 0) with false by lia.
  destruct (sys_fd sys <? 0); [done|]. cbv zeta.
  assert (zlength (replicate (Z.to_nat size) Byte.x00) = size) as Hz
    by (unfold zlength; rewrite length_replicate; lia).
  destruct disk as [old|].
  - destruct (Z.eqb_spec (zlength old) size).
    + intros [= <- <-]. exists old. auto.
    + destruct (_ || _); [|done]. intros [= <- <-]. eexists. split; [done|].
      split; [done|]. right. split; [|done]. by intros ? [= <-].
  - destruct (_ || _); [|done]. intros [= <- <-]. eexists. split; [done|].
    split; [done|]. right. split; done.
Qed.

(** ** Instances *)
Definition demo_sys : open_calls := {| sys_fd := 5; sys_fallocate := true; sys_ftruncate := true |}.
Definition demo_writer : SegmentWriter :=
  (writer_open writer_new "out"%string 200000000 DEFAULT_SEGMENT_SIZE demo_sys None).1.2.
Definition demo_reqs : list (Z * Z * bool) :=
  [(0, 1048576, true); (66650000, 1048576, true); (18446744073709551615, 1, true)].

Lemma demo_reqs_ok : Forall request_ok demo_reqs.
Proof. repeat constructor; cbn; lia. Qed.

Lemma segment_pointers_right_witness :
  Forall2 (pointer_right (get_bases demo_writer demo_reqs).1) demo_reqs
    (get_bases demo_writer demo_reqs).2.
Proof.
  apply (segment_pointers_right "out"%string 200000000 demo_sys None demo_writer
    (Some (replicate (Z.to_nat 200000000) Byte.x00))).
  - lia.
  - reflexivity.
  - exact demo_reqs_ok.
  - by destruct (get_bases demo_writer demo_reqs).
Defined.

Lemma segment_guard_suffices_witness :
  exists p, snd (get_chunk_base (fst (get_bases demo_writer demo_reqs)) 134000000 1048576 true) =
    Some p /\ p_off p = 134000000 /\ 134000000 + 1048576 <= p_lim p.
Proof.
  apply (segment_guard_suffices "out"%string 200000000 demo_sys None demo_writer
    (Some (replicate (Z.to_nat 200000000) Byte.x00))).
  - lia.
  - reflexivity.
  - exact demo_reqs_ok.
  - lia.
  - unfold MAX_CHUNK_SIZE. lia.
  - lia.
Defined.

Lemma writer_open_file_witness :
  exists content, Some (replicate 4 Byte.x00) = Some content /\ zlength content = 4 /\
    (Some [Byte.x01] = Some content \/
     (forall old, Some [Byte.x01] = Some old -> zlength old <> 4) /\
     content = replicate (Z.to_nat 4) Byte.x00).
Proof.
  apply (writer_open_file writer_new "out"%string 4 DEFAULT_SEGMENT_SIZE demo_sys (Some [Byte.x01])
    (writer_open writer_new "out"%string 4 DEFAULT_SEGMENT_SIZE demo_sys (Some [Byte.x01])).1.2).
  - lia.
  - reflexivity.
Defined.
