(* ===== verification/Scheduler.v ===== *)
(** * Download scheduler (src/src/daemon/scheduler.hpp, scheduler.cpp)

    The scheduler decides which sub-block to request from which peer.  Its
    fields are those of the class; a [PeerSlot&] is the position of the slot in
    [peer_slots_]; the callbacks ([issue_request_], [cancel_request_],
    [broadcast_have_], ...) append to [calls], the list of calls made so far.
    An operation returns [None] when it indexes a vector out of range, which
    the source leaves unchecked.  The clock is an argument. *)

From S2P Require Import Prelude Platform ChunkAssembler.

(** ** Ordered containers *)
(** Stable insertion sort by an integer key ([std::stable_sort], and one of
    the results [std::sort] may give). *)
Fixpoint insert_by {A} (key : A -> Z) (x : A) (l : list A) : list A :=
  match l with
  | [] => [x]
  | y :: l' => if key x <=? key y then x :: l else y :: insert_by key x l'
  end.

Definition sort_by {A} (key : A -> Z) (l : list A) : list A := foldr (insert_by key) [] l.

(** A [std::set<uint32_t>] in iteration order. *)
Definition ordered (s : gset Z) : list Z := sort_by (fun z => z) (elements s).

(** A [std::map<uint32_t, ...>] in iteration order. *)
Definition ordered_map {A} (m : gmap Z A) : list (Z * A) := sort_by fst (map_to_list m).

(** ** State *)
Record PeerSlot := {
  slot_id : Z;
  pending_requests : Z;
  consecutive_timeouts : Z;
  rtt_us : Z;
  link_speed_mbps : Z;
  link_speed_reported : Z;
  pipeline_cap : Z;
  am_choking : bool;
  remote_bitfield : list bool;
  active_sub_blocks : gmap Z (gset Z);
}.

Definition set_pending (p : PeerSlot) (x : Z) : PeerSlot := {|
  slot_id := slot_id p; pending_requests := x; consecutive_timeouts := consecutive_timeouts p;
  rtt_us := rtt_us p; link_speed_mbps := link_speed_mbps p;
  link_speed_reported := link_speed_reported p; pipeline_cap := pipeline_cap p;
  am_choking := am_choking p; remote_bitfield := remote_bitfield p;
  active_sub_blocks := active_sub_blocks p |}.

Definition set_speed_of (p : PeerSlot) (x : Z) : PeerSlot := {|
  slot_id := slot_id p; pending_requests := pending_requests p;
  consecutive_timeouts := consecutive_timeouts p; rtt_us := rtt_us p; link_speed_mbps := x;
  link_speed_reported := x; pipeline_cap := pipeline_cap p;
  am_choking := am_choking p; remote_bitfield := remote_bitfield p;
  active_sub_blocks := active_sub_blocks p |}.

Definition set_choking (p : PeerSlot) (x : bool) : PeerSlot := {|
  slot_id := slot_id p; pending_requests := pending_requests p;
  consecutive_timeouts := consecutive_timeouts p; rtt_us := rtt_us p;
  link_speed_mbps := link_speed_mbps p; link_speed_reported := link_speed_reported p;
  pipeline_cap := pipeline_cap p; am_choking := x; remote_bitfield := remote_bitfield p;
  active_sub_blocks := active_sub_blocks p |}.

Definition set_bitfield (p : PeerSlot) (x : list bool) : PeerSlot := {|
  slot_id := slot_id p; pending_requests := pending_requests p;
  consecutive_timeouts := consecutive_timeouts p; rtt_us := rtt_us p;
  link_speed_mbps := link_speed_mbps p; link_speed_reported := link_speed_reported p;
  pipeline_cap := pipeline_cap p; am_choking := am_choking p; remote_bitfield := x;
  active_sub_blocks := active_sub_blocks p |}.

Definition set_active_of (p : PeerSlot) (x : gmap Z (gset Z)) : PeerSlot := {|
  slot_id := slot_id p; pending_requests := pending_requests p;
  consecutive_timeouts := consecutive_timeouts p; rtt_us := rtt_us p;
  link_speed_mbps := link_speed_mbps p; link_speed_reported := link_speed_reported p;
  pipeline_cap := pipeline_cap p; am_choking := am_choking p;
  remote_bitfield := remote_bitfield p; active_sub_blocks := x |}.

Inductive SchedulerPhase := NORMAL | ENDGAME | DONE.
Inductive ChunkState := MISSING | REQUESTED | DOWNLOADING | COMPLETE.

#[export] Instance SchedulerPhase_eq_dec : EqDecision SchedulerPhase.
Proof. solve_decision. Defined.
#[export] Instance ChunkState_eq_dec : EqDecision ChunkState.
Proof. solve_decision. Defined.

Definition complete_b (st : ChunkState) : bool := match st with COMPLETE => true | _ => false end.

(** The calls the scheduler makes. *)
Inductive call :=
| IssueRequest (slot chunk begin length : Z)
| CancelRequest (slot chunk begin length : Z)
| BroadcastHave (chunk : Z)
| BroadcastNotInterested
| IssueNotInterested (slot : Z).

Record Scheduler := {
  chunk_states_ : list ChunkState;
  chunk_sub_blocks_ : list Z;
  availability_ : list Z;
  active_chunks_ : list Z;
  chunk_sub_done_ : list (list bool);
  chunk_sub_req_ : list (list bool);
  chunk_sub_req_time_ : list (list Z);
  chunk_sub_done_count_ : list Z;
  chunk_sub_req_count_ : list Z;
  peer_slots_ : list PeerSlot;
  phase_ : SchedulerPhase;
  missing_count_ : Z;
  local_speed_mbps_ : Z;
  has_cancel_issuer : bool;
  has_not_interested_issuer : bool;
  calls : list call;
}.

Definition set_states (s : Scheduler) (x : list ChunkState) : Scheduler := {|
  chunk_states_ := x; chunk_sub_blocks_ := chunk_sub_blocks_ s;
  availability_ := availability_ s; active_chunks_ := active_chunks_ s;
  chunk_sub_done_ := chunk_sub_done_ s; chunk_sub_req_ := chunk_sub_req_ s;
  chunk_sub_req_time_ := chunk_sub_req_time_ s;
  chunk_sub_done_count_ := chunk_sub_done_count_ s;
  chunk_sub_req_count_ := chunk_sub_req_count_ s; peer_slots_ := peer_slots_ s;
  phase_ := phase_ s; missing_count_ := missing_count_ s;
  local_speed_mbps_ := local_speed_mbps_ s; has_cancel_issuer := has_cancel_issuer s;
  has_not_interested_issuer := has_not_interested_issuer s; calls := calls s;
|}.

Definition set_sub_blocks (s : Scheduler) (x : list Z) : Scheduler := {|
  chunk_states_ := chunk_states_ s; chunk_sub_blocks_ := x; availability_ := availability_ s;
  active_chunks_ := active_chunks_ s; chunk_sub_done_ := chunk_sub_done_ s;
  chunk_sub_req_ := chunk_sub_req_ s; chunk_sub_req_time_ := chunk_sub_req_time_ s;
  chunk_sub_done_count_ := chunk_sub_done_count_ s;
  chunk_sub_req_count_ := chunk_sub_req_count_ s; peer_slots_ := peer_slots_ s;
  phase_ := phase_ s; missing_count_ := missing_count_ s;
  local_speed_mbps_ := local_speed_mbps_ s; has_cancel_issuer := has_cancel_issuer s;
  has_not_interested_issuer := has_not_interested_issuer s; calls := calls s;
|}.

Definition set_availability (s : Scheduler) (x : list Z) : Scheduler := {|
  chunk_states_ := chunk_states_ s; chunk_sub_blocks_ := chunk_sub_blocks_ s;
  availability_ := x; active_chunks_ := active_chunks_ s;
  chunk_sub_done_ := chunk_sub_done_ s; chunk_sub_req_ := chunk_sub_req_ s;
  chunk_sub_req_time_ := chunk_sub_req_time_ s;
  chunk_sub_done_count_ := chunk_sub_done_count_ s;
  chunk_sub_req_count_ := chunk_sub_req_count_ s; peer_slots_ := peer_slots_ s;
  phase_ := phase_ s; missing_count_ := missing_count_ s;
  local_speed_mbps_ := local_speed_mbps_ s; has_cancel_issuer := has_cancel_issuer s;
  has_not_interested_issuer := has_not_interested_issuer s; calls := calls s;
|}.

Definition set_active (s : Scheduler) (x : list Z) : Scheduler := {|
  chunk_states_ := chunk_states_ s; chunk_sub_blocks_ := chunk_sub_blocks_ s;
  availability_ := availability_ s; active_chunks_ := x; chunk_sub_done_ := chunk_sub_done_ s;
  chunk_sub_req_ := chunk_sub_req_ s; chunk_sub_req_time_ := chunk_sub_req_time_ s;
  chunk_sub_done_count_ := chunk_sub_done_count_ s;
  chunk_sub_req_count_ := chunk_sub_req_count_ s; peer_slots_ := peer_slots_ s;
  phase_ := phase_ s; missing_count_ := missing_count_ s;
  local_speed_mbps_ := local_speed_mbps_ s; has_cancel_issuer := has_cancel_issuer s;
  has_not_interested_issuer := has_not_interested_issuer s; calls := calls s;
|}.

Definition set_sub_done (s : Scheduler) (x : list (list bool)) : Scheduler := {|
  chunk_states_ := chunk_states_ s; chunk_sub_blocks_ := chunk_sub_blocks_ s;
  availability_ := availability_ s; active_chunks_ := active_chunks_ s; chunk_sub_done_ := x;
  chunk_sub_req_ := chunk_sub_req_ s; chunk_sub_req_time_ := chunk_sub_req_time_ s;
  chunk_sub_done_count_ := chunk_sub_done_count_ s;
  chunk_sub_req_count_ := chunk_sub_req_count_ s; peer_slots_ := peer_slots_ s;
  phase_ := phase_ s; missing_count_ := missing_count_ s;
  local_speed_mbps_ := local_speed_mbps_ s; has_cancel_issuer := has_cancel_issuer s;
  has_not_interested_issuer := has_not_interested_issuer s; calls := calls s;
|}.

Definition set_sub_req (s : Scheduler) (x : list (list bool)) : Scheduler := {|
  chunk_states_ := chunk_states_ s; chunk_sub_blocks_ := chunk_sub_blocks_ s;
  availability_ := availability_ s; active_chunks_ := active_chunks_ s;
  chunk_sub_done_ := chunk_sub_done_ s; chunk_sub_req_ := x;
  chunk_sub_req_time_ := chunk_sub_req_time_ s;
  chunk_sub_done_count_ := chunk_sub_done_count_ s;
  chunk_sub_req_count_ := chunk_sub_req_count_ s; peer_slots_ := peer_slots_ s;
  phase_ := phase_ s; missing_count_ := missing_count_ s;
  local_speed_mbps_ := local_speed_mbps_ s; has_cancel_issuer := has_cancel_issuer s;
  has_not_interested_issuer := has_not_interested_issuer s; calls := calls s;
|}.

Definition set_req_time (s : Scheduler) (x : list (list Z)) : Scheduler := {|
  chunk_states_ := chunk_states_ s; chunk_sub_blocks_ := chunk_sub_blocks_ s;
  availability_ := availability_ s; active_chunks_ := active_chunks_ s;
  chunk_sub_done_ := chunk_sub_done_ s; chunk_sub_req_ := chunk_sub_req_ s;
  chunk_sub_req_time_ := x; chunk_sub_done_count_ := chunk_sub_done_count_ s;
  chunk_sub_req_count_ := chunk_sub_req_count_ s; peer_slots_ := peer_slots_ s;
  phase_ := phase_ s; missing_count_ := missing_count_ s;
  local_speed_mbps_ := local_speed_mbps_ s; has_cancel_issuer := has_cancel_issuer s;
  has_not_interested_issuer := has_not_interested_issuer s; calls := calls s;
|}.

Definition set_done_count (s : Scheduler) (x : list Z) : Scheduler := {|
  chunk_states_ := chunk_states_ s; chunk_sub_blocks_ := chunk_sub_blocks_ s;
  availability_ := availability_ s; active_chunks_ := active_chunks_ s;
  chunk_sub_done_ := chunk_sub_done_ s; chunk_sub_req_ := chunk_sub_req_ s;
  chunk_sub_req_time_ := chunk_sub_req_time_ s; chunk_sub_done_count_ := x;
  chunk_sub_req_count_ := chunk_sub_req_count_ s; peer_slots_ := peer_slots_ s;
  phase_ := phase_ s; missing_count_ := missing_count_ s;
  local_speed_mbps_ := local_speed_mbps_ s; has_cancel_issuer := has_cancel_issuer s;
  has_not_interested_issuer := has_not_interested_issuer s; calls := calls s;
|}.

Definition set_req_count (s : Scheduler) (x : list Z) : Scheduler := {|
  chunk_states_ := chunk_states_ s; chunk_sub_blocks_ := chunk_sub_blocks_ s;
  availability_ := availability_ s; active_chunks_ := active_chunks_ s;
  chunk_sub_done_ := chunk_sub_done_ s; chunk_sub_req_ := chunk_sub_req_ s;
  chunk_sub_req_time_ := chunk_sub_req_time_ s;
  chunk_sub_done_count_ := chunk_sub_done_count_ s; chunk_sub_req_count_ := x;
  peer_slots_ := peer_slots_ s; phase_ := phase_ s; missing_count_ := missing_count_ s;
  local_speed_mbps_ := local_speed_mbps_ s; has_cancel_issuer := has_cancel_issuer s;
  has_not_interested_issuer := has_not_interested_issuer s; calls := calls s;
|}.

Definition set_peers (s : Scheduler) (x : list PeerSlot) : Scheduler := {|
  chunk_states_ := chunk_states_ s; chunk_sub_blocks_ := chunk_sub_blocks_ s;
  availability_ := availability_ s; active_chunks_ := active_chunks_ s;
  chunk_sub_done_ := chunk_sub_done_ s; chunk_sub_req_ := chunk_sub_req_ s;
  chunk_sub_req_time_ := chunk_sub_req_time_ s;
  chunk_sub_done_count_ := chunk_sub_done_count_ s;
  chunk_sub_req_count_ := chunk_sub_req_count_ s; peer_slots_ := x; phase_ := phase_ s;
  missing_count_ := missing_count_ s; local_speed_mbps_ := local_speed_mbps_ s;
  has_cancel_issuer := has_cancel_issuer s;
  has_not_interested_issuer := has_not_interested_issuer s; calls := calls s;
|}.

Definition set_phase (s : Scheduler) (x : SchedulerPhase) : Scheduler := {|
  chunk_states_ := chunk_states_ s; chunk_sub_blocks_ := chunk_sub_blocks_ s;
  availability_ := availability_ s; active_chunks_ := active_chunks_ s;
  chunk_sub_done_ := chunk_sub_done_ s; chunk_sub_req_ := chunk_sub_req_ s;
  chunk_sub_req_time_ := chunk_sub_req_time_ s;
  chunk_sub_done_count_ := chunk_sub_done_count_ s;
  chunk_sub_req_count_ := chunk_sub_req_count_ s; peer_slots_ := peer_slots_ s; phase_ := x;
  missing_count_ := missing_count_ s; local_speed_mbps_ := local_speed_mbps_ s;
  has_cancel_issuer := has_cancel_issuer s;
  has_not_interested_issuer := has_not_interested_issuer s; calls := calls s;
|}.

Definition set_missing (s : Scheduler) (x : Z) : Scheduler := {|
  chunk_states_ := chunk_states_ s; chunk_sub_blocks_ := chunk_sub_blocks_ s;
  availability_ := availability_ s; active_chunks_ := active_chunks_ s;
  chunk_sub_done_ := chunk_sub_done_ s; chunk_sub_req_ := chunk_sub_req_ s;
  chunk_sub_req_time_ := chunk_sub_req_time_ s;
  chunk_sub_done_count_ := chunk_sub_done_count_ s;
  chunk_sub_req_count_ := chunk_sub_req_count_ s; peer_slots_ := peer_slots_ s;
  phase_ := phase_ s; missing_count_ := x; local_speed_mbps_ := local_speed_mbps_ s;
  has_cancel_issuer := has_cancel_issuer s;
  has_not_interested_issuer := has_not_interested_issuer s; calls := calls s;
|}.

Definition set_speed (s : Scheduler) (x : Z) : Scheduler := {|
  chunk_states_ := chunk_states_ s; chunk_sub_blocks_ := chunk_sub_blocks_ s;
  availability_ := availability_ s; active_chunks_ := active_chunks_ s;
  chunk_sub_done_ := chunk_sub_done_ s; chunk_sub_req_ := chunk_sub_req_ s;
  chunk_sub_req_time_ := chunk_sub_req_time_ s;
  chunk_sub_done_count_ := chunk_sub_done_count_ s;
  chunk_sub_req_count_ := chunk_sub_req_count_ s; peer_slots_ := peer_slots_ s;
  phase_ := phase_ s; missing_count_ := missing_count_ s; local_speed_mbps_ := x;
  has_cancel_issuer := has_cancel_issuer s;
  has_not_interested_issuer := has_not_interested_issuer s; calls := calls s;
|}.

Definition set_calls (s : Scheduler) (x : list call) : Scheduler := {|
  chunk_states_ := chunk_states_ s; chunk_sub_blocks_ := chunk_sub_blocks_ s;
  availability_ := availability_ s; active_chunks_ := active_chunks_ s;
  chunk_sub_done_ := chunk_sub_done_ s; chunk_sub_req_ := chunk_sub_req_ s;
  chunk_sub_req_time_ := chunk_sub_req_time_ s;
  chunk_sub_done_count_ := chunk_sub_done_count_ s;
  chunk_sub_req_count_ := chunk_sub_req_count_ s; peer_slots_ := peer_slots_ s;
  phase_ := phase_ s; missing_count_ := missing_count_ s;
  local_speed_mbps_ := local_speed_mbps_ s; has_cancel_issuer := has_cancel_issuer s;
  has_not_interested_issuer := has_not_interested_issuer s; calls := x;
|}.

Definition ENDGAME_THRESHOLD : Z := 128.
Definition MAX_ENDGAME_CHUNKS : Z := 32.
Definition MAX_REDUNDANT_PEERS : Z := 2.

Definition say (s : Scheduler) (c : call) : Scheduler := set_calls s (calls s ++ [c]).

Definition set_peer (s : Scheduler) (pos : nat) (p : PeerSlot) : Scheduler :=
  set_peers s (<[pos := p]> (peer_slots_ s)).

(** The position of the slot with an id ([peer_slot]). *)
Definition peer_slot (s : Scheduler) (id : Z) : option (nat * PeerSlot) :=
  list_find (fun p => slot_id p = id) (peer_slots_ s).

(** Element [j] of row [i] of a vector of vectors. *)
Definition row_get {A} (rows : list (list A)) (i j : Z) : option A :=
  row ← zget rows i; zget row j.

Definition row_set {A} (rows : list (list A)) (i j : Z) (x : A) : option (list (list A)) :=
  row ← zget rows i; row ← zset row j x; zset rows i row.

(** The same when the source checks both indices first. *)
Definition row_upd {A} (rows : list (list A)) (i j : Z) (x : A) : list (list A) :=
  match zget rows i with
  | Some row => zupd rows i (zupd row j x)
  | None => rows
  end.

Definition default_0 (o : option Z) : Z := match o with Some z => z | None => 0 end.

(** ** Helpers of scheduler.cpp *)
Definition peer_have_count (p : PeerSlot) : Z := count_true (remote_bitfield p).

Definition is_full_source (p : PeerSlot) (total_chunks : Z) : bool :=
  (0 <? total_chunks) && (total_chunks <=? zlength (remote_bitfield p)) &&
  (total_chunks <=? peer_have_count p).

Definition has_partial_sources (peers : list PeerSlot) (total_chunks : Z) : bool :=
  existsb (fun p => (0 <? peer_have_count p) && (peer_have_count p <? total_chunks)) peers.

(** [v.resize(n)] *)
Definition resize {A} (l : list A) (n : Z) (x : A) : list A :=
  take (Z.to_nat n) l ++ replicate (Z.to_nat n - length l) x.

(** ** Set-up *)
Definition sched_init (s : Scheduler) (total_chunks local_speed_mbps : Z) : Scheduler :=
  let n := Z.to_nat total_chunks in
  {| chunk_states_ := replicate n MISSING;
     availability_ := replicate n 0;
     chunk_sub_done_ := resize (chunk_sub_done_ s) total_chunks [];
     chunk_sub_req_ := resize (chunk_sub_req_ s) total_chunks [];
     chunk_sub_req_time_ := resize (chunk_sub_req_time_ s) total_chunks [];
     chunk_sub_done_count_ := replicate n 0;
     chunk_sub_req_count_ := replicate n 0;
     active_chunks_ := seqZ 0 total_chunks;
     missing_count_ := total_chunks;
     phase_ := NORMAL;
     local_speed_mbps_ := local_speed_mbps;
     chunk_sub_blocks_ := chunk_sub_blocks_ s;
     peer_slots_ := peer_slots_ s;
     has_cancel_issuer := has_cancel_issuer s;
     has_not_interested_issuer := has_not_interested_issuer s;
     calls := calls s |}.

(** The default member initialisers. *)
Definition sched_new : Scheduler := {|
  chunk_states_ := []; availability_ := []; chunk_sub_done_ := []; chunk_sub_req_ := [];
  chunk_sub_req_time_ := []; chunk_sub_done_count_ := []; chunk_sub_req_count_ := [];
  active_chunks_ := []; missing_count_ := 0; phase_ := NORMAL; local_speed_mbps_ := 1000;
  chunk_sub_blocks_ := []; peer_slots_ := []; has_cancel_issuer := false;
  has_not_interested_issuer := false; calls := [] |}.

Definition set_cancel_issuer (s : Scheduler) : Scheduler := {|
  chunk_states_ := chunk_states_ s; chunk_sub_blocks_ := chunk_sub_blocks_ s;
  availability_ := availability_ s; active_chunks_ := active_chunks_ s;
  chunk_sub_done_ := chunk_sub_done_ s; chunk_sub_req_ := chunk_sub_req_ s;
  chunk_sub_req_time_ := chunk_sub_req_time_ s;
  chunk_sub_done_count_ := chunk_sub_done_count_ s;
  chunk_sub_req_count_ := chunk_sub_req_count_ s; peer_slots_ := peer_slots_ s;
  phase_ := phase_ s; missing_count_ := missing_count_ s;
  local_speed_mbps_ := local_speed_mbps_ s; has_cancel_issuer := true;
  has_not_interested_issuer := has_not_interested_issuer s; calls := calls s |}.

Definition set_not_interested_issuer (s : Scheduler) : Scheduler := {|
  chunk_states_ := chunk_states_ s; chunk_sub_blocks_ := chunk_sub_blocks_ s;
  availability_ := availability_ s; active_chunks_ := active_chunks_ s;
  chunk_sub_done_ := chunk_sub_done_ s; chunk_sub_req_ := chunk_sub_req_ s;
  chunk_sub_req_time_ := chunk_sub_req_time_ s;
  chunk_sub_done_count_ := chunk_sub_done_count_ s;
  chunk_sub_req_count_ := chunk_sub_req_count_ s; peer_slots_ := peer_slots_ s;
  phase_ := phase_ s; missing_count_ := missing_count_ s;
  local_speed_mbps_ := local_speed_mbps_ s; has_cancel_issuer := has_cancel_issuer s;
  has_not_interested_issuer := true; calls := calls s |}.

(** [shuffle] is what [std::shuffle] with the seeded generator does. *)
Definition randomize_piece_order (s : Scheduler) (shuffle : list Z -> list Z) : Scheduler :=
  set_active s (shuffle (active_chunks_ s)).

(** [rows[i].assign(counts[i], x)] for the indices of both. *)
Fixpoint assign_rows {A} (counts : list Z) (rows : list (list A)) (x : A) : list (list A) :=
  match counts, rows with
  | c :: counts, _ :: rows => replicate (Z.to_nat c) x :: assign_rows counts rows x
  | _, rows => rows
  end.

Definition sub_block_count (size : Z) : Z := u32 (size + SUB_BLOCK_SIZE - 1) / SUB_BLOCK_SIZE.

Definition set_chunk_sizes (s : Scheduler) (sizes : list Z) : Scheduler :=
  let counts := sub_block_count <$> sizes in
  let s := set_sub_blocks s counts in
  let s := set_sub_done s (assign_rows counts (chunk_sub_done_ s) false) in
  let s := set_sub_req s (assign_rows counts (chunk_sub_req_ s) false) in
  set_req_time s (assign_rows counts (chunk_sub_req_time_ s) 0).

(** ** Peers *)
(** [availability_[i]++] (or [--]) for the chunks of a bitfield. *)
Fixpoint avail_add (d : Z) (avail : list Z) (bf : list bool) : list Z :=
  match avail, bf with
  | a :: avail, b :: bf => (if b : bool then u32 (a + d) else a) :: avail_add d avail bf
  | avail, _ => avail
  end.

(** [wants_peer]: the peer has a chunk that is not complete here. *)
Definition wants_peer (s : Scheduler) (id : Z) : bool :=
  match peer_slot s id with
  | None => false
  | Some (_, p) =>
    existsb (fun x => fst x && negb (complete_b (snd x)))
      (zip (remote_bitfield p) (chunk_states_ s))
  end.

Definition check_peer_interest (s : Scheduler) (id : Z) : Scheduler :=
  if negb (has_not_interested_issuer s) then s
  else if wants_peer s id then s
  else say s (IssueNotInterested id).

Definition on_peer_added (s : Scheduler) (id reported_speed : Z) : Scheduler :=
  set_peers s (peer_slots_ s ++ [{|
    slot_id := id; pending_requests := 0; consecutive_timeouts := 0; rtt_us := 0;
    link_speed_mbps := reported_speed; link_speed_reported := reported_speed;
    pipeline_cap := 128; am_choking := true;
    remote_bitfield := replicate (length (availability_ s)) false;
    active_sub_blocks := ∅ |}]).

Definition on_peer_speed (s : Scheduler) (id reported_speed : Z) : Scheduler :=
  match peer_slot s id with
  | None => s
  | Some (pos, p) => set_peer s pos (set_speed_of p reported_speed)
  end.

Definition on_choke_change (s : Scheduler) (id : Z) (choking : bool) : Scheduler :=
  match peer_slot s id with
  | None => s
  | Some (pos, p) => set_peer s pos (set_choking p choking)
  end.

(** [if (count > 0) count--] at an index that is checked first. *)
Definition dec_at (l : list Z) (i : Z) : list Z :=
  match zget l i with
  | Some n => if 0 <? n then zupd l i (n - 1) else l
  | None => l
  end.

(** A sub-block requested from a peer that is gone. *)
Definition release_sub (s : Scheduler) (chunk_idx begin : Z) : Scheduler :=
  let sub_idx := begin / SUB_BLOCK_SIZE in
  match row_get (chunk_sub_req_ s) chunk_idx sub_idx with
  | Some true =>
    let s := set_sub_req s (row_upd (chunk_sub_req_ s) chunk_idx sub_idx false) in
    let s := set_req_time s (row_upd (chunk_sub_req_time_ s) chunk_idx sub_idx 0) in
    set_req_count s (dec_at (chunk_sub_req_count_ s) chunk_idx)
  | _ => s
  end.

Definition release_chunk (s : Scheduler) (x : Z * gset Z) : Scheduler :=
  let '(chunk_idx, begins) := x in
  let s := fold_left (fun s begin => release_sub s chunk_idx begin) (ordered begins) s in
  match zget (chunk_states_ s) chunk_idx, zget (chunk_sub_req_count_ s) chunk_idx with
  | Some st, Some 0 =>
    if complete_b st then s else set_states s (zupd (chunk_states_ s) chunk_idx MISSING)
  | _, _ => s
  end.

Definition on_peer_removed (s : Scheduler) (id : Z) : Scheduler :=
  let s := match peer_slot s id with
           | None => s
           | Some (_, p) =>
             let s := set_availability s (avail_add (-1) (availability_ s) (remote_bitfield p)) in
             fold_left release_chunk (ordered_map (active_sub_blocks p)) s
           end in
  set_peers s (filter (fun p => slot_id p <> id) (peer_slots_ s)).

(** ** Choice of peers *)
Definition INT_MIN : Z := -2 ^ 31.
Definition SIZE_MAX : Z := 2 ^ 64 - 1.

(** [static_cast<int>] of an unsigned value. *)
Definition to_int (z : Z) : Z := let z := u32 z in if z <? 2 ^ 31 then z else z - 2 ^ 32.

Definition has_chunk (p : PeerSlot) (chunk_idx : Z) : bool :=
  match zget (remote_bitfield p) chunk_idx with Some b => b | None => false end.

(** The peer can be asked for the chunk. *)
Definition eligible (p : PeerSlot) (chunk_idx : Z) : bool :=
  has_chunk p chunk_idx && negb (am_choking p) && (consecutive_timeouts p <? 3).

(** The score of [select_best_peer]; [int] arithmetic, see [score_fits]. *)
Definition score (local_speed : Z) (p : PeerSlot) : Z :=
  let have_count := peer_have_count p in
  let size := zlength (remote_bitfield p) in
  (if (1000 <=? local_speed) && (1000 <=? link_speed_mbps p) then 10 else 0) +
  Z.min 50 (if have_count <? size then (size - have_count) / 64 else 0) -
  to_int (pending_requests p) * 6 - Z.quot (to_int (rtt_us p)) 2000.

(** The loop over [peer_slots_]: [best_score], [best_slot], [best_peer_have_count]. *)
Fixpoint best_loop (local_speed chunk_idx : Z) (peers : list PeerSlot) (best : Z * Z * Z)
  : Z * Z * Z :=
  match peers with
  | [] => best
  | p :: peers =>
    let '(best_score, best_slot, best_have) := best in
    best_loop local_speed chunk_idx peers
      (if eligible p chunk_idx then
         let sc := score local_speed p in
         if (best_score <? sc) || ((sc =? best_score) && (peer_have_count p <? best_have))
         then (sc, slot_id p, peer_have_count p) else best
       else best)
  end.

Definition select_best_peer (s : Scheduler) (chunk_idx : Z) : option Z :=
  let '(best_score, best_slot, _) :=
    best_loop (local_speed_mbps_ s) chunk_idx (peer_slots_ s) (INT_MIN, 0, SIZE_MAX) in
  if best_score =? INT_MIN then None else Some best_slot.

(** The begins a peer is downloading of a chunk, none if there is no entry. *)
Definition active_of (p : PeerSlot) (chunk_idx : Z) : gset Z :=
  match active_sub_blocks p !! chunk_idx with Some b => b | None => ∅ end.

(** The order of [std::pair<int, uint32_t>]. *)
Definition pair_key (x : Z * Z) : Z := fst x * 2 ^ 32 + snd x.

Definition find_redundant_peers (chunk_idx exclude_slot count : Z) (slots : list PeerSlot)
  : list Z :=
  let candidates :=
    (fun p => (to_int (pending_requests p), slot_id p)) <$>
    filter (fun p => slot_id p <> exclude_slot /\ eligible p chunk_idx = true /\
                     active_of p chunk_idx = ∅) slots in
  take (Z.to_nat count) (snd <$> sort_by pair_key candidates).

(** ** Requests *)
(** [peer.pending_requests++; peer.active_sub_blocks[chunk_idx].insert(begin)] *)
Definition note_request (p : PeerSlot) (chunk_idx begin : Z) : PeerSlot :=
  set_active_of (set_pending p (u32 (pending_requests p + 1)))
    (<[chunk_idx := {[begin]} ∪ active_of p chunk_idx]> (active_sub_blocks p)).

(** The loop of [try_schedule_chunk_on_peer] over the remaining sub-blocks. *)
Fixpoint sub_loop (s : Scheduler) (pos : nat) (chunk_idx now_ms effective_cap : Z)
    (subs : list Z) (issued : bool) : option (Scheduler * bool) :=
  match subs with
  | [] => Some (s, issued)
  | sub_idx :: subs =>
    p ← peer_slots_ s !! pos;
    if effective_cap <=? pending_requests p then Some (s, issued)
    else
      req ← row_get (chunk_sub_req_ s) chunk_idx sub_idx;
      if req : bool then sub_loop s pos chunk_idx now_ms effective_cap subs issued
      else
        rows ← row_set (chunk_sub_req_ s) chunk_idx sub_idx true;
        times ← row_set (chunk_sub_req_time_ s) chunk_idx sub_idx now_ms;
        let s := set_req_time (set_sub_req s rows) times in
        let s := match zget (chunk_sub_req_count_ s) chunk_idx with
                 | Some n => set_req_count s (zupd (chunk_sub_req_count_ s) chunk_idx (u32 (n + 1)))
                 | None => s
                 end in
        let begin := u32 (sub_idx * SUB_BLOCK_SIZE) in
        let s := say s (IssueRequest (slot_id p) chunk_idx begin SUB_BLOCK_SIZE) in
        let s := set_peer s pos (note_request p chunk_idx begin) in
        sub_loop s pos chunk_idx now_ms effective_cap subs true
  end.

Definition total_of (s : Scheduler) (chunk_idx : Z) : Z :=
  default_0 (zget (chunk_sub_blocks_ s) chunk_idx).

Definition try_schedule_chunk_on_peer (s : Scheduler) (pos : nat)
    (chunk_idx now_ms effective_cap : Z) : option (Scheduler * bool) :=
  p ← peer_slots_ s !! pos;
  match zget (chunk_states_ s) chunk_idx with
  | None => Some (s, false)
  | Some st =>
    if complete_b st then Some (s, false)
    else if negb (eligible p chunk_idx) then Some (s, false)
    else if negb (bool_decide (select_best_peer s chunk_idx = Some (slot_id p))) then Some (s, false)
    else
      let total := total_of s chunk_idx in
      if total =? 0 then Some (s, false)
      else
        let s := set_states s (zupd (chunk_states_ s) chunk_idx DOWNLOADING) in
        sub_loop s pos chunk_idx now_ms effective_cap (seqZ 0 total) false
  end.

(** The list [pending] of [try_schedule_for_peer]. *)
Fixpoint pending_chunks (s : Scheduler) (p : PeerSlot) (chunks : list Z) : option (list (Z * Z)) :=
  match chunks with
  | [] => Some []
  | chunk_idx :: chunks =>
    let wanted :=
      match zget (chunk_states_ s) chunk_idx with
      | None => false
      | Some st => negb (complete_b st) && has_chunk p chunk_idx &&
          (default_0 (zget (chunk_sub_req_count_ s) chunk_idx) <? total_of s chunk_idx)
      end in
    if wanted then
      avail ← zget (availability_ s) chunk_idx;
      rest ← pending_chunks s p chunks;
      Some ((avail, chunk_idx) :: rest)
    else pending_chunks s p chunks
  end.

Fixpoint chunk_loop (s : Scheduler) (pos : nat) (now_ms effective_cap : Z)
    (pending : list (Z * Z)) (issued : bool) : option (Scheduler * bool) :=
  match pending with
  | [] => Some (s, issued)
  | (_, chunk_idx) :: pending =>
    p ← peer_slots_ s !! pos;
    if effective_cap <=? pending_requests p then Some (s, issued)
    else
      '(s, i) ← try_schedule_chunk_on_peer s pos chunk_idx now_ms effective_cap;
      chunk_loop s pos now_ms effective_cap pending (issued || i)
  end.

(** The cap on the peer's outstanding requests: a full source serves at most
    32 while partial sources exist. *)
Definition effective_cap_of (s : Scheduler) (p : PeerSlot) : Z :=
  if is_full_source p (zlength (chunk_states_ s)) &&
     has_partial_sources (peer_slots_ s) (zlength (chunk_states_ s))
  then Z.min (pipeline_cap p) 32 else pipeline_cap p.

Definition try_schedule_for_peer (s : Scheduler) (pos : nat) (now_ms : Z)
  : option (Scheduler * bool) :=
  p ← peer_slots_ s !! pos;
  let effective_cap := effective_cap_of s p in
  if effective_cap <=? pending_requests p then Some (s, false)
  else
    pending ← pending_chunks s p (active_chunks_ s);
    chunk_loop s pos now_ms effective_cap (sort_by fst pending) false.

(** ** Rebalancing *)
(** [it->second.erase(begin); if (it->second.empty()) erase(it)] *)
Definition drop_active (p : PeerSlot) (chunk_idx begin : Z) : PeerSlot :=
  let rest := active_of p chunk_idx ∖ {[begin]} in
  set_active_of p
    (if bool_decide (rest = ∅) then delete chunk_idx (active_sub_blocks p)
     else <[chunk_idx := rest]> (active_sub_blocks p)).

Definition dec_pending_of (p : PeerSlot) : PeerSlot :=
  if 0 <? pending_requests p then set_pending p (pending_requests p - 1) else p.

Definition sub_done_b (s : Scheduler) (chunk_idx sub_idx : Z) : bool :=
  match row_get (chunk_sub_done_ s) chunk_idx sub_idx with Some b => b | None => false end.

(** One source of the inner loop: moves a request from the source at [j] to
    the peer at [pos], or only forgets a sub-block that is done. *)
Definition try_source (s : Scheduler) (pos j : nat) (chunk_idx now_ms : Z)
  : option (Scheduler * bool) :=
  p ← peer_slots_ s !! pos;
  source ← peer_slots_ s !! j;
  if bool_decide (slot_id source = slot_id p) then Some (s, false)
  else if negb (is_full_source source (zlength (chunk_states_ s))) then Some (s, false)
  else
    match ordered (active_of source chunk_idx) with
    | [] => Some (s, false)
    | begin :: _ =>
      let sub_idx := begin / SUB_BLOCK_SIZE in
      if sub_done_b s chunk_idx sub_idx then
        Some (set_peer s j (set_active_of source
                (<[chunk_idx := active_of source chunk_idx ∖ {[begin]}]> (active_sub_blocks source))),
              false)
      else
        let s := if has_cancel_issuer s
                 then say s (CancelRequest (slot_id source) chunk_idx begin SUB_BLOCK_SIZE) else s in
        let s := set_peer s j (drop_active (dec_pending_of source) chunk_idx begin) in
        rows ← row_set (chunk_sub_req_ s) chunk_idx sub_idx true;
        times ← row_set (chunk_sub_req_time_ s) chunk_idx sub_idx now_ms;
        let s := set_req_time (set_sub_req s rows) times in
        let s := say s (IssueRequest (slot_id p) chunk_idx begin SUB_BLOCK_SIZE) in
        Some (set_peer s pos (note_request p chunk_idx begin), true)
    end.

Fixpoint sources_loop (s : Scheduler) (pos : nat) (chunk_idx now_ms : Z) (js : list nat)
  : option (Scheduler * bool) :=
  match js with
  | [] => Some (s, false)
  | j :: js =>
    '(s, moved) ← try_source s pos j chunk_idx now_ms;
    if moved : bool then Some (s, true) else sources_loop s pos chunk_idx now_ms js
  end.

(** The loop over [active_chunks_]; the flag is [moved]. *)
Fixpoint move_loop (s : Scheduler) (pos : nat) (now_ms effective_cap : Z) (chunks : list Z)
  : option (Scheduler * bool) :=
  match chunks with
  | [] => Some (s, false)
  | chunk_idx :: chunks =>
    p ← peer_slots_ s !! pos;
    if effective_cap <=? pending_requests p then Some (s, false)
    else
      let skip := negb (has_chunk p chunk_idx) ||
        match zget (chunk_states_ s) chunk_idx with Some st => complete_b st | None => true end in
      if skip then move_loop s pos now_ms effective_cap chunks
      else
        '(s, moved) ← sources_loop s pos chunk_idx now_ms (seq 0 (length (peer_slots_ s)));
        if moved : bool then Some (s, true) else move_loop s pos now_ms effective_cap chunks
  end.

(** The [while] loop: each turn but the last makes a move, so [max_moves]
    bounds the turns. *)
Fixpoint rebalance_loop (max_moves : nat) (s : Scheduler) (pos : nat) (now_ms effective_cap : Z)
  : option Scheduler :=
  match max_moves with
  | O => Some s
  | S max_moves =>
    p ← peer_slots_ s !! pos;
    if effective_cap <=? pending_requests p then Some s
    else
      '(s, moved) ← move_loop s pos now_ms effective_cap (active_chunks_ s);
      if moved : bool then rebalance_loop max_moves s pos now_ms effective_cap else Some s
  end.

Definition rebalance_seed_requests_for_peer (s : Scheduler) (pos : nat) (now_ms : Z)
    (max_moves : nat) : option Scheduler :=
  p ← peer_slots_ s !! pos;
  if is_full_source p (zlength (chunk_states_ s)) then Some s
  else rebalance_loop max_moves s pos now_ms (pipeline_cap p).

(** ** Messages from peers *)
Definition on_bitfield (s : Scheduler) (id : Z) (bf : list bool) (now_ms : Z) : option Scheduler :=
  match peer_slot s id with
  | None => Some s
  | Some (pos, p) =>
    let s := set_peer s pos (set_bitfield p bf) in
    let s := set_availability s (avail_add 1 (availability_ s) bf) in
    let s := check_peer_interest s id in
    rebalance_seed_requests_for_peer s pos now_ms 16
  end.

Definition on_have (s : Scheduler) (id chunk_idx now_ms : Z) : option Scheduler :=
  match peer_slot s id with
  | None => Some s
  | Some (pos, p) =>
    match zget (remote_bitfield p) chunk_idx with
    | None => Some s
    | Some have =>
      let s := if have : bool then s
               else
                 let s := set_peer s pos (set_bitfield p (zupd (remote_bitfield p) chunk_idx true)) in
                 match zget (availability_ s) chunk_idx with
                 | Some a => set_availability s (zupd (availability_ s) chunk_idx (u32 (a + 1)))
                 | None => s
                 end in
      let s := check_peer_interest s id in
      rebalance_seed_requests_for_peer s pos now_ms 8
    end
  end.

Definition dec_peer_pending (s : Scheduler) (id chunk_idx begin now_ms : Z) : option Scheduler :=
  match peer_slot s id with
  | None => Some s
  | Some (pos, p) =>
    if pending_requests p =? 0 then Some s
    else
      let sub_idx := begin / SUB_BLOCK_SIZE in
      s ← match row_get (chunk_sub_done_ s) chunk_idx sub_idx with
          | Some false =>
            let s := set_sub_done s (row_upd (chunk_sub_done_ s) chunk_idx sub_idx true) in
            n ← zget (chunk_sub_done_count_ s) chunk_idx;
            Some (set_done_count s (zupd (chunk_sub_done_count_ s) chunk_idx (u32 (n + 1))))
          | _ => Some s
          end;
      let p := set_pending p (pending_requests p - 1) in
      let p := match active_sub_blocks p !! chunk_idx with
               | Some _ => drop_active p chunk_idx begin
               | None => p
               end in
      let s := set_peer s pos p in
      if decide (phase_ s = DONE) then Some s
      else '(s, _) ← try_schedule_for_peer s pos now_ms; Some s
  end.

(** ** Endgame *)
Definition remaining (s : Scheduler) (chunk_idx : Z) : Z :=
  let done_n := default_0 (zget (chunk_sub_done_count_ s) chunk_idx) in
  let total := total_of s chunk_idx in
  if done_n <? total then total - done_n else 0.

Definition downloading (s : Scheduler) : list Z :=
  sort_by (remaining s)
    (filter (fun c => zget (chunk_states_ s) c = Some DOWNLOADING) (active_chunks_ s)).

(** The peer with the most sub-blocks of the chunk under way, first one wins:
    [primary_peer] and [max_active]. *)
Fixpoint primary_loop (chunk_idx : Z) (peers : list PeerSlot) (best : Z * nat) : Z * nat :=
  match peers with
  | [] => best
  | p :: peers =>
    let n := size (active_of p chunk_idx) in
    primary_loop chunk_idx peers (if decide (best.2 < n)%nat then (slot_id p, n) else best)
  end.

Definition primary_peer (s : Scheduler) (chunk_idx : Z) : Z :=
  (primary_loop chunk_idx (peer_slots_ s) (UINT32_MAX, 0%nat)).1.

Definition hunger_threshold_ms (s : Scheduler) (primary : Z) : Z :=
  if primary =? UINT32_MAX then 50
  else
    match peer_slot s primary with
    | Some (_, p) => if 0 <? rtt_us p then Z.max (u32 (rtt_us p * 2) / 1000) 50 else 50
    | None => 50
    end.

(** The sub-block has been requested for longer than the threshold and has
    not arrived. *)
Definition hungry (s : Scheduler) (chunk_idx sub_idx threshold now_ms : Z) : bool :=
  negb (sub_done_b s chunk_idx sub_idx) &&
  match row_get (chunk_sub_req_ s) chunk_idx sub_idx with Some b => b | None => false end &&
  (let req_time := default_0 (row_get (chunk_sub_req_time_ s) chunk_idx sub_idx) in
   negb (req_time =? 0) && (threshold <? u64 (now_ms - req_time))).

Definition issue_redundant (chunk_idx begin : Z) (s : Scheduler) (id : Z) : Scheduler :=
  match peer_slot s id with
  | None => s
  | Some (pos, p) =>
    let s := say s (IssueRequest id chunk_idx begin SUB_BLOCK_SIZE) in
    set_peer s pos (note_request p chunk_idx begin)
  end.

Fixpoint hungry_loop (s : Scheduler) (chunk_idx primary threshold now_ms : Z) (subs : list Z)
    (any : bool) : Scheduler * bool :=
  match subs with
  | [] => (s, any)
  | sub_idx :: subs =>
    if hungry s chunk_idx sub_idx threshold now_ms then
      let redundant := find_redundant_peers chunk_idx primary MAX_REDUNDANT_PEERS (peer_slots_ s) in
      let begin := u32 (sub_idx * SUB_BLOCK_SIZE) in
      let s := fold_left (issue_redundant chunk_idx begin) redundant s in
      hungry_loop s chunk_idx primary threshold now_ms subs true
    else hungry_loop s chunk_idx primary threshold now_ms subs any
  end.

Fixpoint endgame_loop (s : Scheduler) (now_ms processed : Z) (chunks : list Z) : Scheduler :=
  match chunks with
  | [] => s
  | chunk_idx :: chunks =>
    if MAX_ENDGAME_CHUNKS <=? processed then s
    else
      let total := total_of s chunk_idx in
      if (total =? 0) || (zlength (chunk_sub_req_time_ s) <=? chunk_idx)
      then endgame_loop s now_ms processed chunks
      else
        let primary := primary_peer s chunk_idx in
        let '(s, any) := hungry_loop s chunk_idx primary (hunger_threshold_ms s primary) now_ms
                           (seqZ 0 total) false in
        endgame_loop s now_ms (if any then processed + 1 else processed) chunks
  end.

Definition tick_endgame (s : Scheduler) (now_ms : Z) : Scheduler :=
  endgame_loop s now_ms 0 (downloading s).

(** ** The periodic tick *)
Fixpoint rebalance_all (s : Scheduler) (now_ms : Z) (poss : list nat) : option Scheduler :=
  match poss with
  | [] => Some s
  | pos :: poss =>
    s ← rebalance_seed_requests_for_peer s pos now_ms 4;
    rebalance_all s now_ms poss
  end.

Fixpoint schedule_all (s : Scheduler) (now_ms : Z) (poss : list nat) : option Scheduler :=
  match poss with
  | [] => Some s
  | pos :: poss =>
    '(s, _) ← try_schedule_for_peer s pos now_ms;
    schedule_all s now_ms poss
  end.

Definition sched_tick (s : Scheduler) (now_ms : Z) : option Scheduler :=
  if decide (phase_ s = DONE) then Some s
  else
    s ← rebalance_all s now_ms (seq 0 (length (peer_slots_ s)));
    s ← schedule_all s now_ms (seq 0 (length (peer_slots_ s)));
    Some (if decide (phase_ s = ENDGAME) then tick_endgame s now_ms else s).

(** ** Completion *)
(** [*it = active_chunks_.back(); active_chunks_.pop_back()] *)
Definition swap_remove (x : Z) (l : list Z) : list Z :=
  match list_find (eq x) l, last l with
  | Some (i, _), Some y => take (length l - 1) (<[i := y]> l)
  | _, _ => l
  end.

Fixpoint cancel_begins (s : Scheduler) (pos : nat) (chunk_idx : Z) (begins : list Z) : Scheduler :=
  match begins with
  | [] => s
  | begin :: begins =>
    match peer_slots_ s !! pos with
    | None => s
    | Some p =>
      let s := say s (CancelRequest (slot_id p) chunk_idx begin SUB_BLOCK_SIZE) in
      cancel_begins (set_peer s pos (dec_pending_of p)) pos chunk_idx begins
    end
  end.

Definition cancel_on_peer (chunk_idx exclude_slot : Z) (s : Scheduler) (pos : nat) : Scheduler :=
  match peer_slots_ s !! pos with
  | None => s
  | Some p =>
    if bool_decide (slot_id p = exclude_slot) || bool_decide (active_of p chunk_idx = ∅) then s
    else
      let s := cancel_begins s pos chunk_idx (ordered (active_of p chunk_idx)) in
      match peer_slots_ s !! pos with
      | None => s
      | Some p => set_peer s pos (set_active_of p (delete chunk_idx (active_sub_blocks p)))
      end
  end.

Definition send_cancel_for_chunk (s : Scheduler) (chunk_idx exclude_slot : Z) : Scheduler :=
  if has_cancel_issuer s
  then fold_left (cancel_on_peer chunk_idx exclude_slot) (seq 0 (length (peer_slots_ s))) s
  else s.

Definition complete_one (s : Scheduler) (msg : ChunkCompleteMsg) : option Scheduler :=
  let c := msg_chunk_idx msg in
  states ← zset (chunk_states_ s) c COMPLETE;
  let s := set_states s states in
  let s := set_missing s (u32 (missing_count_ s - 1)) in
  let s := set_active s (swap_remove c (active_chunks_ s)) in
  let s := send_cancel_for_chunk s c (winning_peer_slot msg) in
  let s := set_req_count s (zupd (chunk_sub_req_count_ s) c 0) in
  Some (say s (BroadcastHave c)).

Fixpoint complete_all (s : Scheduler) (completions : list ChunkCompleteMsg) : option Scheduler :=
  match completions with
  | [] => Some s
  | msg :: completions => s ← complete_one s msg; complete_all s completions
  end.

Definition process_completions (s : Scheduler) (completions : list ChunkCompleteMsg)
  : option Scheduler :=
  s ← complete_all s completions;
  Some (if missing_count_ s =? 0 then say (set_phase s DONE) BroadcastNotInterested
        else if missing_count_ s <? ENDGAME_THRESHOLD then set_phase s ENDGAME else s).

(** [std::fill] of a row. *)
Definition fill_row {A} (rows : list (list A)) (i : Z) (x : A) : list (list A) :=
  match zget rows i with
  | Some row => zupd rows i (replicate (length row) x)
  | None => rows
  end.

Definition on_verify_failed (s : Scheduler) (chunk_idx : Z) : option Scheduler :=
  states ← zset (chunk_states_ s) chunk_idx MISSING;
  let s := set_states s states in
  let s := set_sub_req s (fill_row (chunk_sub_req_ s) chunk_idx false) in
  let s := set_req_time s (fill_row (chunk_sub_req_time_ s) chunk_idx 0) in
  let s := set_sub_done s (fill_row (chunk_sub_done_ s) chunk_idx false) in
  let s := set_done_count s (zupd (chunk_sub_done_count_ s) chunk_idx 0) in
  let s := set_req_count s (zupd (chunk_sub_req_count_ s) chunk_idx 0) in
  Some (if decide (chunk_idx ∈ active_chunks_ s) then s
        else set_active s (active_chunks_ s ++ [chunk_idx])).

Definition on_subblock_timeout (s : Scheduler) (chunk_idx begin : Z) : Scheduler :=
  match zget (chunk_states_ s) chunk_idx with
  | None => s
  | Some st =>
    if complete_b st then s
    else
      let sub_idx := begin / SUB_BLOCK_SIZE in
      let s := match row_get (chunk_sub_req_ s) chunk_idx sub_idx with
               | Some true =>
                 let s := set_sub_req s (row_upd (chunk_sub_req_ s) chunk_idx sub_idx false) in
                 set_req_count s (dec_at (chunk_sub_req_count_ s) chunk_idx)
               | _ => s
               end in
      set_req_time s (row_upd (chunk_sub_req_time_ s) chunk_idx sub_idx 0)
  end.

(** One index of the loop of [mark_all_complete]. *)
Definition mark_one (s : Scheduler) (i : Z) : Scheduler :=
  match zget (chunk_states_ s) i with
  | None => s
  | Some st =>
    if complete_b st then s
    else
      let s := if decide (st = MISSING) then set_missing s (u32 (missing_count_ s - 1)) else s in
      let s := set_states s (zupd (chunk_states_ s) i COMPLETE) in
      let s := set_active s (swap_remove i (active_chunks_ s)) in
      set_req_count s (zupd (chunk_sub_req_count_ s) i 0)
  end.

Fixpoint mark_loop (s : Scheduler) (i : Z) (bitfield : list bool) : Scheduler :=
  match bitfield with
  | [] => s
  | b :: bitfield => mark_loop (if b : bool then mark_one s i else s) (i + 1) bitfield
  end.

Definition mark_all_complete (s : Scheduler) (bitfield : list bool) : Scheduler :=
  let s := mark_loop s 0 bitfield in
  if missing_count_ s =? 0 then set_phase s DONE
  else if missing_count_ s <? ENDGAME_THRESHOLD then set_phase s ENDGAME else s.
