(* ===== verification/SchedulerProofs.v ===== *)
(** * Invariant of the scheduler

    [wf] relates the tables, the cache of active chunks, the missing counter
    and the peers.  Every operation keeps it and, under it, indexes no vector
    out of range ([None] is not reached).  The theorems about what the
    operations decide are in [SchedulerSpec]. *)

From S2P Require Import Prelude Platform ChunkAssembler Scheduler.

(** ** Sorting and swap-removal *)
Lemma insert_by_perm {A} (key : A -> Z) x l : insert_by key x l ≡ₚ x :: l.
Proof.
  induction l as [|y l IH]; [done|]. simpl. destruct (_ <=? _); [done|].
  rewrite IH. apply Permutation_swap.
Qed.

Lemma sort_by_perm {A} (key : A -> Z) l : sort_by key l ≡ₚ l.
Proof. induction l as [|x l IH]; [done|]. simpl. by rewrite insert_by_perm, IH. Qed.

Lemma elem_of_sort_by {A} (key : A -> Z) x l : x ∈ sort_by key l <-> x ∈ l.
Proof. by rewrite sort_by_perm. Qed.

Lemma insert_by_sorted {A} (key : A -> Z) x l :
  StronglySorted (fun a b => key a <= key b) l ->
  StronglySorted (fun a b => key a <= key b) (insert_by key x l).
Proof.
  induction 1 as [|y l Hs IH Hall]; simpl; [repeat constructor|].
  destruct (Z.leb_spec (key x) (key y)) as [Hle|Hlt].
  - constructor; [by constructor|]. constructor; [done|].
    eapply Forall_impl; [exact Hall|]. simpl. intros z Hz. lia.
  - constructor; [done|]. rewrite insert_by_perm. constructor; [lia|done].
Qed.

Lemma sort_by_sorted {A} (key : A -> Z) l :
  StronglySorted (fun a b => key a <= key b) (sort_by key l).
Proof. induction l as [|x l IH]; [constructor|]. by apply insert_by_sorted. Qed.

Lemma elem_of_ordered x (s : gset Z) : x ∈ ordered s <-> x ∈ s.
Proof. unfold ordered. by rewrite elem_of_sort_by, elem_of_elements. Qed.

Lemma NoDup_ordered (s : gset Z) : NoDup (ordered s).
Proof. unfold ordered. rewrite sort_by_perm. apply NoDup_elements. Qed.

Lemma swap_remove_perm x l : x ∈ l -> l ≡ₚ x :: swap_remove x l.
Proof.
  intros Hx. unfold swap_remove.
  destruct (list_find (eq x) l) as [[i y]|] eqn:Hf.
  2: { apply list_find_None in Hf. rewrite Forall_forall in Hf. by destruct (Hf x Hx). }
  apply list_find_Some in Hf as (Hi & <- & _).
  destruct l as [|z l _] using rev_ind; [by apply elem_of_nil in Hx|].
  rewrite last_snoc, length_app. simpl. rewrite Nat.add_sub.
  destruct (decide (i < length l)%nat) as [Hlt|Hge].
  - rewrite lookup_app_l in Hi by done.
    rewrite insert_app_l, take_app_length' by (by rewrite ?length_insert).
    rewrite <- (take_drop_middle l i x Hi) at 1. rewrite insert_take_drop by done.
    rewrite <- app_assoc. cbn [app]. etrans; [symmetry; apply Permutation_middle|].
    constructor. apply Permutation_app_head. by rewrite Permutation_app_comm.
  - rewrite lookup_app_r in Hi by lia.
    destruct (i - length l)%nat as [|k] eqn:Ek; [|by destruct k].
    simpl in Hi. simplify_eq. rewrite insert_app_r_alt by lia. rewrite Ek. simpl.
    rewrite take_app_length. by rewrite Permutation_app_comm.
Qed.

Lemma swap_remove_notin x l : x ∉ l -> swap_remove x l = l.
Proof.
  intros Hx. unfold swap_remove. destruct (list_find (eq x) l) as [[i y]|] eqn:Hf; [|done].
  apply list_find_Some in Hf as (Hi & <- & _). by apply list_elem_of_lookup_2 in Hi.
Qed.

(** ** Rows *)
Lemma row_get_Some {A} (rows : list (list A)) i j x :
  row_get rows i j = Some x <-> exists row, zget rows i = Some row /\ zget row j = Some x.
Proof. unfold row_get. rewrite bind_Some. done. Qed.

Lemma row_set_upd {A} (rows : list (list A)) i j x row :
  zget rows i = Some row -> 0 <= j < zlength row ->
  row_set rows i j x = Some (row_upd rows i j x).
Proof.
  intros Hi Hj. unfold row_set, row_upd. rewrite Hi. cbn [mbind option_bind].
  rewrite zset_zupd by done. cbn [mbind option_bind].
  rewrite zset_zupd by (by eapply zget_range). done.
Qed.

Lemma row_get_upd {A} (rows : list (list A)) i j x i' j' :
  row_get (row_upd rows i j x) i' j' =
  if bool_decide (i = i' /\ j = j') && bool_decide (is_Some (row_get rows i j))
  then Some x else row_get rows i' j'.
Proof.
  unfold row_upd, row_get. destruct (zget rows i) as [row|] eqn:Hi; cbn [mbind option_bind].
  2: { rewrite (bool_decide_eq_false_2 (is_Some _)) by (by intros [? ?]).
       by rewrite andb_false_r. }
  pose proof (zget_range _ _ _ Hi) as Hr. rewrite zget_zupd.
  rewrite (proj2 (in_range_iff rows i) Hr), andb_true_r.
  destruct (Z.eqb_spec i i') as [<-|Hne].
  - cbn [mbind option_bind]. rewrite Hi. cbn [mbind option_bind]. rewrite zget_zupd.
    destruct (Z.eqb_spec j j') as [<-|].
    + rewrite bool_decide_eq_true_2 by done. cbn [andb].
      destruct (in_range row j) eqn:E.
      * rewrite bool_decide_eq_true_2; [done|]. apply zget_is_Some. by apply in_range_iff.
      * rewrite bool_decide_eq_false_2; [done|]. rewrite zget_is_Some, <- in_range_iff. by rewrite E.
    + rewrite bool_decide_eq_false_2 by naive_solver. done.
  - rewrite bool_decide_eq_false_2 by naive_solver. done.
Qed.

(** The lengths of the rows. *)
Definition widths {A} (rows : list (list A)) : list Z := zlength <$> rows.

Lemma zget_fmap {A B} (f : A -> B) (l : list A) i : zget (f <$> l) i = f <$> zget l i.
Proof.
  unfold zget, in_range, zlength. rewrite length_fmap. destruct (_ && _); [|done].
  apply list_lookup_fmap.
Qed.

Lemma fmap_zupd {A B} (f : A -> B) (l : list A) i x : f <$> zupd l i x = zupd (f <$> l) i (f x).
Proof.
  unfold zupd, in_range, zlength. rewrite length_fmap. destruct (_ && _); [|done].
  apply list_fmap_insert.
Qed.

Lemma zupd_id {A} (l : list A) i x : zget l i = Some x -> zupd l i x = l.
Proof.
  intros H. pose proof (zget_range _ _ _ H) as Hr%in_range_iff. unfold zupd. rewrite Hr.
  apply list_insert_id. by apply zget_Some in H as [_ H].
Qed.

Lemma widths_row_upd {A} (rows : list (list A)) i j x : widths (row_upd rows i j x) = widths rows.
Proof.
  unfold widths, row_upd. destruct (zget rows i) as [row|] eqn:Hi; [|done].
  rewrite fmap_zupd, zlength_zupd. apply zupd_id. by rewrite zget_fmap, Hi.
Qed.

Lemma widths_fill_row {A} (rows : list (list A)) i x : widths (fill_row rows i x) = widths rows.
Proof.
  unfold widths, fill_row. destruct (zget rows i) as [row|] eqn:Hi; [|done].
  rewrite fmap_zupd. apply zupd_id. rewrite zget_fmap, Hi. simpl. f_equal.
  unfold zlength. by rewrite length_replicate.
Qed.

Lemma zlength_fmap {A B} (f : A -> B) (l : list A) : zlength (f <$> l) = zlength l.
Proof. unfold zlength. by rewrite length_fmap. Qed.

Lemma zlength_replicate {A} (n : nat) (x : A) : zlength (replicate n x) = Z.of_nat n.
Proof. unfold zlength. by rewrite length_replicate. Qed.

Lemma zlength_seqZ a n : 0 <= n -> zlength (seqZ a n) = n.
Proof. intros. unfold zlength. rewrite length_seqZ. lia. Qed.

Lemma zlength_dec_at l i : zlength (dec_at l i) = zlength l.
Proof. unfold dec_at. destruct (zget l i); [|done]. destruct (_ <? _); [|done]. apply zlength_zupd. Qed.

Lemma zlength_avail_add d avail bf : zlength (avail_add d avail bf) = zlength avail.
Proof.
  revert bf. unfold zlength. induction avail as [|a avail IH]; intros [|b bf]; simpl; try done.
  specialize (IH bf). lia.
Qed.

#[global] Arguments widths : simpl never.
#[global] Arguments row_upd : simpl never.
#[global] Arguments row_get : simpl never.
#[global] Arguments zupd : simpl never.
#[global] Arguments zget : simpl never.
#[global] Arguments zlength : simpl never.
#[global] Arguments dec_at : simpl never.
#[global] Arguments avail_add : simpl never.

(** ** The invariant *)
Definition chunk_total (s : Scheduler) : Z := zlength (chunk_states_ s).

(** The vectors have one entry per chunk, the rows one per sub-block. *)
Record tables_ok (s : Scheduler) : Prop := {
  tok_total : chunk_total s < 2 ^ 32;
  tok_avail : zlength (availability_ s) = chunk_total s;
  tok_blocks : zlength (chunk_sub_blocks_ s) = chunk_total s;
  tok_small : Forall (fun k => 0 <= k < 2 ^ 18) (chunk_sub_blocks_ s);
  tok_done : widths (chunk_sub_done_ s) = chunk_sub_blocks_ s;
  tok_req : widths (chunk_sub_req_ s) = chunk_sub_blocks_ s;
  tok_time : widths (chunk_sub_req_time_ s) = chunk_sub_blocks_ s;
  tok_dcount : zlength (chunk_sub_done_count_ s) = chunk_total s;
  tok_rcount : zlength (chunk_sub_req_count_ s) = chunk_total s;
}.

(** [active_chunks_] lists the chunks that are not complete, and
    [missing_count_] is their number. *)
Record chunks_ok (s : Scheduler) : Prop := {
  cok_nodup : NoDup (active_chunks_ s);
  cok_active c : c ∈ active_chunks_ s <-> zget (complete_b <$> chunk_states_ s) c = Some false;
  cok_missing : missing_count_ s = zlength (active_chunks_ s);
  cok_phase : phase_ s = DONE -> missing_count_ s = 0;
}.

(** The sub-blocks a peer is said to download exist. *)
Definition active_ok (blocks : list Z) (p : PeerSlot) : Prop :=
  forall c b, b ∈ active_of p c ->
    exists k sub, zget blocks c = Some k /\ 0 <= sub < k /\ b = sub * SUB_BLOCK_SIZE.

Record wf (s : Scheduler) : Prop := {
  wf_tables : tables_ok s;
  wf_chunks : chunks_ok s;
  wf_ids : NoDup (slot_id <$> peer_slots_ s);
  wf_actives : Forall (active_ok (chunk_sub_blocks_ s)) (peer_slots_ s);
}.

(** What scheduling leaves unchanged. *)
Definition view (s : Scheduler) :=
  (complete_b <$> chunk_states_ s, chunk_sub_blocks_ s, zlength (availability_ s),
   (widths (chunk_sub_done_ s), widths (chunk_sub_req_ s), widths (chunk_sub_req_time_ s)),
   (zlength (chunk_sub_done_count_ s), zlength (chunk_sub_req_count_ s)),
   (active_chunks_ s, missing_count_ s, phase_ s), slot_id <$> peer_slots_ s).

Definition keeps (s s' : Scheduler) : Prop := view s' = view s.

#[export] Instance keeps_preorder : PreOrder keeps.
Proof. split; [done|]. unfold keeps. intros s1 s2 s3 H12 H23. congruence. Qed.

Lemma keeps_wf s s' :
  keeps s s' -> wf s -> Forall (active_ok (chunk_sub_blocks_ s)) (peer_slots_ s') -> wf s'.
Proof.
  unfold keeps, view. intros Hk [Ht Hc Hi _] Ha.
  injection Hk as Hst Hbl Hav Hdn Hrq Htm Hdc Hrc Hac Hmi Hph Hid.
  assert (chunk_total s' = chunk_total s) as Hn.
  { unfold chunk_total. rewrite <- (zlength_fmap complete_b (chunk_states_ s')), Hst.
    apply zlength_fmap. }
  destruct Ht, Hc. split; [split|split| |]; rewrite ?Hn, ?Hac, ?Hmi, ?Hph, ?Hst; try congruence.
  all: done.
Qed.

Lemma keeps_peer s pos p p' :
  peer_slots_ s !! pos = Some p -> slot_id p' = slot_id p -> keeps s (set_peer s pos p').
Proof.
  intros Hp Hid. unfold keeps, view. cbn. f_equal. rewrite list_fmap_insert.
  apply list_insert_id. by rewrite list_lookup_fmap, Hp, Hid.
Qed.

Lemma keeps_say s c : keeps s (say s c).
Proof. done. Qed.

Lemma keeps_sub_req s c j x : keeps s (set_sub_req s (row_upd (chunk_sub_req_ s) c j x)).
Proof. unfold keeps, view. cbn. by rewrite widths_row_upd. Qed.

Lemma keeps_req_time s c j x : keeps s (set_req_time s (row_upd (chunk_sub_req_time_ s) c j x)).
Proof. unfold keeps, view. cbn. by rewrite widths_row_upd. Qed.

Lemma keeps_sub_done s c j x : keeps s (set_sub_done s (row_upd (chunk_sub_done_ s) c j x)).
Proof. unfold keeps, view. cbn. by rewrite widths_row_upd. Qed.

Lemma keeps_req_count s c x : keeps s (set_req_count s (zupd (chunk_sub_req_count_ s) c x)).
Proof. unfold keeps, view. cbn. by rewrite zlength_zupd. Qed.

Lemma keeps_done_count s c x : keeps s (set_done_count s (zupd (chunk_sub_done_count_ s) c x)).
Proof. unfold keeps, view. cbn. by rewrite zlength_zupd. Qed.

Lemma keeps_req_count_dec s c : keeps s (set_req_count s (dec_at (chunk_sub_req_count_ s) c)).
Proof. unfold keeps, view. cbn. by rewrite zlength_dec_at. Qed.

Lemma keeps_availability s d bf : keeps s (set_availability s (avail_add d (availability_ s) bf)).
Proof. unfold keeps, view. cbn. by rewrite zlength_avail_add. Qed.

(** Changing the state of a chunk that is not complete. *)
Lemma keeps_states s c st st' :
  zget (chunk_states_ s) c = Some st -> complete_b st = complete_b st' ->
  keeps s (set_states s (zupd (chunk_states_ s) c st')).
Proof.
  intros Hc Hst. unfold keeps, view. cbn. rewrite fmap_zupd, zupd_id; [done|].
  by rewrite zget_fmap, Hc, <- Hst.
Qed.

#[export] Hint Resolve keeps_say keeps_sub_req keeps_req_time keeps_sub_done keeps_req_count
  keeps_done_count keeps_req_count_dec keeps_availability : thinbt.

(** ** Reading the tables of a well-formed scheduler *)
Lemma wf_row {A} (rows : list (list A)) blocks c k :
  widths rows = blocks -> zget blocks c = Some k ->
  exists row, zget rows c = Some row /\ zlength row = k.
Proof.
  intros <- Hk. unfold widths in Hk. rewrite zget_fmap in Hk.
  destruct (zget rows c) as [row|]; simplify_eq/=. eauto.
Qed.

Lemma wf_blocks s c :
  tables_ok s -> 0 <= c < chunk_total s ->
  exists k, zget (chunk_sub_blocks_ s) c = Some k /\ 0 <= k < 2 ^ 18 /\ total_of s c = k.
Proof.
  intros Ht Hc. destruct (proj2 (zget_is_Some (chunk_sub_blocks_ s) c)) as [k Hk];
    [by rewrite (tok_blocks _ Ht)|].
  exists k. split; [done|]. unfold total_of. rewrite Hk. split; [|done].
  apply zget_Some in Hk as [_ Hk]. by apply (Forall_lookup_1 _ _ _ _ (tok_small _ Ht) Hk).
Qed.

Lemma row_get_ok {A} (rows : list (list A)) blocks c k sub :
  widths rows = blocks -> zget blocks c = Some k -> 0 <= sub < k ->
  exists row x, zget rows c = Some row /\ zlength row = k /\ row_get rows c sub = Some x.
Proof.
  intros Hw Hk Hs. destruct (wf_row rows blocks c k Hw Hk) as (row & Hr & Hl).
  destruct (proj2 (zget_is_Some row sub)) as [x Hx]; [lia|].
  exists row, x. split_and!; [done|done|]. apply row_get_Some. eauto.
Qed.

Lemma sub_begin k sub : 0 <= sub < k -> k < 2 ^ 18 -> u32 (sub * SUB_BLOCK_SIZE) = sub * SUB_BLOCK_SIZE.
Proof. intros. apply u32_small. unfold is_u32, SUB_BLOCK_SIZE. lia. Qed.

Lemma begin_sub sub : sub * SUB_BLOCK_SIZE / SUB_BLOCK_SIZE = sub.
Proof. apply Z.div_mul. done. Qed.

(** ** Requests *)
Lemma active_of_note p c b c' :
  active_of (note_request p c b) c' =
  if decide (c = c') then {[b]} ∪ active_of p c else active_of p c'.
Proof.
  unfold active_of, note_request. cbn. case_decide as Hc.
  - subst c'. rewrite lookup_insert_eq. done.
  - by rewrite lookup_insert_ne.
Qed.

Lemma active_ok_note blocks p c k sub :
  active_ok blocks p -> zget blocks c = Some k -> 0 <= sub < k ->
  active_ok blocks (note_request p c (sub * SUB_BLOCK_SIZE)).
Proof.
  intros Hp Hk Hs c' b. rewrite active_of_note. case_decide as Hc; [|apply Hp].
  subst c'. intros [Hb%elem_of_singleton|Hb]%elem_of_union; [subst b; eauto|by apply Hp].
Qed.

Lemma actives_set s pos p :
  Forall (active_ok (chunk_sub_blocks_ s)) (peer_slots_ s) ->
  active_ok (chunk_sub_blocks_ s) p ->
  Forall (active_ok (chunk_sub_blocks_ s)) (peer_slots_ (set_peer s pos p)).
Proof. intros. cbn. by apply Forall_insert. Qed.

Lemma peer_ok s pos p :
  wf s -> peer_slots_ s !! pos = Some p -> active_ok (chunk_sub_blocks_ s) p.
Proof. intros Hw Hp. by apply (Forall_lookup_1 _ _ _ _ (wf_actives _ Hw) Hp). Qed.

(** One request: the step of the loops below. *)
Definition request_step (s : Scheduler) (pos : nat) (p : PeerSlot) (c sub now : Z) : Scheduler :=
  let s := set_req_time (set_sub_req s (row_upd (chunk_sub_req_ s) c sub true))
             (row_upd (chunk_sub_req_time_ s) c sub now) in
  let s := set_req_count s
    (zupd (chunk_sub_req_count_ s) c (u32 (default_0 (zget (chunk_sub_req_count_ s) c) + 1))) in
  let s := say s (IssueRequest (slot_id p) c (sub * SUB_BLOCK_SIZE) SUB_BLOCK_SIZE) in
  set_peer s pos (note_request p c (sub * SUB_BLOCK_SIZE)).

Lemma request_step_keeps s pos p c sub now :
  peer_slots_ s !! pos = Some p -> keeps s (request_step s pos p c sub now).
Proof.
  intros Hp. unfold request_step. etrans; [|by eapply (keeps_peer _ pos p)].
  unfold keeps, view. cbn. by rewrite !widths_row_upd, zlength_zupd.
Qed.

Lemma request_step_wf s pos p c k sub now :
  wf s -> peer_slots_ s !! pos = Some p ->
  zget (chunk_sub_blocks_ s) c = Some k -> 0 <= sub < k ->
  wf (request_step s pos p c sub now).
Proof.
  intros Hw Hp Hk Hs. eapply keeps_wf; [by apply request_step_keeps|done|].
  cbn. apply Forall_insert; [apply Hw|]. eapply active_ok_note; [|done|done].
  by eapply peer_ok.
Qed.

(** The loop body of [try_schedule_chunk_on_peer] is [request_step]. *)
Lemma sub_loop_step s pos p c k sub now cap subs issued :
  wf s -> peer_slots_ s !! pos = Some p -> zget (chunk_sub_blocks_ s) c = Some k ->
  0 <= sub < k -> pending_requests p < cap ->
  row_get (chunk_sub_req_ s) c sub = Some false ->
  sub_loop s pos c now cap (sub :: subs) issued =
  sub_loop (request_step s pos p c sub now) pos c now cap subs true.
Proof.
  intros Hw Hp Hk Hs Hcap Hreq. cbn [sub_loop]. rewrite Hp. cbn [mbind option_bind].
  replace (cap <=? _) with false by lia. rewrite Hreq. cbn [mbind option_bind].
  destruct (row_get_ok _ _ c k sub (tok_req _ (wf_tables _ Hw)) Hk Hs) as (r1 & _ & Hr1 & Hl1 & _).
  destruct (row_get_ok _ _ c k sub (tok_time _ (wf_tables _ Hw)) Hk Hs) as (r2 & _ & Hr2 & Hl2 & _).
  rewrite (row_set_upd _ _ _ _ r1), (row_set_upd _ _ _ _ r2) by (done || lia).
  cbn [mbind option_bind].
  destruct (wf_blocks s c (wf_tables _ Hw)) as (k' & Hk' & Hk18 & _).
  { apply zget_range in Hk. by rewrite (tok_blocks _ (wf_tables _ Hw)) in Hk. }
  rewrite (sub_begin k sub) by (simplify_eq; lia). unfold request_step.
  cbn [chunk_sub_req_count_ set_req_time set_sub_req].
  destruct (proj2 (zget_is_Some (chunk_sub_req_count_ s) c)) as [n Hn].
  { rewrite (tok_rcount _ (wf_tables _ Hw)), <- (tok_blocks _ (wf_tables _ Hw)).
    by eapply zget_range. }
  by rewrite Hn.
Qed.

(** The operation returned the state it was given. *)
Ltac unchanged := eexists _, _; split_and!; [reflexivity|reflexivity|assumption].

Lemma sub_loop_safe c k now cap subs : forall s pos issued,
  wf s -> (pos < length (peer_slots_ s))%nat -> zget (chunk_sub_blocks_ s) c = Some k ->
  Forall (fun sub => 0 <= sub < k) subs ->
  exists s' i, sub_loop s pos c now cap subs issued = Some (s', i) /\ keeps s s' /\ wf s'.
Proof.
  induction subs as [|sub subs IH]; intros s pos issued Hw Hpos Hk Hsubs.
  { unchanged. }
  apply Forall_cons in Hsubs as [Hs Hsubs].
  destruct (lookup_lt_is_Some_2 _ _ Hpos) as [p Hp].
  destruct (Z.leb_spec cap (pending_requests p)) as [Hcap|Hcap].
  { cbn [sub_loop]. rewrite Hp. cbn [mbind option_bind].
    replace (cap <=? _) with true by lia. unchanged. }
  destruct (row_get_ok _ _ c k sub (tok_req _ (wf_tables _ Hw)) Hk Hs) as (_ & req & _ & _ & Hreq).
  destruct req.
  - cbn [sub_loop]. rewrite Hp. cbn [mbind option_bind].
    replace (cap <=? _) with false by lia. rewrite Hreq. cbn [mbind option_bind]. by apply IH.
  - erewrite sub_loop_step by done.
    pose proof (request_step_keeps s pos p c sub now Hp) as Hkeep.
    destruct (IH (request_step s pos p c sub now) pos true) as (s' & i & -> & Hk' & Hw').
    + by eapply request_step_wf.
    + cbn. by rewrite length_insert.
    + done.
    + done.
    + exists s', i. split_and!; [done|by etrans|done].
Qed.

Lemma keeps_length s s' : keeps s s' -> length (peer_slots_ s') = length (peer_slots_ s).
Proof.
  unfold keeps, view. intros Hk. injection Hk as _ _ _ _ _ _ _ _ _ _ _ Hid.
  rewrite <- (length_fmap slot_id), Hid. apply length_fmap.
Qed.

Lemma try_schedule_chunk_safe s pos c now cap :
  wf s -> (pos < length (peer_slots_ s))%nat ->
  exists s' i, try_schedule_chunk_on_peer s pos c now cap = Some (s', i) /\ keeps s s' /\ wf s'.
Proof.
  intros Hw Hpos. destruct (lookup_lt_is_Some_2 _ _ Hpos) as [p Hp].
  unfold try_schedule_chunk_on_peer. rewrite Hp. cbn [mbind option_bind].
  destruct (zget (chunk_states_ s) c) as [st|] eqn:Hst; [|unchanged].
  destruct (complete_b st) eqn:Hcomp; [unchanged|].
  destruct (negb _); [unchanged|]. destruct (negb _); [unchanged|].
  destruct (wf_blocks s c (wf_tables _ Hw)) as (k & Hk & Hk18 & ->); [by eapply zget_range|].
  cbv zeta. destruct (k =? 0); [unchanged|].
  pose proof (keeps_states s c st DOWNLOADING Hst Hcomp) as Hks.
  assert (wf (set_states s (zupd (chunk_states_ s) c DOWNLOADING))) as Hw1
    by (eapply keeps_wf; [exact Hks|done|apply Hw]).
  destruct (sub_loop_safe c k now cap (seqZ 0 k) _ pos false Hw1 Hpos Hk) as (s' & i & -> & Hk' & Hw').
  { apply Forall_forall. intros sub Hsub%elem_of_seqZ. lia. }
  exists s', i. split_and!; [done|by etrans|done].
Qed.

Lemma pending_chunks_safe s p chunks :
  tables_ok s -> exists l, pending_chunks s p chunks = Some l.
Proof.
  intros Ht. induction chunks as [|c chunks [l IH]]; [by exists []|]. cbn [pending_chunks].
  destruct (zget (chunk_states_ s) c) as [st|] eqn:Hst; [|eauto].
  destruct (_ && _); [|eauto].
  destruct (proj2 (zget_is_Some (availability_ s) c)) as [a Ha].
  { rewrite (tok_avail _ Ht). by eapply zget_range. }
  rewrite Ha, IH. cbn. eauto.
Qed.

Lemma chunk_loop_safe now cap pending : forall s pos issued,
  wf s -> (pos < length (peer_slots_ s))%nat ->
  exists s' i, chunk_loop s pos now cap pending issued = Some (s', i) /\ keeps s s' /\ wf s'.
Proof.
  induction pending as [|[a c] pending IH]; intros s pos issued Hw Hpos; [cbn; unchanged|].
  destruct (lookup_lt_is_Some_2 _ _ Hpos) as [p Hp].
  cbn [chunk_loop]. rewrite Hp. cbn [mbind option_bind]. destruct (cap <=? _); [unchanged|].
  destruct (try_schedule_chunk_safe s pos c now cap Hw Hpos) as (s1 & i1 & -> & Hk1 & Hw1).
  cbn [mbind option_bind].
  destruct (IH s1 pos (issued || i1) Hw1) as (s2 & i2 & -> & Hk2 & Hw2);
    [by rewrite (keeps_length _ _ Hk1)|].
  exists s2, i2. split_and!; [done|by etrans|done].
Qed.

Lemma try_schedule_for_peer_safe s pos now :
  wf s -> (pos < length (peer_slots_ s))%nat ->
  exists s' i, try_schedule_for_peer s pos now = Some (s', i) /\ keeps s s' /\ wf s'.
Proof.
  intros Hw Hpos. destruct (lookup_lt_is_Some_2 _ _ Hpos) as [p Hp].
  unfold try_schedule_for_peer. rewrite Hp. cbn [mbind option_bind].
  destruct (_ <=? _); [unchanged|].
  destruct (pending_chunks_safe s p (active_chunks_ s) (wf_tables _ Hw)) as [l ->].
  cbn [mbind option_bind]. by apply chunk_loop_safe.
Qed.

(** ** Rebalancing *)
Lemma active_of_erase p c b c' :
  active_of (set_active_of p (<[c := active_of p c ∖ {[b]}]> (active_sub_blocks p))) c' =
  if decide (c = c') then active_of p c ∖ {[b]} else active_of p c'.
Proof.
  unfold active_of at 1. cbn. case_decide as Hc.
  - subst c'. by rewrite lookup_insert_eq.
  - by rewrite lookup_insert_ne.
Qed.

Lemma active_of_drop p c b c' :
  active_of (drop_active p c b) c' = if decide (c = c') then active_of p c ∖ {[b]} else active_of p c'.
Proof.
  unfold drop_active. case_bool_decide as He; [|apply active_of_erase].
  unfold active_of at 1. cbn. case_decide as Hc.
  - subst c'. by rewrite lookup_delete_eq, He.
  - by rewrite lookup_delete_ne.
Qed.

Lemma active_of_dec_pending p c : active_of (dec_pending_of p) c = active_of p c.
Proof. unfold dec_pending_of. by destruct (0 <? _). Qed.

Lemma active_ok_sub blocks p p' :
  active_ok blocks p -> (forall c, active_of p' c ⊆ active_of p c) -> active_ok blocks p'.
Proof. intros Hp Hsub c b Hb. apply Hp. by apply Hsub. Qed.

Lemma active_ok_erase blocks p c b :
  active_ok blocks p ->
  active_ok blocks (set_active_of p (<[c := active_of p c ∖ {[b]}]> (active_sub_blocks p))).
Proof.
  intros Hp. eapply active_ok_sub; [exact Hp|]. intros c'. rewrite active_of_erase.
  case_decide; [subst; set_solver|done].
Qed.

Lemma active_ok_drop blocks p c b : active_ok blocks p -> active_ok blocks (drop_active p c b).
Proof.
  intros Hp. eapply active_ok_sub; [exact Hp|]. intros c'. rewrite active_of_drop.
  case_decide; [subst; set_solver|done].
Qed.

Lemma active_ok_dec_pending blocks p : active_ok blocks p -> active_ok blocks (dec_pending_of p).
Proof.
  intros Hp. eapply active_ok_sub; [exact Hp|]. intros c. by rewrite active_of_dec_pending.
Qed.

Lemma drop_active_id p c b : slot_id (drop_active p c b) = slot_id p.
Proof. done. Qed.

Lemma dec_pending_id p : slot_id (dec_pending_of p) = slot_id p.
Proof. unfold dec_pending_of. by destruct (0 <? _). Qed.

Lemma wf_keeps_peer s pos p p' :
  wf s -> peer_slots_ s !! pos = Some p -> slot_id p' = slot_id p ->
  active_ok (chunk_sub_blocks_ s) p' -> keeps s (set_peer s pos p') /\ wf (set_peer s pos p').
Proof.
  intros Hw Hp Hid Ha. pose proof (keeps_peer s pos p p' Hp Hid) as Hk. split; [done|].
  eapply keeps_wf; [done|done|]. apply actives_set; [apply Hw|done].
Qed.

(** Moving a request is a change of the source slot, a mark in the tables and
    a change of the receiving slot. *)
Lemma try_source_safe s pos j c now :
  wf s -> (pos < length (peer_slots_ s))%nat -> (j < length (peer_slots_ s))%nat ->
  exists s' m, try_source s pos j c now = Some (s', m) /\ keeps s s' /\ wf s'.
Proof.
  intros Hw Hpos Hj. destruct (lookup_lt_is_Some_2 _ _ Hpos) as [p Hp].
  destruct (lookup_lt_is_Some_2 _ _ Hj) as [src Hsrc].
  unfold try_source. rewrite Hp, Hsrc. cbn [mbind option_bind].
  case_bool_decide as Hid; [unchanged|]. destruct (negb _); [unchanged|].
  destruct (ordered (active_of src c)) as [|b l] eqn:Ho; [unchanged|].
  assert (b ∈ active_of src c) as Hb by (apply elem_of_ordered; rewrite Ho; by left).
  pose proof (peer_ok s j src Hw Hsrc) as Hok.
  destruct (Hok c b Hb) as (k & sub & Hk & Hsub & ->). rewrite begin_sub.
  destruct (sub_done_b s c sub).
  { destruct (wf_keeps_peer s j src (set_active_of src
      (<[c := active_of src c ∖ {[sub * SUB_BLOCK_SIZE]}]> (active_sub_blocks src))))
      as [? ?]; [done|done|done|by apply active_ok_erase|]. eauto 10. }
  set (s1 := if has_cancel_issuer s then _ else s).
  assert (keeps s s1 /\ peer_slots_ s1 = peer_slots_ s /\ chunk_sub_req_ s1 = chunk_sub_req_ s /\
          chunk_sub_req_time_ s1 = chunk_sub_req_time_ s /\
          chunk_sub_blocks_ s1 = chunk_sub_blocks_ s) as (Hk1 & Hp1 & Hr1 & Ht1 & Hb1)
    by (subst s1; by destruct (has_cancel_issuer s)).
  assert (wf s1) as Hw1 by (eapply keeps_wf; [done|done|rewrite Hp1; apply Hw]).
  destruct (wf_keeps_peer s1 j src (drop_active (dec_pending_of src) c (sub * SUB_BLOCK_SIZE)))
    as [Hk2 Hw2]; [done|by rewrite Hp1|by rewrite drop_active_id, dec_pending_id| |].
  { rewrite Hb1. by apply active_ok_drop, active_ok_dec_pending. }
  set (s2 := set_peer s1 j _) in *. clearbody s1.
  assert (chunk_sub_req_ s2 = chunk_sub_req_ s /\ chunk_sub_req_time_ s2 = chunk_sub_req_time_ s /\
    chunk_sub_blocks_ s2 = chunk_sub_blocks_ s /\ peer_slots_ s2 !! pos = Some p)
    as (Hr2 & Ht2 & Hb2 & Hp2).
  { subst s2. cbn. rewrite Hp1, list_lookup_insert_ne; [done|]. intros <-. by simplify_eq. }
  clearbody s2.
  destruct (row_get_ok _ _ c k sub (tok_req _ (wf_tables _ Hw)) Hk Hsub) as (r1 & _ & Hr & Hl & _).
  destruct (row_get_ok _ _ c k sub (tok_time _ (wf_tables _ Hw)) Hk Hsub) as (r2 & _ & Hr' & Hl' & _).
  rewrite Hr2, Ht2, (row_set_upd _ _ _ _ r1), (row_set_upd _ _ _ _ r2) by (done || lia).
  cbn [mbind option_bind]. rewrite <- Hr2, <- Ht2.
  set (s3 := say _ _).
  assert (keeps s2 s3) as Hk3.
  { unfold keeps, view, s3. cbn. by rewrite !widths_row_upd. }
  assert (wf s3) as Hw3 by (eapply keeps_wf; [done|done|apply Hw2]).
  destruct (wf_keeps_peer s3 pos p (note_request p c (sub * SUB_BLOCK_SIZE))) as [Hk4 Hw4];
    [done|done|done| |].
  { change (chunk_sub_blocks_ s3) with (chunk_sub_blocks_ s2). rewrite Hb2.
    eapply active_ok_note; [by eapply peer_ok|done|done]. }
  eexists _, _. split; [reflexivity|]. split; [|done].
  by etrans; [|etrans; [|etrans]].
Qed.

Lemma sources_loop_safe c now js : forall s pos,
  wf s -> (pos < length (peer_slots_ s))%nat ->
  Forall (fun j => j < length (peer_slots_ s))%nat js ->
  exists s' m, sources_loop s pos c now js = Some (s', m) /\ keeps s s' /\ wf s'.
Proof.
  induction js as [|j js IH]; intros s pos Hw Hpos Hjs; [cbn; unchanged|].
  apply Forall_cons in Hjs as [Hj Hjs]. cbn [sources_loop].
  destruct (try_source_safe s pos j c now Hw Hpos Hj) as (s1 & m1 & -> & Hk1 & Hw1).
  cbn [mbind option_bind]. destruct m1; [eauto|].
  destruct (IH s1 pos Hw1) as (s2 & m2 & -> & Hk2 & Hw2);
    [by rewrite (keeps_length _ _ Hk1)|by rewrite (keeps_length _ _ Hk1)|].
  exists s2, m2. split_and!; [done|by etrans|done].
Qed.

Lemma move_loop_safe now cap chunks : forall s pos,
  wf s -> (pos < length (peer_slots_ s))%nat ->
  exists s' m, move_loop s pos now cap chunks = Some (s', m) /\ keeps s s' /\ wf s'.
Proof.
  induction chunks as [|c chunks IH]; intros s pos Hw Hpos; [cbn; unchanged|].
  destruct (lookup_lt_is_Some_2 _ _ Hpos) as [p Hp].
  cbn [move_loop]. rewrite Hp. cbn [mbind option_bind]. destruct (cap <=? _); [unchanged|].
  destruct (negb _ || _); [by apply IH|].
  destruct (sources_loop_safe c now (seq 0 (length (peer_slots_ s))) s pos Hw Hpos)
    as (s1 & m1 & -> & Hk1 & Hw1).
  { apply Forall_forall. intros j Hj%elem_of_seq. lia. }
  cbn [mbind option_bind]. destruct m1; [eauto|].
  destruct (IH s1 pos Hw1) as (s2 & m2 & -> & Hk2 & Hw2); [by rewrite (keeps_length _ _ Hk1)|].
  exists s2, m2. split_and!; [done|by etrans|done].
Qed.

Lemma rebalance_loop_safe now cap n : forall s pos,
  wf s -> (pos < length (peer_slots_ s))%nat ->
  exists s', rebalance_loop n s pos now cap = Some s' /\ keeps s s' /\ wf s'.
Proof.
  induction n as [|n IH]; intros s pos Hw Hpos; [eexists; split_and!; done|].
  destruct (lookup_lt_is_Some_2 _ _ Hpos) as [p Hp].
  cbn [rebalance_loop]. rewrite Hp. cbn [mbind option_bind].
  destruct (cap <=? _); [eexists; split_and!; done|].
  destruct (move_loop_safe now cap (active_chunks_ s) s pos Hw Hpos) as (s1 & m1 & -> & Hk1 & Hw1).
  cbn [mbind option_bind]. destruct m1; [|eauto].
  destruct (IH s1 pos Hw1) as (s2 & -> & Hk2 & Hw2); [by rewrite (keeps_length _ _ Hk1)|].
  exists s2. split_and!; [done|by etrans|done].
Qed.

Lemma rebalance_safe s pos now n :
  wf s -> (pos < length (peer_slots_ s))%nat ->
  exists s', rebalance_seed_requests_for_peer s pos now n = Some s' /\ keeps s s' /\ wf s'.
Proof.
  intros Hw Hpos. destruct (lookup_lt_is_Some_2 _ _ Hpos) as [p Hp].
  unfold rebalance_seed_requests_for_peer. rewrite Hp. cbn [mbind option_bind].
  destruct (is_full_source _ _); [eexists; split_and!; done|]. by apply rebalance_loop_safe.
Qed.

(** ** Messages from peers *)
Lemma peer_slot_Some s id pos p :
  peer_slot s id = Some (pos, p) -> peer_slots_ s !! pos = Some p /\ slot_id p = id.
Proof. unfold peer_slot. intros (? & ? & _)%list_find_Some. done. Qed.

Lemma peer_slot_lt s id pos p :
  peer_slot s id = Some (pos, p) -> (pos < length (peer_slots_ s))%nat.
Proof. intros [H _]%peer_slot_Some. by eapply lookup_lt_Some. Qed.

Lemma check_interest_keeps s id :
  keeps s (check_peer_interest s id) /\ peer_slots_ (check_peer_interest s id) = peer_slots_ s.
Proof. unfold check_peer_interest. destruct (negb _), (wants_peer s id); done. Qed.

Lemma on_bitfield_safe s id bf now :
  wf s -> exists s', on_bitfield s id bf now = Some s' /\ keeps s s' /\ wf s'.
Proof.
  intros Hw. unfold on_bitfield. destruct (peer_slot s id) as [[pos p]|] eqn:Hs;
    [|eexists; split_and!; done].
  apply peer_slot_Some in Hs as [Hp Hid].
  destruct (wf_keeps_peer s pos p (set_bitfield p bf)) as [Hk1 Hw1];
    [done|done|done|by eapply (active_ok_sub _ p); [eapply peer_ok|]|].
  set (s1 := set_peer s pos _) in *. set (s2 := set_availability s1 _).
  assert (keeps s1 s2) as Hk2 by apply keeps_availability.
  destruct (check_interest_keeps s2 id) as [Hk3 Hp3].
  set (s3 := check_peer_interest s2 id) in *.
  assert (keeps s s3) as Hk by (etrans; [done|by etrans]).
  destruct (rebalance_safe s3 pos now 16) as (s4 & -> & Hk4 & Hw4).
  - apply (keeps_wf s1); [by etrans|done|]. rewrite Hp3. apply Hw1.
  - rewrite (keeps_length _ _ Hk). by eapply lookup_lt_Some.
  - exists s4. split_and!; [done|by etrans|done].
Qed.

Lemma on_have_safe s id c now :
  wf s -> exists s', on_have s id c now = Some s' /\ keeps s s' /\ wf s'.
Proof.
  intros Hw. unfold on_have. destruct (peer_slot s id) as [[pos p]|] eqn:Hs;
    [|eexists; split_and!; done].
  apply peer_slot_Some in Hs as [Hp Hid].
  destruct (zget (remote_bitfield p) c) as [have|]; [|eexists; split_and!; done].
  set (s1 := if have then s else _).
  assert (keeps s s1 /\ wf s1) as [Hk1 Hw1].
  { subst s1. destruct have; [done|].
    destruct (wf_keeps_peer s pos p (set_bitfield p (zupd (remote_bitfield p) c true))) as [Hk1 Hw1];
      [done|done|done|by eapply (active_ok_sub _ p); [eapply peer_ok|]|].
    cbv zeta. destruct (zget (availability_ _) c); [|done].
    match goal with |- keeps _ (set_availability ?a _) /\ _ => set (s1 := a) in * end.
    assert (keeps s1 (set_availability s1 (zupd (availability_ s1) c (u32 (z + 1))))) as Hk2
      by (unfold keeps, view; cbn; by rewrite zlength_zupd).
    split; [by etrans|]. eapply keeps_wf; [exact Hk2|done|]. apply Hw1. }
  clearbody s1. destruct (check_interest_keeps s1 id) as [Hk2 Hp2].
  set (s2 := check_peer_interest s1 id) in *.
  destruct (rebalance_safe s2 pos now 8) as (s3 & -> & Hk3 & Hw3).
  - eapply keeps_wf; [exact Hk2|done|]. rewrite Hp2. apply Hw1.
  - rewrite (keeps_length _ _ Hk2), (keeps_length _ _ Hk1). by eapply lookup_lt_Some.
  - exists s3. split_and!; [done| |done]. by etrans; [|etrans].
Qed.

Lemma dec_peer_pending_safe s id c b now :
  wf s -> exists s', dec_peer_pending s id c b now = Some s' /\ keeps s s' /\ wf s'.
Proof.
  intros Hw. unfold dec_peer_pending. destruct (peer_slot s id) as [[pos p]|] eqn:Hs;
    [|eexists; split_and!; done].
  apply peer_slot_Some in Hs as [Hp Hid].
  destruct (_ =? 0); [eexists; split_and!; done|]. cbv zeta.
  match goal with |- context [?m ≫= _] => assert (exists s1, m = Some s1 /\ keeps s s1 /\
    peer_slots_ s1 = peer_slots_ s) as (s1 & -> & Hk1 & Hp1) end.
  { destruct (row_get (chunk_sub_done_ s) c _) as [[]|] eqn:Hr;
      [eexists; split_and!; done| |eexists; split_and!; done].
    apply row_get_Some in Hr as (row & Hrow & _). apply zget_range in Hrow.
    destruct (proj2 (zget_is_Some (chunk_sub_done_count_ s) c)) as [n Hn].
    { rewrite (tok_dcount _ (wf_tables _ Hw)), <- (tok_blocks _ (wf_tables _ Hw)).
      rewrite <- (tok_done _ (wf_tables _ Hw)). unfold widths. by rewrite zlength_fmap. }
    cbn [chunk_sub_done_count_ set_sub_done]. rewrite Hn. cbn [mbind option_bind].
    eexists. split_and!; [reflexivity| |done].
    unfold keeps, view. cbn. by rewrite widths_row_upd, zlength_zupd. }
  cbn [mbind option_bind].
  assert (wf s1) as Hw1 by (eapply keeps_wf; [done|done|rewrite Hp1; apply Hw]).
  set (p' := match _ with Some _ => _ | None => _ end).
  destruct (wf_keeps_peer s1 pos p p') as [Hk2 Hw2]; [done|by rewrite Hp1| | |].
  { subst p'. by destruct (_ !! c). }
  { assert (active_ok (chunk_sub_blocks_ s1) p) as Hok by (eapply peer_ok; [done|by rewrite Hp1]).
    subst p'. destruct (_ !! c); [apply active_ok_drop|]; done. }
  case_decide; [eexists; split_and!; [done|by etrans|done]|].
  destruct (try_schedule_for_peer_safe (set_peer s1 pos p') pos now Hw2) as (s3 & i & -> & Hk3 & Hw3).
  { cbn. rewrite length_insert, Hp1. by eapply lookup_lt_Some. }
  cbn [mbind option_bind]. exists s3. split_and!; [done| |done]. by etrans; [|etrans].
Qed.

(** ** Ticks *)
Lemma issue_redundant_safe s c k sub id :
  wf s -> zget (chunk_sub_blocks_ s) c = Some k -> 0 <= sub < k ->
  keeps s (issue_redundant c (sub * SUB_BLOCK_SIZE) s id) /\
  wf (issue_redundant c (sub * SUB_BLOCK_SIZE) s id).
Proof.
  intros Hw Hk Hsub. unfold issue_redundant.
  destruct (peer_slot s id) as [[pos p]|] eqn:Hs; [|done].
  apply peer_slot_Some in Hs as [Hp Hid]. cbv zeta.
  assert (wf (say s (IssueRequest id c (sub * SUB_BLOCK_SIZE) SUB_BLOCK_SIZE))) as Hw1
    by (eapply keeps_wf; [apply keeps_say|done|apply Hw]).
  apply (wf_keeps_peer (say s _) pos p); [done|done|done|].
  eapply active_ok_note; [by eapply peer_ok|done|done].
Qed.

Lemma redundant_fold_safe c k sub ids : forall s,
  wf s -> zget (chunk_sub_blocks_ s) c = Some k -> 0 <= sub < k ->
  keeps s (fold_left (issue_redundant c (sub * SUB_BLOCK_SIZE)) ids s) /\
  wf (fold_left (issue_redundant c (sub * SUB_BLOCK_SIZE)) ids s).
Proof.
  induction ids as [|id ids IH]; intros s Hw Hk Hsub; [done|]. cbn [fold_left].
  destruct (issue_redundant_safe s c k sub id Hw Hk Hsub) as [Hk1 Hw1].
  destruct (IH (issue_redundant c (sub * SUB_BLOCK_SIZE) s id) Hw1) as [Hk2 Hw2]; [|done|].
  { unfold keeps, view in Hk1. injection Hk1. intros. congruence. }
  split; [by etrans|done].
Qed.

Lemma keeps_blocks s s' : keeps s s' -> chunk_sub_blocks_ s' = chunk_sub_blocks_ s.
Proof. unfold keeps, view. intros Hk. by injection Hk. Qed.

Lemma hungry_loop_safe c k primary th now subs : forall s any,
  wf s -> zget (chunk_sub_blocks_ s) c = Some k -> k < 2 ^ 18 ->
  Forall (fun sub => 0 <= sub < k) subs ->
  let r := hungry_loop s c primary th now subs any in keeps s r.1 /\ wf r.1.
Proof.
  induction subs as [|sub subs IH]; intros s any Hw Hk Hk18 Hsubs; [done|].
  apply Forall_cons in Hsubs as [Hsub Hsubs]. cbn [hungry_loop].
  destruct (hungry s c sub th now); [|by apply IH]. rewrite (sub_begin k) by done.
  destruct (redundant_fold_safe c k sub
    (find_redundant_peers c primary MAX_REDUNDANT_PEERS (peer_slots_ s)) s Hw Hk Hsub) as [Hk1 Hw1].
  set (s1 := fold_left _ _ _) in *.
  destruct (IH s1 true Hw1) as [Hk2 Hw2]; [by rewrite (keeps_blocks _ _ Hk1)|done|done|].
  split; [by etrans|done].
Qed.

Lemma endgame_loop_safe now chunks : forall s processed,
  wf s -> Forall (fun c => 0 <= c) chunks ->
  keeps s (endgame_loop s now processed chunks) /\ wf (endgame_loop s now processed chunks).
Proof.
  induction chunks as [|c chunks IH]; intros s n Hw Hcs; [done|].
  apply Forall_cons in Hcs as [Hc0 Hcs]. cbn [endgame_loop].
  destruct (_ <=? n); [done|]. cbv zeta.
  destruct (Z.eqb_spec (total_of s c) 0) as [|Htot]; [by apply IH|].
  destruct (zget (chunk_sub_blocks_ s) c) as [k|] eqn:Hk.
  2: { unfold total_of in Htot. by rewrite Hk in Htot. }
  destruct (_ <=? c); cbn [orb]; [by apply IH|].
  destruct (wf_blocks s c (wf_tables _ Hw)) as (k' & Hk' & Hk18 & Ht).
  { rewrite <- (tok_blocks _ (wf_tables _ Hw)). by eapply zget_range. }
  rewrite Ht. assert (k' = k) as -> by congruence.
  pose proof (hungry_loop_safe c k (primary_peer s c) (hunger_threshold_ms s (primary_peer s c))
    now (seqZ 0 k) s false Hw Hk) as Hh.
  destruct (hungry_loop _ _ _ _ _ _ _) as [s1 any].
  destruct Hh as [Hk1 Hw1]; [lia|apply Forall_forall; intros sub Hsub%elem_of_seqZ; lia|].
  destruct (IH s1 (if any then n + 1 else n) Hw1 Hcs) as [Hk2 Hw2]. split; [by etrans|done].
Qed.

Lemma tick_endgame_safe s now : wf s -> keeps s (tick_endgame s now) /\ wf (tick_endgame s now).
Proof.
  intros Hw. apply endgame_loop_safe; [done|]. apply Forall_forall. intros c.
  unfold downloading. rewrite elem_of_sort_by, list_elem_of_filter.
  intros [Hst _]. by apply zget_range in Hst as [? _].
Qed.

Lemma rebalance_all_safe now poss : forall s,
  wf s -> Forall (fun pos => pos < length (peer_slots_ s))%nat poss ->
  exists s', rebalance_all s now poss = Some s' /\ keeps s s' /\ wf s'.
Proof.
  induction poss as [|pos poss IH]; intros s Hw Hps; [eexists; split_and!; done|].
  apply Forall_cons in Hps as [Hpos Hps]. cbn [rebalance_all].
  destruct (rebalance_safe s pos now 4 Hw Hpos) as (s1 & -> & Hk1 & Hw1). cbn [mbind option_bind].
  destruct (IH s1 Hw1) as (s2 & -> & Hk2 & Hw2); [by rewrite (keeps_length _ _ Hk1)|].
  exists s2. split_and!; [done|by etrans|done].
Qed.

Lemma schedule_all_safe now poss : forall s,
  wf s -> Forall (fun pos => pos < length (peer_slots_ s))%nat poss ->
  exists s', schedule_all s now poss = Some s' /\ keeps s s' /\ wf s'.
Proof.
  induction poss as [|pos poss IH]; intros s Hw Hps; [eexists; split_and!; done|].
  apply Forall_cons in Hps as [Hpos Hps]. cbn [schedule_all].
  destruct (try_schedule_for_peer_safe s pos now Hw Hpos) as (s1 & i & -> & Hk1 & Hw1).
  cbn [mbind option_bind].
  destruct (IH s1 Hw1) as (s2 & -> & Hk2 & Hw2); [by rewrite (keeps_length _ _ Hk1)|].
  exists s2. split_and!; [done|by etrans|done].
Qed.

Lemma seq_lt (n : nat) : Forall (fun pos => pos < n)%nat (seq 0 n).
Proof. apply Forall_forall. intros j Hj%elem_of_seq. lia. Qed.

Lemma sched_tick_safe s now :
  wf s -> exists s', sched_tick s now = Some s' /\ keeps s s' /\ wf s'.
Proof.
  intros Hw. unfold sched_tick. case_decide; [eexists; split_and!; done|].
  destruct (rebalance_all_safe now _ s Hw (seq_lt _)) as (s1 & -> & Hk1 & Hw1).
  cbn [mbind option_bind].
  destruct (schedule_all_safe now _ s1 Hw1 (seq_lt _)) as (s2 & -> & Hk2 & Hw2).
  cbn [mbind option_bind]. eexists. split; [reflexivity|]. case_decide.
  - destruct (tick_endgame_safe s2 now Hw2) as [? ?]. split; [|done]. by etrans; [|etrans].
  - split; [by etrans|done].
Qed.

(** ** Peers come and go *)
Lemma wf_set_peers s ps :
  wf s -> NoDup (slot_id <$> ps) -> Forall (active_ok (chunk_sub_blocks_ s)) ps ->
  wf (set_peers s ps).
Proof. intros [[] [] _ _] Hnd Hok. split; [split|split| |]; done. Qed.

Lemma on_peer_added_wf s id speed :
  wf s -> id ∉ slot_id <$> peer_slots_ s -> wf (on_peer_added s id speed).
Proof.
  intros Hw Hid. apply wf_set_peers; [done| |].
  - rewrite fmap_app. apply NoDup_app. split; [apply Hw|]. split; [|apply NoDup_singleton].
    intros x Hx Hx'%list_elem_of_singleton. by simplify_eq/=.
  - apply Forall_app. split; [apply Hw|]. constructor; [|constructor].
    intros c b. unfold active_of. cbn. rewrite lookup_empty. set_solver.
Qed.

Lemma set_slot_wf s id (f : PeerSlot -> PeerSlot) :
  wf s -> (forall p, slot_id (f p) = slot_id p) -> (forall p c, active_of (f p) c = active_of p c) ->
  wf (match peer_slot s id with None => s | Some (pos, p) => set_peer s pos (f p) end).
Proof.
  intros Hw Hid Ha. destruct (peer_slot s id) as [[pos p]|] eqn:Hs; [|done].
  apply peer_slot_Some in Hs as [Hp _]. eapply wf_keeps_peer; [done|done|apply Hid|].
  eapply (active_ok_sub _ p); [by eapply peer_ok|]. intros c. by rewrite Ha.
Qed.

Lemma release_sub_keeps s c b :
  keeps s (release_sub s c b) /\ peer_slots_ (release_sub s c b) = peer_slots_ s.
Proof.
  unfold release_sub. destruct (row_get _ _ _) as [[]|]; try done. split; [|done].
  unfold keeps, view. cbn. by rewrite !widths_row_upd, zlength_dec_at.
Qed.

Lemma release_fold_keeps c begins : forall s,
  let s' := fold_left (fun s b => release_sub s c b) begins s in
  keeps s s' /\ peer_slots_ s' = peer_slots_ s.
Proof.
  induction begins as [|b begins IH]; intros s; [done|]. cbn [fold_left].
  destruct (release_sub_keeps s c b) as [Hk Hp].
  destruct (IH (release_sub s c b)) as [Hk' Hp']. split; [by etrans|congruence].
Qed.

Lemma release_chunk_keeps s x :
  keeps s (release_chunk s x) /\ peer_slots_ (release_chunk s x) = peer_slots_ s.
Proof.
  destruct x as [c begins]. unfold release_chunk.
  destruct (release_fold_keeps c (ordered begins) s) as [Hk Hp].
  set (s1 := fold_left _ _ _) in *. clearbody s1.
  destruct (zget (chunk_states_ s1) c) as [st|] eqn:Hst; [|done].
  destruct (zget (chunk_sub_req_count_ s1) c) as [[]|]; try done.
  destruct (complete_b st) eqn:Hc; [done|]. split; [|done].
  etrans; [done|]. by eapply keeps_states.
Qed.

Lemma release_all_keeps xs : forall s,
  keeps s (fold_left release_chunk xs s) /\
  peer_slots_ (fold_left release_chunk xs s) = peer_slots_ s.
Proof.
  induction xs as [|x xs IH]; intros s; [done|]. cbn [fold_left].
  destruct (release_chunk_keeps s x) as [Hk Hp]. destruct (IH (release_chunk s x)) as [Hk' Hp'].
  split; [by etrans|congruence].
Qed.

(** The tables after the requests of a peer have been released. *)
Lemma on_peer_removed_wf s id : wf s -> wf (on_peer_removed s id).
Proof.
  intros Hw. unfold on_peer_removed. set (s1 := match peer_slot s id with None => s | _ => _ end).
  assert (keeps s s1 /\ peer_slots_ s1 = peer_slots_ s) as [Hk Hp].
  { subst s1. destruct (peer_slot s id) as [[pos p]|]; [|done]. cbv zeta.
    destruct (release_all_keeps (ordered_map (active_sub_blocks p))
      (set_availability s (avail_add (-1) (availability_ s) (remote_bitfield p)))) as [Hk Hp].
    split; [|done]. etrans; [apply keeps_availability|exact Hk]. }
  assert (wf s1) as Hw1 by (eapply keeps_wf; [done|done|rewrite Hp; apply Hw]).
  apply wf_set_peers; [done| |].
  - eapply sublist_NoDup; [apply (wf_ids _ Hw1)|]. apply fmap_sublist, sublist_filter.
  - apply Forall_forall. intros p [_ Hin]%list_elem_of_filter.
    by apply (proj1 (Forall_forall _ _) (wf_actives _ Hw1)).
Qed.

(** ** Completion *)
Lemma cancel_begins_keeps c begins : forall s pos,
  keeps s (cancel_begins s pos c begins) /\
  (wf s -> wf (cancel_begins s pos c begins)).
Proof.
  induction begins as [|b begins IH]; intros s pos; [done|]. cbn [cancel_begins].
  destruct (peer_slots_ s !! pos) as [p|] eqn:Hp; [|done]. cbv zeta.
  set (s1 := say s _). destruct (IH (set_peer s1 pos (dec_pending_of p)) pos) as [Hk Hw'].
  assert (keeps s1 (set_peer s1 pos (dec_pending_of p))) as Hk1
    by (eapply keeps_peer; [exact Hp|apply dec_pending_id]).
  split; [by etrans; [|etrans]|]. intros Hw. apply Hw'.
  assert (wf s1) as Hw1 by (eapply keeps_wf; [apply keeps_say|done|apply Hw]).
  eapply wf_keeps_peer; [done|exact Hp|apply dec_pending_id|].
  apply active_ok_dec_pending. by eapply (peer_ok s1).
Qed.

Lemma cancel_on_peer_keeps c ex s pos :
  keeps s (cancel_on_peer c ex s pos) /\ (wf s -> wf (cancel_on_peer c ex s pos)).
Proof.
  unfold cancel_on_peer. destruct (peer_slots_ s !! pos) as [p|]; [|done].
  destruct (_ || _); [done|]. cbv zeta.
  destruct (cancel_begins_keeps c (ordered (active_of p c)) s pos) as [Hk Hw].
  set (s1 := cancel_begins _ _ _ _) in *. clearbody s1.
  destruct (peer_slots_ s1 !! pos) as [q|] eqn:Hq; [|done].
  assert (keeps s1 (set_peer s1 pos (set_active_of q (delete c (active_sub_blocks q))))) as Hk1
    by (by eapply keeps_peer).
  split; [by etrans|]. intros Hws. specialize (Hw Hws).
  eapply wf_keeps_peer; [done|exact Hq|done|].
  eapply (active_ok_sub _ q); [by eapply peer_ok|]. intros c'. unfold active_of. cbn.
  destruct (decide (c = c')) as [->|]; [rewrite lookup_delete_eq; set_solver|].
  by rewrite lookup_delete_ne.
Qed.

Lemma cancel_fold_keeps c ex poss : forall s,
  keeps s (fold_left (cancel_on_peer c ex) poss s) /\
  (wf s -> wf (fold_left (cancel_on_peer c ex) poss s)).
Proof.
  induction poss as [|pos poss IH]; intros s; [done|]. cbn [fold_left].
  destruct (cancel_on_peer_keeps c ex s pos) as [Hk Hw].
  destruct (IH (cancel_on_peer c ex s pos)) as [Hk' Hw']. split; [by etrans|auto].
Qed.

Lemma send_cancel_keeps s c ex :
  keeps s (send_cancel_for_chunk s c ex) /\ (wf s -> wf (send_cancel_for_chunk s c ex)).
Proof. unfold send_cancel_for_chunk. destruct (has_cancel_issuer s); [apply cancel_fold_keeps|done]. Qed.

Lemma active_bound s : wf s -> zlength (active_chunks_ s) <= chunk_total s.
Proof.
  intros Hw. destruct (wf_chunks _ Hw) as [Hnd Hact _ _].
  assert (active_chunks_ s ⊆+ seqZ 0 (chunk_total s)) as Hsub%submseteq_length.
  { apply NoDup_submseteq; [done|]. intros c Hc%Hact. apply elem_of_seqZ.
    rewrite zget_fmap in Hc. destruct (zget (chunk_states_ s) c) eqn:E; [|done].
    apply zget_range in E. unfold chunk_total. lia. }
  rewrite length_seqZ in Hsub. unfold zlength. pose proof (zlength_nonneg (chunk_states_ s)).
  unfold chunk_total in *. lia.
Qed.

(** A chunk of [active_chunks_] becomes complete. *)
Definition finish (s : Scheduler) (c : Z) : Scheduler :=
  set_active (set_states (set_missing s (u32 (missing_count_ s - 1)))
    (zupd (chunk_states_ s) c COMPLETE)) (swap_remove c (active_chunks_ s)).

Lemma finish_wf s c :
  wf s -> c ∈ active_chunks_ s ->
  wf (finish s c) /\ missing_count_ (finish s c) = missing_count_ s - 1.
Proof.
  intros Hw Hc. pose proof (active_bound s Hw) as Hb.
  destruct Hw as [Ht [Hnd Hact Hmis Hph] Hid Hok].
  pose proof (swap_remove_perm c _ Hc) as Hperm.
  assert (zlength (active_chunks_ s) = 1 + zlength (swap_remove c (active_chunks_ s))) as Hlen
    by (unfold zlength; rewrite Hperm at 1; simpl; lia).
  pose proof (zlength_nonneg (swap_remove c (active_chunks_ s))) as Hnn.
  assert (u32 (missing_count_ s - 1) = missing_count_ s - 1) as Hu.
  { apply u32_small. pose proof (tok_total _ Ht). unfold is_u32. lia. }
  split; [|done].
  assert (chunk_total (finish s c) = chunk_total s) as Hn by apply zlength_zupd.
  split; [|split| |]; try done.
  - destruct Ht. split; rewrite ?Hn; done.
  - rewrite Hperm in Hnd. by apply NoDup_cons in Hnd as [_ ?].
  - intros x. cbn [active_chunks_ chunk_states_ finish set_active set_states].
    rewrite fmap_zupd, zget_zupd. apply Hact in Hc as Hcs.
    rewrite (proj2 (in_range_iff _ _)) by (by eapply zget_range). rewrite andb_true_r.
    rewrite Hperm in Hnd. apply NoDup_cons in Hnd as [Hnin _].
    destruct (Z.eqb_spec c x) as [->|Hne]; [naive_solver|].
    rewrite <- Hact. rewrite Hperm at 2. rewrite elem_of_cons. naive_solver.
  - cbn. rewrite Hu. lia.
  - cbn. intros Hd. specialize (Hph Hd). rewrite Hu. lia.
Qed.

Lemma complete_one_safe s msg :
  wf s -> msg_chunk_idx msg ∈ active_chunks_ s ->
  exists s', complete_one s msg = Some s' /\ wf s' /\
    active_chunks_ s' = swap_remove (msg_chunk_idx msg) (active_chunks_ s) /\
    missing_count_ s' = missing_count_ s - 1 /\
    complete_b <$> chunk_states_ s' =
      zupd (complete_b <$> chunk_states_ s) (msg_chunk_idx msg) true.
Proof.
  intros Hw Hc. unfold complete_one. set (c := msg_chunk_idx msg) in *.
  assert (0 <= c < zlength (chunk_states_ s)) as Hr.
  { apply (cok_active _ (wf_chunks _ Hw)) in Hc. apply zget_range in Hc.
    by rewrite zlength_fmap in Hc. }
  rewrite zset_zupd by done. cbn [mbind option_bind].
  destruct (finish_wf s c Hw Hc) as [Hw1 Hm1].
  destruct (send_cancel_keeps (finish s c) c (winning_peer_slot msg)) as [Hk2 Hw2].
  specialize (Hw2 Hw1). eexists. split; [reflexivity|].
  change (set_active _ _) with (finish s c). set (s2 := send_cancel_for_chunk _ _ _) in *.
  assert (keeps s2 (say (set_req_count s2 (zupd (chunk_sub_req_count_ s2) c 0)) (BroadcastHave c)))
    as Hk3 by (etrans; [apply keeps_req_count|apply keeps_say]).
  split; [eapply keeps_wf; [exact Hk3|done|apply Hw2]|].
  assert (keeps (finish s c) (say (set_req_count s2 (zupd (chunk_sub_req_count_ s2) c 0))
    (BroadcastHave c))) as Hk by (by etrans).
  unfold keeps, view in Hk. injection Hk as Hst _ _ _ _ _ _ _ Hac Hmi _ _.
  cbn [active_chunks_ missing_count_ chunk_states_ say set_calls set_req_count] in *.
  rewrite Hac, Hmi, Hst. split_and!; [done|done|]. cbn. apply fmap_zupd.
Qed.

(** The completions handed over are of distinct chunks that are not complete. *)
Definition completions_ok (s : Scheduler) (ms : list ChunkCompleteMsg) : Prop :=
  NoDup (msg_chunk_idx <$> ms) /\ Forall (fun m => msg_chunk_idx m ∈ active_chunks_ s) ms.

Lemma complete_all_safe ms : forall s,
  wf s -> completions_ok s ms -> exists s', complete_all s ms = Some s' /\ wf s' /\
    missing_count_ s' = missing_count_ s - Z.of_nat (length ms).
Proof.
  induction ms as [|m ms IH]; intros s Hw [Hnd Hin].
  { exists s. split_and!; [done|done|]. simpl. lia. }
  rewrite fmap_cons in Hnd. apply NoDup_cons in Hnd as [Hm Hnd].
  apply Forall_cons in Hin as [Hc Hin]. cbn [complete_all].
  destruct (complete_one_safe s m Hw Hc) as (s1 & -> & Hw1 & Hac & Hmi & _).
  cbn [mbind option_bind]. destruct (IH s1 Hw1) as (s2 & -> & Hw2 & Hmi2).
  - split; [done|]. rewrite Forall_forall in *. intros m' Hm'. rewrite Hac.
    specialize (Hin m' Hm'). rewrite (swap_remove_perm _ _ Hc) in Hin.
    apply elem_of_cons in Hin as [Heq|?]; [|done]. exfalso. apply Hm.
    rewrite <- Heq. by apply list_elem_of_fmap_2.
  - exists s2. split_and!; [done|done|]. simpl. lia.
Qed.

Lemma set_phase_wf s ph : wf s -> (ph = DONE -> missing_count_ s = 0) -> wf (set_phase s ph).
Proof. intros [[] [] ? ?] H. split; [split|split| |]; done. Qed.

Lemma process_completions_safe s ms :
  wf s -> completions_ok s ms -> exists s', process_completions s ms = Some s' /\ wf s' /\
    missing_count_ s' = missing_count_ s - Z.of_nat (length ms) /\
    (missing_count_ s' = 0 -> phase_ s' = DONE).
Proof.
  intros Hw Hms. unfold process_completions.
  destruct (complete_all_safe ms s Hw Hms) as (s1 & -> & Hw1 & Hmi). cbn [mbind option_bind].
  eexists. split; [reflexivity|].
  destruct (Z.eqb_spec (missing_count_ s1) 0) as [H0|H0].
  - split_and!; [|done|done].
    eapply keeps_wf; [apply keeps_say|by apply set_phase_wf|apply Hw1].
  - destruct (_ <? _); (split_and!; [|done|done]); [by apply set_phase_wf|done].
Qed.

Lemma on_verify_failed_safe s c :
  wf s -> c ∈ active_chunks_ s ->
  exists s', on_verify_failed s c = Some s' /\ keeps s s' /\ wf s'.
Proof.
  intros Hw Hc. unfold on_verify_failed.
  apply (cok_active _ (wf_chunks _ Hw)) in Hc as Hst. rewrite zget_fmap in Hst.
  destruct (zget (chunk_states_ s) c) as [st|] eqn:E; [|done]. simpl in Hst. simplify_eq.
  rewrite zset_zupd by (by eapply zget_range). cbn [mbind option_bind].
  eexists. split; [reflexivity|]. rewrite decide_True by done.
  match goal with |- keeps s ?s' /\ _ => assert (keeps s s') as Hk end.
  { etrans; [by apply (keeps_states s c st MISSING)|]. unfold keeps, view.
    cbn. by rewrite !widths_fill_row, !zlength_zupd. }
  split; [done|]. eapply keeps_wf; [exact Hk|done|apply Hw].
Qed.

Lemma on_subblock_timeout_keeps s c b :
  keeps s (on_subblock_timeout s c b) /\
  peer_slots_ (on_subblock_timeout s c b) = peer_slots_ s.
Proof.
  unfold on_subblock_timeout. destruct (zget _ c) as [st|]; [|done].
  destruct (complete_b st); [done|].
  destruct (row_get _ _ _) as [[]|]; (split; [|done]); unfold keeps, view; cbn;
    by rewrite !widths_row_upd, ?zlength_dec_at.
Qed.

(** No chunk is being downloaded: the situation in which [mark_all_complete]
    is called. *)
Definition fresh_states (s : Scheduler) : Prop :=
  Forall (fun st => st = MISSING \/ st = COMPLETE) (chunk_states_ s).

Lemma mark_one_safe s i :
  wf s -> fresh_states s -> wf (mark_one s i) /\ fresh_states (mark_one s i) /\
  phase_ (mark_one s i) = phase_ s.
Proof.
  intros Hw Hf. unfold mark_one. destruct (zget (chunk_states_ s) i) as [st|] eqn:E; [|done].
  destruct (complete_b st) eqn:Hc; [done|].
  pose proof (proj1 (zget_Some _ _ _) E) as [_ El].
  destruct (Forall_lookup_1 _ _ _ _ Hf El) as [-> | ->]; [|done]. rewrite decide_True by done.
  assert (i ∈ active_chunks_ s) as Hi.
  { apply (cok_active _ (wf_chunks _ Hw)). by rewrite zget_fmap, E. }
  destruct (finish_wf s i Hw Hi) as [Hw1 _].
  change (set_active _ _) with (finish s i). split_and!; [|..|done].
  - eapply keeps_wf; [apply (keeps_req_count (finish s i))|done|apply Hw1].
  - unfold fresh_states. cbn. unfold zupd. destruct (in_range _ i); [|done].
    apply Forall_insert; [done|by right].
Qed.

Lemma mark_loop_safe bf : forall s i,
  wf s -> fresh_states s -> wf (mark_loop s i bf) /\ phase_ (mark_loop s i bf) = phase_ s.
Proof.
  induction bf as [|b bf IH]; intros s i Hw Hf; [done|]. cbn [mark_loop]. destruct b; [|by apply IH].
  destruct (mark_one_safe s i Hw Hf) as (Hw1 & Hf1 & Hp1).
  destruct (IH (mark_one s i) (i + 1) Hw1 Hf1) as [? ->]. done.
Qed.

Lemma mark_all_complete_wf s bf : wf s -> fresh_states s -> wf (mark_all_complete s bf).
Proof.
  intros Hw Hf. unfold mark_all_complete. destruct (mark_loop_safe bf s 0 Hw Hf) as [Hw1 _].
  destruct (Z.eqb_spec (missing_count_ (mark_loop s 0 bf)) 0); [by apply set_phase_wf|].
  destruct (_ <? _); [by apply set_phase_wf|done].
Qed.

(** ** Set-up *)
Lemma widths_assign {A} counts (rows : list (list A)) x :
  length rows = length counts -> Forall (fun k => 0 <= k) counts ->
  widths (assign_rows counts rows x) = counts.
Proof.
  revert rows. unfold widths. induction counts as [|c counts IH]; intros [|r rows] Hl Hp; try done.
  apply Forall_cons in Hp as [Hc Hp]. cbn. f_equal; [|apply IH; [by injection Hl|done]].
  unfold zlength. rewrite length_replicate. lia.
Qed.

Lemma sub_block_count_range size : is_u32 size -> 0 <= sub_block_count size < 2 ^ 18.
Proof. intros H. unfold sub_block_count, SUB_BLOCK_SIZE. ulia. Qed.

(** The scheduler [cmd_add], [cmd_seed] and [cmd_update] set up. *)
Definition sched_setup (speed : Z) (sizes : list Z) : Scheduler :=
  set_chunk_sizes (sched_init sched_new (zlength sizes) speed) sizes.

Lemma sched_setup_wf speed sizes :
  zlength sizes < 2 ^ 32 -> Forall is_u32 sizes ->
  wf (sched_setup speed sizes) /\ fresh_states (sched_setup speed sizes).
Proof.
  intros Hn Hs. pose proof (zlength_nonneg sizes) as H0.
  assert (forall n, length (resize ([] : list (list bool)) n []) = Z.to_nat n) as Hr1
    by (intros; unfold resize; rewrite take_nil, app_nil_l, length_replicate; simpl; lia).
  assert (forall n, length (resize ([] : list (list Z)) n []) = Z.to_nat n) as Hr2
    by (intros; unfold resize; rewrite take_nil, app_nil_l, length_replicate; simpl; lia).
  assert (Forall (fun k => 0 <= k < 2 ^ 18) (sub_block_count <$> sizes)) as Hc.
  { apply Forall_fmap. eapply Forall_impl; [exact Hs|]. apply sub_block_count_range. }
  assert (Forall (fun k => 0 <= k) (sub_block_count <$> sizes)) as Hc0
    by (eapply Forall_impl; [exact Hc|]; simpl; lia).
  assert (chunk_total (sched_setup speed sizes) = zlength sizes) as Ht.
  { unfold chunk_total. cbn. rewrite zlength_replicate. lia. }
  assert (Z.to_nat (zlength sizes) = length sizes) as Hz by (unfold zlength; lia).
  split; [split; [split|split| |]|]; rewrite ?Ht; try done.
  - cbn. rewrite zlength_replicate. lia.
  - cbn. apply zlength_fmap.
  - cbn. apply widths_assign; [by rewrite Hr1, length_fmap|done].
  - cbn. apply widths_assign; [by rewrite Hr1, length_fmap|done].
  - cbn. apply widths_assign; [by rewrite Hr2, length_fmap|done].
  - cbn. rewrite zlength_replicate. lia.
  - cbn. rewrite zlength_replicate. lia.
  - cbn. apply NoDup_seqZ.
  - intros c. cbn. rewrite elem_of_seqZ, fmap_replicate, zget_replicate.
    destruct (_ && _) eqn:E; split; (done || lia || intros; lia).
  - cbn. rewrite zlength_seqZ; lia.
  - constructor.
  - unfold fresh_states. cbn. apply Forall_replicate. by left.
Qed.
