(* ===== verification/SchedulerSpec.v ===== *)
(** * What the scheduler guarantees

    Reachable schedulers are those set up by [cmd_add], [cmd_seed] and
    [cmd_update] and driven by any sequence of the events below, in any
    order.  The theorems: no event makes the scheduler index a vector out of
    range; its counters agree with its tables; a sub-block is requested at
    most once at a time, from the best peer that has it and within that peer's
    cap; requests of a peer that leaves are released. *)

From S2P Require Import Prelude Platform ChunkAssembler Scheduler SchedulerProofs.

(** [slot->pipeline_cap = ...; slot->consecutive_timeouts = ...; slot->rtt_us = ...]
    ([PeerSession::do_eval_tick]). *)
Definition set_eval (p : PeerSlot) (cap timeouts rtt : Z) : PeerSlot := {|
  slot_id := slot_id p; pending_requests := pending_requests p;
  consecutive_timeouts := timeouts; rtt_us := rtt; link_speed_mbps := link_speed_mbps p;
  link_speed_reported := link_speed_reported p; pipeline_cap := cap;
  am_choking := am_choking p; remote_bitfield := remote_bitfield p;
  active_sub_blocks := active_sub_blocks p |}.

Definition on_peer_eval (s : Scheduler) (id cap timeouts rtt : Z) : Scheduler :=
  match peer_slot s id with
  | None => s
  | Some (pos, p) => set_peer s pos (set_eval p cap timeouts rtt)
  end.

(** The events that reach a scheduler. *)
Inductive sched_op :=
| OpAdded (id speed : Z)
| OpRemoved (id : Z)
| OpSpeed (id speed : Z)
| OpChoke (id : Z) (choking : bool)
| OpEval (id cap timeouts rtt : Z)
| OpBitfield (id : Z) (bf : list bool) (now : Z)
| OpHave (id chunk now : Z)
| OpPiece (id chunk begin now : Z)
| OpTimeout (chunk begin : Z)
| OpTick (now : Z)
| OpCompletions (ms : list ChunkCompleteMsg)
| OpVerifyFailed (chunk : Z).

Definition run_op (o : sched_op) (s : Scheduler) : option Scheduler :=
  match o with
  | OpAdded id speed => Some (on_peer_added s id speed)
  | OpRemoved id => Some (on_peer_removed s id)
  | OpSpeed id speed => Some (on_peer_speed s id speed)
  | OpChoke id choking => Some (on_choke_change s id choking)
  | OpEval id cap timeouts rtt => Some (on_peer_eval s id cap timeouts rtt)
  | OpBitfield id bf now => on_bitfield s id bf now
  | OpHave id c now => on_have s id c now
  | OpPiece id c b now => dec_peer_pending s id c b now
  | OpTimeout c b => Some (on_subblock_timeout s c b)
  | OpTick now => sched_tick s now
  | OpCompletions ms => process_completions s ms
  | OpVerifyFailed c => on_verify_failed s c
  end.

(** Slot ids are not reused while they are in use, and the assemblers report
    each chunk once, while it is not complete (see [ChunkAssembler]).  Nothing
    is asked of what peers send. *)
Definition op_ok (s : Scheduler) (o : sched_op) : Prop :=
  match o with
  | OpAdded id _ => id ∉ slot_id <$> peer_slots_ s
  | OpCompletions ms => completions_ok s ms
  | OpVerifyFailed c => c ∈ active_chunks_ s
  | _ => True
  end.

(** The set-up shared by the commands: [shuffle] is the random order, [bf] the
    chunks found on disk, if any ([mark]). *)
Definition sched_start (speed : Z) (sizes : list Z) (shuffle : list Z -> list Z) (mark : bool)
  (bf : list bool) : Scheduler :=
  let s := randomize_piece_order (sched_setup speed sizes) shuffle in
  set_not_interested_issuer (set_cancel_issuer (if mark then mark_all_complete s bf else s)).

Inductive reach (speed : Z) (sizes : list Z) : Scheduler -> Prop :=
| reach_start shuffle mark bf :
    (forall l, shuffle l ≡ₚ l) -> reach speed sizes (sched_start speed sizes shuffle mark bf)
| reach_step s o s' :
    reach speed sizes s -> op_ok s o -> run_op o s = Some s' -> reach speed sizes s'.

(** ** Effect of scheduling on one peer *)
(** The requests [reqs] (chunk, sub-block) were issued to the peer at [pos]
    and nothing else changed in the request table. *)
Record issues (s s' : Scheduler) (pos : nat) (cap : Z) (reqs : list (Z * Z)) : Prop := {
  iss_calls id : (exists p, peer_slots_ s !! pos = Some p /\ slot_id p = id) ->
    calls s' = calls s ++
      ((fun x => IssueRequest id x.1 (x.2 * SUB_BLOCK_SIZE) SUB_BLOCK_SIZE) <$> reqs);
  iss_nodup : NoDup reqs;
  iss_fresh x : x ∈ reqs -> row_get (chunk_sub_req_ s) x.1 x.2 = Some false;
  iss_table c sub : row_get (chunk_sub_req_ s') c sub =
    if decide ((c, sub) ∈ reqs) then Some true else row_get (chunk_sub_req_ s) c sub;
  iss_peer p : peer_slots_ s !! pos = Some p -> is_u32 (pending_requests p) -> is_u32 cap ->
    exists p', peer_slots_ s' !! pos = Some p' /\
      pending_requests p' = pending_requests p + zlength reqs /\
      (reqs <> [] -> pending_requests p' <= cap) /\
      slot_id p' = slot_id p /\ remote_bitfield p' = remote_bitfield p /\
      am_choking p' = am_choking p /\ consecutive_timeouts p' = consecutive_timeouts p;
  iss_others j : j <> pos -> peer_slots_ s' !! j = peer_slots_ s !! j;
}.

(** A better than B: higher score, or the same and fewer chunks. *)
Definition better_eq (a b : Z * Z * Z) : Prop :=
  b.1.1 < a.1.1 \/ (a.1.1 = b.1.1 /\ a.2 <= b.2).

(** Scores stay above [INT_MIN] while fewer than 2^28 requests are pending. *)
Definition score_fits (p : PeerSlot) : Prop := 0 <= pending_requests p < 2 ^ 28.

(** ** Reachable schedulers are well formed *)
Lemma set_issuers_wf s : wf s -> wf (set_not_interested_issuer (set_cancel_issuer s)).
Proof. intros [[] [] ? ?]. split; [split|split| |]; done. Qed.

Lemma randomize_wf s shuffle :
  wf s -> (forall l, shuffle l ≡ₚ l) -> wf (randomize_piece_order s shuffle).
Proof.
  intros [[] [Hnd Hact Hm Hp] ? ?] Hsh. split; [split|split| |]; try done; cbn.
  - by rewrite Hsh.
  - intros c. by rewrite Hsh.
  - rewrite Hm. unfold zlength. by rewrite Hsh.
Qed.

Lemma sched_start_wf speed sizes shuffle mark bf :
  zlength sizes < 2 ^ 32 -> Forall is_u32 sizes -> (forall l, shuffle l ≡ₚ l) ->
  wf (sched_start speed sizes shuffle mark bf).
Proof.
  intros Hn Hs Hsh. destruct (sched_setup_wf speed sizes Hn Hs) as [Hw Hf].
  apply set_issuers_wf. destruct mark; [apply mark_all_complete_wf; [|done]|]; by apply randomize_wf.
Qed.

Lemma run_op_safe s o : wf s -> op_ok s o -> exists s', run_op o s = Some s' /\ wf s'.
Proof.
  intros Hw Hok.
  destruct o as [id speed|id|id speed|id b|id cap t r|id bf now|id c now|id c b now|c b|now|ms|c];
    cbn [run_op op_ok] in *.
  - eexists. split; [done|]. by apply on_peer_added_wf.
  - eexists. split; [done|]. by apply on_peer_removed_wf.
  - eexists. split; [done|]. by apply (set_slot_wf s id (fun p => set_speed_of p speed)).
  - eexists. split; [done|]. by apply (set_slot_wf s id (fun p => set_choking p b)).
  - eexists. split; [done|]. by apply (set_slot_wf s id (fun p => set_eval p cap t r)).
  - destruct (on_bitfield_safe s id bf now Hw) as (? & ? & _ & ?). eauto.
  - destruct (on_have_safe s id c now Hw) as (? & ? & _ & ?). eauto.
  - destruct (dec_peer_pending_safe s id c b now Hw) as (? & ? & _ & ?). eauto.
  - eexists. split; [done|]. destruct (on_subblock_timeout_keeps s c b) as [Hk Hp].
    eapply keeps_wf; [done|done|]. rewrite Hp. apply Hw.
  - destruct (sched_tick_safe s now Hw) as (? & ? & _ & ?). eauto.
  - destruct (process_completions_safe s ms Hw Hok) as (? & ? & ? & _). eauto.
  - destruct (on_verify_failed_safe s c Hw Hok) as (? & ? & _ & ?). eauto.
Qed.

Lemma reach_wf speed sizes s :
  zlength sizes < 2 ^ 32 -> Forall is_u32 sizes -> reach speed sizes s -> wf s.
Proof.
  intros Hn Hs. induction 1 as [shuffle mark bf Hsh|s o s' _ IH Hok Hrun]; [by apply sched_start_wf|].
  destruct (run_op_safe s o IH Hok) as (s'' & Hs'' & ?). by simplify_eq.
Qed.



(** ** Requests *)
Lemma issues_nil s s' pos cap :
  calls s' = calls s -> chunk_sub_req_ s' = chunk_sub_req_ s -> peer_slots_ s' = peer_slots_ s ->
  issues s s' pos cap [].
Proof.
  intros Hc Hr Hp. split.
  - intros id _. by rewrite Hc, app_nil_r.
  - constructor.
  - intros x Hx. by apply elem_of_nil in Hx.
  - intros c sub. rewrite decide_False by apply not_elem_of_nil. by rewrite Hr.
  - intros p Hpos _ _. exists p. rewrite Hp. split_and!; try done. unfold zlength. simpl. lia.
  - intros j _. by rewrite Hp.
Qed.

Lemma issues_app s1 s2 s3 pos cap r1 r2 :
  issues s1 s2 pos cap r1 -> issues s2 s3 pos cap r2 ->
  (exists p, peer_slots_ s1 !! pos = Some p /\ is_u32 (pending_requests p)) -> is_u32 cap ->
  issues s1 s3 pos cap (r1 ++ r2).
Proof.
  intros H12 H23 (p1 & Hp1 & Hu1) Hcap.
  destruct (iss_peer _ _ _ _ _ H12 p1 Hp1 Hu1 Hcap) as (p2 & Hp2 & Hpend2 & Hle2 & Hid2 & Hrest2).
  assert (is_u32 (pending_requests p2)) as Hu2.
  { destruct r1 as [|x r1].
    - rewrite Hpend2. unfold zlength. simpl. by rewrite Z.add_0_r.
    - specialize (Hle2 ltac:(done)). unfold is_u32 in *. pose proof (zlength_nonneg (x :: r1)). lia. }
  split.
  - intros id (p & Hp & Hid). simplify_eq.
    rewrite (iss_calls _ _ _ _ _ H23 (slot_id p1)), (iss_calls _ _ _ _ _ H12 (slot_id p1)); eauto.
    by rewrite fmap_app, app_assoc.
  - apply NoDup_app. split_and!; [apply H12| |apply H23]. intros [c sub] Hx1 Hx2.
    apply (iss_fresh _ _ _ _ _ H23) in Hx2. cbn in Hx2.
    by rewrite (iss_table _ _ _ _ _ H12), decide_True in Hx2.
  - intros [c sub] [Hx|Hx]%elem_of_app; [by apply H12|].
    apply (iss_fresh _ _ _ _ _ H23) in Hx. cbn in *.
    rewrite (iss_table _ _ _ _ _ H12) in Hx. by case_decide.
  - intros c sub. rewrite (iss_table _ _ _ _ _ H23), (iss_table _ _ _ _ _ H12).
    repeat case_decide; try done; set_solver.
  - intros p Hp Hu _. simplify_eq.
    destruct (iss_peer _ _ _ _ _ H23 p2 Hp2 Hu2 Hcap) as (p3 & Hp3 & Hpend3 & Hle3 & Hid3 & Hrest3).
    exists p3. rewrite zlength_app. split_and!; try done; try lia; try naive_solver congruence.
    intros Hne. destruct r2 as [|y r2]; [|by apply Hle3].
    rewrite Hpend3. unfold zlength at 1. simpl. rewrite Z.add_0_r. apply Hle2.
    by rewrite app_nil_r in Hne.
  - intros j Hj. by rewrite (iss_others _ _ _ _ _ H23), (iss_others _ _ _ _ _ H12).
Qed.

Lemma issues_step s pos p c k sub now cap :
  wf s -> peer_slots_ s !! pos = Some p -> zget (chunk_sub_blocks_ s) c = Some k ->
  0 <= sub < k -> pending_requests p < cap -> row_get (chunk_sub_req_ s) c sub = Some false ->
  issues s (request_step s pos p c sub now) pos cap [(c, sub)].
Proof.
  intros Hw Hp Hk Hs Hcap Hreq. pose proof (lookup_lt_Some _ _ _ Hp) as Hlt. split.
  - intros id (p' & Hp' & <-). simplify_eq. done.
  - apply NoDup_singleton.
  - by intros x ->%list_elem_of_singleton.
  - intros c' sub'. cbn. rewrite row_get_upd, (bool_decide_eq_true_2 (is_Some _)) by (by rewrite Hreq).
    rewrite andb_true_r. case_bool_decide as Hd; case_decide as He; try done.
    + destruct Hd as [-> ->]. by destruct He; left.
    + apply list_elem_of_singleton in He. naive_solver.
  - intros p' Hp' Hu Hcu. simplify_eq. exists (note_request p c (sub * SUB_BLOCK_SIZE)).
    cbn. rewrite list_lookup_insert_eq by done.
    rewrite u32_small by (unfold is_u32 in *; lia).
    split_and!; try done. intros _. lia.
  - intros j Hj. cbn. by rewrite list_lookup_insert_ne.
Qed.

Lemma sub_loop_issues c k now cap subs : forall s pos issued s' i,
  wf s -> (exists p, peer_slots_ s !! pos = Some p /\ is_u32 (pending_requests p)) -> is_u32 cap ->
  zget (chunk_sub_blocks_ s) c = Some k -> Forall (fun sub => 0 <= sub < k) subs ->
  sub_loop s pos c now cap subs issued = Some (s', i) ->
  exists news, issues s s' pos cap ((fun sub => (c, sub)) <$> news) /\
    i = issued || negb (bool_decide (news = [])).
Proof.
  induction subs as [|sub subs IH]; intros s pos issued s' i Hw (p & Hp & Hu) Hcap Hk Hsubs Hrun.
  { cbn in Hrun. simplify_eq. exists []. split; [by apply issues_nil|]. by rewrite orb_false_r. }
  apply Forall_cons in Hsubs as [Hs Hsubs].
  destruct (Z.leb_spec cap (pending_requests p)) as [Hle|Hlt].
  { cbn [sub_loop] in Hrun. rewrite Hp in Hrun. cbn [mbind option_bind] in Hrun.
    replace (cap <=? _) with true in Hrun by lia. simplify_eq.
    exists []. split; [by apply issues_nil|]. by rewrite orb_false_r. }
  destruct (row_get_ok _ _ c k sub (tok_req _ (wf_tables _ Hw)) Hk Hs) as (_ & req & _ & _ & Hreq).
  destruct req.
  - cbn [sub_loop] in Hrun. rewrite Hp in Hrun. cbn [mbind option_bind] in Hrun.
    replace (cap <=? _) with false in Hrun by lia. rewrite Hreq in Hrun.
    cbn [mbind option_bind] in Hrun. eapply IH; eauto.
  - erewrite sub_loop_step in Hrun by done.
    pose proof (issues_step s pos p c k sub now cap Hw Hp Hk Hs Hlt Hreq) as H1.
    destruct (iss_peer _ _ _ _ _ H1 p Hp Hu Hcap) as (p' & Hp' & Hpend & Hle & _).
    destruct (IH (request_step s pos p c sub now) pos true s' i) as (news & H2 & Hi); try done.
    + by eapply request_step_wf.
    + exists p'. split; [done|]. specialize (Hle ltac:(done)). unfold is_u32 in *.
      unfold zlength in Hpend. simpl in Hpend. lia.
    + exists (sub :: news). split; [|by rewrite Hi, !orb_true_r].
      apply (issues_app _ _ _ _ _ [(c, sub)] _ H1 H2); eauto.
Qed.

Lemma eligible_same p p' c :
  remote_bitfield p' = remote_bitfield p -> am_choking p' = am_choking p ->
  consecutive_timeouts p' = consecutive_timeouts p -> eligible p' c = eligible p c.
Proof. unfold eligible, has_chunk. by intros -> -> ->. Qed.

Lemma try_schedule_chunk_issues s pos p c now cap s' i :
  wf s -> peer_slots_ s !! pos = Some p -> is_u32 (pending_requests p) -> is_u32 cap ->
  try_schedule_chunk_on_peer s pos c now cap = Some (s', i) ->
  exists news, issues s s' pos cap ((fun sub => (c, sub)) <$> news) /\
    i = negb (bool_decide (news = [])) /\ (news <> [] -> eligible p c = true).
Proof.
  intros Hw Hp Hu Hcap. unfold try_schedule_chunk_on_peer. rewrite Hp. cbn [mbind option_bind].
  assert (exists news, issues s s pos cap ((fun sub => (c, sub)) <$> news) /\
    false = negb (bool_decide (news = [])) /\ (news <> [] -> eligible p c = true)) as Hnone
    by (exists []; split_and!; [by apply issues_nil|done|done]).
  destruct (zget (chunk_states_ s) c) as [st|] eqn:Hst; [|by intros [= <- <-]].
  destruct (complete_b st) eqn:Hcomp; [by intros [= <- <-]|].
  destruct (eligible p c) eqn:Hel; cbn [negb]; [|by intros [= <- <-]].
  destruct (negb _); [by intros [= <- <-]|].
  destruct (wf_blocks s c (wf_tables _ Hw)) as (k & Hk & Hk18 & ->); [by eapply zget_range|].
  cbv zeta. destruct (k =? 0); [by intros [= <- <-]|]. intros Hrun.
  set (s1 := set_states s _) in *.
  assert (wf s1) as Hw1
    by (eapply keeps_wf; [by apply (keeps_states s c st DOWNLOADING)|done|apply Hw]).
  destruct (sub_loop_issues c k now cap (seqZ 0 k) s1 pos false s' i Hw1) as (news & Hiss & Hi);
    [by eauto|done|done| |done|].
  { apply Forall_forall. intros sub Hsub%elem_of_seqZ. lia. }
  exists news. split_and!; [|done|done].
  apply (issues_app s s1 s' pos cap [] _); [by apply issues_nil|done|eauto|done].
Qed.

Lemma chunk_loop_issues now cap pending : forall s pos p issued s' i,
  wf s -> peer_slots_ s !! pos = Some p -> is_u32 (pending_requests p) -> is_u32 cap ->
  chunk_loop s pos now cap pending issued = Some (s', i) ->
  exists reqs, issues s s' pos cap reqs /\ i = issued || negb (bool_decide (reqs = [])) /\
    forall x, x ∈ reqs -> eligible p x.1 = true /\ x.1 ∈ pending.*2.
Proof.
  induction pending as [|[a c] pending IH]; intros s pos p issued s' i Hw Hp Hu Hcap Hrun.
  { cbn in Hrun. simplify_eq. exists []. split; [by apply issues_nil|].
    split; [by rewrite orb_false_r|]. intros x Hx. by apply elem_of_nil in Hx. }
  cbn [chunk_loop] in Hrun. rewrite Hp in Hrun. cbn [mbind option_bind] in Hrun.
  destruct (cap <=? pending_requests p).
  { simplify_eq. exists []. split; [by apply issues_nil|].
    split; [by rewrite orb_false_r|]. intros x Hx. by apply elem_of_nil in Hx. }
  pose proof (lookup_lt_Some _ _ _ Hp) as Hlt.
  destruct (try_schedule_chunk_safe s pos c now cap Hw Hlt) as (s1 & i1 & Hs1 & Hk1 & Hw1).
  rewrite Hs1 in Hrun. cbn [mbind option_bind] in Hrun.
  destruct (try_schedule_chunk_issues s pos p c now cap s1 i1 Hw Hp Hu Hcap Hs1)
    as (news & H1 & Hi1 & Hel).
  destruct (iss_peer _ _ _ _ _ H1 p Hp Hu Hcap)
    as (p1 & Hp1 & Hpend1 & Hle1 & Hid1 & Hbf1 & Hch1 & Hto1).
  assert (is_u32 (pending_requests p1)) as Hu1.
  { destruct news as [|x news]; [by rewrite Hpend1, Z.add_0_r|].
    specialize (Hle1 ltac:(done)). unfold is_u32 in *.
    pose proof (zlength_nonneg ((fun sub => (c, sub)) <$> (x :: news))). lia. }
  destruct (IH s1 pos p1 (issued || i1) s' i Hw1 Hp1 Hu1 Hcap Hrun) as (reqs & H2 & Hi2 & Hel2).
  exists (((fun sub => (c, sub)) <$> news) ++ reqs). split_and!.
  - apply (issues_app s s1 s'); eauto.
  - rewrite Hi2, Hi1, <- orb_assoc. f_equal. by destruct news, reqs.
  - intros x [Hx|Hx]%elem_of_app.
    + apply list_elem_of_fmap in Hx as (sub & -> & Hsub). cbn. split; [|by left].
      apply Hel. by destruct news; [apply elem_of_nil in Hsub|].
    + destruct (Hel2 x Hx) as [He Hin]. split; [|by right].
      by rewrite <- (eligible_same p p1).
Qed.

Lemma pending_chunks_active s p chunks l :
  pending_chunks s p chunks = Some l -> forall x, x ∈ l.*2 -> x ∈ chunks.
Proof.
  revert l. induction chunks as [|c chunks IH]; intros l Hl; cbn [pending_chunks] in Hl.
  { by simplify_eq. }
  destruct (match zget (chunk_states_ s) c with Some _ => _ | None => _ end).
  - destruct (zget (availability_ s) c) as [a|]; [|done]. cbn [mbind option_bind] in Hl.
    destruct (pending_chunks s p chunks) as [l'|]; [|done]. cbn [mbind option_bind] in Hl.
    simplify_eq. intros x [->|Hx]%elem_of_cons; [by left|]. right. by eapply IH.
  - intros x Hx. right. by eapply IH.
Qed.

(** C17: Scheduling never requests a sub-block twice: the requests issued for
    a peer are of distinct sub-blocks that were not requested, of chunks that
    are not complete and that the peer has, while it is not choking and has
    fewer than three timeouts in a row.  Exactly these are then marked as
    requested, the peer's counter grows by their number and stays within its
    cap, and no other peer is touched. *)
Theorem schedule_requests_once speed sizes s pos p now s' i :
  zlength sizes < 2 ^ 32 -> Forall is_u32 sizes -> reach speed sizes s ->
  peer_slots_ s !! pos = Some p -> is_u32 (pending_requests p) -> is_u32 (pipeline_cap p) ->
  try_schedule_for_peer s pos now = Some (s', i) ->
  exists reqs, issues s s' pos (effective_cap_of s p) reqs /\
    i = negb (bool_decide (reqs = [])) /\
    forall x, x ∈ reqs -> eligible p x.1 = true /\ x.1 ∈ active_chunks_ s.
Proof.
  intros Hn Hs Hr Hp Hu Hcap. pose proof (reach_wf _ _ _ Hn Hs Hr) as Hw.
  unfold try_schedule_for_peer. rewrite Hp. cbn [mbind option_bind].
  assert (is_u32 (effective_cap_of s p)) as Hecap.
  { unfold effective_cap_of. destruct (_ && _); [|done]. unfold is_u32 in *. lia. }
  destruct (_ <=? _).
  { intros [= <- <-]. exists []. split; [by apply issues_nil|]. split; [done|].
    intros x Hx. by apply elem_of_nil in Hx. }
  destruct (pending_chunks s p (active_chunks_ s)) as [l|] eqn:Hl; [|done].
  cbn [mbind option_bind]. intros Hrun.
  destruct (chunk_loop_issues now _ (sort_by fst l) s pos p false s' i Hw Hp Hu Hecap Hrun)
    as (reqs & Hiss & Hi & Hel).
  exists reqs. split_and!; [done|done|]. intros x Hx. destruct (Hel x Hx) as [He Hin].
  split; [done|]. eapply pending_chunks_active; [exact Hl|].
  by rewrite sort_by_perm in Hin.
Qed.

(** ** Choice of the peer *)
#[export] Instance better_eq_preorder : PreOrder better_eq.
Proof.
  split; [intros x; right; lia|]. unfold better_eq. intros x y z. lia.
Qed.

Definition entry (ls : Z) (p : PeerSlot) : Z * Z * Z := (score ls p, slot_id p, peer_have_count p).

Lemma best_loop_spec ls c peers : forall best,
  let r := best_loop ls c peers best in
  better_eq r best /\
  (r = best \/ exists p, p ∈ peers /\ eligible p c = true /\ r = entry ls p) /\
  (forall q, q ∈ peers -> eligible q c = true -> better_eq r (entry ls q)).
Proof.
  induction peers as [|p peers IH]; intros [[bs bslot] bh].
  { cbn. split_and!; [reflexivity|by left|]. intros q Hq. by apply elem_of_nil in Hq. }
  cbn [best_loop]. set (next := if eligible p c then _ else _).
  assert (better_eq next (bs, bslot, bh) /\
    (next = (bs, bslot, bh) \/ eligible p c = true /\ next = entry ls p) /\
    (eligible p c = true -> better_eq next (entry ls p))) as (Hb1 & Hc1 & He1).
  { subst next. destruct (eligible p c); [|split_and!; [reflexivity|by left|done]].
    destruct ((bs <? score ls p) || _) eqn:E; unfold better_eq, entry; cbn; split_and!; auto; lia. }
  clearbody next. destruct (IH next) as (Hb2 & Hc2 & He2). cbv zeta. split_and!.
  - by etrans.
  - destruct Hc2 as [->|(q & Hq & Hel & ->)]; [|right; exists q; split; [by right|done]].
    destruct Hc1 as [->|[Hel ->]]; [by left|]. right. exists p. split; [by left|done].
  - intros q [->|Hq]%elem_of_cons Hel; [|by apply He2]. etrans; [exact Hb2|]. by apply He1.
Qed.

Lemma score_bound ls p : score_fits p -> INT_MIN < score ls p.
Proof.
  unfold score_fits, score, INT_MIN, to_int. intros Hp. rewrite (u32_small (pending_requests p))
    by (unfold is_u32; lia).
  pose proof (u32_range (rtt_us p)) as Hr. unfold is_u32 in Hr.
  replace (pending_requests p <? 2 ^ 31) with true by lia.
  pose proof (count_true_bounds (remote_bitfield p)) as Hc. unfold peer_have_count.
  set (have := count_true _) in *. set (size := zlength _) in *.
  assert (0 <= Z.min 50 (if have <? size then (size - have) / 64 else 0)) as Hmin.
  { destruct (Z.ltb_spec have size); [|lia].
    pose proof (Z.div_pos (size - have) 64 ltac:(lia) ltac:(lia)). lia. }
  assert (Z.quot (if u32 (rtt_us p) <? 2 ^ 31 then u32 (rtt_us p) else u32 (rtt_us p) - 2 ^ 32) 2000
          <= 2 ^ 21) as Hq.
  { destruct (Z.ltb_spec (u32 (rtt_us p)) (2 ^ 31)).
    - rewrite Z.quot_div_nonneg by lia. apply Z.div_le_upper_bound; lia.
    - assert (Z.quot (u32 (rtt_us p) - 2 ^ 32) 2000 <= 0) by (apply Z.quot_le_upper_bound; lia). lia. }
  destruct ((1000 <=? ls) && _); lia.
Qed.

(** [select_best_peer] returns a peer exactly when some peer can be asked
    for the chunk, and the peer it returns can be asked, has the highest
    score, and among those the fewest chunks. *)
Theorem select_best_peer_optimal s c :
  Forall score_fits (peer_slots_ s) ->
  match select_best_peer s c with
  | Some id => exists p, p ∈ peer_slots_ s /\ slot_id p = id /\ eligible p c = true /\
      forall q, q ∈ peer_slots_ s -> eligible q c = true ->
        score (local_speed_mbps_ s) q <= score (local_speed_mbps_ s) p /\
        (score (local_speed_mbps_ s) q = score (local_speed_mbps_ s) p ->
         peer_have_count p <= peer_have_count q)
  | None => forall q, q ∈ peer_slots_ s -> eligible q c = false
  end.
Proof.
  intros Hfit. unfold select_best_peer.
  destruct (best_loop_spec (local_speed_mbps_ s) c (peer_slots_ s) (INT_MIN, 0, SIZE_MAX))
    as (_ & Hc & He).
  destruct (best_loop _ _ _ _) as [[bs bslot] bh] eqn:Hbl. cbv zeta in *.
  assert (forall q, q ∈ peer_slots_ s -> eligible q c = true -> INT_MIN < bs) as Hpos.
  { intros q Hq Hel. destruct (He q Hq Hel) as [Hlt|[Heq _]]; cbn in *;
      pose proof (score_bound (local_speed_mbps_ s) q (proj1 (Forall_forall _ _) Hfit q Hq)); lia. }
  destruct (Z.eqb_spec bs INT_MIN) as [->|Hne].
  - intros q Hq. destruct (eligible q c) eqn:Hel; [|done].
    specialize (Hpos q Hq Hel). lia.
  - destruct Hc as [[= -> _ _]|(p & Hp & Hel & [= -> -> ->])]; [done|].
    exists p. split_and!; try done. intros q Hq Hq'.
    destruct (He q Hq Hq') as [?|[? ?]]; unfold entry in *; cbn in *; lia.
Qed.

(** ** Work conservation *)
Lemma sub_loop_none c k now cap subs : forall s pos s',
  wf s -> (pos < length (peer_slots_ s))%nat -> zget (chunk_sub_blocks_ s) c = Some k ->
  Forall (fun sub => 0 <= sub < k) subs -> is_u32 cap ->
  (exists p, peer_slots_ s !! pos = Some p /\ is_u32 (pending_requests p)) ->
  sub_loop s pos c now cap subs false = Some (s', false) ->
  s' = s /\ (forall p, peer_slots_ s !! pos = Some p -> pending_requests p < cap ->
             Forall (fun sub => row_get (chunk_sub_req_ s) c sub = Some true) subs).
Proof.
  induction subs as [|sub subs IH]; intros s pos s' Hw Hpos Hk Hsubs Hcap (p & Hp & Hu) Hrun.
  { cbn in Hrun. simplify_eq. split; [done|]. constructor. }
  apply Forall_cons in Hsubs as [Hs Hsubs].
  destruct (Z.leb_spec cap (pending_requests p)) as [Hle|Hlt].
  { cbn [sub_loop] in Hrun. rewrite Hp in Hrun. cbn [mbind option_bind] in Hrun.
    replace (cap <=? _) with true in Hrun by lia. simplify_eq. split; [done|].
    intros p' Hp' Hlt'. simplify_eq. lia. }
  destruct (row_get_ok _ _ c k sub (tok_req _ (wf_tables _ Hw)) Hk Hs) as (_ & req & _ & _ & Hreq).
  destruct req.
  - cbn [sub_loop] in Hrun. rewrite Hp in Hrun. cbn [mbind option_bind] in Hrun.
    replace (cap <=? _) with false in Hrun by lia. rewrite Hreq in Hrun.
    cbn [mbind option_bind] in Hrun.
    destruct (IH s pos s' Hw Hpos Hk Hsubs Hcap ltac:(eauto) Hrun) as [-> Hall].
    split; [done|]. intros p' Hp' Hlt'. constructor; [done|eauto].
  - exfalso. erewrite sub_loop_step in Hrun by done.
    pose proof (issues_step s pos p c k sub now cap Hw Hp Hk Hs Hlt Hreq) as H1.
    destruct (iss_peer _ _ _ _ _ H1 p Hp Hu Hcap) as (p' & Hp' & Hpend & Hle & _).
    destruct (sub_loop_issues c k now cap subs (request_step s pos p c sub now) pos true s' false)
      as (news & _ & Hi); try done.
    + by eapply request_step_wf.
    + exists p'. split; [done|]. specialize (Hle ltac:(done)). unfold is_u32 in *.
      unfold zlength in Hpend. simpl in Hpend. lia.
Qed.

(** A chunk for which nothing is issued leaves the peers and requests alone;
    if the peer is the best for it and has room, all its sub-blocks are
    requested already. *)
Lemma try_schedule_chunk_none s pos p c now cap s' :
  wf s -> peer_slots_ s !! pos = Some p -> is_u32 (pending_requests p) -> is_u32 cap ->
  try_schedule_chunk_on_peer s pos c now cap = Some (s', false) ->
  peer_slots_ s' = peer_slots_ s /\ chunk_sub_req_ s' = chunk_sub_req_ s /\
  local_speed_mbps_ s' = local_speed_mbps_ s /\
  (pending_requests p < cap -> c ∈ active_chunks_ s -> eligible p c = true ->
   select_best_peer s c = Some (slot_id p) ->
   forall sub, row_get (chunk_sub_req_ s) c sub <> Some false).
Proof.
  intros Hw Hp Hu Hcap. unfold try_schedule_chunk_on_peer. rewrite Hp. cbn [mbind option_bind].
  destruct (zget (chunk_states_ s) c) as [st|] eqn:Hst.
  2: { intros [= <-]. split_and!; try done. intros _ Hc.
       apply (cok_active _ (wf_chunks _ Hw)) in Hc. by rewrite zget_fmap, Hst in Hc. }
  destruct (complete_b st) eqn:Hcomp.
  { intros [= <-]. split_and!; try done. intros _ Hc.
    apply (cok_active _ (wf_chunks _ Hw)) in Hc. rewrite zget_fmap, Hst in Hc.
    simpl in Hc. congruence. }
  destruct (eligible p c); cbn [negb]; [|intros [= <-]; split_and!; done].
  case_bool_decide as Hbest; cbn [negb]; [|intros [= <-]; split_and!; done].
  destruct (wf_blocks s c (wf_tables _ Hw)) as (k & Hk & Hk18 & ->); [by eapply zget_range|].
  assert (forall sub, row_get (chunk_sub_req_ s) c sub = Some false -> 0 <= sub < k) as Hrange.
  { intros sub Hsub. apply row_get_Some in Hsub as (row & Hrow & Hx).
    destruct (wf_row _ _ c k (tok_req _ (wf_tables _ Hw)) Hk) as (row' & Hrow' & <-).
    simplify_eq. by eapply zget_range. }
  cbv zeta. destruct (Z.eqb_spec k 0) as [->|Hk0].
  { intros [= <-]. split_and!; try done. intros _ _ _ _ sub Hsub%Hrange. lia. }
  intros Hrun. set (s1 := set_states s _) in *.
  assert (wf s1) as Hw1
    by (eapply keeps_wf; [by apply (keeps_states s c st DOWNLOADING)|done|apply Hw]).
  destruct (sub_loop_none c k now cap (seqZ 0 k) s1 pos s' Hw1) as [-> Hall].
  - by eapply lookup_lt_Some.
  - done.
  - apply Forall_forall. intros sub Hsub%elem_of_seqZ. lia.
  - done.
  - eauto.
  - done.
  - split_and!; try done. intros Hlt _ _ _ sub Hsub. specialize (Hall p Hp Hlt).
    rewrite Forall_forall in Hall. pose proof (Hrange sub Hsub).
    assert (row_get (chunk_sub_req_ s) c sub = Some true) by (apply Hall, elem_of_seqZ; lia).
    congruence.
Qed.

Lemma chunk_loop_progress now cap pending c sub : forall s pos p s' i,
  wf s -> peer_slots_ s !! pos = Some p -> is_u32 (pending_requests p) -> is_u32 cap ->
  pending_requests p < cap -> c ∈ pending.*2 -> c ∈ active_chunks_ s ->
  eligible p c = true -> select_best_peer s c = Some (slot_id p) ->
  row_get (chunk_sub_req_ s) c sub = Some false ->
  chunk_loop s pos now cap pending false = Some (s', i) -> i = true.
Proof.
  induction pending as [|[a c'] pending IH];
    intros s pos p s' i Hw Hp Hu Hcap Hlt Hin Hact Hel Hbest Hreq Hrun; [by apply elem_of_nil in Hin|].
  cbn [chunk_loop] in Hrun. rewrite Hp in Hrun. cbn [mbind option_bind] in Hrun.
  replace (cap <=? _) with false in Hrun by lia.
  pose proof (lookup_lt_Some _ _ _ Hp) as Hpl.
  destruct (try_schedule_chunk_safe s pos c' now cap Hw Hpl) as (s1 & i1 & Hs1 & Hk1 & Hw1).
  rewrite Hs1 in Hrun. cbn [mbind option_bind orb] in Hrun. destruct i1.
  - destruct (try_schedule_chunk_issues s pos p c' now cap s1 true Hw Hp Hu Hcap Hs1)
      as (news & H1 & _ & _).
    destruct (iss_peer _ _ _ _ _ H1 p Hp Hu Hcap) as (p1 & Hp1 & Hpend1 & Hle1 & _).
    assert (is_u32 (pending_requests p1)) as Hu1.
    { destruct news as [|x news]; [by rewrite Hpend1, Z.add_0_r|].
      specialize (Hle1 ltac:(done)). unfold is_u32 in *.
      pose proof (zlength_nonneg ((fun sub => (c', sub)) <$> (x :: news))). lia. }
    by destruct (chunk_loop_issues now cap pending s1 pos p1 true s' i Hw1 Hp1 Hu1 Hcap Hrun)
      as (reqs & _ & -> & _).
  - destruct (try_schedule_chunk_none s pos p c' now cap s1 Hw Hp Hu Hcap Hs1)
      as (Hps & Hrq & Hls & Hnone).
    apply elem_of_cons in Hin as [Hc|Hin].
    + cbn in Hc. subst c'. by destruct (Hnone Hlt Hact Hel Hbest sub).
    + assert (active_chunks_ s1 = active_chunks_ s) as Hac
        by (unfold keeps, view in Hk1; by injection Hk1).
      eapply (IH s1 pos p s' i Hw1); try done; [by rewrite Hps|by rewrite Hac| |by rewrite Hrq].
      unfold select_best_peer. by rewrite Hls, Hps.
Qed.

Lemma pending_chunks_in s p chunks l c :
  pending_chunks s p chunks = Some l -> c ∈ chunks ->
  zget (complete_b <$> chunk_states_ s) c = Some false -> has_chunk p c = true ->
  default_0 (zget (chunk_sub_req_count_ s) c) < total_of s c -> c ∈ l.*2.
Proof.
  intros Hl Hin Hst Hhas Hcnt. revert l Hl. rewrite zget_fmap in Hst.
  destruct (zget (chunk_states_ s) c) as [st|] eqn:Hs; [|done]. simpl in Hst. injection Hst as Hst.
  induction chunks as [|c' chunks IH]; intros l Hl; [by apply elem_of_nil in Hin|].
  cbn [pending_chunks] in Hl. apply elem_of_cons in Hin as [->|Hin].
  - rewrite Hs, Hst, Hhas in Hl. replace (_ <? _) with true in Hl by lia. cbn [negb andb] in Hl.
    destruct (zget (availability_ s) c') as [a|]; [|done]. cbn [mbind option_bind] in Hl.
    destruct (pending_chunks s p chunks) as [l'|]; [|done]. cbn [mbind option_bind] in Hl.
    simplify_eq. by left.
  - destruct (match zget (chunk_states_ s) c' with Some _ => _ | None => _ end); [|by apply IH].
    destruct (zget (availability_ s) c') as [a|]; [|done]. cbn [mbind option_bind] in Hl.
    destruct (pending_chunks s p chunks) as [l'|]; [|done]. cbn [mbind option_bind] in Hl.
    simplify_eq. right. by apply IH.
Qed.

(** Scheduling does not idle: if a peer has room in its pipeline, is the
    best peer for some chunk that is not complete, and that chunk has a
    sub-block nobody was asked for, then at least one request is issued. *)
Theorem schedule_makes_progress speed sizes s pos p c sub now :
  zlength sizes < 2 ^ 32 -> Forall is_u32 sizes -> reach speed sizes s ->
  peer_slots_ s !! pos = Some p -> is_u32 (pending_requests p) -> is_u32 (pipeline_cap p) ->
  pending_requests p < effective_cap_of s p -> c ∈ active_chunks_ s -> eligible p c = true ->
  select_best_peer s c = Some (slot_id p) ->
  default_0 (zget (chunk_sub_req_count_ s) c) < total_of s c ->
  row_get (chunk_sub_req_ s) c sub = Some false ->
  exists s', try_schedule_for_peer s pos now = Some (s', true).
Proof.
  intros Hn Hs Hr Hp Hu Hcap Hlt Hc Hel Hbest Hcnt Hreq.
  pose proof (reach_wf _ _ _ Hn Hs Hr) as Hw.
  destruct (try_schedule_for_peer_safe s pos now Hw) as (s' & i & Hrun & _);
    [by eapply lookup_lt_Some|].
  exists s'. rewrite Hrun. do 2 f_equal. revert Hrun.
  unfold try_schedule_for_peer. rewrite Hp. cbn [mbind option_bind].
  replace (_ <=? _) with false by lia.
  destruct (pending_chunks s p (active_chunks_ s)) as [l|] eqn:Hl; [|done]. cbn [mbind option_bind].
  assert (is_u32 (effective_cap_of s p)) as Hecap.
  { unfold effective_cap_of. destruct (_ && _); [|done]. unfold is_u32 in *. lia. }
  apply (chunk_loop_progress now _ _ c sub s pos p); try done.
  rewrite sort_by_perm. eapply pending_chunks_in; [exact Hl|done| | |done].
  - by apply (cok_active _ (wf_chunks _ Hw)).
  - unfold eligible in Hel. by destruct (has_chunk p c).
Qed.

(** ** Peers that leave *)
Lemma release_sub_req s c b c' sub' :
  row_get (chunk_sub_req_ (release_sub s c b)) c' sub' =
  if decide (c = c' /\ b / SUB_BLOCK_SIZE = sub' /\ is_Some (row_get (chunk_sub_req_ s) c' sub'))
  then Some false else row_get (chunk_sub_req_ s) c' sub'.
Proof.
  unfold release_sub. destruct (row_get (chunk_sub_req_ s) c (b / SUB_BLOCK_SIZE)) as [[]|] eqn:E.
  - cbn. rewrite row_get_upd, E, (bool_decide_eq_true_2 (is_Some _)) by done. rewrite andb_true_r.
    case_bool_decide as Hd; case_decide as He; try done.
    + destruct Hd as [<- <-]. rewrite E in He. naive_solver.
    + naive_solver.
  - case_decide as He; [|done]. destruct He as (<- & <- & _). done.
  - case_decide as He; [|done]. destruct He as (<- & <- & He). rewrite E in He. by destruct He.
Qed.

(** Releasing a list of (chunk, begins): what is in it is free afterwards, the
    rest is as before. *)
Lemma release_fold_req c begins c' sub' : forall s,
  row_get (chunk_sub_req_ (fold_left (fun s b => release_sub s c b) begins s)) c' sub' =
  if decide (c = c' /\ Exists (fun b => b / SUB_BLOCK_SIZE = sub') begins /\
             is_Some (row_get (chunk_sub_req_ s) c' sub'))
  then Some false else row_get (chunk_sub_req_ s) c' sub'.
Proof.
  induction begins as [|b begins IH]; intros s; cbn [fold_left].
  { rewrite decide_False; [done|]. intros (_ & Hex & _). by apply Exists_nil in Hex. }
  rewrite IH, release_sub_req.
  destruct (row_get (chunk_sub_req_ s) c' sub') as [r|] eqn:E.
  - assert (is_Some (Some r)) by eauto.
    repeat case_decide; try done; exfalso; rewrite ?Exists_cons in *; naive_solver.
  - repeat case_decide; try done; naive_solver.
Qed.

Lemma release_chunk_req s x c' sub' :
  row_get (chunk_sub_req_ (release_chunk s x)) c' sub' =
  if decide (x.1 = c' /\ Exists (fun b => b / SUB_BLOCK_SIZE = sub') (ordered x.2) /\
             is_Some (row_get (chunk_sub_req_ s) c' sub'))
  then Some false else row_get (chunk_sub_req_ s) c' sub'.
Proof.
  destruct x as [c begins]. unfold release_chunk. cbn [fst snd]. rewrite <- release_fold_req.
  set (s1 := fold_left _ _ _). clearbody s1.
  destruct (zget (chunk_states_ s1) c) as [st|]; [|done].
  destruct (zget (chunk_sub_req_count_ s1) c) as [[]|]; try done. by destruct (complete_b st).
Qed.

Lemma release_all_req xs c' sub' : forall s,
  is_Some (row_get (chunk_sub_req_ s) c' sub') ->
  row_get (chunk_sub_req_ (fold_left release_chunk xs s)) c' sub' =
  if decide (Exists (fun x => x.1 = c' /\
               Exists (fun b => b / SUB_BLOCK_SIZE = sub') (ordered x.2)) xs)
  then Some false else row_get (chunk_sub_req_ s) c' sub'.
Proof.
  induction xs as [|x xs IH]; intros s Hs; cbn [fold_left].
  { rewrite decide_False; [done|]. intros Hex. by apply Exists_nil in Hex. }
  pose proof (release_chunk_req s x c' sub') as Hx.
  rewrite IH; [|rewrite Hx; by case_decide].
  rewrite Hx. repeat case_decide; try done; exfalso; rewrite ?Exists_cons in *; naive_solver.
Qed.

(** When a peer leaves, exactly the sub-blocks it was downloading become
    free to be requested from others; every other entry of the request table
    is untouched, and no slot with its id is left. *)
Theorem removed_peer_releases_requests speed sizes s pos p :
  zlength sizes < 2 ^ 32 -> Forall is_u32 sizes -> reach speed sizes s ->
  peer_slots_ s !! pos = Some p ->
  let s' := on_peer_removed s (slot_id p) in
  Forall (fun q => slot_id q <> slot_id p) (peer_slots_ s') /\
  forall c sub r, row_get (chunk_sub_req_ s) c sub = Some r ->
    row_get (chunk_sub_req_ s') c sub =
    if decide (sub * SUB_BLOCK_SIZE ∈ active_of p c) then Some false else Some r.
Proof.
  intros Hn Hs Hr Hp. pose proof (reach_wf _ _ _ Hn Hs Hr) as Hw. cbv zeta.
  assert (peer_slot s (slot_id p) = Some (pos, p)) as Hslot.
  { apply list_find_Some. split_and!; [done|done|]. intros j q Hj Hlt Hid.
    pose proof (wf_ids _ Hw) as Hnd. rewrite NoDup_alt in Hnd.
    assert (j = pos) as -> by (apply (Hnd j pos (slot_id p)); rewrite list_lookup_fmap;
      [by rewrite Hj, <- Hid|by rewrite Hp]). lia. }
  unfold on_peer_removed. rewrite Hslot. split.
  { cbn. apply Forall_forall. intros q Hq%list_elem_of_filter. by destruct Hq. }
  intros c sub r Hrow. cbn [set_peers chunk_sub_req_].
  rewrite release_all_req by (cbn; eauto). cbn [chunk_sub_req_ set_availability].
  rewrite Hrow. apply decide_ext. rewrite Exists_exists. split.
  - intros ([c' bs] & Hin & Heq & Hex). cbn in *. subst c'.
    unfold ordered_map in Hin. rewrite elem_of_sort_by, elem_of_map_to_list in Hin.
    apply Exists_exists in Hex as (b & Hb%elem_of_ordered & <-).
    assert (b ∈ active_of p c) as Hb' by (unfold active_of; by rewrite Hin).
    destruct (peer_ok s pos p Hw Hp c b Hb') as (k & sub' & _ & _ & ->). by rewrite begin_sub.
  - intros Hb. unfold active_of in Hb. destruct (active_sub_blocks p !! c) as [bs|] eqn:Hbs;
      [|by apply elem_of_empty in Hb].
    exists (c, bs). unfold ordered_map. rewrite elem_of_sort_by, elem_of_map_to_list.
    split_and!; [done|done|]. apply Exists_exists. exists (sub * SUB_BLOCK_SIZE).
    rewrite elem_of_ordered. by rewrite begin_sub.
Qed.

(** ** Availability *)
(** The number of peers that announced a chunk. *)
Definition holders (s : Scheduler) (c : Z) : Z := count_true ((fun p => has_chunk p c) <$> peer_slots_ s).

Definition demo_sched : Scheduler :=
  on_peer_added (sched_start 1000 [40000; 16384] (fun l => l) true []) 7 1000.

(** A peer that sends its bitfield twice is counted twice: one peer, but
    the availability that drives rarest-first says two. *)
Theorem repeated_bitfield_counts_twice :
  exists s1 s2, on_bitfield demo_sched 7 [true; false] 0 = Some s1 /\
    on_bitfield s1 7 [true; false] 0 = Some s2 /\
    holders s2 0 = 1 /\ zget (availability_ s2) 0 = Some 2.
Proof.
  assert (match on_bitfield demo_sched 7 [true; false] 0 with
          | Some s1 => match on_bitfield s1 7 [true; false] 0 with
                       | Some s2 => (holders s2 0 =? 1) && bool_decide (zget (availability_ s2) 0 = Some 2)
                       | None => false
                       end
          | None => false
          end = true) as H by (vm_compute; reflexivity).
  destruct (on_bitfield demo_sched _ _ _) as [s1|]; [|done]. exists s1.
  destruct (on_bitfield s1 _ _ _) as [s2|]; [|done]. exists s2.
  apply andb_true_iff in H as [H1 H2]. apply Z.eqb_eq in H1. by apply bool_decide_eq_true in H2.
Qed.

(** ** Instances *)
Definition demo_sizes : list Z := [40000; 16384].

Definition demo_ready : Scheduler :=
  match on_bitfield demo_sched 7 [true; false] 0 with
  | Some s => on_choke_change s 7 false
  | None => demo_sched
  end.

Definition demo_peer : PeerSlot :=
  match peer_slots_ demo_ready with p :: _ => p | [] => {|
    slot_id := 0; pending_requests := 0; consecutive_timeouts := 0; rtt_us := 0;
    link_speed_mbps := 0; link_speed_reported := 0; pipeline_cap := 0; am_choking := true;
    remote_bitfield := []; active_sub_blocks := ∅ |} end.

Lemma demo_sizes_ok : zlength demo_sizes < 2 ^ 32 /\ Forall is_u32 demo_sizes.
Proof. split; [done|]. repeat constructor; vm_compute; discriminate. Qed.

Lemma demo_sched_reach : reach 1000 demo_sizes demo_sched.
Proof.
  eapply (reach_step _ _ (sched_start 1000 demo_sizes (fun l => l) true []) (OpAdded 7 1000)); [| |done].
  - by constructor.
  - cbn. apply not_elem_of_nil.
Qed.

(** A peer announces its chunks, then unchokes. *)
Lemma reach_bitfield_choke speed sizes s id bf now b :
  zlength sizes < 2 ^ 32 -> Forall is_u32 sizes -> reach speed sizes s ->
  reach speed sizes
    (match on_bitfield s id bf now with Some s1 => on_choke_change s1 id b | None => s end).
Proof.
  intros Hn Hs Hr. destruct (on_bitfield s id bf now) as [s1|] eqn:E; [|done].
  apply (reach_step _ _ s1 (OpChoke id b)); [|done|done].
  by apply (reach_step _ _ s (OpBitfield id bf now) _ Hr).
Qed.

Lemma demo_ready_reach : reach 1000 demo_sizes demo_ready.
Proof.
  apply reach_bitfield_choke; [apply demo_sizes_ok|apply demo_sizes_ok|apply demo_sched_reach].
Qed.

Lemma demo_peer_at : peer_slots_ demo_ready !! 0%nat = Some demo_peer.
Proof. vm_compute. reflexivity. Qed.

Lemma demo_peers : peer_slots_ demo_ready = [demo_peer].
Proof. vm_compute. reflexivity. Qed.



Lemma schedule_requests_once_witness :
  match try_schedule_for_peer demo_ready 0 5 with
  | Some (s', i) => exists reqs,
      issues demo_ready s' 0 (effective_cap_of demo_ready demo_peer) reqs /\
      i = negb (bool_decide (reqs = [])) /\
      forall x, x ∈ reqs -> eligible demo_peer x.1 = true /\ x.1 ∈ active_chunks_ demo_ready
  | None => False
  end.
Proof.
  destruct (try_schedule_for_peer demo_ready 0 5) as [[s' i]|] eqn:E.
  - apply (schedule_requests_once 1000 demo_sizes demo_ready 0 demo_peer 5 s' i).
    + apply demo_sizes_ok.
    + apply demo_sizes_ok.
    + apply demo_ready_reach.
    + apply demo_peer_at.
    + vm_compute. intuition discriminate.
    + vm_compute. intuition discriminate.
    + exact E.
  - assert (is_Some (try_schedule_for_peer demo_ready 0 5)) as Hs by (vm_compute; eauto).
    rewrite E in Hs. by destruct Hs.
Defined.

Lemma select_best_peer_optimal_witness :
  match select_best_peer demo_ready 0 with
  | Some id => exists p, p ∈ peer_slots_ demo_ready /\ slot_id p = id /\ eligible p 0 = true /\
      forall q, q ∈ peer_slots_ demo_ready -> eligible q 0 = true ->
        score (local_speed_mbps_ demo_ready) q <= score (local_speed_mbps_ demo_ready) p /\
        (score (local_speed_mbps_ demo_ready) q = score (local_speed_mbps_ demo_ready) p ->
         peer_have_count p <= peer_have_count q)
  | None => forall q, q ∈ peer_slots_ demo_ready -> eligible q 0 = false
  end.
Proof.
  apply (select_best_peer_optimal demo_ready 0).
  rewrite demo_peers. constructor; [|constructor]. unfold score_fits.
  assert (pending_requests demo_peer = 0) as -> by (vm_compute; reflexivity). lia.
Defined.

Lemma schedule_makes_progress_witness :
  exists s', try_schedule_for_peer demo_ready 0 5 = Some (s', true).
Proof.
  apply (schedule_makes_progress 1000 demo_sizes demo_ready 0 demo_peer 0 1 5).
  - apply demo_sizes_ok.
  - apply demo_sizes_ok.
  - apply demo_ready_reach.
  - apply demo_peer_at.
  - vm_compute. intuition discriminate.
  - vm_compute. intuition discriminate.
  - vm_compute. reflexivity.
  - apply (list_elem_of_lookup_2 _ 0%nat). vm_compute. reflexivity.
  - vm_compute. reflexivity.
  - vm_compute. reflexivity.
  - vm_compute. reflexivity.
  - vm_compute. reflexivity.
Defined.

Lemma removed_peer_releases_requests_witness :
  let s' := on_peer_removed demo_ready 7 in
  Forall (fun q => slot_id q <> 7) (peer_slots_ s') /\
  forall c sub r, row_get (chunk_sub_req_ demo_ready) c sub = Some r ->
    row_get (chunk_sub_req_ s') c sub =
    if decide (sub * SUB_BLOCK_SIZE ∈ active_of demo_peer c) then Some false else Some r.
Proof.
  apply (removed_peer_releases_requests 1000 demo_sizes demo_ready 0 demo_peer).
  - apply demo_sizes_ok.
  - apply demo_sizes_ok.
  - apply demo_ready_reach.
  - apply demo_peer_at.
Defined.

(** ** The scheduler's slots under its events *)
Definition ids (sc : Scheduler) : list Z := slot_id <$> peer_slots_ sc.

Lemma keeps_ids s s' : keeps s s' -> ids s' = ids s.
Proof. unfold keeps, view, ids. intros H. by injection H. Qed.

Lemma complete_one_ids s m s' : complete_one s m = Some s' -> ids s' = ids s.
Proof.
  unfold complete_one. destruct (zset _ _ _) as [st|]; [|done]. cbn [mbind option_bind].
  intros [= <-]. unfold ids. cbn [peer_slots_ say set_calls set_req_count].
  match goal with |- context [send_cancel_for_chunk ?x ?c ?e] =>
    destruct (send_cancel_keeps x c e) as [Hk _] end.
  apply keeps_ids in Hk. unfold ids in Hk. by rewrite Hk.
Qed.

Lemma complete_all_ids ms : forall s s', complete_all s ms = Some s' -> ids s' = ids s.
Proof.
  induction ms as [|m ms IH]; intros s s'; cbn [complete_all]; [by intros [= ->]|].
  destruct (complete_one s m) as [s1|] eqn:E; [|done]. cbn [mbind option_bind].
  intros H. rewrite (IH _ _ H). by apply complete_one_ids in E.
Qed.

Lemma set_slot_ids s id (f : PeerSlot -> PeerSlot) :
  (forall p, slot_id (f p) = slot_id p) ->
  ids (match peer_slot s id with None => s | Some (pos, p) => set_peer s pos (f p) end) = ids s.
Proof.
  intros Hf. destruct (peer_slot s id) as [[pos p]|] eqn:E; [|done].
  apply peer_slot_Some in E as [Hp _]. apply keeps_ids. by eapply keeps_peer.
Qed.

(** Only arrivals and departures change the slots. *)
Lemma run_op_ids s o s' :
  wf s -> op_ok s o -> run_op o s = Some s' ->
  ids s' = match o with
           | OpAdded id _ => ids s ++ [id]
           | OpRemoved id => filter (fun x => x <> id) (ids s)
           | _ => ids s
           end.
Proof.
  intros Hw Hok. destruct o as [id sp|id|id sp|id b|id cap t r|id bf now|id c now|id c b now|c b|now|ms|c];
    cbn [run_op op_ok] in *.
  - intros [= <-]. unfold ids. cbn. by rewrite fmap_app.
  - intros [= <-]. unfold ids, on_peer_removed. cbv zeta. cbn [peer_slots_ set_peers].
    set (s1 := match peer_slot s id with None => s | _ => _ end).
    assert (peer_slots_ s1 = peer_slots_ s) as ->.
    { subst s1. destruct (peer_slot s id) as [[pos p]|]; [|done].
      by destruct (release_all_keeps (ordered_map (active_sub_blocks p))
        (set_availability s (avail_add (-1) (availability_ s) (remote_bitfield p)))). }
    induction (peer_slots_ s) as [|p ps IH]; [done|]. cbn [fmap list_fmap].
    destruct (decide (slot_id p <> id)).
    + rewrite !filter_cons_True by done. cbn [fmap list_fmap]. by f_equal.
    + by rewrite !filter_cons_False.
  - intros [= <-]. by apply (set_slot_ids s id (fun p => set_speed_of p sp)).
  - intros [= <-]. by apply (set_slot_ids s id (fun p => set_choking p b)).
  - intros [= <-]. by apply (set_slot_ids s id (fun p => set_eval p cap t r)).
  - destruct (on_bitfield_safe s id bf now Hw) as (s1 & -> & Hk & _). intros [= <-]. by apply keeps_ids.
  - destruct (on_have_safe s id c now Hw) as (s1 & -> & Hk & _). intros [= <-]. by apply keeps_ids.
  - destruct (dec_peer_pending_safe s id c b now Hw) as (s1 & -> & Hk & _).
    intros [= <-]. by apply keeps_ids.
  - intros [= <-]. apply keeps_ids, on_subblock_timeout_keeps.
  - destruct (sched_tick_safe s now Hw) as (s1 & -> & Hk & _). intros [= <-]. by apply keeps_ids.
  - unfold process_completions. destruct (complete_all s ms) as [s1|] eqn:E; [|done].
    apply complete_all_ids in E. cbn [mbind option_bind]. intros [= <-].
    destruct (_ =? 0); [done|]. by destruct (_ <? _).
  - destruct (on_verify_failed_safe s c Hw Hok) as (s1 & -> & Hk & _).
    intros [= <-]. by apply keeps_ids.
Qed.

Lemma keeps_active s s' : keeps s s' -> active_chunks_ s' = active_chunks_ s.
Proof. unfold keeps, view. intros H. by injection H. Qed.

Lemma swap_remove_elem x l y : NoDup l -> x ∈ l -> y ∈ swap_remove x l <-> y ∈ l /\ y <> x.
Proof.
  intros Hnd Hx. pose proof (swap_remove_perm x l Hx) as Hp. rewrite Hp in Hnd.
  apply NoDup_cons in Hnd as [Hn _].
  assert (y ∈ l <-> y = x \/ y ∈ swap_remove x l) as -> by (rewrite Hp at 1; apply elem_of_cons).
  split; [intros Hy; split; [by right|by intros ->]|by intros [[->|Hy] Hne]].
Qed.

Lemma complete_all_active ms : forall s s',
  wf s -> completions_ok s ms -> complete_all s ms = Some s' ->
  forall c, c ∈ active_chunks_ s' <-> c ∈ active_chunks_ s /\ (c ∉ msg_chunk_idx <$> ms).
Proof.
  induction ms as [|m ms IH]; intros s s' Hw [Hnd Hin] H c; cbn [complete_all] in H.
  { injection H as <-. split; [intros Hc; split; [done|apply not_elem_of_nil]|by intros [? _]]. }
  rewrite fmap_cons in Hnd |- *. apply NoDup_cons in Hnd as [Hm Hnd].
  apply Forall_cons in Hin as [Hc Hin].
  destruct (complete_one_safe s m Hw Hc) as (s1 & Hs1 & Hw1 & Hac & _). rewrite Hs1 in H.
  cbn [mbind option_bind] in H. pose proof (cok_nodup _ (wf_chunks _ Hw)) as Hnda.
  rewrite (IH s1 s' Hw1); [|split; [done|]|done].
  - rewrite Hac, swap_remove_elem, not_elem_of_cons by done. tauto.
  - rewrite Forall_forall in Hin |- *. intros m' Hm'. rewrite Hac, swap_remove_elem by done.
    split; [by apply Hin|]. intros He. apply Hm. rewrite <-He. by apply list_elem_of_fmap_2.
Qed.

(** Only completions change which chunks are active. *)
Lemma run_op_active s o s' :
  wf s -> op_ok s o -> run_op o s = Some s' ->
  match o with
  | OpCompletions ms =>
    forall c, c ∈ active_chunks_ s' <-> c ∈ active_chunks_ s /\ (c ∉ msg_chunk_idx <$> ms)
  | _ => active_chunks_ s' = active_chunks_ s
  end.
Proof.
  intros Hw Hok. destruct o as [id sp|id|id sp|id b|id cap t r|id bf now|id c now|id c b now|c b|now|ms|c];
    cbn [run_op op_ok] in *.
  - by intros [= <-].
  - intros [= <-]. unfold on_peer_removed. cbv zeta. cbn [active_chunks_ set_peers].
    destruct (peer_slot s id) as [[pos p]|]; [|done].
    destruct (release_all_keeps (ordered_map (active_sub_blocks p))
      (set_availability s (avail_add (-1) (availability_ s) (remote_bitfield p)))) as [Hk _].
    by apply keeps_active in Hk.
  - intros [= <-]. unfold on_peer_speed. by destruct (peer_slot s id) as [[pos p]|].
  - intros [= <-]. unfold on_choke_change. by destruct (peer_slot s id) as [[pos p]|].
  - intros [= <-]. unfold on_peer_eval. by destruct (peer_slot s id) as [[pos p]|].
  - destruct (on_bitfield_safe s id bf now Hw) as (s1 & -> & Hk & _). intros [= <-]. by apply keeps_active.
  - destruct (on_have_safe s id c now Hw) as (s1 & -> & Hk & _). intros [= <-]. by apply keeps_active.
  - destruct (dec_peer_pending_safe s id c b now Hw) as (s1 & -> & Hk & _).
    intros [= <-]. by apply keeps_active.
  - intros [= <-]. apply keeps_active, on_subblock_timeout_keeps.
  - destruct (sched_tick_safe s now Hw) as (s1 & -> & Hk & _). intros [= <-]. by apply keeps_active.
  - unfold process_completions. destruct (complete_all s ms) as [s1|] eqn:E; [|done].
    cbn [mbind option_bind]. intros [= <-] c. rewrite <-(complete_all_active ms s s1 Hw Hok E).
    destruct (_ =? 0); [done|]. by destruct (_ <? _).
  - destruct (on_verify_failed_safe s c Hw Hok) as (s1 & -> & Hk & _).
    intros [= <-]. by apply keeps_active.
Qed.

(** The peers and the active chunks are as before. *)
Definition leaves (s s' : Scheduler) : Prop :=
  ids s' = ids s /\ active_chunks_ s' = active_chunks_ s.

Lemma leaves_refl s : leaves s s.
Proof. done. Qed.
#[export] Hint Resolve leaves_refl : core.

(** The events a session causes: no peer comes or goes, no chunk completes. *)
Definition inner_op (o : sched_op) : Prop :=
  match o with
  | OpAdded _ _ | OpRemoved _ | OpCompletions _ | OpVerifyFailed _ => False
  | _ => True
  end.

(** Such an event is handled in every reachable state. *)
Lemma inner_op_reach speed sizes s o :
  zlength sizes < 2 ^ 32 -> Forall is_u32 sizes -> reach speed sizes s -> inner_op o ->
  exists s', run_op o s = Some s' /\ reach speed sizes s' /\ leaves s s'.
Proof.
  intros Hn Hz Hr Ho. assert (op_ok s o) as Hok by (by destruct o).
  pose proof (reach_wf _ _ _ Hn Hz Hr) as Hw.
  destruct (run_op_safe s o Hw Hok) as (s' & Hs' & _). exists s'. split; [done|].
  split; [by eapply reach_step|].
  pose proof (run_op_ids s o s' Hw Hok Hs'). pose proof (run_op_active s o s' Hw Hok Hs').
  by destruct o.
Qed.
