(* ===== verification/PeerSession.v ===== *)
(** * A connection to a peer (src/src/daemon/peer_session.hpp, peer_session.cpp,
    file_read_pool.cpp)

    The session's state machine: the handshake, the chain of asynchronous
    reads that frames the byte stream, the message handlers, the write queue
    and the periodic evaluation.  The socket is a byte stream: [reader]
    consumes what arrives, [wire_] collects what was written.  A handler is
    [None] where the source reads past the end of a message body or casts a
    [double] out of range.  The clock is an argument, in nanoseconds.  The
    callbacks a session makes are the log [events_]; the requests the
    scheduler issues during a handler are in the scheduler's own log [calls],
    which [PeerManager] carries out when the handler returns.  [double] is
    IEEE binary64 ([SpecFloat] at precision 53, exponent 1024). *)

From Stdlib Require Import SpecFloat.
From stdpp Require Import pretty.
From S2P Require Import Prelude Platform Protocol ChunkAssembler Scheduler SchedulerSpec.
Import OCamlLikeNotations.

(** ** Framing *)
Definition MAX_MSG_SIZE : Z := 65536.

(** Where the read chain is: waiting for the rest of a 5-byte header, for the
    rest of a body, or closed after a bad header. *)
Inductive reader :=
| RHeader (buf : bytes)
| RBody (id len : Z) (buf : bytes)
| RClosed.

(** The completion handler of the header read, with the message it dispatches
    when the body is empty. *)
Definition header_done (buf : bytes) : reader * list (Z * bytes) :=
  match parse_message_header buf with
  | None => (RClosed, [])
  | Some (msg_len, id) =>
    let body_len := u32 (msg_len - 1) in
    if MAX_MSG_SIZE <? body_len then (RClosed, [])
    else if body_len =? 0 then (RHeader [], [(id, [])])
    else (RBody id body_len [], [])
  end.

(** One byte arrives. *)
Definition read_byte (r : reader) (b : byte) : reader * list (Z * bytes) :=
  match r with
  | RHeader buf =>
    let buf := buf ++ [b] in
    if zlength buf =? 5 then header_done buf else (RHeader buf, [])
  | RBody id len buf =>
    let buf := buf ++ [b] in
    if zlength buf =? len then (RHeader [], [(id, buf)]) else (RBody id len buf, [])
  | RClosed => (RClosed, [])
  end.

(** Bytes arrive, in whatever segments: the messages dispatched. *)
Fixpoint read_bytes (r : reader) (bs : bytes) : reader * list (Z * bytes) :=
  match bs with
  | [] => (r, [])
  | b :: bs =>
    let '(r, ms) := read_byte r b in
    let '(r, ms') := read_bytes r bs in (r, ms ++ ms')
  end.

(** ** Doubles *)
Definition of_int (z : Z) : spec_float := binary_normalize 53 1024 z 0 false.
Definition dmul (x y : spec_float) : spec_float := SFmul 53 1024 x y.
Definition dadd (x y : spec_float) : spec_float := SFadd 53 1024 x y.
Definition dsub (x y : spec_float) : spec_float := SFsub 53 1024 x y.
Definition ddiv (x y : spec_float) : spec_float := SFdiv 53 1024 x y.

(** The literal 0.3: the nearest double, 5404319552844595 / 2^54. *)
Definition LATENCY_EMA_ALPHA : spec_float := S754_finite false 5404319552844595 (-54).
Definition LATENCY_THRESHOLD_US : spec_float := of_int 2000.

(** [static_cast<uint32_t>(x)]: truncation, undefined when out of range. *)
Definition to_u32 (x : spec_float) : option Z :=
  match x with
  | S754_zero _ => Some 0
  | S754_finite neg m e =>
    let t := if 0 <=? e then Zpos m * 2 ^ e else Zpos m / 2 ^ (- e) in
    let v := if neg then - t else t in
    if (0 <=? v) && (v <? 2 ^ 32) then Some v else None
  | _ => None
  end.

(** ** State *)
Inductive conn_state := HANDSHAKE | CONNECTED | DISCONNECTED.

#[export] Instance conn_state_eq_dec : EqDecision conn_state.
Proof. solve_decision. Defined.

Record PieceTask := {
  pt_chunk_idx : Z;
  pt_begin : Z;
  pt_length : Z;
  pt_peer_slot : Z;
  pt_data : bytes;
}.

(** A read posted to [FileReadPool], or a job of the sendfile pool. *)
Record ReadJob := {
  rj_off : Z;
  rj_len : Z;
  rj_index : Z;
  rj_begin : Z;
}.

(** What the session tells its surroundings. *)
Inductive session_event :=
| EvDispatch (t : PieceTask)
| EvRead (j : ReadJob)
| EvSendfile (j : ReadJob)
| EvPexPeer (ip : string) (port flags : Z)
| EvPexRemove (ip : string) (port : Z)
| EvTimeout (chunk begin : Z)
| EvHandshakeDone
| EvDisconnect.

(** [in_flight_] holds the buffers given to [async_write] whose completion is
    outstanding; [outbound_] is the endpoint given to [async_connect];
    [remote_ep_] is what [socket_->remote_endpoint] answers, and
    a closed or unconnected socket has none.  A callback field tells whether
    the callback is set. *)
Record PeerSession := {
  info_hash_ : bytes;
  local_speed_mbps_s : Z;
  local_listen_port_ : Z;
  state_ : conn_state;
  outbound_ : option (string * Z);
  remote_ep_ : option (string * Z);
  handshake_sent_ : bool;
  remote_speed_mbps_ : Z;
  remote_listen_port_ : Z;
  remote_bitfield_ : list bool;
  peer_choking_me_ : bool;
  choking_peer_ : bool;
  peer_interested_ : bool;
  am_interested_ : bool;
  write_queue_ : list bytes;
  is_writing_ : bool;
  in_flight_ : list bytes;
  wire_ : list bytes;
  pending_requests_ : Z;
  pipeline_cap_ : Z;
  slot_id_ : Z;
  io_pool_ : bool;
  file_fd_ : Z;
  chunk_offsets_ : option (list Z);
  on_pex_peer_ : bool;
  on_pex_remove_ : bool;
  on_handshake_done_ : bool;
  on_request_timeout_ : bool;
  on_disconnect_ : bool;
  cancelled_set_ : gset (Z * Z);
  pending_times_ : gmap (Z * Z) Z;
  consecutive_timeouts_ : Z;
  timeout_count_this_cycle_ : Z;
  pipeline_eval_cycles_ : Z;
  avg_latency_us_ : spec_float;
  last_eval_time_ : Z;
  recv_bytes_since_last_choke_ : Z;
  sent_bytes_since_last_choke_ : Z;
  download_rate_kbps_ : Z;
  upload_rate_kbps_ : Z;
  last_download_eval_time_ : Z;
  last_upload_eval_time_ : Z;
  use_sendfile_ : bool;
  closed_ : bool;
  events_ : list session_event;
}.

(** The record with every field named, from which the updates
    [{ s with field := v }] are derived. *)
Definition session_eta (s : PeerSession) : PeerSession := {|
  info_hash_ := info_hash_ s; local_speed_mbps_s := local_speed_mbps_s s;
  local_listen_port_ := local_listen_port_ s; state_ := state_ s; outbound_ := outbound_ s;
  remote_ep_ := remote_ep_ s;
  handshake_sent_ := handshake_sent_ s; remote_speed_mbps_ := remote_speed_mbps_ s;
  remote_listen_port_ := remote_listen_port_ s; remote_bitfield_ := remote_bitfield_ s;
  peer_choking_me_ := peer_choking_me_ s; choking_peer_ := choking_peer_ s;
  peer_interested_ := peer_interested_ s; am_interested_ := am_interested_ s;
  write_queue_ := write_queue_ s; is_writing_ := is_writing_ s; in_flight_ := in_flight_ s;
  wire_ := wire_ s; pending_requests_ := pending_requests_ s; pipeline_cap_ := pipeline_cap_ s;
  slot_id_ := slot_id_ s; io_pool_ := io_pool_ s; file_fd_ := file_fd_ s;
  chunk_offsets_ := chunk_offsets_ s; on_pex_peer_ := on_pex_peer_ s;
  on_pex_remove_ := on_pex_remove_ s; on_handshake_done_ := on_handshake_done_ s;
  on_request_timeout_ := on_request_timeout_ s; on_disconnect_ := on_disconnect_ s;
  cancelled_set_ := cancelled_set_ s; pending_times_ := pending_times_ s;
  consecutive_timeouts_ := consecutive_timeouts_ s;
  timeout_count_this_cycle_ := timeout_count_this_cycle_ s;
  pipeline_eval_cycles_ := pipeline_eval_cycles_ s; avg_latency_us_ := avg_latency_us_ s;
  last_eval_time_ := last_eval_time_ s;
  recv_bytes_since_last_choke_ := recv_bytes_since_last_choke_ s;
  sent_bytes_since_last_choke_ := sent_bytes_since_last_choke_ s;
  download_rate_kbps_ := download_rate_kbps_ s; upload_rate_kbps_ := upload_rate_kbps_ s;
  last_download_eval_time_ := last_download_eval_time_ s;
  last_upload_eval_time_ := last_upload_eval_time_ s; use_sendfile_ := use_sendfile_ s;
  closed_ := closed_ s; events_ := events_ s;
|}.

#[export] Hint Extern 0 (@Setter PeerSession _ ?g) => set_field session_eta g : typeclass_instances.


(** The constructor; [sendfile_env] is [THINBT_ENABLE_SENDFILE == "1"]. *)
Definition session_new (ih : bytes) (speed port : Z) (sendfile_env : bool) (now : Z)
  : PeerSession := {|
  info_hash_ := take 20 ih; local_speed_mbps_s := speed; local_listen_port_ := port;
  state_ := HANDSHAKE; outbound_ := None; remote_ep_ := None; handshake_sent_ := false;
  remote_speed_mbps_ := 0; remote_listen_port_ := 0; remote_bitfield_ := [];
  peer_choking_me_ := true; choking_peer_ := true; peer_interested_ := false;
  am_interested_ := false; write_queue_ := []; is_writing_ := false; in_flight_ := [];
  wire_ := []; pending_requests_ := 0; pipeline_cap_ := 128; slot_id_ := 0;
  io_pool_ := false; file_fd_ := -1; chunk_offsets_ := None;
  on_pex_peer_ := false; on_pex_remove_ := false; on_handshake_done_ := false;
  on_request_timeout_ := false; on_disconnect_ := false;
  cancelled_set_ := empty; pending_times_ := empty;
  consecutive_timeouts_ := 0; timeout_count_this_cycle_ := 0; pipeline_eval_cycles_ := 0;
  avg_latency_us_ := of_int 500; last_eval_time_ := now;
  recv_bytes_since_last_choke_ := 0; sent_bytes_since_last_choke_ := 0;
  download_rate_kbps_ := 0; upload_rate_kbps_ := 0;
  last_download_eval_time_ := now; last_upload_eval_time_ := now;
  use_sendfile_ := sendfile_env; closed_ := false; events_ := [];
|}.

Definition emit (s : PeerSession) (e : session_event) : PeerSession :=
  { s with events_ ::= (fun l => l ++ [e]) }.

Definition remote_ip (s : PeerSession) : string :=
  match remote_ep_ s with Some (ip, _) => ip | None => "unknown" end.

Definition remote_port (s : PeerSession) : Z :=
  match remote_ep_ s with Some (_, port) => port | None => 0 end.

Definition inc_pending (s : PeerSession) : PeerSession :=
  { s with pending_requests_ := u32 (pending_requests_ s + 1) }.

Definition dec_pending (s : PeerSession) : PeerSession :=
  if 0 <? pending_requests_ s then { s with pending_requests_ := pending_requests_ s - 1 }
  else s.

Definition add_sent_bytes (s : PeerSession) (n : Z) : PeerSession :=
  { s with sent_bytes_since_last_choke_ := u64 (sent_bytes_since_last_choke_ s + n) }.

(** ** Writing *)
Definition do_write (s : PeerSession) : PeerSession :=
  match write_queue_ s with
  | [] => { s with is_writing_ := false }
  | m :: q => { s with write_queue_ := q; in_flight_ ::= (fun l => l ++ [m]) }
  end.

Definition send_message (s : PeerSession) (buf : bytes) : PeerSession :=
  let s := { s with write_queue_ ::= (fun q => q ++ [buf]) } in
  if is_writing_ s then s else do_write { s with is_writing_ := true }.

Definition disconnect (s : PeerSession) : PeerSession :=
  match state_ s with
  | DISCONNECTED => s
  | _ =>
    let s := { s with state_ := DISCONNECTED; closed_ := true; remote_ep_ := None } in
    if on_disconnect_ s then emit s EvDisconnect else s
  end.

(** The completion handler of [async_write]. *)
Definition write_done (s : PeerSession) (ok : bool) : PeerSession :=
  match in_flight_ s with
  | [] => s
  | m :: fl =>
    if ok then
      let s := { s with in_flight_ := fl; wire_ ::= (fun w => w ++ [m]) } in
      match write_queue_ s with
      | [] => { s with is_writing_ := false }
      | _ => do_write s
      end
    else disconnect { s with in_flight_ := fl }
  end.

Definition send_interested (s : PeerSession) : option PeerSession :=
  if am_interested_ s then Some s
  else m ← build_interested; Some (send_message { s with am_interested_ := true } m).

Definition send_not_interested (s : PeerSession) : option PeerSession :=
  if negb (am_interested_ s) then Some s
  else m ← build_not_interested; Some (send_message { s with am_interested_ := false } m).

(** ** Handshake *)

(** [rnd] is the twenty random bytes of the peer id. *)
Definition send_handshake (s : PeerSession) (rnd : bytes) : PeerSession :=
  let h := {| protocol_id := []; hs_reserved := []; speed_mbps := 0; hs_info_hash := [];
              peer_id := rnd |} in
  let h := handshake_build h (info_hash_ s) (local_speed_mbps_s s) (local_listen_port_ s) in
  let s := send_message s (serialize_handshake h) in
  { s with handshake_sent_ := true }.

(** The accepted socket is moved into the session. *)
Definition start_inbound (s : PeerSession) (sock : option (string * Z)) : PeerSession :=
  { s with remote_ep_ := sock; on_disconnect_ := true }.

(** [start_outbound] begins to connect; [connect_done] is the completion
    handler. *)
Definition start_outbound (s : PeerSession) (host : string) (port : Z) : PeerSession :=
  { s with on_disconnect_ := true; outbound_ := Some (host, port) }.

Definition connect_done (s : PeerSession) (ok : bool) (rnd : bytes) : PeerSession :=
  if ok then send_handshake { s with remote_ep_ := outbound_ s } rnd else disconnect s.

Definition start_eval_timer (s : PeerSession) (now : Z) : PeerSession :=
  { s with last_eval_time_ := now }.

(** [buf] is the 67 bytes read, or nothing when the read failed. *)
Definition handle_handshake (s : PeerSession) (buf : option bytes) (rnd : bytes) (now : Z)
  : PeerSession :=
  match buf with
  | None => disconnect s
  | Some b =>
    match parse_handshake b with
    | None => disconnect s
    | Some h =>
      if bool_decide (hs_info_hash h = info_hash_ s) then
        let s := { s with remote_speed_mbps_ := speed_mbps h;
                          remote_listen_port_ := hs_listen_port h } in
        let s := if handshake_sent_ s then s else send_handshake s rnd in
        let s := { s with state_ := CONNECTED } in
        let s := start_eval_timer s now in
        if on_handshake_done_ s then emit s EvHandshakeDone else s
      else disconnect s
    end
  end.

(** ** Message handlers *)

(** [memcpy(&v, data + off, 4); v = ntoh32(v)]. *)
Definition read_u32 (data : bytes) (off : Z) : option Z :=
  if off + 4 <=? zlength data then Some (ntoh32 (load 4 (drop (Z.to_nat off) data))) else None.

Definition now_ms (now : Z) : Z := u64 (now / 1000000).

Definition record_have (s : PeerSession) (chunk_idx : Z) : PeerSession :=
  if chunk_idx <? zlength (remote_bitfield_ s)
  then { s with remote_bitfield_ := zupd (remote_bitfield_ s) chunk_idx true } else s.

(** The loop of [record_bitfield]: bit [i] is bit [7 - i % 8] of byte [i / 8]. *)
Definition record_bitfield (s : PeerSession) (data : bytes) : PeerSession :=
  { s with remote_bitfield_ :=
      (fun i => bit_at data (Z.of_nat i)) <$> seq 0 (length data * 8) }.

(** [if (scheduler_ && scheduler_->wants_peer(slot_id_)) send_interested();] *)
Definition interest_if_wanted (s : PeerSession) (sc : option Scheduler) : option PeerSession :=
  match sc with
  | Some sc => if wants_peer sc (slot_id_ s) then send_interested s else Some s
  | None => Some s
  end.

(** A call on [scheduler_], skipped when it is null. *)
Definition with_sched (sc : option Scheduler) (f : Scheduler -> option Scheduler)
  : option (option Scheduler) :=
  match sc with
  | Some sc => sc ← f sc; Some (Some sc)
  | None => Some None
  end.

Definition handle_have_msg (s : PeerSession) (sc : option Scheduler) (data : bytes) (now : Z)
  : option (PeerSession * option Scheduler) :=
  ci ← read_u32 data 0;
  let s := record_have s ci in
  sc ← with_sched sc (fun sc => on_have sc (slot_id_ s) ci (now_ms now));
  s ← interest_if_wanted s sc;
  Some (s, sc).

Definition handle_bitfield_msg (s : PeerSession) (sc : option Scheduler) (data : bytes) (now : Z)
  : option (PeerSession * option Scheduler) :=
  let s := record_bitfield s data in
  sc ← with_sched sc (fun sc => on_bitfield sc (slot_id_ s) (remote_bitfield_ s) (now_ms now));
  s ← interest_if_wanted s sc;
  Some (s, sc).

(** Where the bytes of a chunk start in the file. *)
Definition base_offset (s : PeerSession) (index : Z) : Z :=
  match chunk_offsets_ s ≫= (fun l => zget l index) with
  | Some off => off
  | None => u64 (index * 131072)
  end.

Definition handle_request_msg (s : PeerSession) (data : bytes) : option PeerSession :=
  if choking_peer_ s then Some s
  else
    index ← read_u32 data 0;
    begin ← read_u32 data 4;
    length ← read_u32 data 8;
    if bool_decide ((index, begin) ∈ cancelled_set_ s) then Some s
    else if 0 <=? file_fd_ s then
      let job := {| rj_off := u64 (base_offset s index + begin); rj_len := length;
                    rj_index := index; rj_begin := begin |} in
      let try_sendfile :=
        use_sendfile_ s && bool_decide (write_queue_ s = []) && negb (is_writing_ s) in
      if try_sendfile then Some (emit { s with is_writing_ := true } (EvSendfile job))
      else Some (emit s (EvRead job))
    else Some s.

(** [FileReadPool::worker_loop] on one task: the buffer after [pread]
    returned [n] bytes of [got]. *)
Definition pool_read (len n : Z) (got : bytes) : bytes :=
  if n <=? 0 then []
  else if n <? len then take (Z.to_nat n) got
  else take (Z.to_nat len) got.

(** The callback of [post_read], on the pool's thread and then on the
    [io_context]. *)
Definition read_done (s : PeerSession) (j : ReadJob) (n : Z) (data : bytes)
  : option PeerSession :=
  if closed_ s then Some s
  else if (0 <? n) && bool_decide (data <> []) then
    body ← (if n <=? zlength data then Some (take (Z.to_nat n) data) else None);
    msg ← build_piece (rj_index j) (rj_begin j) body;
    Some (send_message (add_sent_bytes s (u32 (zlength msg))) msg)
  else Some s.

(** The sendfile job: [hn] is what [send] returned for the 13-byte header,
    [n] what [sendfile_zero_copy] returned for the bytes [body] it sent. *)
Definition sendfile_header (j : ReadJob) : bytes :=
  le_split 4 (hton32 (u32 (1 + 8 + rj_len j))) ++ [byte.of_Z (msg_code PIECE)] ++
  le_split 4 (hton32 (rj_index j)) ++ le_split 4 (hton32 (rj_begin j)).

Definition sendfile_done (s : PeerSession) (j : ReadJob) (hn n : Z) (body : bytes)
  : PeerSession :=
  if closed_ s then s
  else
    let hdr := take (Z.to_nat hn) (sendfile_header j) in
    let sent := if hn =? 13 then (if 0 <? n then n else 0) else 0 in
    let s := { s with wire_ ::= (fun w => w ++ [hdr ++ take (Z.to_nat sent) body]) } in
    let s := if 0 <? sent then add_sent_bytes s (u32 (13 + sent)) else s in
    let s := { s with is_writing_ := false } in
    match write_queue_ s with
    | [] => s
    | _ => do_write s
    end.

Definition handle_cancel_msg (s : PeerSession) (data : bytes) : option PeerSession :=
  index ← read_u32 data 0;
  begin ← read_u32 data 4;
  Some { s with cancelled_set_ ::= (fun c => {[(index, begin)]} ∪ c) }.

(** The address bytes in memory order, as [inet_ntoa] prints them. *)
Definition inet_ntoa (ip : Z) : string :=
  match byte.unsigned <$> le_split 4 ip with
  | [a; b; c; d] => pretty a +:+ "." +:+ pretty b +:+ "." +:+ pretty c +:+ "." +:+ pretty d
  | _ => EmptyString
  end%string.

(** The body of the loop of [handle_pex_msg]. *)
Definition pex_entry (op : Z) (s : PeerSession) (p : PexPeer) : PeerSession :=
  let is_left := negb (Z.land (pex_flags p) 128 =? 0) in
  if (op =? 1) && is_left then
    if on_pex_remove_ s then emit s (EvPexRemove (inet_ntoa (pex_ip p)) (ntoh16 (pex_port p)))
    else s
  else if negb is_left && on_pex_peer_ s then
    emit s (EvPexPeer (inet_ntoa (pex_ip p)) (ntoh16 (pex_port p)) (pex_flags p))
  else s.

Fixpoint pex_entries (op : Z) (s : PeerSession) (data : bytes) (count : nat) : PeerSession :=
  match count with
  | O => s
  | S count => pex_entries op (pex_entry op s (pex_of_repr (take 8 data))) (drop 8 data) count
  end.

Definition handle_pex_msg (s : PeerSession) (data : bytes) : PeerSession :=
  if zlength data <? 3 then s
  else
    let op := load 1 data in
    let count := ntoh16 (load 2 (drop 1 data)) in
    if zlength data <? 3 + count * 8 then s
    else pex_entries op s (drop 3 data) (Z.to_nat count).

(** The exponential moving average of the response time. *)
Definition ema (avg : spec_float) (elapsed_us : Z) : spec_float :=
  dadd (dmul LATENCY_EMA_ALPHA (of_int elapsed_us))
       (dmul (dsub (of_int 1) LATENCY_EMA_ALPHA) avg).

Definition note_response (s : PeerSession) (index begin now : Z) : PeerSession :=
  match pending_times_ s !! (index, begin) with
  | Some t =>
    { s with avg_latency_us_ := ema (avg_latency_us_ s) (Z.quot (now - t) 1000);
             pending_times_ ::= delete (index, begin) }
  | None => s
  end.

Definition handle_piece_msg (s : PeerSession) (sc : option Scheduler) (data : bytes) (now : Z)
  : option (PeerSession * option Scheduler) :=
  if (zlength data <? 8) || negb (io_pool_ s) then Some (s, sc)
  else
    index ← read_u32 data 0;
    begin ← read_u32 data 4;
    let s := { s with consecutive_timeouts_ := 0 } in
    let s := note_response s index begin now in
    let len := zlength data - 8 in
    let s := { s with recv_bytes_since_last_choke_ := u64 (recv_bytes_since_last_choke_ s + len) } in
    let s := emit s (EvDispatch {| pt_chunk_idx := index; pt_begin := begin; pt_length := len;
                                   pt_peer_slot := slot_id_ s; pt_data := drop 8 data |}) in
    let s := dec_pending s in
    sc ← with_sched sc (fun sc => dec_peer_pending sc (slot_id_ s) index begin (now_ms now));
    Some (s, sc).

(** [dispatch_message] on the id byte of the header. *)
Definition dispatch_message (s : PeerSession) (sc : option Scheduler) (id : Z) (data : bytes)
  (now : Z) : option (PeerSession * option Scheduler) :=
  match msg_of_code id with
  | Some CHOKE =>
    let s := { s with peer_choking_me_ := true } in
    Some (s, (fun sc => on_choke_change sc (slot_id_ s) true) <$> sc)
  | Some UNCHOKE =>
    let s := { s with peer_choking_me_ := false } in
    match sc with
    | Some sc =>
      let sc := on_choke_change sc (slot_id_ s) false in
      s ← (if 0 <? missing_count_ sc then send_interested s else Some s);
      Some (s, Some sc)
    | None => Some (s, None)
    end
  | Some INTERESTED =>
    let s := { s with peer_interested_ := true } in
    if choking_peer_ s then
      m ← build_message UNCHOKE [];
      Some (send_message { s with choking_peer_ := false } m, sc)
    else Some (s, sc)
  | Some NOT_INTERESTED => Some ({ s with peer_interested_ := false }, sc)
  | Some HAVE => handle_have_msg s sc data now
  | Some BITFIELD => handle_bitfield_msg s sc data now
  | Some REQUEST => s ← handle_request_msg s data; Some (s, sc)
  | Some PIECE => handle_piece_msg s sc data now
  | Some CANCEL => s ← handle_cancel_msg s data; Some (s, sc)
  | Some PEX => Some (handle_pex_msg s data, sc)
  | None => Some (s, sc)
  end.

(** The messages framed out of some bytes, dispatched one after the other. *)
Fixpoint dispatch_all (s : PeerSession) (sc : option Scheduler) (ms : list (Z * bytes)) (now : Z)
  : option (PeerSession * option Scheduler) :=
  match ms with
  | [] => Some (s, sc)
  | (id, data) :: ms =>
    '(s, sc) ← dispatch_message s sc id data now;
    dispatch_all s sc ms now
  end.

(** ** Periodic evaluation *)
Definition PIPELINE_EVAL_MS : Z := 500.
Definition REQUEST_TIMEOUT_MS : Z := 3000.
Definition REQUEST_TIMEOUT_LIMIT : Z := 3.
Definition PIPELINE_MIN : Z := 8.
Definition PIPELINE_MAX : Z := 100.

Definition record_request_sent (s : PeerSession) (chunk_idx begin now : Z) : PeerSession :=
  { s with pending_times_ ::= (fun m => <[(chunk_idx, begin) := now]> m) }.

Definition age_ms (now t : Z) : Z := Z.quot (now - t) 1000000.

(** The loop over [pending_times_], in the order of the map. *)
Fixpoint timeout_loop (s : PeerSession) (now : Z) (entries : list (Z * Z * Z))
  : option PeerSession :=
  match entries with
  | [] => Some s
  | (ci, begin, t) :: entries =>
    if REQUEST_TIMEOUT_MS <=? age_ms now t then
      m ← build_cancel ci begin SUB_BLOCK_SIZE;
      let s := send_message s m in
      let s := if on_request_timeout_ s then emit s (EvTimeout ci begin) else s in
      let s := { s with pending_times_ ::= delete (ci, begin);
                        consecutive_timeouts_ := u32 (consecutive_timeouts_ s + 1);
                        timeout_count_this_cycle_ := u32 (timeout_count_this_cycle_ s + 1) } in
      timeout_loop s now entries
    else timeout_loop s now entries
  end.

Definition pending_entries (s : PeerSession) : list (Z * Z * Z) :=
  sort_by (fun e => pair_key (fst e)) (map_to_list (pending_times_ s)).

(** [static_cast<uint32_t>(std::ceil(cap * 1.5))]: the product and its ceiling
    are exact; the cast is undefined from 2^32 on. *)
Definition grow_cap (cap : Z) : option Z :=
  let c := (3 * cap + 1) / 2 in if c <? 2 ^ 32 then Some c else None.

Definition next_cap (s : PeerSession) : option Z :=
  if (timeout_count_this_cycle_ s =? 0) && SFltb (avg_latency_us_ s) LATENCY_THRESHOLD_US
  then c ← grow_cap (pipeline_cap_ s); Some (Z.min c PIPELINE_MAX)
  else Some (Z.max (pipeline_cap_ s / 2) PIPELINE_MIN).

(** [do_eval_tick] without timer error; the timer is started again on the
    paths that do not disconnect. *)
Definition do_eval_tick (s : PeerSession) (sc : option Scheduler) (now : Z)
  : option (PeerSession * option Scheduler) :=
  if negb (bool_decide (state_ s = CONNECTED)) then Some (s, sc)
  else if age_ms now (last_eval_time_ s) <? PIPELINE_EVAL_MS then Some (s, sc)
  else
    let s := { s with last_eval_time_ := now } in
    s ← timeout_loop s now (pending_entries s);
    if REQUEST_TIMEOUT_LIMIT <=? consecutive_timeouts_ s then Some (disconnect s, sc)
    else
      let s := { s with pipeline_eval_cycles_ := u32 (pipeline_eval_cycles_ s + 1) } in
      cap ← next_cap s;
      let s := { s with pipeline_cap_ := cap; timeout_count_this_cycle_ := 0 } in
      match sc with
      | None => Some (s, None)
      | Some sc =>
        match peer_slot sc (slot_id_ s) with
        | None => Some (s, Some sc)
        | Some _ =>
          rtt ← to_u32 (avg_latency_us_ s);
          Some (s, Some (on_peer_eval sc (slot_id_ s) cap (consecutive_timeouts_ s) rtt))
        end
      end.

(** [bytes * 8.0 / elapsed_s / 1000.0], the seconds a [double]. *)
Definition rate_kbps (n elapsed : Z) : option Z :=
  let elapsed_s := ddiv (of_int elapsed) (of_int 1000000000) in
  to_u32 (ddiv (ddiv (dmul (of_int n) (of_int 8)) elapsed_s) (of_int 1000)).

Definition update_download_rate (s : PeerSession) (now : Z) : option PeerSession :=
  let elapsed := now - last_download_eval_time_ s in
  r ← (if 0 <? elapsed then rate_kbps (recv_bytes_since_last_choke_ s) elapsed
       else Some (download_rate_kbps_ s));
  Some { s with download_rate_kbps_ := r; recv_bytes_since_last_choke_ := 0;
                last_download_eval_time_ := now }.

Definition update_upload_rate (s : PeerSession) (now : Z) : option PeerSession :=
  let elapsed := now - last_upload_eval_time_ s in
  r ← (if 0 <? elapsed then rate_kbps (sent_bytes_since_last_choke_ s) elapsed
       else Some (upload_rate_kbps_ s));
  Some { s with upload_rate_kbps_ := r; sent_bytes_since_last_choke_ := 0;
                last_upload_eval_time_ := now }.
