(* ===== verification/NetUtil.v ===== *)
(** * Addresses (src/src/common/net_util.hpp, net_util.cpp)

    The tracker URL of a seed, and the choice of the network interface on
    Linux.  What the kernel reports about interfaces is an argument. *)

From Stdlib Require Import Ascii.
From S2P Require Import Prelude Text Platform Protocol ChunkAssembler Scheduler SchedulerSpec PeerSession.

Record TrackerUrl := {
  url_host : text;
  url_port : Z;
}.

Definition NUL : ascii := Ascii.ascii_of_nat 0.

(** What C functions see of a [std::string]: the characters before the first
    NUL. *)
Fixpoint c_str (s : text) : text :=
  match s with
  | [] => []
  | c :: s => if decide (c = NUL) then [] else c :: c_str s
  end.

(** [strchr]. *)
Definition strchr (s : text) (c : ascii) : option nat := find [c] s.

Definition url_prefix : text := txt "thinbt://".

(** The host and what follows it. *)
Definition parse_host (p : text) : option (text * text) :=
  match p with
  | c :: p' =>
    if decide (c = "["%char) then
      e ← strchr p' "]"; Some (take e p', drop (S e) p')
    else
      let e := length p in
      let e := match strchr p ":" with Some i => if decide (i < e)%nat then i else e | None => e end in
      let e := match strchr p "/" with Some i => if decide (i < e)%nat then i else e | None => e end in
      if decide (e = 0)%nat then None else Some (take e p, drop e p)
  | [] => None
  end.

Definition parse_tracker_url (url : text) : option TrackerUrl :=
  if negb (bool_decide (take (length url_prefix) url = url_prefix)) then None
  else
    '(host, p) ← parse_host (c_str (drop (length url_prefix) url));
    match p with
    | c :: p =>
      if decide (c = ":"%char) then
        '(port, _) ← strtol p;
        if (port <? 1) || (65535 <? port) then None
        else Some {| url_host := host; url_port := port |}
      else None
    | [] => None
    end.

(** ** Addresses and ids *)
(** [snprintf] into a buffer of 16 bytes. *)
Definition port_str (port : Z) : text := take 15 (print_dec port).

(** [gai] is [getaddrinfo]: nothing if it fails, otherwise the first result,
    which may be missing or have no address. *)
Definition resolve_addr (gai : text -> text -> option (option (option (Z * Z)))) (host : text) (port : Z)
  : option (Z * Z) :=
  match gai (c_str host) (port_str port) with
  | Some (Some (Some addr)) => Some addr
  | _ => None
  end.

(** Twenty draws from 0 to 255. *)
Definition generate_peer_id (draw : nat -> Z) : bytes := (fun i => byte.of_Z (draw i)) <$> seq 0 20.

Lemma length_print_digits fuel : forall n k,
  0 <= n < 10 ^ Z.of_nat k -> (0 < k)%nat -> (length (print_digits fuel n) <= k)%nat.
Proof.
  induction fuel as [|fuel IH]; intros n k Hn Hk; cbn [print_digits]; [cbn; lia|].
  destruct (Z.ltb_spec n 10); [cbn; lia|]. rewrite length_app. cbn [length].
  destruct k as [|[|k]]; [lia|cbn in Hn; lia|].
  enough (length (print_digits fuel (n / 10)) <= S k)%nat by lia. apply IH; [|lia].
  rewrite Nat2Z.inj_succ, Z.pow_succ_r in Hn by lia. split; [apply Z.div_pos; lia|].
  apply Z.div_lt_upper_bound; lia.
Qed.

(** The port is passed whole. *)
Lemma port_str_exact port : 0 <= port < 2 ^ 16 -> port_str port = print_dec port.
Proof. intros Hp. apply take_ge. apply (length_print_digits _ _ 15); [lia|lia]. Qed.

(** ** Interfaces *)
(** An entry of [getifaddrs]: the family and IPv4 address if there is an
    address, the flags and the name. *)
Record ifaddrs := {
  ifa_inet : option (option Z);
  ifa_loopback : bool;
  ifa_up : bool;
  ifa_name : string;
}.

(** The first IPv4 interface that is up and not the loopback. *)
Fixpoint first_interface (l : list ifaddrs) : option (Z * string) :=
  match l with
  | [] => None
  | a :: l =>
    match ifa_inet a with
    | Some (Some ip) =>
      if ifa_loopback a then first_interface l
      else if negb (ifa_up a) then first_interface l
      else Some (ip, ifa_name a)
    | _ => first_interface l
    end
  end.

Definition get_local_ip (l : option (list ifaddrs)) : string :=
  match l with
  | None => EmptyString
  | Some l => match first_interface l with Some (ip, _) => inet_ntoa ip | None => EmptyString end
  end.

(** [speed_of] reads the interface's speed file: nothing if it cannot be
    opened or does not hold a number. *)
Definition detect_link_speed_mbps (l : option (list ifaddrs)) (speed_of : string -> option Z) : Z :=
  match l with
  | None => 1000
  | Some l =>
    match first_interface l with
    | None => 1000
    | Some (_, name) =>
      match speed_of name with
      | None => 1000
      | Some speed => if speed =? 0 then 1000 else speed
      end
    end
  end.

(** ** What is a tracker URL *)
(** The authority part of a URL that names [host]. *)
Definition authority (host a : text) : Prop :=
  (a = "["%char :: host ++ ["]"%char] /\ ("]"%char ∉ host)) \/
  (a = host /\ host <> [] /\ head host <> Some "["%char /\ (":"%char ∉ host) /\ ("/"%char ∉ host)).

Lemma strchr_Some s c i : strchr s c = Some i -> exists a b, s = a ++ c :: b /\ (c ∉ a) /\ length a = i.
Proof.
  unfold strchr. revert i. induction s as [|x s IH]; intros i; [done|]. cbn [find is_prefix].
  destruct (decide (c = x)) as [->|Hc].
  - rewrite bool_decide_true by done. cbn. intros [= <-]. exists [], s. by split_and!; try apply not_elem_of_nil.
  - rewrite bool_decide_false by done. cbn [andb].
    destruct (find [c] s) as [j|] eqn:E; [|done]. intros [= <-].
    destruct (IH j eq_refl) as (a & b & -> & Ha & <-). exists (x :: a), b.
    split_and!; [done| |done]. by apply not_elem_of_cons.
Qed.

Lemma strchr_app a c b : c ∉ a -> strchr (a ++ c :: b) c = Some (length a).
Proof. apply find_char. Qed.

Lemma strchr_None s c : strchr s c = None -> c ∉ s.
Proof.
  unfold strchr. induction s as [|x s IH]; intros H; [apply not_elem_of_nil|].
  cbn [find is_prefix] in H. destruct (decide (c = x)) as [->|Hc].
  - rewrite bool_decide_true in H by done. done.
  - rewrite bool_decide_false in H by done. cbn [andb] in H.
    apply not_elem_of_cons. split; [done|]. apply IH. by destruct (find [c] s).
Qed.

(** The smaller of the length and the positions found. *)
Lemma host_end_spec p e :
  let e0 := match strchr p ":" with
            | Some i => if decide (i < length p)%nat then i else length p | None => length p end in
  match strchr p "/" with Some i => if decide (i < e0)%nat then i else e0 | None => e0 end = e ->
  (e <= length p)%nat /\ (":"%char ∉ take e p) /\ ("/"%char ∉ take e p) /\
  (drop e p = [] \/ exists r, drop e p = ":"%char :: r \/ drop e p = "/"%char :: r).
Proof.
  intros e0 He.
  assert ((e0 <= length p)%nat /\ (":"%char ∉ take e0 p) /\
          (drop e0 p = [] \/ exists r, drop e0 p = ":"%char :: r)) as (Hl & Hc & Hd).
  { unfold e0. destruct (strchr p ":") as [i|] eqn:E.
    - apply strchr_Some in E as (a & b & -> & Ha & <-). rewrite length_app. cbn [length].
      rewrite decide_True by lia. rewrite take_app_length, drop_app_length.
      split; [lia|]. eauto.
    - apply strchr_None in E. rewrite take_ge, drop_ge by lia. eauto. }
  destruct (strchr p "/") as [i|] eqn:E.
  - apply strchr_Some in E as (a & b & -> & Ha & <-).
    destruct (decide (length a < e0)%nat) as [Hlt|Hge]; subst e.
    + rewrite take_app_length, drop_app_length, length_app.
      split_and!; [lia| |done|eauto].
      intros Hin. apply Hc. rewrite take_app_ge by lia. apply elem_of_app. by left.
    + split_and!; [done..| |naive_solver].
      intros Hin. apply Ha. rewrite take_app_le in Hin by lia.
      by apply (elem_of_take) in Hin as (? & ?%list_elem_of_lookup_2 & _).
  - subst e. apply strchr_None in E. split_and!; [done..| |naive_solver].
    intros Hin. apply E. by apply (elem_of_take) in Hin as (? & ?%list_elem_of_lookup_2 & _).
Qed.

Lemma parse_host_iff p host r :
  parse_host p = Some (host, ":"%char :: r) <-> exists a, authority host a /\ p = a ++ ":"%char :: r.
Proof.
  split.
  - destruct p as [|c p]; [done|]. cbn [parse_host]. destruct (decide (c = "["%char)) as [->|Hc].
    + destruct (strchr p "]") as [e|] eqn:E; [|done]. cbn [mbind option_bind].
      apply strchr_Some in E as (a & b & -> & Ha & <-). rewrite take_app_length.
      rewrite drop_app_ge by lia. replace (S (length a) - length a)%nat with 1%nat by lia.
      intros [= <- Hb]. change (b = ":"%char :: r) in Hb. subst b. eexists. split; [left; split; [done|done]|].
      by rewrite <-app_comm_cons, <-app_assoc.
    + cbv zeta. match goal with |- context [decide (?e = 0)%nat] => remember e as e0 eqn:He end.
      symmetry in He. apply host_end_spec in He as (Hl & H1 & H2 & Hd).
      destruct (decide (e0 = 0)%nat) as [|Hne]; [done|]. intros [= <- Hr].
      exists (take e0 (c :: p)). split; [right|by rewrite <-Hr, take_drop].
      destruct e0 as [|e0]; [done|]. cbn [take] in *. split_and!; try done. cbn. congruence.
  - intros (a & [[-> Hb]|(-> & Hne & Hh & Hco & Hsl)] & ->).
    + cbn [parse_host]. rewrite <-app_comm_cons, <-app_assoc. cbn [parse_host app].
      rewrite decide_True by done. rewrite strchr_app by done. cbn [mbind option_bind].
      rewrite take_app_length, drop_app_ge by lia.
      by replace (S (length host) - length host)%nat with 1%nat by lia.
    + destruct host as [|c host]; [done|]. cbn [parse_host app]. rewrite decide_False by (intros ->; done).
      change (c :: host ++ ":"%char :: r) with ((c :: host) ++ ":"%char :: r).
      cbv zeta. rewrite strchr_app by done. rewrite length_app.
      rewrite !(decide_True (P := (length (c :: host) < _)%nat)) by (cbn; lia).
      match goal with |- context [decide (?e = 0)%nat] => assert (e = length (c :: host)) as -> end.
      { destruct (strchr _ "/") as [i|] eqn:E; [|done].
        apply decide_False. intros Hi. apply strchr_Some in E as (x & y & Heq & _ & <-).
        apply Hsl. apply (f_equal (fun l => l !! length x)) in Heq. cbv beta in Heq.
        rewrite lookup_app_l in Heq by done.
        rewrite list_lookup_middle in Heq by done. by apply list_elem_of_lookup_2 in Heq. }
      rewrite decide_False by done. by rewrite take_app_length, drop_app_length.
Qed.

Lemma parse_tracker_url_spec (url : text) (t : TrackerUrl) :
  parse_tracker_url url = Some t <->
  exists tail a r rest, url = url_prefix ++ tail /\ authority (url_host t) a /\
    c_str tail = a ++ ":"%char :: r /\ strtol r = Some (url_port t, rest) /\
    1 <= url_port t <= 65535.
Proof.
  unfold parse_tracker_url. destruct (decide (take (length url_prefix) url = url_prefix)) as [Hp|Hp].
  - rewrite bool_decide_true by done. cbn [negb]. split.
    + destruct (parse_host _) as [[host p]|] eqn:E; [|done]. cbn [mbind option_bind].
      destruct p as [|c p]; [done|]. destruct (decide (c = ":"%char)) as [->|]; [|done].
      destruct (strtol p) as [[port rest]|] eqn:Es; [|done]. cbn [mbind option_bind].
      destruct ((port <? 1) || (65535 <? port)) eqn:Eb; [done|]. intros [= <-].
      apply parse_host_iff in E as (a & Ha & Hc).
      exists (drop (length url_prefix) url), a, p, rest. cbn [url_host url_port].
      split_and!; [by rewrite <-Hp at 1; rewrite take_drop|done..|lia|lia].
    + intros (tail & a & r & rest & -> & Ha & Hc & Hs & Hb).
      rewrite drop_app_length, Hc. rewrite (proj2 (parse_host_iff _ (url_host t) r)) by eauto.
      cbn [mbind option_bind]. rewrite decide_True by done. rewrite Hs. cbn [mbind option_bind].
      replace ((url_port t <? 1) || (65535 <? url_port t)) with false by lia. by destruct t.
  - rewrite bool_decide_false by done. split; [done|].
    intros (tail & ? & ? & ? & -> & _). by rewrite take_app_length in Hp.
Qed.

(** C35: A tracker URL is accepted exactly when it is [thinbt://], a host (an
    address in brackets, or a non-empty name without colon and slash), a
    colon and a number between 1 and 65535 the way [strtol] reads it; host
    and port are what is returned. *)
Theorem parse_tracker_url_iff (url : text) (t : TrackerUrl) :
  parse_tracker_url url = Some t <->
  exists tail a r rest, url = url_prefix ++ tail /\ authority (url_host t) a /\
    c_str tail = a ++ ":"%char :: r /\ strtol r = Some (url_port t, rest) /\
    1 <= url_port t <= 65535.
Proof. apply parse_tracker_url_spec. Qed.
