(* ===== verification/Tracker.v ===== *)
(** * The tracker (src/src/daemon/tracker_server.hpp, tracker_server.cpp,
    tracker_acceptor.cpp, tracker_client.hpp, tracker_client.cpp)

    The swarms the server keeps, the text protocol the acceptor speaks, and
    the client with its retries.  The JSON library the client uses is a
    [JsonReader]; [inet_addr] is the platform's parser of dotted addresses and
    [resolves] tells which host names can be resolved. *)

From Stdlib Require Import Ascii.
From S2P Require Import Prelude Text Json Platform Protocol ChunkAssembler Scheduler SchedulerProofs.
Import OCamlLikeNotations.

(** ** The server *)
Record TrackerPeerEntry := {
  tp_ip : string;
  tp_port : Z;
  tp_flags : Z;
  tp_last_announce : Z;
}.

Definition endpoint (e : TrackerPeerEntry) : string * Z := (tp_ip e, tp_port e).

Record TrackerServer := {
  tracker_port_ : Z;
  swarms_ : gmap string (list TrackerPeerEntry);
}.

Definition server_new (port : Z) : TrackerServer := {| tracker_port_ := port; swarms_ := ∅ |}.

Definition swarm (s : TrackerServer) (hash : string) : list TrackerPeerEntry :=
  default [] (swarms_ s !! hash).

(** The loop that looks for the announcing peer and replaces its entry. *)
Fixpoint replace_entry (e : TrackerPeerEntry) (l : list TrackerPeerEntry)
  : option (list TrackerPeerEntry) :=
  match l with
  | [] => None
  | p :: l => if decide (endpoint p = endpoint e) then Some (e :: l)
              else (fun l => p :: l) <$> replace_entry e l
  end.

Definition server_announce (s : TrackerServer) (hash ip : string) (port speed_mbps now : Z)
  : TrackerServer * list TrackerPeerEntry :=
  let flags := if 1000 <=? speed_mbps then 2 else 0 in
  let entry := {| tp_ip := ip; tp_port := port; tp_flags := flags; tp_last_announce := now |} in
  let sw := swarm s hash in
  let sw := match replace_entry entry sw with Some sw => sw | None => sw ++ [entry] end in
  let result := filter (fun p => endpoint p <> (ip, port)) sw in
  ({| tracker_port_ := tracker_port_ s; swarms_ := <[hash := sw]> (swarms_ s) |},
   sort_by (fun p => - tp_flags p) result).

(** Whole seconds between two times in nanoseconds. *)
Definition age_sec (now t : Z) : Z := Z.quot (now - t) (10 ^ 9).

Definition cleanup_stale (s : TrackerServer) (timeout_sec now : Z) : TrackerServer :=
  {| tracker_port_ := tracker_port_ s;
     swarms_ := filter (fun p => ~ timeout_sec < age_sec now (tp_last_announce p)) <$> swarms_ s |}.

(** ** The acceptor *)
Definition json_extract_string (obj : text) (key : string) : text :=
  let search := quoted (txt key) in
  match find search obj with
  | None => []
  | Some kp =>
    match find_from [":"%char] obj (kp + length search) with
    | None => []
    | Some colon =>
      match find_from [quote] obj (colon + 1) with
      | None => []
      | Some vs =>
        match find_from [quote] obj (vs + 1) with
        | None => []
        | Some ve => substr obj (vs + 1) (ve - vs - 1)
        end
      end
    end
  end.

Fixpoint span (f : ascii -> bool) (s : text) : text :=
  match s with
  | c :: s => if f c then c :: span f s else []
  | [] => []
  end.

Definition json_extract_int (obj : text) (key : string) : result stoull_error Z :=
  let search := quoted (txt key) in
  match find search obj with
  | None => Ok 0
  | Some kp =>
    match find_from [":"%char] obj (kp + length search) with
    | None => Ok 0
    | Some colon =>
      let rest := drop (colon + 1) obj in
      let spaces := span (fun c => bool_decide (c = " "%char) || bool_decide (c = Ascii.ascii_of_nat 9)) rest in
      let rest := drop (length spaces) rest in
      let number := span (fun c => is_digit c || bool_decide (c = "-"%char)) rest in
      match number with [] => Ok 0 | _ => stoull number end
    end
  end.

Definition peer_text (p : TrackerPeerEntry) : text :=
  js "{'ip':'" ++ txt (tp_ip p) ++ js "','port':" ++ print_dec (tp_port p) ++
  js ",'flags':" ++ print_dec (tp_flags p) ++ js "}".

Definition announce_response (peers : list TrackerPeerEntry) : text :=
  js "{'interval':30,'peers':[" ++ commas (peer_text <$> peers) ++ js "]}" ++ [newline].

Definition missing_hash_response : text := js "{'error':'missing info_hash'}" ++ [newline].

(** What the acceptor does with a line; [remote] is the address of the
    connection if it is known.  An exception of [std::stoull] is not caught. *)
Definition handle_announce (s : TrackerServer) (request : text) (remote : option string) (now : Z)
  : result stoull_error (TrackerServer * text) :=
  let info_hash := json_extract_string request "info_hash" in
  let! port := json_extract_int request "port" in
  let peer_port := u16 port in
  let! speed := json_extract_int request "speed_mbps" in
  let speed_mbps := u32 speed in
  match info_hash with
  | [] => Ok (s, missing_hash_response)
  | _ =>
    let peer_ip := default EmptyString remote in
    let '(s, peers) :=
      server_announce s (String.string_of_list_ascii info_hash) peer_ip peer_port speed_mbps now in
    Ok (s, announce_response (filter (fun p => endpoint p <> (peer_ip, peer_port)) peers))
  end.

(** ** The client *)
Definition MAX_RETRIES : Z := 240.

Inductive client_timer := RetryTimer | PollTimer.

(** The connections in progress and the timers hold the client; [delivered_]
    and [dead_calls_] record the calls of its callbacks. *)
Record TrackerClient := {
  info_hash_hex_ : text;
  client_port_ : Z;
  client_speed_ : Z;
  retry_enabled_ : bool;
  retry_count_ : Z;
  on_dead_ : bool;
  dead_signalled_ : bool;
  attempts_ : list (text * Z);
  timers_ : list (client_timer * text * Z);
  delivered_ : list (list PexPeer);
  dead_calls_ : nat;
}.

Definition client_eta (c : TrackerClient) : TrackerClient := {|
  info_hash_hex_ := info_hash_hex_ c; client_port_ := client_port_ c;
  client_speed_ := client_speed_ c; retry_enabled_ := retry_enabled_ c;
  retry_count_ := retry_count_ c; on_dead_ := on_dead_ c; dead_signalled_ := dead_signalled_ c;
  attempts_ := attempts_ c; timers_ := timers_ c; delivered_ := delivered_ c;
  dead_calls_ := dead_calls_ c;
|}.

#[export] Hint Extern 0 (@Setter TrackerClient _ ?g) => set_field client_eta g : typeclass_instances.

Definition client_new (info_hash_hex : text) (p2p_port speed_mbps : Z) : TrackerClient := {|
  info_hash_hex_ := info_hash_hex; client_port_ := p2p_port; client_speed_ := speed_mbps;
  retry_enabled_ := true; retry_count_ := 0; on_dead_ := false; dead_signalled_ := false;
  attempts_ := []; timers_ := []; delivered_ := []; dead_calls_ := 0;
|}.

Definition announce_request (c : TrackerClient) : text :=
  js "{'op':'announce','info_hash':'" ++ info_hash_hex_ c ++ js "','port':" ++
  print_dec (client_port_ c) ++ js ",'speed_mbps':" ++ print_dec (client_speed_ c) ++ js "}" ++ [newline].

Section client.
Context `{JsonReader} (inet_addr : string -> Z) (resolves : text -> bool).

(** One element of the response's [peers]: nothing if it is skipped; a
    failure where a null pointer goes to [inet_addr]. *)
Definition parse_peer (v : json) : option (option PexPeer) :=
  match v with
  | JObj _ =>
    match obj_get v "ip", obj_get v "port" with
    | Some ip_val, Some port_val =>
      ip ← get_str ip_val;
      let flags := match obj_get v "flags" with Some f => u8 (get_uint f) | None => 0 end in
      Some (Some {| pex_ip := inet_addr (String.string_of_list_ascii ip);
                    pex_port := hton16 (u16 (get_uint port_val)); pex_flags := flags;
                    pex_reserved := 0 |})
    | _, _ => Some None
    end
  | _ => Some None
  end.

Fixpoint parse_peers (l : list json) : option (list PexPeer) :=
  match l with
  | [] => Some []
  | v :: l =>
    p ← parse_peer v;
    ps ← parse_peers l;
    Some (match p with Some p => p :: ps | None => ps end)
  end.

Definition parse_tracker_response (resp : text) : option (list PexPeer) :=
  match json_read resp with
  | None => Some []
  | Some root =>
    match obj_get root "error" with
    | Some _ => Some []
    | None =>
      match obj_get root "peers" with
      | Some (JArr l) => parse_peers l
      | _ => Some []
      end
    end
  end.

(** [resolver.resolve] throws for a name that cannot be resolved. *)
Inductive client_error := ResolveFailed | NullAddress.

Definition do_announce (c : TrackerClient) (host : text) (port : Z)
  : result client_error TrackerClient :=
  if resolves host then Ok { c with attempts_ ::= (fun l => l ++ [(host, port)]) }
  else Err ResolveFailed.

Definition client_announce (c : TrackerClient) (host : text) (port : Z)
  : result client_error TrackerClient :=
  do_announce { c with retry_count_ := 0; dead_signalled_ := false } host port.

Definition schedule_empty_poll (c : TrackerClient) (host : text) (port : Z) : TrackerClient :=
  if negb (retry_enabled_ c) then c
  else { c with timers_ ::= (fun l => l ++ [(PollTimer, host, port)]) }.

Definition schedule_retry (c : TrackerClient) (host : text) (port : Z) : TrackerClient :=
  if negb (retry_enabled_ c) || (MAX_RETRIES <=? retry_count_ c) then
    if negb (dead_signalled_ c) && on_dead_ c
    then { c with dead_signalled_ := true; dead_calls_ ::= S } else c
  else { c with retry_count_ ::= (fun n => u32 (n + 1));
                timers_ ::= (fun l => l ++ [(RetryTimer, host, port)]) }.

(** How a connection to the tracker ends. *)
Inductive outcome := ConnectFailed | WriteFailed | ReadFailed | Response (resp : text).

Definition attempt_done (c : TrackerClient) (i : nat) (o : outcome)
  : result client_error TrackerClient :=
  match attempts_ c !! i with
  | None => Ok c
  | Some (host, port) =>
    let c := { c with attempts_ ::= delete i } in
    match o with
    | ConnectFailed | WriteFailed | ReadFailed => Ok (schedule_retry c host port)
    | Response resp =>
      match parse_tracker_response resp with
      | None => Err NullAddress
      | Some peers =>
        let c := { c with delivered_ ::= (fun l => l ++ [peers]) } in
        Ok (match peers with [] => schedule_empty_poll c host port | _ => c end)
      end
    end
  end.

(** A timer ends; [cancelled] is its error code, which the retry timer
    ignores. *)
Definition timer_fired (c : TrackerClient) (i : nat) (cancelled : bool)
  : result client_error TrackerClient :=
  match timers_ c !! i with
  | None => Ok c
  | Some (kind, host, port) =>
    let c := { c with timers_ ::= delete i } in
    match kind with
    | PollTimer => if cancelled then Ok c else do_announce c host port
    | RetryTimer => do_announce c host port
    end
  end.
End client.
