(* ===== verification/TrackerSpec.v ===== *)
(** * What the tracker guarantees

    The server implements an abstract map from torrents and endpoints to
    peers; an announce goes through the text protocol unchanged; the client
    gives up after a bounded number of retries. *)

From Stdlib Require Import Ascii.
From S2P Require Import Prelude Text Json Platform Protocol ChunkAssembler Scheduler SchedulerProofs Tracker.
Import OCamlLikeNotations.

(** ** The server as a map *)
Inductive tracker_op :=
| TAnnounce (hash ip : string) (port speed now : Z)
| TCleanup (timeout now : Z).

Definition run_tracker (s : TrackerServer) (o : tracker_op) : TrackerServer :=
  match o with
  | TAnnounce hash ip port speed now => (server_announce s hash ip port speed now).1
  | TCleanup timeout now => cleanup_stale s timeout now
  end.

(** The abstract state: the flags and last announce of every peer of every
    torrent. *)
Abbreviation tracker_map := (gmap (string * (string * Z)) (Z * Z)).

Definition spec_tracker (σ : tracker_map) (o : tracker_op) : tracker_map :=
  match o with
  | TAnnounce hash ip port speed now =>
    <[(hash, (ip, port)) := (if 1000 <=? speed then 2 else 0, now)]> σ
  | TCleanup timeout now => filter (fun kv => ~ timeout < age_sec now kv.2.2) σ
  end.

Record represents (s : TrackerServer) (σ : tracker_map) : Prop := {
  rep_nodup hash : NoDup (endpoint <$> swarm s hash);
  rep_elem hash e : e ∈ swarm s hash <->
    σ !! (hash, endpoint e) = Some (tp_flags e, tp_last_announce e);
}.

Lemma swarm_insert s hash hash' sw port :
  swarm {| tracker_port_ := port; swarms_ := <[hash := sw]> (swarms_ s) |} hash' =
  if decide (hash = hash') then sw else swarm s hash'.
Proof.
  unfold swarm. cbn. destruct (decide (hash = hash')) as [->|Hne].
  - by rewrite lookup_insert_eq.
  - by rewrite lookup_insert_ne.
Qed.

Lemma replace_entry_spec e l :
  NoDup (endpoint <$> l) ->
  match replace_entry e l with
  | Some l' => NoDup (endpoint <$> l') /\
               forall x, x ∈ l' <-> x = e \/ (x ∈ l /\ endpoint x <> endpoint e)
  | None => endpoint e ∉ endpoint <$> l
  end.
Proof.
  induction l as [|p l IH]; intros Hn; [apply not_elem_of_nil|].
  apply NoDup_cons in Hn as [Hp Hn]. cbn [replace_entry].
  destruct (decide (endpoint p = endpoint e)) as [He|He].
  - split; [apply NoDup_cons; by rewrite <-He|]. intros x. rewrite !elem_of_cons.
    assert (x ∈ l -> endpoint x <> endpoint e) as Hx.
    { intros Hx Hxe. apply Hp. rewrite He, <-Hxe. by apply list_elem_of_fmap_2. }
    split; [intros [->|Hin]; auto|intros [->|[[->|Hin] Hxe]]; auto; done].
  - specialize (IH Hn). destruct (replace_entry e l) as [l'|]; cbn [fmap option_fmap option_map].
    + destruct IH as [Hn' Hl']. split.
      * apply NoDup_cons. split; [|done]. intros (x & Hpx & Hx)%list_elem_of_fmap.
        apply Hl' in Hx as [->|[Hx Hxe]]; [done|]. apply Hp. rewrite Hpx. by apply list_elem_of_fmap_2.
      * intros x. rewrite !elem_of_cons, Hl'. split.
        -- intros [->|[->|[Hx Hxe]]]; auto.
        -- intros [->|[[->|Hx] Hxe]]; auto.
    + cbn. rewrite not_elem_of_cons. auto.
Qed.

Lemma announced_swarm e l :
  NoDup (endpoint <$> l) ->
  let l' := match replace_entry e l with Some l' => l' | None => l ++ [e] end in
  NoDup (endpoint <$> l') /\ forall x, x ∈ l' <-> x = e \/ (x ∈ l /\ endpoint x <> endpoint e).
Proof.
  intros Hn. pose proof (replace_entry_spec e l Hn) as Hr. cbv zeta.
  destruct (replace_entry e l) as [l'|]; [done|]. split.
  - rewrite fmap_app. apply NoDup_app. split; [done|]. split; [|apply NoDup_singleton].
    by intros x Hx ->%list_elem_of_singleton.
  - intros x. rewrite elem_of_app, list_elem_of_singleton. split.
    + intros [Hx | ->]; [|auto]. right. split; [done|]. intros He. apply Hr. rewrite <-He.
      by apply list_elem_of_fmap_2.
    + intros [->|[Hx _]]; auto.
Qed.

Lemma run_tracker_represents s σ o :
  represents s σ -> represents (run_tracker s o) (spec_tracker σ o).
Proof.
  intros [Hn He]. destruct o as [hash ip port speed now|timeout now]; cbn [run_tracker spec_tracker].
  - unfold server_announce. cbn [fst].
    set (e := {| tp_ip := ip |}). destruct (announced_swarm e (swarm s hash) (Hn hash)) as [H1 H2].
    split; intros h; rewrite swarm_insert; destruct (decide (hash = h)) as [<-|Hh]; try done.
    + intros x. rewrite H2, He. destruct (decide (endpoint x = endpoint e)) as [Hx|Hx].
      * rewrite Hx. change (hash, (ip, port)) with (hash, endpoint e). rewrite lookup_insert_eq.
        split; [by intros [->|[_ []]]|]. intros [= Hf Hl]. left.
        destruct x as [xi xp xf xl]. unfold endpoint in Hx. cbn in *. unfold e. congruence.
      * rewrite lookup_insert_ne by (unfold e, endpoint in *; cbn in *; congruence).
        split; [by intros [->|[? _]]|auto].
    + intros x. rewrite lookup_insert_ne by congruence. apply He.
  - assert (forall h, swarm (cleanup_stale s timeout now) h =
      filter (fun p => ~ timeout < age_sec now (tp_last_announce p)) (swarm s h)) as Hs.
    { intros h. unfold swarm, cleanup_stale. cbn. rewrite lookup_fmap. by destruct (swarms_ s !! h). }
    split; intros h.
    + rewrite Hs. eapply sublist_NoDup; [apply (Hn h)|]. apply fmap_sublist, sublist_filter.
    + intros x. rewrite Hs, list_elem_of_filter, He, map_lookup_filter_Some. cbn. tauto.
Qed.

Lemma sorted_impl {A} (R S : relation A) l :
  (forall x y, R x y -> S x y) -> StronglySorted R l -> StronglySorted S l.
Proof. intros HRS. induction 1; constructor; eauto using Forall_impl. Qed.

Lemma run_trackers_represents ops s σ :
  represents s σ -> represents (foldl run_tracker s ops) (foldl spec_tracker σ ops).
Proof.
  revert s σ. induction ops as [|o ops IH]; intros s σ H; [done|].
  by apply IH, run_tracker_represents.
Qed.

Lemma new_represents port : represents (server_new port) ∅.
Proof.
  split; intros h; unfold swarm; cbn; rewrite lookup_empty; cbn; [constructor|].
  intros e. by rewrite lookup_empty, elem_of_nil.
Qed.

Lemma announce_returns s σ hash ip pport speed now :
  represents s σ ->
  let peers := (server_announce s hash ip pport speed now).2 in
  NoDup (endpoint <$> peers) /\
  (forall e, e ∈ peers <-> endpoint e <> (ip, pport) /\
     σ !! (hash, endpoint e) = Some (tp_flags e, tp_last_announce e)) /\
  StronglySorted (fun a b => tp_flags b <= tp_flags a) peers.
Proof.
  intros [Hn He].
  unfold server_announce. cbn [snd].
  set (e := {| tp_ip := ip |}). destruct (announced_swarm e (swarm s hash) (Hn hash)) as [H1 H2].
  split_and!.
  - rewrite sort_by_perm. eapply sublist_NoDup; [exact H1|]. apply fmap_sublist, sublist_filter.
  - intros x. rewrite elem_of_sort_by, list_elem_of_filter, H2, He. split.
    + by intros (Hx & [->|[? _]]).
    + intros [Hx Hl]. split; [done|]. right. by split.
  - eapply sorted_impl; [|apply sort_by_sorted]. cbn. lia.
Qed.

(** C19: The tracker server implements a map: after any sequence of announces
    and cleanups, an announce returns every other live peer of the torrent
    exactly once, with its flags and last announce time, fast peers first. *)
Theorem tracker_refines_map port (ops : list tracker_op) hash ip pport speed now :
  let s := foldl run_tracker (server_new port) ops in
  let σ := foldl spec_tracker ∅ ops in
  let peers := (server_announce s hash ip pport speed now).2 in
  NoDup (endpoint <$> peers) /\
  (forall e, e ∈ peers <-> endpoint e <> (ip, pport) /\
     σ !! (hash, endpoint e) = Some (tp_flags e, tp_last_announce e)) /\
  StronglySorted (fun a b => tp_flags b <= tp_flags a) peers.
Proof. apply announce_returns, run_trackers_represents, new_represents. Qed.

(** ** The text protocol *)
Lemma span_app (f : ascii -> bool) a s :
  Forall (fun c => f c = true) a -> match s with c :: _ => f c = false | [] => True end ->
  span f (a ++ s) = a.
Proof.
  intros Ha Hs. induction Ha as [|c a Hc _ IH]; cbn [app span].
  - destruct s as [|c s]; [done|]. cbn. by rewrite Hs.
  - by rewrite Hc, IH.
Qed.

Lemma span_nil (f : ascii -> bool) s :
  match s with c :: _ => f c = false | [] => True end -> span f s = [].
Proof. destruct s as [|c s]; [done|]. cbn. by intros ->. Qed.

(** A search from behind a known prefix. *)
Lemma find_from_app pat a s : find_from pat (a ++ s) (length a) = Nat.add (length a) <$> find pat s.
Proof.
  unfold find_from. rewrite decide_True by (rewrite length_app; lia). by rewrite drop_app_length.
Qed.

(** What may follow a number. *)
Definition num_end (s : text) : Prop :=
  match s with c :: _ => is_digit c = false /\ c <> "-"%char | [] => True end.

Lemma extract_int_at a key n rest :
  let obj := a ++ quoted (txt key) ++ ":"%char :: print_dec n ++ rest in
  find (quoted (txt key)) obj = Some (length a) -> is_u64 n -> num_end rest ->
  json_extract_int obj key = Ok n.
Proof.
  intros obj Hf Hn Hr. unfold json_extract_int. rewrite Hf. cbv zeta. unfold obj.
  rewrite app_assoc, <-length_app, find_from_app.
  replace (find [":"%char] (":"%char :: print_dec n ++ rest)) with (Some 0%nat) by reflexivity.
  cbn [fmap option_fmap option_map].
  destruct (print_dec_spec n) as (Hd & _ & Hne); [unfold is_u64 in Hn; lia|].
  rewrite Nat.add_0_r, drop_app_ge by lia.
  replace (length (a ++ quoted (txt key)) + 1 - length (a ++ quoted (txt key)))%nat with 1%nat by lia.
  rewrite skipn_cons, drop_0, (span_nil _ (print_dec n ++ rest)).
  2: { destruct (print_dec n) as [|c ds]; [done|]. apply Forall_cons in Hd as [Hc _].
       cbn. by rewrite !bool_decide_false by (by intros ->). }
  cbn [length]. rewrite drop_0, span_app.
  - destruct (print_dec n) as [|c ds] eqn:E; [done|]. rewrite <-E.
    rewrite <-(app_nil_r (print_dec n)). by apply stoull_print.
  - eapply Forall_impl; [exact Hd|]. intros c Hc. cbv beta. by rewrite Hc.
  - destruct rest as [|c rest]; [done|]. destruct Hr as [-> Hc]. by rewrite bool_decide_false.
Qed.

Lemma extract_string_at a key v rest :
  let obj := a ++ quoted (txt key) ++ ":"%char :: quote :: v ++ quote :: rest in
  find (quoted (txt key)) obj = Some (length a) -> unquoted v ->
  json_extract_string obj key = v.
Proof.
  intros obj Hf Hv. unfold json_extract_string. rewrite Hf. cbv zeta. unfold obj.
  rewrite app_assoc, <-length_app, find_from_app.
  replace (find [":"%char] (":"%char :: quote :: v ++ quote :: rest)) with (Some 0%nat) by reflexivity.
  cbn [fmap option_fmap option_map]. rewrite Nat.add_0_r.
  set (b := a ++ quoted (txt key)). clearbody b.
  change (b ++ ":"%char :: quote :: v ++ quote :: rest)
    with (b ++ [":"%char] ++ quote :: v ++ quote :: rest).
  rewrite app_assoc. replace (length b + 1)%nat with (length (b ++ [":"%char])) by (rewrite length_app; done).
  rewrite find_from_app.
  replace (find [quote] (quote :: v ++ quote :: rest)) with (Some 0%nat) by reflexivity.
  cbn [fmap option_fmap option_map]. rewrite Nat.add_0_r. set (d := b ++ [":"%char]). clearbody d.
  change (d ++ quote :: v ++ quote :: rest) with (d ++ [quote] ++ v ++ quote :: rest).
  rewrite app_assoc. replace (length d + 1)%nat with (length (d ++ [quote])) by (rewrite length_app; done).
  rewrite find_from_app, find_char by done. cbn [fmap option_fmap option_map].
  unfold substr. rewrite drop_app_length.
  replace (_ + _ - _ - _)%nat with (length v) by (rewrite length_app; cbn; lia).
  by rewrite take_app_length.
Qed.

(** A digest in hexadecimal, as [sha1_hex] prints it. *)
Definition hex_char (c : ascii) : bool :=
  is_digit c || ((97 <=? Ascii.nat_of_ascii c)%nat && (Ascii.nat_of_ascii c <=? 102)%nat).

Definition hex_text (s : text) : Prop := s <> [] /\ Forall (fun c => hex_char c = true) s.

Lemma forall_unquoted (f : ascii -> bool) s :
  f quote = false -> Forall (fun c => f c = true) s -> unquoted s.
Proof. unfold unquoted. intros Hq Hs Hin. rewrite Forall_forall in Hs. apply Hs in Hin. congruence. Qed.

Lemma unquoted_dec n : 0 <= n -> unquoted (print_dec n).
Proof. intros Hn. destruct (print_dec_spec n Hn) as [Hd _]. by apply (forall_unquoted is_digit). Qed.

Lemma unquoted_app a b : unquoted a -> unquoted b -> unquoted (a ++ b).
Proof. unfold unquoted. rewrite elem_of_app. tauto. Qed.

Lemma unquoted_check s : bool_decide (quote ∈ s) = false -> unquoted s.
Proof. by intros H%bool_decide_eq_false. Qed.

#[local] Hint Resolve unquoted_dec unquoted_app : thinbt.
#[local] Hint Extern 1 (unquoted _) => (apply unquoted_check; reflexivity) : thinbt.

Lemma hex_ne h s : hex_text h -> Exists (fun c => hex_char c = false) s -> s <> h.
Proof. intros [_ Hh] Hs ->. rewrite Exists_exists in Hs. destruct Hs as (c & Hin & Hc).
  rewrite Forall_forall in Hh. apply Hh in Hin. congruence. Qed.

Lemma announce_request_pieces c :
  announce_request c = pieces
    [txt "{"; txt "op"; txt ":"; txt "announce"; txt ","; txt "info_hash"; txt ":"; info_hash_hex_ c;
     txt ","; txt "port"; txt ":" ++ print_dec (client_port_ c) ++ txt ","; txt "speed_mbps";
     txt ":" ++ print_dec (client_speed_ c) ++ txt "}" ++ [newline]].
Proof. unfold announce_request. cbn. rewrite <-!app_assoc. reflexivity. Qed.

Lemma no_match_notin k t pre rest : k ∉ pre -> no_match k t pre rest.
Proof.
  induction pre as [|w pre IH]; [done|]. rewrite not_elem_of_cons. intros [H1 H2]. cbn.
  split; [done|auto].
Qed.

Lemma extract_int_pieces key w0 pre n rest post :
  unquoted (txt key) -> unquoted w0 -> Forall unquoted pre -> txt key ∉ pre -> is_u64 n ->
  rest <> [] -> num_end rest ->
  json_extract_int (pieces (w0 :: pre ++ txt key :: (txt ":" ++ print_dec n ++ rest) :: post)) key = Ok n.
Proof.
  intros Hk H0 Hpre Hnin Hn Hne Hend.
  destruct (find_quoted_word (txt key) [] w0 pre ((txt ":" ++ print_dec n ++ rest) :: post))
    as [H1 H2]; [done..|by apply no_match_notin|done|done|].
  assert (exists r, pieces ((txt ":" ++ print_dec n ++ rest) :: post) = ":"%char :: print_dec n ++ r /\
                    num_end r) as (r & Hr & Hnr).
  { destruct post as [|p post]; [by exists rest|]. eexists. split.
    - rewrite pieces_cons by done. cbn. by rewrite <-app_assoc.
    - destruct rest as [|c rest]; [done|]. done. }
  rewrite Hr in H1. rewrite H1 in H2 |- *. by apply extract_int_at.
Qed.

Lemma extract_string_pieces key w0 pre v post :
  unquoted (txt key) -> unquoted w0 -> Forall unquoted pre -> txt key ∉ pre -> unquoted v ->
  post <> [] ->
  json_extract_string (pieces (w0 :: pre ++ txt key :: txt ":" :: v :: post)) key = v.
Proof.
  intros Hk H0 Hpre Hnin Hv Hpost.
  destruct (find_quoted_word (txt key) [] w0 pre (txt ":" :: v :: post))
    as [H1 H2]; [done..|by apply no_match_notin|done|done|].
  rewrite (pieces_cons (txt ":")), (pieces_cons v) in H1 by done.
  rewrite H1 in H2 |- *. by apply extract_string_at.
Qed.

(** The side conditions of the lemmas above. *)
Ltac piece_side :=
  solve [ done | unfold is_u64; lia | by auto with thinbt | by split
        | rewrite !not_elem_of_cons; split_and!; (done || apply not_elem_of_nil)
        | repeat (apply Forall_cons; split); [..|by constructor];
          repeat apply unquoted_app; (apply unquoted_dec; lia) || by auto with thinbt ].

Lemma announce_request_fields c :
  hex_text (info_hash_hex_ c) -> is_u16 (client_port_ c) -> is_u32 (client_speed_ c) ->
  json_extract_string (announce_request c) "info_hash" = info_hash_hex_ c /\
  json_extract_int (announce_request c) "port" = Ok (client_port_ c) /\
  json_extract_int (announce_request c) "speed_mbps" = Ok (client_speed_ c).
Proof.
  intros Hh Hp Hs. rewrite announce_request_pieces. unfold is_u16, is_u32 in *.
  assert (unquoted (info_hash_hex_ c)) as Hq by (apply (forall_unquoted hex_char); [done|apply Hh]).
  assert (txt "port" <> info_hash_hex_ c) as Hne1 by (apply hex_ne; [done|by apply Exists_cons_hd]).
  assert (txt "speed_mbps" <> info_hash_hex_ c) as Hne2
    by (apply hex_ne; [done|by apply Exists_cons_hd]).
  split_and!.
  - apply (extract_string_pieces "info_hash" (txt "{") [txt "op"; txt ":"; txt "announce"; txt ","]);
      piece_side.
  - apply (extract_int_pieces "port" (txt "{") [txt "op"; txt ":"; txt "announce"; txt ",";
      txt "info_hash"; txt ":"; info_hash_hex_ c; txt ","]); piece_side.
  - apply (extract_int_pieces "speed_mbps" (txt "{") [txt "op"; txt ":"; txt "announce"; txt ",";
      txt "info_hash"; txt ":"; info_hash_hex_ c; txt ","; txt "port";
      txt ":" ++ print_dec (client_port_ c) ++ txt ","] _ (txt "}" ++ [newline]) []); piece_side.
Qed.

(** The JSON value of a response. *)
Definition peer_value (p : TrackerPeerEntry) : json :=
  JObj [(txt "ip", JStr (txt (tp_ip p))); (txt "port", JNum (tp_port p)); (txt "flags", JNum (tp_flags p))].

Definition response_value (peers : list TrackerPeerEntry) : json :=
  JObj [(txt "interval", JNum 30); (txt "peers", JArr (peer_value <$> peers))].

Definition entry_plain (p : TrackerPeerEntry) : Prop :=
  plain_text (txt (tp_ip p)) /\ is_u16 (tp_port p) /\ is_u8 (tp_flags p).

Lemma peer_text_printed p : peer_text p = print_json (peer_value p).
Proof. unfold peer_text. cbn. rewrite <-?app_assoc. cbn. rewrite <-?app_assoc. reflexivity. Qed.

Lemma announce_response_printed ps :
  announce_response ps = print_json (response_value ps) ++ [newline].
Proof.
  unfold announce_response, response_value. cbn [print_json map fst snd].
  assert (peer_text <$> ps = map print_json (peer_value <$> ps)) as ->.
  { induction ps as [|p ps IH]; [done|]. cbn [fmap list_fmap map].
    f_equal; [apply peer_text_printed|exact IH]. }
  generalize (commas (map print_json (peer_value <$> ps))). intros t.
  replace (print_dec 30) with (txt "30") by reflexivity. cbn. rewrite <-?app_assoc. cbn. rewrite <-?app_assoc. reflexivity.
Qed.

Lemma response_value_plain ps : Forall entry_plain ps -> plain (response_value ps).
Proof.
  intros H. cbn. split_and!; try done; try (by repeat constructor). induction H as [|p ps (H1 & H2 & H3) _ IH]; [done|].
  split; [|done]. unfold is_u16, is_u8 in *. cbn. unfold is_u64.
  split_and!; try done; try lia; by repeat constructor.
Qed.

Definition pex_of (inet_addr : string -> Z) (p : TrackerPeerEntry) : PexPeer :=
  {| pex_ip := inet_addr (tp_ip p); pex_port := hton16 (tp_port p); pex_flags := tp_flags p;
     pex_reserved := 0 |}.

Lemma parse_peer_value inet_addr p :
  entry_plain p -> parse_peer inet_addr (peer_value p) = Some (Some (pex_of inet_addr p)).
Proof.
  intros (H1 & H2 & H3). unfold is_u16, is_u8 in *.
  assert (obj_get (peer_value p) "ip" = Some (JStr (txt (tp_ip p)))) as E1 by reflexivity.
  assert (obj_get (peer_value p) "port" = Some (JNum (tp_port p))) as E2 by reflexivity.
  assert (obj_get (peer_value p) "flags" = Some (JNum (tp_flags p))) as E3 by reflexivity.
  unfold parse_peer. rewrite E1, E2, E3. cbn [peer_value get_str get_uint mbind option_bind].
  unfold txt. rewrite String.string_of_list_ascii_of_string, !u64_small by (unfold is_u64; lia).
  by rewrite u16_small, u8_small.
Qed.

Lemma parse_response_value `{JsonReader} inet_addr ps :
  Forall entry_plain ps ->
  parse_tracker_response inet_addr (announce_response ps) = Some (pex_of inet_addr <$> ps).
Proof.
  intros Hp. unfold parse_tracker_response.
  rewrite announce_response_printed, json_read_print by by apply response_value_plain.
  replace (obj_get (response_value ps) "error") with (@None json) by reflexivity.
  replace (obj_get (response_value ps) "peers") with (Some (JArr (peer_value <$> ps))) by reflexivity.
  induction Hp as [|p ps (H1 & H2 & H3) _ IH]; [done|]. cbn [fmap list_fmap parse_peers].
  assert (parse_peer inet_addr (peer_value p) = Some (Some (pex_of inet_addr p))) as ->.
  { by apply parse_peer_value. }
  cbn [mbind option_bind]. by rewrite IH.
Qed.

Lemma filter_all {A} (P : A -> Prop) `{forall x, Decision (P x)} l : Forall P l -> filter P l = l.
Proof. induction 1 as [|x l Hx _ IH]; [done|]. by rewrite filter_cons_True, IH. Qed.

Lemma announced_plain s hash ip port speed now :
  plain_text (txt ip) -> is_u16 port -> Forall entry_plain (swarm s hash) ->
  Forall (fun e => entry_plain e /\ endpoint e <> (ip, port))
    (server_announce s hash ip port speed now).2.
Proof.
  intros Hip Hport Hs. unfold server_announce. cbn [snd]. apply Forall_forall. intros e.
  rewrite elem_of_sort_by, list_elem_of_filter. intros [Hne He]. split; [|done].
  set (e0 := {| tp_ip := ip |}) in He.
  assert (forall l, Forall entry_plain l -> forall l', replace_entry e0 l = Some l' -> e ∈ l' -> e <> e0 -> entry_plain e) as Hr.
  { induction l as [|p l IH]; intros Hl l' Hl' Hin Hne'; [done|]. cbn in Hl'.
    apply Forall_cons in Hl as [Hp Hl]. destruct (decide _).
    - injection Hl' as <-. apply elem_of_cons in Hin as [->|Hin]; [done|].
      rewrite Forall_forall in Hl. auto.
    - destruct (replace_entry e0 l) as [l1|]; [|done]. injection Hl' as <-.
      apply elem_of_cons in Hin as [->|Hin]; eauto. }
  assert (e <> e0) as Hne0 by (by intros ->).
  destruct (replace_entry e0 (swarm s hash)) as [l'|] eqn:E; [by eapply Hr|].
  apply elem_of_app in He as [He|He%list_elem_of_singleton]; [|done].
  rewrite Forall_forall in Hs. auto.
Qed.

(** The exchange as text. *)
Lemma announce_text `{JsonReader} inet_addr s c ip now :
  hex_text (info_hash_hex_ c) -> is_u16 (client_port_ c) -> is_u32 (client_speed_ c) ->
  plain_text (txt ip) ->
  let hash := String.string_of_list_ascii (info_hash_hex_ c) in
  Forall entry_plain (swarm s hash) ->
  let '(s', peers) := server_announce s hash ip (client_port_ c) (client_speed_ c) now in
  exists resp, handle_announce s (announce_request c) (Some ip) now = Ok (s', resp) /\
    parse_tracker_response inet_addr resp = Some (pex_of inet_addr <$> peers).
Proof.
  intros Hh Hp Hs Hip hash Hsw.
  pose proof (announced_plain s hash ip (client_port_ c) (client_speed_ c) now Hip Hp Hsw) as Hpl.
  destruct (announce_request_fields c Hh Hp Hs) as (H1 & H2 & H3).
  unfold handle_announce. rewrite H1, H2, H3. cbn [rbind].
  rewrite u16_small, u32_small by done. cbn [default]. fold hash.
  destruct (info_hash_hex_ c) as [|c0 h0] eqn:E; [by destruct Hh|].
  destruct (server_announce _ _ _ _ _ _) as [s' peers]. cbn [snd] in Hpl.
  eexists. split; [done|]. apply Forall_and in Hpl as [Hpl Hne].
  rewrite filter_all by done. by apply parse_response_value.
Qed.

(** C25: An announce is an exact exchange: the request a client sends makes the
    acceptor announce the client's torrent, port and speed under the address
    it sees, and the response it prints is read by the client as exactly the
    peers the server returned, in order. *)
Theorem announce_exchange `{JsonReader} inet_addr s c ip now :
  hex_text (info_hash_hex_ c) -> is_u16 (client_port_ c) -> is_u32 (client_speed_ c) ->
  plain_text (txt ip) ->
  let hash := String.string_of_list_ascii (info_hash_hex_ c) in
  Forall entry_plain (swarm s hash) ->
  let '(s', peers) := server_announce s hash ip (client_port_ c) (client_speed_ c) now in
  exists resp, handle_announce s (announce_request c) (Some ip) now = Ok (s', resp) /\
    parse_tracker_response inet_addr resp = Some (pex_of inet_addr <$> peers).
Proof. apply announce_text. Qed.

Definition demo_client : TrackerClient := client_new (txt "0af3") 6881 1000.

Definition demo_server : TrackerServer :=
  (server_announce (server_new 8080) "0af3" "10.0.0.2" 6882 100 5).1.

Lemma announce_exchange_witness :
  exists s' resp, handle_announce demo_server (announce_request demo_client) (Some "10.0.0.1"%string) 7 = Ok (s', resp) /\
    parse_tracker_response (fun _ => 33554442) resp =
      Some [{| pex_ip := 33554442; pex_port := hton16 6882; pex_flags := 0; pex_reserved := 0 |}].
Proof.
  pose proof (announce_exchange (fun _ => 33554442) demo_server demo_client "10.0.0.1" 7) as H.
  destruct H as (resp & H1 & H2).
  - split; [done|]. by repeat constructor.
  - by unfold is_u16; cbn.
  - by unfold is_u32; cbn.
  - by repeat constructor.
  - repeat constructor; unfold is_u16, is_u8; cbn; lia.
  - eexists _, resp. split; [exact H1|exact H2].
Defined.

(** A port that is not a number makes the acceptor throw; nothing catches the
    exception before [ioc.run()] returns. *)
Theorem malformed_announce_throws s remote now :
  handle_announce s (js "{'info_hash':'0af3','port':-}" ++ [newline]) remote now = Err InvalidArgument.
Proof. reflexivity. Qed.

(** ** Retries *)
Definition failed (o : outcome) : Prop := match o with Response _ => False | _ => True end.

(** The connection fails as [o] says, then the retry timer, if there is one,
    fires. *)
Definition fail_round `{JsonReader} (inet_addr : string -> Z) (resolves : text -> bool)
  (c : TrackerClient) (o : outcome) : result client_error TrackerClient :=
  let! c := attempt_done inet_addr c 0 o in timer_fired resolves c 0 false.

Fixpoint fail_rounds `{JsonReader} (inet_addr : string -> Z) (resolves : text -> bool)
  (c : TrackerClient) (os : list outcome) : result client_error TrackerClient :=
  match os with
  | [] => Ok c
  | o :: os => let! c := fail_round inet_addr resolves c o in fail_rounds inet_addr resolves c os
  end.

(** One connection in progress after [n] retries. *)
Record retrying (c : TrackerClient) (host : text) (port n : Z) : Prop := {
  rt_enabled : retry_enabled_ c = true;
  rt_on_dead : on_dead_ c = true;
  rt_signalled : dead_signalled_ c = false;
  rt_count : retry_count_ c = n;
  rt_attempts : attempts_ c = [(host, port)];
  rt_timers : timers_ c = [];
}.

Lemma fail_round_retries `{JsonReader} inet_addr resolves c host port n o :
  retrying c host port n -> 0 <= n < MAX_RETRIES -> failed o -> resolves host = true ->
  exists c', fail_round inet_addr resolves c o = Ok c' /\ retrying c' host port (n + 1) /\
    dead_calls_ c' = dead_calls_ c /\ delivered_ c' = delivered_ c.
Proof.
  intros [H1 H2 H3 H4 H5 H6] Hn Ho Hr. unfold fail_round, attempt_done. rewrite H5. cbn [lookup list_lookup].
  assert (schedule_retry { c with attempts_ ::= delete 0%nat } host port =
    { c with attempts_ := []; retry_count_ := n + 1; timers_ := [(RetryTimer, host, port)] }) as Hs.
  { unfold schedule_retry. cbn. rewrite H1, H4, H5, H6. unfold MAX_RETRIES in *. cbn [negb orb].
    replace (240 <=? n) with false by lia. cbn. rewrite u32_small by (unfold is_u32; lia). done. }
  eexists. split; [destruct o; try done; cbn [rbind]; rewrite Hs; unfold timer_fired; cbn;
    unfold do_announce; rewrite Hr; reflexivity|].
  split; [by split|done].
Qed.

Lemma fail_round_dies `{JsonReader} inet_addr resolves c host port o :
  retrying c host port MAX_RETRIES -> failed o ->
  exists c', fail_round inet_addr resolves c o = Ok c' /\ attempts_ c' = [] /\ timers_ c' = [] /\
    dead_calls_ c' = S (dead_calls_ c) /\ delivered_ c' = delivered_ c.
Proof.
  intros [H1 H2 H3 H4 H5 H6] Ho. unfold fail_round, attempt_done. rewrite H5. cbn [lookup list_lookup].
  assert (schedule_retry { c with attempts_ ::= delete 0%nat } host port =
    { c with attempts_ := []; dead_signalled_ := true; dead_calls_ ::= S }) as Hs.
  { unfold schedule_retry. cbn. rewrite H1, H2, H3, H4, H5. done. }
  eexists. split; [destruct o; try done; cbn [rbind]; rewrite Hs; unfold timer_fired; cbn;
    rewrite H6; reflexivity|]. cbn. done.
Qed.

Lemma fail_rounds_retry `{JsonReader} inet_addr resolves os c host port n :
  retrying c host port n -> 0 <= n -> n + zlength os <= MAX_RETRIES -> Forall failed os ->
  resolves host = true ->
  exists c', fail_rounds inet_addr resolves c os = Ok c' /\ retrying c' host port (n + zlength os) /\
    dead_calls_ c' = dead_calls_ c /\ delivered_ c' = delivered_ c.
Proof.
  intros Hc Hn Hl Ho Hr. revert c n Hc Hn Hl.
  induction Ho as [|o os Ho _ IH]; intros c n Hc Hn Hl.
  - exists c. split; [done|]. split; [by rewrite Z.add_0_r|done].
  - unfold zlength in *. cbn [length] in Hl.
    destruct (fail_round_retries inet_addr resolves c host port n o) as (c1 & H1 & Hc1 & H2 & H3);
      [done|lia|done..|].
    destruct (IH c1 (n + 1) Hc1) as (c2 & H4 & Hc2 & H5 & H6); [lia..|].
    exists c2. cbn [fail_rounds]. rewrite H1. cbn [rbind]. rewrite H4.
    split; [done|]. split; [|split; congruence].
    cbn [length]. by replace (n + Z.of_nat (S (length os))) with (n + 1 + Z.of_nat (length os)) by lia.
Qed.

(** C31: A client whose tracker cannot be reached gives up: an announce is
    tried 241 times, after each failure but the last there is again exactly
    one connection in progress, and after the last nothing is pending and the
    task has been told once that the tracker is dead. *)
Theorem client_gives_up `{JsonReader} inet_addr resolves c host port os :
  retry_enabled_ c = true -> on_dead_ c = true -> attempts_ c = [] -> timers_ c = [] ->
  resolves host = true -> Forall failed os -> zlength os <= MAX_RETRIES + 1 ->
  exists c0 c', client_announce resolves c host port = Ok c0 /\
    fail_rounds inet_addr resolves c0 os = Ok c' /\ delivered_ c' = delivered_ c /\
    if zlength os <=? MAX_RETRIES
    then attempts_ c' = [(host, port)] /\ timers_ c' = [] /\ dead_calls_ c' = dead_calls_ c
    else attempts_ c' = [] /\ timers_ c' = [] /\ dead_calls_ c' = S (dead_calls_ c).
Proof.
  intros H1 H2 H3 H4 Hr Hos Hl. unfold client_announce, do_announce. rewrite Hr.
  match goal with |- context [Ok ?c0 = Ok _] => set (c1 := c0); exists c1 end.
  assert (retrying c1 host port 0) as Hc1 by (split; cbn; rewrite ?H3; done).
  assert (dead_calls_ c1 = dead_calls_ c /\ delivered_ c1 = delivered_ c) as [Hd Hv] by done.
  clearbody c1. destruct (Z.leb_spec (zlength os) MAX_RETRIES) as [Hle|Hgt].
  - destruct (fail_rounds_retry inet_addr resolves os c1 host port 0 Hc1) as (c' & Hf & [] & ? & ?);
      [lia..|done|done|]. exists c'. split; [done|]. split_and!; try done; congruence.
  - destruct os as [|o os _] using rev_ind; [unfold zlength in Hgt; cbn in Hgt; unfold MAX_RETRIES in Hgt; lia|].
    rewrite zlength_app in *. change (zlength [o]) with 1 in *.
    apply Forall_app in Hos as [Hos Ho]. rewrite Forall_singleton in Ho.
    destruct (fail_rounds_retry inet_addr resolves os c1 host port 0 Hc1) as (c2 & Hf & Hc2 & H5 & H6);
      [lia..|done|done|]. replace (0 + zlength os) with MAX_RETRIES in Hc2 by lia.
    destruct (fail_round_dies inet_addr resolves c2 host port o Hc2 Ho) as (c' & Hf' & H7 & H8 & H9 & H10).
    exists c'. split; [done|]. split; [|split_and!; congruence].
    clear -Hf Hf'. revert c1 Hf. induction os as [|o' os IH]; intros c1 Hf; cbn [app fail_rounds] in *.
    + injection Hf as ->. rewrite Hf'. done.
    + destruct (fail_round _ _ c1 o') as [c3|]; [|done]. cbn [rbind] in *. by apply IH.
Qed.

Lemma client_gives_up_witness :
  exists c0 c', client_announce (fun _ => true) { demo_client with on_dead_ := true } (txt "t") 80 = Ok c0 /\
    fail_rounds (fun _ => 0) (fun _ => true) c0 (replicate 241 ConnectFailed) = Ok c' /\
    attempts_ c' = [] /\ timers_ c' = [] /\ dead_calls_ c' = 1%nat.
Proof.
  destruct (client_gives_up (fun _ => 0) (fun _ => true) { demo_client with on_dead_ := true } (txt "t") 80
    (replicate 241 ConnectFailed)) as (c0 & c' & H1 & H2 & _ & H3 & H4 & H5);
    [done..|by apply Forall_replicate|by vm_compute|]. by exists c0, c'.
Defined.

(** *** Polls for more peers *)
(** What happens while the tracker answers and knows no other peer. *)
Inductive poll_op := PAnnounce (host : text) (port : Z) | PAnswer (i : nat) | PTimer (i : nat).

Definition run_poll `{JsonReader} (inet_addr : string -> Z) (c : TrackerClient) (o : poll_op)
  : result client_error TrackerClient :=
  match o with
  | PAnnounce host port => client_announce (fun _ => true) c host port
  | PAnswer i => attempt_done inet_addr c i (Response (announce_response []))
  | PTimer i => timer_fired (fun _ => true) c i false
  end.

Fixpoint run_polls `{JsonReader} (inet_addr : string -> Z) (c : TrackerClient) (ops : list poll_op)
  : result client_error TrackerClient :=
  match ops with
  | [] => Ok c
  | o :: ops => let! c := run_poll inet_addr c o in run_polls inet_addr c ops
  end.

(** Connections and timers that will announce again. *)
Definition chains (c : TrackerClient) : nat := length (attempts_ c) + length (timers_ c).

Definition announces (ops : list poll_op) : nat :=
  sum_list_with (fun o => match o with PAnnounce _ _ => 1 | _ => 0 end)%nat ops.

(** Every announce of a torrent nobody else has adds a chain of polls that
    never ends: their number is the number of announces made. *)
Theorem polls_accumulate `{JsonReader} inet_addr c ops :
  retry_enabled_ c = true ->
  exists c', run_polls inet_addr c ops = Ok c' /\ chains c' = (chains c + announces ops)%nat.
Proof.
  intros Hc. revert c Hc. induction ops as [|o ops IH]; intros c Hc.
  { exists c. split; [done|]. unfold announces. cbn. lia. }
  assert (exists c1, run_poll inet_addr c o = Ok c1 /\ retry_enabled_ c1 = true /\
    chains c1 = (chains c + announces [o])%nat) as (c1 & H1 & H2 & H3).
  { unfold chains, announces. destruct o as [host port|i|i]; cbn [run_poll].
    - eexists. split; [done|]. cbn. split; [done|]. rewrite length_app. cbn. lia.
    - unfold attempt_done. destruct (attempts_ c !! i) as [[h p]|] eqn:E; [|exists c; cbn; by rewrite Nat.add_0_r].
      rewrite parse_response_value by constructor. cbn [fmap list_fmap].
      unfold schedule_empty_poll. cbn. rewrite Hc. cbn. eexists. split; [done|]. cbn. split; [done|].
      pose proof (lookup_lt_Some _ _ _ E). rewrite length_app, length_delete by eauto. cbn. lia.
    - unfold timer_fired. destruct (timers_ c !! i) as [[[k h] p]|] eqn:E; [|exists c; cbn; by rewrite Nat.add_0_r].
      pose proof (lookup_lt_Some _ _ _ E).
      destruct k; cbn; eexists; (split; [done|]); cbn; (split; [done|]);
        rewrite length_app, length_delete by eauto; cbn; lia. }
  destruct (IH c1 H2) as (c' & H4 & H5). exists c'. cbn [run_polls]. rewrite H1. cbn [rbind].
  split; [done|]. rewrite H5, H3. unfold announces. cbn. lia.
Qed.
