(* ===== verification/PeerSessionSpec.v ===== *)
(** * What a session guarantees

    The read chain recovers the messages from the byte stream however TCP
    cuts it; the handlers decode what the builders of [Protocol] encode; the
    write queue keeps the order of the messages and one write at a time; the
    scheduler behind a session only ever sees its own events; the periodic
    evaluation cancels what is overdue and keeps the pipeline within its
    limits.  Four theorems show where the code falls short: short bodies are
    over-read, a cancelled sub-block is refused for ever, the sendfile path
    starts a second concurrent write, and it does not resume a partial one. *)

From Stdlib Require Import SpecFloat.
From S2P Require Import Prelude Platform Protocol ChunkAssembler Scheduler SchedulerProofs SchedulerSpec PeerSession.
Import OCamlLikeNotations.

(** ** Framing *)
(** The stream arrives in segments. *)
Fixpoint read_segments (r : reader) (segs : list bytes) : reader * list (Z * bytes) :=
  match segs with
  | [] => (r, [])
  | bs :: segs =>
    let '(r, ms) := read_bytes r bs in
    let '(r, ms') := read_segments r segs in (r, ms ++ ms')
  end.

Lemma read_bytes_app r a b :
  read_bytes r (a ++ b) =
  let '(r1, m1) := read_bytes r a in let '(r2, m2) := read_bytes r1 b in (r2, m1 ++ m2).
Proof.
  revert r. induction a as [|x a IH]; intros r; simpl.
  { by destruct (read_bytes r b). }
  destruct (read_byte r x) as [r0 m0]. rewrite IH.
  destruct (read_bytes r0 a) as [r1 m1]. destruct (read_bytes r1 b) as [r2 m2].
  by rewrite app_assoc.
Qed.

Lemma read_segments_concat r segs : read_segments r segs = read_bytes r (concat segs).
Proof.
  revert r. induction segs as [|bs segs IH]; intros r; [done|]. simpl.
  rewrite read_bytes_app. destruct (read_bytes r bs) as [r1 m1]. by rewrite IH.
Qed.

Lemma read_header_fill bs buf :
  zlength buf + zlength bs < 5 -> read_bytes (RHeader buf) bs = (RHeader (buf ++ bs), []).
Proof.
  revert buf. induction bs as [|b bs IH]; intros buf H; [simpl; by rewrite app_nil_r|].
  rewrite (cons_middle b buf bs), app_assoc. cbn [read_bytes read_byte].
  assert (zlength (b :: bs) = 1 + zlength bs) as Hl by (unfold zlength; simpl; lia).
  assert (zlength (buf ++ [b]) = zlength buf + 1) as Hl2 by (rewrite zlength_app; done).
  pose proof (zlength_nonneg bs).
  replace (_ =? 5) with false by lia. by rewrite IH by lia.
Qed.

Lemma read_body_fill id len bs buf :
  bs <> [] -> zlength buf + zlength bs = len ->
  read_bytes (RBody id len buf) bs = (RHeader [], [(id, buf ++ bs)]).
Proof.
  revert buf. induction bs as [|b bs IH]; intros buf Hne H; [done|].
  rewrite (cons_middle b buf bs), app_assoc. cbn [read_bytes read_byte].
  assert (zlength (b :: bs) = 1 + zlength bs) as Hl by (unfold zlength; simpl; lia).
  assert (zlength (buf ++ [b]) = zlength buf + 1) as Hl2 by (rewrite zlength_app; done).
  destruct bs as [|b' bs].
  - change (zlength []) with 0 in Hl. replace (_ =? len) with true by lia. simpl. by rewrite app_nil_r.
  - pose proof (zlength_nonneg bs). assert (zlength (b' :: bs) = 1 + zlength bs)
      by (unfold zlength; simpl; lia).
    replace (_ =? len) with false by lia. by rewrite IH by (done || lia).
Qed.

Lemma read_body_part id len bs buf :
  zlength buf + zlength bs < len -> read_bytes (RBody id len buf) bs = (RBody id len (buf ++ bs), []).
Proof.
  revert buf. induction bs as [|b bs IH]; intros buf H; [simpl; by rewrite app_nil_r|].
  rewrite (cons_middle b buf bs), app_assoc. cbn [read_bytes read_byte].
  assert (zlength (b :: bs) = 1 + zlength bs) as Hl by (unfold zlength; simpl; lia).
  assert (zlength (buf ++ [b]) = zlength buf + 1) as Hl2 by (rewrite zlength_app; done).
  pose proof (zlength_nonneg bs). replace (_ =? len) with false by lia. by rewrite IH by lia.
Qed.

Lemma parse_header_only id n :
  0 <= n < 2 ^ 32 - 1 ->
  parse_message_header (be_bytes 4 (1 + n) ++ [byte.of_Z (msg_code id)]) = Some (1 + n, msg_code id).
Proof.
  intros Hn. set (payload := replicate (Z.to_nat n) Byte.x00).
  assert (zlength payload = n) as Hp by (unfold zlength, payload; rewrite length_replicate; lia).
  pose proof (parse_frame id payload []) as Hf. unfold frame in Hf. rewrite Hp in Hf.
  set (h := be_bytes 4 (1 + n)) in *. assert (zlength h = 4) as Hh by apply zlength_be_bytes.
  rewrite <- Hf by lia. unfold parse_message_header. rewrite app_nil_r.
  replace (zlength (h ++ _) <? 5) with false by (rewrite zlength_app, Hh; done).
  replace (zlength (h ++ _ ++ _) <? 5) with false
    by (rewrite !zlength_app, Hh; change (zlength [_]) with 1; lia).
  assert (length h = 4%nat) as Hl by apply length_be_bytes.
  unfold load. by rewrite !take_app_length', !drop_app_length' by done.
Qed.

(** The five bytes before a payload of [n] bytes. *)
Lemma read_header id n :
  0 <= n <= MAX_MSG_SIZE ->
  read_bytes (RHeader []) (be_bytes 4 (1 + n) ++ [byte.of_Z (msg_code id)]) =
  if n =? 0 then (RHeader [], [(msg_code id, [])]) else (RBody (msg_code id) n [], []).
Proof.
  unfold MAX_MSG_SIZE. intros Hn. pose proof (parse_header_only id n) as Hd.
  set (h := be_bytes 4 (1 + n)) in *. assert (zlength h = 4) as Hh by apply zlength_be_bytes.
  rewrite read_bytes_app, (read_header_fill h []) by (rewrite Hh; done).
  cbn [app read_bytes read_byte]. rewrite zlength_app, Hh. change (4 + zlength [_] =? 5) with true. cbn iota.
  unfold header_done. rewrite Hd by lia. rewrite u32_small by (unfold is_u32; lia).
  replace (1 + n - 1) with n by lia. unfold MAX_MSG_SIZE. replace (_ <? _) with false by lia.
  by destruct (n =? 0).
Qed.

Lemma read_frame id payload :
  zlength payload <= MAX_MSG_SIZE ->
  read_bytes (RHeader []) (frame id payload) = (RHeader [], [(msg_code id, payload)]).
Proof.
  intros Hlen. pose proof (zlength_nonneg payload) as H0. unfold frame.
  rewrite app_assoc, read_bytes_app, read_header by lia. destruct payload as [|b payload]; [done|].
  replace (_ =? 0) with false by (unfold zlength; simpl; lia). by rewrite read_body_fill.
Qed.

(** A message that is cut leaves the reader inside of it. *)
Lemma read_cut_frame id payload p q :
  zlength payload <= MAX_MSG_SIZE -> frame id payload = p ++ q -> p <> [] -> q <> [] ->
  exists r, read_bytes (RHeader []) p = (r, []) /\ r <> RHeader [] /\ r <> RClosed.
Proof.
  intros Hlen Hf Hp Hq. assert (0 < zlength q) by (destruct q; [done|unfold zlength; cbn; lia]).
  destruct (decide (zlength p < 5)) as [Hs|Hs].
  { exists (RHeader p). split; [by apply read_header_fill|]. split; [by intros [= ->]|done]. }
  unfold frame in Hf. rewrite app_assoc in Hf. set (h := be_bytes 4 _ ++ _) in Hf.
  assert (length h = 5%nat) as Hh by (unfold h; by rewrite length_app, length_be_bytes).
  assert (p = h ++ drop 5 p) as Ep.
  { rewrite <- (take_drop 5 p) at 1. f_equal. apply (f_equal (take 5)) in Hf.
    rewrite take_app_length' in Hf by done. rewrite take_app_le in Hf by (unfold zlength in *; lia). done. }
  assert (zlength (drop 5 p) < zlength payload) as Hd.
  { apply (f_equal zlength) in Hf. rewrite !zlength_app in Hf. unfold zlength in *. rewrite length_drop. lia. }
  pose proof (zlength_nonneg (drop 5 p)). exists (RBody (msg_code id) (zlength payload) (drop 5 p)). split.
  { rewrite Ep, read_bytes_app. unfold h. rewrite read_header by lia.
    replace (_ =? 0) with false by lia. by rewrite read_body_part by (unfold zlength in *; cbn; lia). }
  done.
Qed.

(** C24: However the byte stream is cut into segments, the read chain
    dispatches exactly the messages that were framed into it, in order, and
    waits for the next header. *)
Theorem framing_recovers_messages (ms : list (P2PMsgId * bytes)) (segs : list bytes) :
  Forall (fun m => zlength m.2 <= MAX_MSG_SIZE) ms ->
  concat segs = concat ((fun m => frame m.1 m.2) <$> ms) ->
  read_segments (RHeader []) segs = (RHeader [], (fun m => (msg_code m.1, m.2)) <$> ms).
Proof.
  intros Hms Heq. rewrite read_segments_concat, Heq. clear Heq.
  induction Hms as [|[id p] ms Hp _ IH]; [done|]. cbn [fmap list_fmap concat].
  rewrite read_bytes_app, read_frame by done. cbn [fmap list_fmap] in IH. by rewrite IH.
Qed.

Lemma framing_recovers_messages_witness :
  read_segments (RHeader []) [[Byte.x00; Byte.x00]; [Byte.x00; Byte.x01; Byte.x02; Byte.x00; Byte.x00];
      [Byte.x00; Byte.x05; Byte.x04; Byte.x00; Byte.x00; Byte.x00]; [Byte.x09]] =
  (RHeader [], [(2, []); (4, [Byte.x00; Byte.x00; Byte.x00; Byte.x09])]).
Proof.
  apply (framing_recovers_messages
    [(INTERESTED, []); (HAVE, [Byte.x00; Byte.x00; Byte.x00; Byte.x09])]).
  - repeat constructor; vm_compute; discriminate.
  - reflexivity.
Defined.

(** What the reader buffers is bounded. *)
Definition reader_ok (r : reader) : Prop :=
  match r with
  | RHeader buf => zlength buf < 5
  | RBody _ len buf => zlength buf < len <= MAX_MSG_SIZE
  | RClosed => True
  end.

Lemma read_byte_ok r b :
  reader_ok r ->
  reader_ok (read_byte r b).1 /\ Forall (fun m => zlength m.2 <= MAX_MSG_SIZE) (read_byte r b).2.
Proof.
  assert (forall buf, zlength (buf ++ [b]) = zlength buf + 1) as Hl
    by (intros; by rewrite zlength_app).
  destruct r as [buf|id len buf|]; cbn [reader_ok read_byte]; intros Hr; [| |done].
  - rewrite Hl. destruct (Z.eqb_spec (zlength buf + 1) 5).
    + unfold header_done. destruct (parse_message_header _) as [[l id]|]; [|done].
      destruct (Z.ltb_spec MAX_MSG_SIZE (u32 (l - 1))); [done|].
      pose proof (u32_range (l - 1)) as Hu. unfold is_u32 in Hu.
      destruct (Z.eqb_spec (u32 (l - 1)) 0); cbn [fst snd reader_ok].
      * split; [done|]. by repeat constructor.
      * split; [|done]. change (zlength []) with 0. lia.
    + cbn [fst snd reader_ok]. rewrite Hl. split; [lia|done].
  - rewrite Hl. destruct (Z.eqb_spec (zlength buf + 1) len); cbn [fst snd reader_ok].
    + split; [done|]. repeat constructor. cbn [snd]. rewrite Hl. lia.
    + rewrite Hl. split; [lia|done].
Qed.

(** Whatever bytes a peer sends, the reader never buffers more than the
    64 KiB limit and never dispatches a longer body. *)
Theorem framing_bounded (bs : bytes) :
  let '(r, ms) := read_bytes (RHeader []) bs in
  reader_ok r /\ Forall (fun m => zlength m.2 <= MAX_MSG_SIZE) ms.
Proof.
  assert (forall bs r, reader_ok r -> reader_ok (read_bytes r bs).1 /\
    Forall (fun m => zlength m.2 <= MAX_MSG_SIZE) (read_bytes r bs).2) as H.
  { clear bs. induction bs as [|b bs IH]; intros r Hr; [done|]. cbn [read_bytes].
    pose proof (read_byte_ok r b Hr) as [Hr1 Hm1]. destruct (read_byte r b) as [r1 m1].
    pose proof (IH r1 Hr1) as [Hr2 Hm2]. destruct (read_bytes r1 bs) as [r2 m2].
    split; [done|]. by apply Forall_app. }
  pose proof (H bs (RHeader [])) as Hb. destruct (read_bytes _ bs). by apply Hb.
Qed.

(** ** Decoding *)
Lemma read_u32_at pre v rest off :
  is_u32 v -> zlength pre = off -> read_u32 (pre ++ be_bytes 4 v ++ rest) off = Some v.
Proof.
  intros Hv Ho. unfold read_u32. pose proof (zlength_nonneg rest).
  rewrite !zlength_app, zlength_be_bytes. replace (_ <=? _) with true by lia.
  rewrite drop_app_length' by (unfold zlength in Ho; lia). by rewrite ntoh32_load_be.
Qed.

Lemma read_u32_front v rest : is_u32 v -> read_u32 (be_bytes 4 v ++ rest) 0 = Some v.
Proof. intros Hv. by apply (read_u32_at [] v rest 0). Qed.

Lemma read_u32_Some data off : off + 4 <= zlength data -> is_Some (read_u32 data off).
Proof. intros H. unfold read_u32. by replace (_ <=? _) with true by lia. Qed.

Lemma read_u32_None data off : zlength data < off + 4 -> read_u32 data off = None.
Proof. intros H. unfold read_u32. by replace (_ <=? _) with false by lia. Qed.

(** ** Every message body, and the scheduler behind the session *)
(** The bodies the handlers do not over-read. *)
Definition body_ok (s : PeerSession) (id : Z) (data : bytes) : Prop :=
  match msg_of_code id with
  | Some HAVE => 4 <= zlength data
  | Some CANCEL => 8 <= zlength data
  | Some REQUEST => choking_peer_ s = true \/ 12 <= zlength data
  | _ => True
  end.

Lemma send_interested_Some s : is_Some (send_interested s).
Proof. unfold send_interested. by destruct (am_interested_ s). Qed.

Lemma interest_if_wanted_Some s sc : is_Some (interest_if_wanted s sc).
Proof.
  destruct sc as [sc|]; [|done]. cbn [interest_if_wanted].
  destruct (wants_peer _ _); [apply send_interested_Some|done].
Qed.

Lemma handle_request_Some s data :
  is_Some (handle_request_msg s data) <-> choking_peer_ s = true \/ 12 <= zlength data.
Proof.
  unfold handle_request_msg. destruct (choking_peer_ s); [split; [by left|done]|].
  destruct (Z.leb_spec 12 (zlength data)) as [H|H].
  - split; [by right|]. intros _.
    destruct (read_u32_Some data 0) as [i ->]; [lia|].
    destruct (read_u32_Some data 4) as [b ->]; [lia|].
    destruct (read_u32_Some data 8) as [n ->]; [lia|]. cbn [mbind option_bind].
    case_bool_decide; [done|]. destruct (0 <=? _); [|done]. cbv zeta. by destruct (_ && _).
  - split; [|by intros [?|?]; [done|lia]]. rewrite (read_u32_None data 8) by lia.
    destruct (read_u32 data 0); [|by intros [? ?]].
    destruct (read_u32 data 4); by intros [? ?].
Qed.

Lemma handle_cancel_Some s data : is_Some (handle_cancel_msg s data) <-> 8 <= zlength data.
Proof.
  unfold handle_cancel_msg. destruct (Z.leb_spec 8 (zlength data)) as [H|H].
  - split; [done|]. intros _. destruct (read_u32_Some data 0) as [i ->]; [lia|].
    by destruct (read_u32_Some data 4) as [b ->]; [lia|].
  - split; [|lia]. rewrite (read_u32_None data 4) by lia.
    destruct (read_u32 data 0); by intros [? ?].
Qed.

Section reachable.
Context (speed : Z) (sizes : list Z).
Hypothesis Hn : zlength sizes < 2 ^ 32.
Hypothesis Hsizes : Forall is_u32 sizes.

Lemma have_reach s sc data now :
  reach speed sizes sc -> 4 <= zlength data ->
  exists s' sc', handle_have_msg s (Some sc) data now = Some (s', Some sc') /\
    reach speed sizes sc' /\ leaves sc sc'.
Proof using Hn Hsizes.
  intros Hr Hd. unfold handle_have_msg. destruct (read_u32_Some data 0) as [ci ->]; [lia|].
  cbn [mbind option_bind with_sched].
  destruct (inner_op_reach speed sizes sc (OpHave (slot_id_ (record_have s ci)) ci (now_ms now)) Hn Hsizes Hr)
    as (sc' & Hs & Hr' & Hi); [done|]. cbn [run_op] in Hs. rewrite Hs. cbn [mbind option_bind].
  destruct (interest_if_wanted_Some (record_have s ci) (Some sc')) as [s' ->]. by eauto.
Qed.

Lemma bitfield_reach s sc data now :
  reach speed sizes sc ->
  exists s' sc', handle_bitfield_msg s (Some sc) data now = Some (s', Some sc') /\
    reach speed sizes sc' /\ leaves sc sc'.
Proof using Hn Hsizes.
  intros Hr. unfold handle_bitfield_msg. cbv zeta. set (s0 := record_bitfield s data).
  cbn [with_sched]. destruct (inner_op_reach speed sizes sc (OpBitfield (slot_id_ s0) (remote_bitfield_ s0)
    (now_ms now)) Hn Hsizes Hr) as (sc' & Hs & Hr' & Hi); [done|].
  cbn [run_op] in Hs. rewrite Hs. cbn [mbind option_bind].
  destruct (interest_if_wanted_Some s0 (Some sc')) as [s' ->]. by eauto.
Qed.

Lemma piece_reach s sc data now :
  reach speed sizes sc ->
  exists s' sc', handle_piece_msg s (Some sc) data now = Some (s', Some sc') /\
    reach speed sizes sc' /\ leaves sc sc'.
Proof using Hn Hsizes.
  intros Hr. unfold handle_piece_msg.
  destruct (Z.ltb_spec (zlength data) 8); cbn [orb]; [by eauto|].
  destruct (negb (io_pool_ s)); [by eauto|].
  destruct (read_u32_Some data 0) as [i ->]; [lia|].
  destruct (read_u32_Some data 4) as [b ->]; [lia|]. cbn [mbind option_bind]. cbv zeta.
  cbn [with_sched]. set (s1 := dec_pending _).
  destruct (inner_op_reach speed sizes sc (OpPiece (slot_id_ s1) i b (now_ms now)) Hn Hsizes Hr)
    as (sc' & Hs & Hr' & Hi); [done|]. cbn [run_op] in Hs. rewrite Hs. cbn [mbind option_bind]. by eauto.
Qed.

Lemma choke_reach sc id b :
  reach speed sizes sc ->
  reach speed sizes (on_choke_change sc id b) /\ leaves sc (on_choke_change sc id b).
Proof using Hn Hsizes.
  intros Hr. destruct (inner_op_reach speed sizes sc (OpChoke id b) Hn Hsizes Hr)
    as (sc' & [= <-] & ? & ?); done.
Qed.
End reachable.

Lemma dispatch_safe speed sizes s sc id data now :
  zlength sizes < 2 ^ 32 -> Forall is_u32 sizes -> reach speed sizes sc -> body_ok s id data ->
  exists s' sc', dispatch_message s (Some sc) id data now = Some (s', Some sc') /\
    reach speed sizes sc' /\ leaves sc sc'.
Proof.
  intros Hn Hz Hr. unfold body_ok, dispatch_message.
  destruct (msg_of_code id) as [m|]; [|by eauto]. destruct m; try (intros _; by eauto).
  - intros _. do 2 eexists. split; [done|]. by apply (choke_reach speed sizes).
  - intros _. cbv zeta.
    match goal with |- context [send_interested ?x] => destruct (send_interested_Some x) as [s' Hs'] end.
    destruct (0 <? _); rewrite ?Hs'; cbn [mbind option_bind]; do 2 eexists;
      (split; [done|]); by apply (choke_reach speed sizes).
  - intros _. cbv zeta. destruct (choking_peer_ _); [|by eauto].
    rewrite build_message_frame by done. cbn [mbind option_bind]. by eauto.
  - by apply have_reach.
  - intros _. by apply bitfield_reach.
  - intros H%(handle_request_Some s). destruct H as [s' ->]. by eauto.
  - intros _. by apply piece_reach.
  - intros H%(handle_cancel_Some s). destruct H as [s' ->]. by eauto.
Qed.

(** C29: A session handles every message whose body is not shorter than the
    fields its handler reads, whatever the fields contain, and the scheduler
    it drives stays in a reachable state with the same peers and active
    chunks; a shorter HAVE,
    CANCEL or (from an unchoked peer) REQUEST is read past its end. *)
Theorem dispatch_message_safe_iff speed sizes s sc id data now :
  zlength sizes < 2 ^ 32 -> Forall is_u32 sizes -> reach speed sizes sc ->
  (body_ok s id data -> exists s' sc',
     dispatch_message s (Some sc) id data now = Some (s', Some sc') /\
     reach speed sizes sc' /\ leaves sc sc') /\
  (~ body_ok s id data -> dispatch_message s (Some sc) id data now = None).
Proof.
  intros Hn Hz Hr. split; [by apply dispatch_safe|].
  unfold body_ok, dispatch_message. destruct (msg_of_code id) as [m|]; [|by intros []].
  destruct m; try (by intros []).
  - intros H. unfold handle_have_msg. by rewrite read_u32_None by lia.
  - intros H. rewrite <- handle_request_Some in H. by rewrite (proj2 (eq_None_not_Some _) H).
  - intros H. rewrite <- handle_cancel_Some in H. by rewrite (proj2 (eq_None_not_Some _) H).
Qed.

Lemma dispatch_message_safe_iff_witness :
  exists s' sc', dispatch_message (session_new [] 1000 6881 false 0) (Some demo_ready) 4
    [Byte.xff; Byte.xff; Byte.xff; Byte.xff] 5 = Some (s', Some sc') /\
    reach 1000 demo_sizes sc' /\ leaves demo_ready sc'.
Proof.
  apply (dispatch_message_safe_iff 1000 demo_sizes).
  - apply demo_sizes_ok.
  - apply demo_sizes_ok.
  - apply demo_ready_reach.
  - vm_compute. discriminate.
Defined.

(** ** Bitfields across the wire *)
Lemma flag_at_nat have (i : nat) : flag_at have (Z.of_nat i) = default false (have !! i).
Proof. unfold flag_at. rewrite zget_of_nat. by destruct (have !! i). Qed.

Lemma record_bitfield_bits have bf (n : nat) :
  (forall k, bit_at bf k = flag_at have k) -> (length have <= n)%nat ->
  (fun i => bit_at bf (Z.of_nat i)) <$> seq 0 n =
  have ++ replicate (n - length have) false.
Proof.
  intros Hb Hn. apply list_eq. intros i. rewrite list_lookup_fmap.
  destruct (decide (i < n)%nat) as [Hi|Hi].
  - rewrite lookup_seq_lt by done. cbn [fmap option_fmap option_map].
    rewrite Hb, Nat.add_0_l, flag_at_nat.
    destruct (decide (i < length have)%nat).
    + rewrite lookup_app_l by done. by destruct (lookup_lt_is_Some_2 have i) as [x ->].
    + rewrite lookup_app_r by lia. rewrite (lookup_ge_None_2 have) by lia.
      by rewrite lookup_replicate_2 by lia.
  - rewrite (lookup_ge_None_2 (seq _ _)) by (rewrite length_seq; lia).
    by rewrite lookup_ge_None_2 by (rewrite length_app, length_replicate; lia).
Qed.

(** A bitfield sent by one peer is what the other peer records: the same
    flags, padded to a whole number of bytes with [false]. *)
Theorem bitfield_exchange (s : PeerSession) (have : list bool) (now : Z) :
  zlength have <= 8 * MAX_MSG_SIZE ->
  exists m s', build_bitfield have = Some m /\
    (let '(r, ms) := read_bytes (RHeader []) m in
     r = RHeader [] /\ dispatch_all s None ms now = Some (s', None)) /\
    exists pad, (pad < 8)%nat /\ remote_bitfield_ s' = have ++ replicate pad false.
Proof.
  unfold MAX_MSG_SIZE. intros Hlen.
  destruct (build_bitfield_frame have) as (bf & Hm & Hbl & Hbits); [lia|].
  exists (frame BITFIELD bf), (record_bitfield s bf). split; [done|].
  rewrite read_frame by (rewrite Hbl; unfold MAX_MSG_SIZE; Z.div_mod_to_equations; lia).
  split; [done|]. exists (length bf * 8 - length have)%nat.
  unfold zlength in *. split; [Z.div_mod_to_equations; lia|].
  unfold record_bitfield. cbn [remote_bitfield_ apply_update].
  apply record_bitfield_bits; [done|]. Z.div_mod_to_equations. lia.
Qed.

Lemma bitfield_exchange_witness :
  exists m s', build_bitfield [true; false; true; true; false; false; true; true; true] = Some m /\
    (let '(r, ms) := read_bytes (RHeader []) m in
     r = RHeader [] /\ dispatch_all (session_new [] 1000 6881 false 0) None ms 0 = Some (s', None)) /\
    exists pad, (pad < 8)%nat /\ remote_bitfield_ s' =
      [true; false; true; true; false; false; true; true; true] ++ replicate pad false.
Proof. apply bitfield_exchange. vm_compute. discriminate. Defined.

(** ** The write queue *)
(** Everything handed to [send_message], in order: written, being written,
    waiting. *)
Definition outgoing (s : PeerSession) : list bytes := wire_ s ++ in_flight_ s ++ write_queue_ s.

(** One write at a time, and something is being written whenever the flag is
    set. *)
Record writer_inv (s : PeerSession) : Prop := {
  wi_one : (length (in_flight_ s) <= 1)%nat;
  wi_idle : is_writing_ s = false -> in_flight_ s = [] /\ write_queue_ s = [];
  wi_busy : is_writing_ s = true -> in_flight_ s <> [];
}.

Lemma outgoing_send s m :
  (is_writing_ s = false -> write_queue_ s = []) ->
  outgoing (send_message s m) = outgoing s ++ [m].
Proof.
  intros Hq. unfold send_message, outgoing. cbv zeta.
  cbn [is_writing_ apply_update constant]. destruct (is_writing_ s).
  - cbn. by rewrite <- !app_assoc.
  - unfold do_write. cbn. rewrite Hq by done. cbn. by rewrite !app_nil_r, <- app_assoc.
Qed.

Lemma send_message_inv s m : writer_inv s -> writer_inv (send_message s m).
Proof.
  intros [H1 H2 H3]. unfold send_message. cbv zeta. cbn [is_writing_ apply_update constant].
  destruct (is_writing_ s) eqn:E.
  - split; cbn; rewrite ?E; [done|done|]. intros _. by apply H3.
  - destruct (H2 eq_refl) as [Hf Hq]. unfold do_write. cbn. rewrite Hq. cbn.
    split; cbn; rewrite Hf; cbn; [lia|done|done].
Qed.

Lemma write_done_inv s : writer_inv s -> writer_inv (write_done s true).
Proof.
  intros [H1 H2 H3]. unfold write_done. destruct (in_flight_ s) as [|m fl] eqn:Ef; [by split; rewrite ?Ef|].
  assert (fl = []) as -> by (destruct fl; [done|simpl in H1; lia]).
  assert (is_writing_ s = true) as Ew.
  { destruct (is_writing_ s); [done|]. by destruct (H2 eq_refl). }
  cbv zeta. cbn [write_queue_ apply_update constant].
  destruct (write_queue_ s) as [|m' q] eqn:Eq.
  - split; cbn; rewrite ?Eq; [lia|done|done].
  - unfold do_write. cbn. rewrite ?Eq. split; cbn; [lia|rewrite Ew; done|done].
Qed.

Lemma write_done_outgoing s : outgoing (write_done s true) = outgoing s.
Proof.
  unfold write_done, outgoing. destruct (in_flight_ s) as [|m fl] eqn:Ef; [by rewrite Ef|].
  cbv zeta. cbn [write_queue_ apply_update constant].
  destruct (write_queue_ s) as [|m' q] eqn:Eq.
  - cbn. rewrite ?Eq. by rewrite <- !app_assoc.
  - unfold do_write. cbn. rewrite ?Eq. cbn. by rewrite <- !app_assoc.
Qed.

(** What happens to the writer: a message is sent, or a write completes. *)
Inductive writer_op := WSend (m : bytes) | WDone.

Definition run_writer (s : PeerSession) (o : writer_op) : PeerSession :=
  match o with WSend m => send_message s m | WDone => write_done s true end.

Definition sent_by (o : writer_op) : list bytes := match o with WSend m => [m] | WDone => [] end.

Lemma run_writer_spec ops s :
  writer_inv s ->
  writer_inv (foldl run_writer s ops) /\
  outgoing (foldl run_writer s ops) = outgoing s ++ (ops ≫= sent_by).
Proof.
  revert s. induction ops as [|o ops IH]; intros s Hs; [by rewrite app_nil_r|].
  cbn [foldl mbind list_bind]. destruct (IH (run_writer s o)) as [Hi ->].
  { destruct o; [by apply send_message_inv|by apply write_done_inv]. }
  split; [done|]. rewrite app_assoc. f_equal. destruct o; cbn [run_writer sent_by].
  - apply outgoing_send. intros H. by apply Hs.
  - rewrite app_nil_r. apply write_done_outgoing.
Qed.

(** As many completions as there are messages drain the queue. *)
Lemma drain_writer (n : nat) s :
  writer_inv s -> (length (in_flight_ s) + length (write_queue_ s) <= n)%nat ->
  wire_ (Nat.iter n (fun s => write_done s true) s) = outgoing s.
Proof.
  revert s. induction n as [|n IH]; intros s Hs Hn.
  { unfold outgoing. destruct (in_flight_ s), (write_queue_ s); simpl in Hn; try lia.
    by rewrite !app_nil_r. }
  rewrite Nat.iter_succ_r, IH, write_done_outgoing; [done|by apply write_done_inv|].
  unfold write_done. destruct (in_flight_ s) as [|m fl] eqn:Ef.
  - rewrite Ef. simpl in *. destruct (is_writing_ s) eqn:Ew; [by destruct (wi_busy _ Hs Ew)|].
    destruct (wi_idle _ Hs Ew) as [_ ->]. simpl. lia.
  - cbv zeta. cbn [write_queue_ apply_update constant]. unfold do_write.
    destruct (write_queue_ s) as [|m' q] eqn:Eq; cbn; rewrite ?Eq; cbn; rewrite ?length_app;
      simpl in *; lia.
Qed.

Lemma session_new_inv ih speed port env now : writer_inv (session_new ih speed port env now).
Proof. by split; cbn; [lia| |]. Qed.

(** C33: The write queue is first in, first out: after any sequence of sends
    and write completions, at most one write is in progress, what was written,
    is being written and waits is exactly what was sent, in order, and enough
    completions put all of it on the wire. *)
Theorem write_queue_fifo ih speed port env now (ops : list writer_op) :
  let s := foldl run_writer (session_new ih speed port env now) ops in
  let sent := ops ≫= sent_by in
  (length (in_flight_ s) <= 1)%nat /\
  wire_ s ++ in_flight_ s ++ write_queue_ s = sent /\
  wire_ (Nat.iter (length sent) (fun s => write_done s true) s) = sent.
Proof.
  cbv zeta. destruct (run_writer_spec ops _ (session_new_inv ih speed port env now)) as [Hi Ho].
  change (outgoing (session_new ih speed port env now)) with (@nil bytes) in Ho. cbn [app] in Ho.
  split; [apply Hi|]. split; [done|]. rewrite <- Ho. apply drain_writer; [done|].
  unfold outgoing. rewrite !length_app. lia.
Qed.

(** With sendfile enabled, a message queued while the file is being sent
    is written with the flag cleared, so the next message starts a second
    write while the first is in progress. *)
Theorem sendfile_starts_second_write ih speed port now :
  let s := { session_new ih speed port true now with choking_peer_ := false; file_fd_ := 3 } in
  exists j s1, handle_request_msg s (be_bytes 4 0 ++ be_bytes 4 0 ++ be_bytes 4 4) = Some s1 /\
    events_ s1 = [EvSendfile j] /\
    forall a b body, length (in_flight_
      (send_message (sendfile_done (send_message s1 a) j 13 4 body) b)) = 2%nat.
Proof.
  cbv zeta. eexists {| rj_off := 0; rj_len := 4; rj_index := 0; rj_begin := 0 |}, _.
  split; [reflexivity|]. done.
Qed.

(** The socket is not blocking, and [send] and [sendfile] may take only a part
    of what they are given; the rest is not sent later.  The piece arrives if
    both took everything, nothing is sent if [send] failed, and otherwise the
    peer's reader is left inside the message: what follows is read as a part
    of it. *)
Theorem sendfile_not_resumed s j hn n body :
  closed_ s = false -> write_queue_ s = [] -> 0 < rj_len j <= MAX_MSG_SIZE - 8 -> hn <= 13 ->
  n <= rj_len j -> zlength body = rj_len j ->
  exists seg r ms, wire_ (sendfile_done s j hn n body) = wire_ s ++ [seg] /\
    read_bytes (RHeader []) seg = (r, ms) /\
    if decide (hn = 13 /\ n = rj_len j)
    then r = RHeader [] /\ ms = [(msg_code PIECE, piece_payload (rj_index j) (rj_begin j) body)]
    else ms = [] /\ (hn <= 0 <-> r = RHeader []) /\ r <> RClosed.
Proof.
  intros Hc Hq Hl Hh Hn Hb. unfold MAX_MSG_SIZE in Hl. unfold sendfile_done. rewrite Hc. cbv zeta.
  set (sent := if hn =? 13 then _ else 0). set (seg := take _ _ ++ take _ _).
  assert (frame PIECE (piece_payload (rj_index j) (rj_begin j) body) = sendfile_header j ++ body) as Hf.
  { unfold frame, piece_payload, sendfile_header. rewrite !zlength_app, !zlength_be_bytes, Hb.
    rewrite u32_small by (unfold is_u32; lia). unfold hton32. rewrite !le_split_bswap.
    replace (1 + (Z.of_nat 4 + (Z.of_nat 4 + rj_len j))) with (1 + 8 + rj_len j) by lia. by rewrite <- !app_assoc. }
  assert (length (sendfile_header j) = 13%nat) as Hlh by (unfold sendfile_header; by rewrite !length_app, !length_le_split).
  assert (zlength (piece_payload (rj_index j) (rj_begin j) body) <= MAX_MSG_SIZE) as Hmax
    by (unfold piece_payload, MAX_MSG_SIZE; rewrite !zlength_app, !zlength_be_bytes, Hb; lia).
  exists seg, (read_bytes (RHeader []) seg).1, (read_bytes (RHeader []) seg).2.
  split; [by destruct (0 <? sent); cbn; rewrite Hq|]. split; [by destruct (read_bytes _ _)|].
  destruct (decide _) as [[-> ->]|Hno].
  { unfold seg, sent. cbn. replace (0 <? rj_len j) with true by lia.
    rewrite !take_ge by (unfold zlength in *; lia). by rewrite <- Hf, read_frame. }
  destruct (decide (hn <= 0)) as [H0|H0].
  { assert (seg = []) as ->; [|done]. unfold seg, sent. replace (hn =? 13) with false by lia.
    by replace (Z.to_nat hn) with 0%nat by lia. }
  set (k := (Z.to_nat hn + Z.to_nat sent)%nat).
  assert (seg = take k (sendfile_header j ++ body)) as ->.
  { unfold seg, k, sent. rewrite take_app, Hlh. destruct (Z.eqb_spec hn 13) as [->|].
    - rewrite !(take_ge (sendfile_header j)) by lia. do 2 f_equal. lia.
    - do 2 f_equal; lia. }
  assert (0 < Z.of_nat k < 13 + rj_len j) as Hk.
  { unfold k, sent. destruct (Z.eqb_spec hn 13); [|lia]. destruct (Z.ltb_spec 0 n); lia. }
  assert (length (sendfile_header j ++ body) = Z.to_nat (13 + rj_len j)) as Hall
    by (rewrite length_app, Hlh; unfold zlength in Hb; lia).
  destruct (read_cut_frame PIECE _ (take k (sendfile_header j ++ body)) (drop k (sendfile_header j ++ body)) Hmax)
    as (r & -> & Hr & Hr2).
  - by rewrite take_drop.
  - intros E%(f_equal length). rewrite length_take in E. cbn in E. lia.
  - intros E%(f_equal length). rewrite length_drop in E. cbn in E. lia.
  - cbn. split_and!; [done| |done]. split; [lia|done].
Qed.

(** ** Serving a request and delivering a piece *)
(** A job of the read pool on the file [file]: [pread] returns the bytes of
    the range that exist. *)
Definition serve (file : bytes) (s : PeerSession) (j : ReadJob) : option PeerSession :=
  let got := zslice file (rj_off j) (rj_len j) in
  read_done s j (zlength got) (pool_read (rj_len j) (zlength got) got).

Lemma handle_request_built s index begin len off o :
  is_u32 index -> is_u32 begin -> is_u32 len ->
  choking_peer_ s = false -> (index, begin) ∉ cancelled_set_ s -> 0 <= file_fd_ s ->
  use_sendfile_ s = false -> chunk_offsets_ s = Some o -> zget o index = Some off ->
  0 <= off + begin < 2 ^ 64 ->
  handle_request_msg s (be_bytes 4 index ++ be_bytes 4 begin ++ be_bytes 4 len) =
  Some (emit s (EvRead {| rj_off := off + begin; rj_len := len; rj_index := index;
                          rj_begin := begin |})).
Proof.
  intros Hi Hb Hl Hc Hset Hfd Hsf Ho Hoff Hr. unfold handle_request_msg. rewrite Hc.
  rewrite read_u32_front by done.
  rewrite (read_u32_at (be_bytes 4 index) begin _ 4) by (done || by rewrite zlength_be_bytes).
  rewrite <- (app_nil_r (be_bytes 4 len)), (app_assoc (be_bytes 4 index)),
    (read_u32_at (be_bytes 4 index ++ be_bytes 4 begin) len _ 8)
    by (done || by rewrite zlength_app, !zlength_be_bytes).
  cbn [mbind option_bind]. rewrite bool_decide_false by done.
  replace (0 <=? file_fd_ s) with true by lia. cbv zeta. rewrite Hsf. cbn [andb].
  unfold base_offset. rewrite Ho. cbn [mbind option_bind]. rewrite Hoff.
  by rewrite u64_small.
Qed.

Lemma serve_sends_piece s file j :
  closed_ s = false -> (is_writing_ s = false -> write_queue_ s = []) ->
  0 <= rj_off j < zlength file -> 0 < rj_len j < 2 ^ 32 - 13 ->
  exists s', serve file s j = Some s' /\
    outgoing s' = outgoing s ++ [frame PIECE (piece_payload (rj_index j) (rj_begin j)
      (zslice file (rj_off j) (rj_len j)))].
Proof.
  intros Hc Hq H0 Hl. unfold serve. cbv zeta. set (got := zslice file _ _).
  assert (zlength got = Z.min (rj_len j) (zlength file - rj_off j)) as Hg
    by (apply zlength_zslice; lia).
  assert (pool_read (rj_len j) (zlength got) got = got) as Hp.
  { unfold pool_read. replace (zlength got <=? 0) with false by lia.
    destruct (Z.ltb_spec (zlength got) (rj_len j)); apply take_ge; unfold zlength in *; lia. }
  assert (take (Z.to_nat (zlength got)) got = got) as Ht by (apply take_ge; unfold zlength; lia).
  unfold read_done. rewrite Hc, Hp. replace (0 <? zlength got) with true by lia.
  rewrite bool_decide_true by (intros E; rewrite E in Hg; change (zlength []) with 0 in Hg; lia).
  cbn [andb]. replace (zlength got <=? zlength got) with true by lia.
  cbn [mbind option_bind]. rewrite Ht, build_piece_frame by lia. cbn [mbind option_bind].
  eexists. split; [done|]. by rewrite outgoing_send.
Qed.

Lemma handle_piece_built s sc index begin data now :
  is_u32 index -> is_u32 begin -> io_pool_ s = true ->
  (forall sc0 slot, sc = Some sc0 ->
     is_Some (dec_peer_pending sc0 slot index begin (now_ms now))) ->
  exists s' sc',
    handle_piece_msg s sc (piece_payload index begin data) now = Some (s', sc') /\
    events_ s' = events_ s ++ [EvDispatch {| pt_chunk_idx := index; pt_begin := begin;
      pt_length := zlength data; pt_peer_slot := slot_id_ s; pt_data := data |}].
Proof.
  intros Hi Hb Hp Hsc. unfold handle_piece_msg, piece_payload. pose proof (zlength_nonneg data).
  replace (zlength (_ ++ _ ++ _) <? 8) with false by (rewrite !zlength_app, !zlength_be_bytes; lia).
  rewrite Hp. cbn [orb negb].
  rewrite read_u32_front by done.
  rewrite (read_u32_at (be_bytes 4 index) begin _ 4) by (done || by rewrite zlength_be_bytes).
  cbn [mbind option_bind]. cbv zeta.
  set (s1 := dec_pending _).
  assert (events_ s1 = events_ s ++ [EvDispatch {| pt_chunk_idx := index; pt_begin := begin;
      pt_length := zlength data; pt_peer_slot := slot_id_ s; pt_data := data |}]) as He.
  { subst s1. unfold dec_pending. rewrite app_assoc, zlength_app, zlength_app, !zlength_be_bytes.
    rewrite drop_app_length' by (by rewrite length_app, !length_be_bytes).
    unfold note_response. replace (_ + _ + zlength data - 8) with (zlength data) by lia.
    destruct (0 <? _); cbn; destruct (pending_times_ s !! _); done. }
  destruct sc as [sc0|]; cbn [with_sched mbind option_bind]; [|by eauto].
  destruct (Hsc sc0 (slot_id_ s1) eq_refl) as [sc' ->]. cbn [mbind option_bind]. by eauto.
Qed.

(** ** The periodic evaluation *)
(** The session with another writer state: what [send_message] changes. *)
Definition only_writes (s s' : PeerSession) : Prop :=
  exists q w f, s' = { s with write_queue_ := q; is_writing_ := w; in_flight_ := f }.

Lemma send_message_only_writes s m : only_writes s (send_message s m).
Proof.
  unfold send_message. cbv zeta. cbn [is_writing_ apply_update constant].
  destruct (is_writing_ s) eqn:E.
  - exists (write_queue_ s ++ [m]), true, (in_flight_ s). done.
  - unfold do_write. cbn. destruct (write_queue_ s ++ [m]) as [|x q]; by do 3 eexists.
Qed.

Definition overdue (now : Z) (e : Z * Z * Z) : Prop := REQUEST_TIMEOUT_MS <= age_ms now e.2.

#[export] Instance overdue_dec now e : Decision (overdue now e).
Proof. unfold overdue. apply _. Defined.

Definition cancel_frame (e : Z * Z * Z) : bytes :=
  frame CANCEL (be_bytes 4 e.1.1 ++ be_bytes 4 e.1.2 ++ be_bytes 4 SUB_BLOCK_SIZE).

(** The effect of expiring the requests [late]. *)
Record expired (s s' : PeerSession) (late : list (Z * Z * Z)) : Prop := {
  exp_writer : writer_inv s';
  exp_out : outgoing s' = outgoing s ++ (cancel_frame <$> late);
  exp_times k : pending_times_ s' !! k =
    if decide (k ∈ late.*1) then None else pending_times_ s !! k;
  exp_events : on_request_timeout_ s = true ->
    events_ s' = events_ s ++ ((fun e => EvTimeout e.1.1 e.1.2) <$> late);
  exp_count : 0 <= consecutive_timeouts_ s -> consecutive_timeouts_ s + zlength late < 2 ^ 32 ->
    consecutive_timeouts_ s' = consecutive_timeouts_ s + zlength late;
  exp_same : (state_ s', pipeline_cap_ s', avg_latency_us_ s', on_request_timeout_ s') =
    (state_ s, pipeline_cap_ s, avg_latency_us_ s, on_request_timeout_ s);
}.

Lemma expired_nil s : writer_inv s -> expired s s [].
Proof.
  intros Hs. split; rewrite ?app_nil_r; try done.
  unfold zlength. simpl. lia.
Qed.

Lemma expired_cons s s1 s2 e late :
  expired s s1 [e] -> expired s1 s2 late -> expired s s2 (e :: late).
Proof.
  intros [_ Ho1 Ht1 He1 Hc1 Hs1] [Hw Ho2 Ht2 He2 Hc2 Hs2].
  injection Hs1 as ? ? ? Hcb. split; [done| | | | |congruence].
  - rewrite Ho2, Ho1, <- app_assoc. done.
  - intros k. rewrite Ht2, Ht1. cbn [fmap list_fmap].
    destruct (decide (k ∈ late.*1)), (decide (k ∈ [e.1])), (decide (k ∈ e.1 :: late.*1)); set_solver.
  - intros Hcb1. rewrite He2, He1 by congruence. by rewrite <- app_assoc.
  - change (zlength (e :: late)) with (Z.of_nat (S (length late))).
    change (zlength [e]) with 1 in Hc1. unfold zlength in *. intros Hc0 Hlt.
    rewrite Hc2; rewrite Hc1; lia.
Qed.

(** One overdue request. *)
Definition expire_one (s : PeerSession) (ci begin : Z) (m : bytes) : PeerSession :=
  let s := send_message s m in
  let s := if on_request_timeout_ s then emit s (EvTimeout ci begin) else s in
  { s with pending_times_ ::= delete (ci, begin);
           consecutive_timeouts_ := u32 (consecutive_timeouts_ s + 1);
           timeout_count_this_cycle_ := u32 (timeout_count_this_cycle_ s + 1) }.

Lemma expire_one_spec s ci begin t :
  writer_inv s -> expired s (expire_one s ci begin (cancel_frame (ci, begin, t))) [(ci, begin, t)].
Proof.
  intros Hw. set (m := cancel_frame _). unfold expire_one. cbv zeta.
  pose proof (send_message_inv s m Hw) as Hw'.
  assert (outgoing (send_message s m) = outgoing s ++ [m]) as Ho
    by (apply outgoing_send; apply Hw).
  destruct (send_message_only_writes s m) as (q & w & f & E). rewrite E in *. clear E.
  destruct Hw' as [H1 H2 H3]. cbn in H1, H2, H3.
  split; cbn; destruct (on_request_timeout_ s) eqn:Ecb; try done;
    try (by split); try (intros k; rewrite lookup_delete; by destruct (decide _), (decide _); set_solver);
    try (intros ? ?; rewrite u32_small; unfold is_u32, zlength in *; simpl in *; lia).
Qed.

Lemma timeout_loop_spec s now es :
  writer_inv s ->
  exists s', timeout_loop s now es = Some s' /\ expired s s' (filter (overdue now) es).
Proof.
  revert s. induction es as [|[[ci begin] t] es IH]; intros s Hw.
  { eexists. split; [done|]. by apply expired_nil. }
  cbn [timeout_loop]. destruct (Z.leb_spec REQUEST_TIMEOUT_MS (age_ms now t)) as [Ha|Ha].
  - rewrite filter_cons_True by done.
    rewrite build_cancel_frame. cbn [mbind option_bind].
    pose proof (expire_one_spec s ci begin t Hw) as H1.
    destruct (IH _ (exp_writer _ _ _ H1)) as (s2 & Hs2 & H2). unfold expire_one in Hs2.
    exists s2. split; [exact Hs2|]. by eapply expired_cons.
  - rewrite filter_cons_False by (unfold overdue; simpl; lia). by apply IH.
Qed.

Lemma pending_entries_perm s : pending_entries s ≡ₚ map_to_list (pending_times_ s).
Proof. apply sort_by_perm. Qed.

(** The keys of the overdue requests. *)
Lemma overdue_keys s now k t :
  pending_times_ s !! k = Some t ->
  k ∈ (filter (overdue now) (pending_entries s)).*1 <-> REQUEST_TIMEOUT_MS <= age_ms now t.
Proof.
  intros Hk. rewrite list_elem_of_fmap. split.
  - intros ([k' t'] & -> & [Ho Hin]%list_elem_of_filter).
    rewrite pending_entries_perm, elem_of_map_to_list in Hin. cbn in Hk. by simplify_eq.
  - intros Ho. exists (k, t). split; [done|]. apply list_elem_of_filter. split; [done|].
    by rewrite pending_entries_perm, elem_of_map_to_list.
Qed.

Lemma next_cap_range s :
  PIPELINE_MIN <= pipeline_cap_ s < 2 ^ 31 ->
  exists cap, next_cap s = Some cap /\ PIPELINE_MIN <= cap <= Z.max PIPELINE_MAX (pipeline_cap_ s / 2).
Proof.
  unfold PIPELINE_MIN, PIPELINE_MAX. intros Hc. unfold next_cap, grow_cap, PIPELINE_MIN, PIPELINE_MAX.
  destruct (_ && _).
  - replace (_ <? 2 ^ 32) with true by (Z.div_mod_to_equations; lia). cbn [mbind option_bind].
    eexists. split; [done|]. Z.div_mod_to_equations. lia.
  - eexists. split; [done|]. Z.div_mod_to_equations. lia.
Qed.

(** C37: When the evaluation is due, exactly the requests that have waited
    three seconds are dropped, each with a CANCEL to the peer, in order; the
    session disconnects when this makes three timeouts in a row, and
    otherwise the pipeline stays between its limits. *)
Theorem eval_tick_expires s sc now rtt :
  state_ s = CONNECTED -> PIPELINE_EVAL_MS <= age_ms now (last_eval_time_ s) -> writer_inv s ->
  PIPELINE_MIN <= pipeline_cap_ s <= 2 * PIPELINE_MAX -> to_u32 (avg_latency_us_ s) = Some rtt ->
  let late := filter (overdue now) (pending_entries s) in
  0 <= consecutive_timeouts_ s -> consecutive_timeouts_ s + zlength late < 2 ^ 32 ->
  exists s' sc', do_eval_tick s sc now = Some (s', sc') /\
    (forall k t, pending_times_ s' !! k = Some t <->
       pending_times_ s !! k = Some t /\ age_ms now t < REQUEST_TIMEOUT_MS) /\
    outgoing s' = outgoing s ++ (cancel_frame <$> late) /\
    if REQUEST_TIMEOUT_LIMIT <=? consecutive_timeouts_ s + zlength late
    then state_ s' = DISCONNECTED
    else state_ s' = CONNECTED /\ PIPELINE_MIN <= pipeline_cap_ s' <= PIPELINE_MAX.
Proof.
  intros Hst Hdue Hw Hcap Hrtt late H0 Hlt. unfold do_eval_tick.
  rewrite bool_decide_true by done. cbn [negb].
  replace (age_ms now (last_eval_time_ s) <? PIPELINE_EVAL_MS) with false by lia. cbv zeta.
  destruct (timeout_loop_spec { s with last_eval_time_ := now } now (pending_entries s))
    as (s1 & Hs1 & [_ Ho Ht _ Hc Hsame]); [by destruct Hw|].
  change (pending_entries { s with last_eval_time_ := now }) with (pending_entries s).
  rewrite Hs1. cbn [mbind option_bind]. fold late in Ho, Ht, Hc.
  cbn in Ho, Ht, Hc, Hsame. rewrite Hc by done. injection Hsame as Hst1 Hcap1 Havg1 _.
  assert (forall k t, pending_times_ s1 !! k = Some t <->
       pending_times_ s !! k = Some t /\ age_ms now t < REQUEST_TIMEOUT_MS) as Htimes.
  { intros k t. rewrite Ht. destruct (decide _) as [Hin|Hin].
    - split; [done|]. intros [Hk Hy]. apply (overdue_keys s now k t Hk) in Hin. lia.
    - split; [|by intros []]. intros Hk. split; [done|].
      destruct (Z.lt_ge_cases (age_ms now t) REQUEST_TIMEOUT_MS) as [|Hge]; [done|].
      by destruct Hin; apply (overdue_keys s now k t Hk). }
  destruct (REQUEST_TIMEOUT_LIMIT <=? _).
  { unfold disconnect. rewrite Hst1, Hst. do 2 eexists. split; [done|].
    destruct (on_disconnect_ _); by split_and!. }
  set (s2 := { s1 with pipeline_eval_cycles_ := _ }).
  destruct (next_cap_range s2) as (cap & -> & Hr);
    [subst s2; cbn; unfold PIPELINE_MIN, PIPELINE_MAX in *; lia|].
  cbn [mbind option_bind]. subst s2. cbn in Hr.
  assert (PIPELINE_MIN <= cap <= PIPELINE_MAX) as Hr'.
  { revert Hr Hcap. rewrite Hcap1. unfold PIPELINE_MIN, PIPELINE_MAX. Z.div_mod_to_equations. lia. }
  assert (exists sc', match sc with
    | None => Some None
    | Some sc => match peer_slot sc (slot_id_ s1) with
      | None => Some (Some sc)
      | Some _ => Some (Some (on_peer_eval sc (slot_id_ s1) cap (consecutive_timeouts_ s1) rtt))
      end end = Some sc') as [sc' Hsc].
  { destruct sc as [sc|]; [|by eexists]. destruct (peer_slot sc _); by eexists. }
  exists { s1 with pipeline_eval_cycles_ := u32 (pipeline_eval_cycles_ s1 + 1);
                   pipeline_cap_ := cap; timeout_count_this_cycle_ := 0 }, sc'.
  split; [|exact (conj Htimes (conj Ho (conj (eq_trans Hst1 Hst) Hr')))].
  destruct sc as [sc|]; cbn; [|by simplify_eq].
  destruct (peer_slot sc _); cbn; [|by simplify_eq].
  rewrite Havg1, Hrtt. cbn [mbind option_bind]. by simplify_eq.
Qed.

(** A connected session with an overdue request and a recent one. *)
Definition demo_session : PeerSession :=
  { session_new (replicate 20 Byte.xab) 1000 6881 false 0 with
    state_ := CONNECTED; on_request_timeout_ := true;
    pending_times_ := {[ (3, 16384) := 0; (4, 0) := 3000000000 ]} }.

Lemma eval_tick_expires_witness :
  exists s' sc', do_eval_tick demo_session None 3500000000 = Some (s', sc') /\
    (forall k t, pending_times_ s' !! k = Some t <->
       pending_times_ demo_session !! k = Some t /\ age_ms 3500000000 t < REQUEST_TIMEOUT_MS) /\
    outgoing s' = outgoing demo_session ++
      (cancel_frame <$> filter (overdue 3500000000) (pending_entries demo_session)) /\
    if REQUEST_TIMEOUT_LIMIT <=? consecutive_timeouts_ demo_session +
         zlength (filter (overdue 3500000000) (pending_entries demo_session))
    then state_ s' = DISCONNECTED
    else state_ s' = CONNECTED /\ PIPELINE_MIN <= pipeline_cap_ s' <= PIPELINE_MAX.
Proof.
  apply (eval_tick_expires demo_session None 3500000000 500).
  - reflexivity.
  - vm_compute. discriminate.
  - split; cbn; [lia|done|done].
  - vm_compute. split; discriminate.
  - reflexivity.
  - vm_compute. discriminate.
  - vm_compute. reflexivity.
Defined.

(** ** What no message changes *)
(** The slot stays, cancelled sub-blocks stay cancelled, and at most [n]
    events are added. *)
Record session_grows (n : nat) (s s' : PeerSession) : Prop := {
  sg_slot : slot_id_ s' = slot_id_ s;
  sg_cancelled : cancelled_set_ s ⊆ cancelled_set_ s';
  sg_events : exists es, events_ s' = events_ s ++ es /\ (length es <= n)%nat;
}.

Lemma grows_same n s s' :
  slot_id_ s' = slot_id_ s -> cancelled_set_ s ⊆ cancelled_set_ s' -> events_ s' = events_ s ->
  session_grows n s s'.
Proof. intros ? ? He. split; [done|done|]. exists []. rewrite app_nil_r. split; [done|simpl; lia]. Qed.

Lemma grows_trans n m k s1 s2 s3 :
  session_grows n s1 s2 -> session_grows m s2 s3 -> (n + m <= k)%nat -> session_grows k s1 s3.
Proof.
  intros [H1 H2 (e1 & H3 & H4)] [H5 H6 (e2 & H7 & H8)] Hk. split; [congruence|by etrans|].
  exists (e1 ++ e2). rewrite H7, H3, <- app_assoc, length_app. split; [done|lia].
Qed.

Lemma send_message_grows n s m : session_grows n s (send_message s m).
Proof. destruct (send_message_only_writes s m) as (q & w & f & ->). by apply grows_same. Qed.

Lemma emit_grows n s e : (1 <= n)%nat -> session_grows n s (emit s e).
Proof. intros Hn. split; [done|done|]. by exists [e]. Qed.

Lemma send_interested_grows n s s' : send_interested s = Some s' -> session_grows n s s'.
Proof.
  unfold send_interested. destruct (am_interested_ s); [intros [= ->]; by apply grows_same|].
  unfold build_interested. rewrite build_message_frame by done. cbn [mbind option_bind].
  intros [= <-]. eapply (grows_trans 0 n); [|by apply send_message_grows|lia]. by apply grows_same.
Qed.

Lemma interest_if_wanted_grows n s sc s' :
  interest_if_wanted s sc = Some s' -> session_grows n s s'.
Proof.
  unfold interest_if_wanted. destruct sc as [sc|]; [|intros [= ->]; by apply grows_same].
  destruct (wants_peer _ _); [apply send_interested_grows|intros [= ->]; by apply grows_same].
Qed.

Lemma pex_entries_grows op s data n : session_grows n s (pex_entries op s data n).
Proof.
  revert s data. induction n as [|n IH]; intros s data; [by apply grows_same|]. cbn [pex_entries].
  eapply (grows_trans 1 n); [|by apply IH|lia]. unfold pex_entry. cbv zeta.
  destruct (_ && _).
  - destruct (on_pex_remove_ s); [by apply emit_grows|by apply grows_same].
  - destruct (_ && _); [by apply emit_grows|by apply grows_same].
Qed.

Lemma handle_piece_grows s sc data now s' sc' :
  handle_piece_msg s sc data now = Some (s', sc') -> session_grows 1 s s'.
Proof.
  unfold handle_piece_msg. destruct (_ || _); [intros [= -> ->]; by apply grows_same|].
  destruct (read_u32 data 0) as [i|]; [|done]. destruct (read_u32 data 4) as [b|]; [|done].
  cbn [mbind option_bind]. cbv zeta. set (s1 := dec_pending _).
  assert (session_grows 1 s s1) as H1.
  { subst s1. unfold dec_pending, note_response.
    destruct (0 <? _); cbn; destruct (pending_times_ s !! _); (split; [done|done|]); by eexists [_]. }
  destruct (with_sched _ _) as [sc1|]; [|done]. cbn [mbind option_bind]. by intros [= <- <-].
Qed.

Lemma handle_request_grows s data s' :
  handle_request_msg s data = Some s' -> session_grows 1 s s'.
Proof.
  unfold handle_request_msg. destruct (choking_peer_ s); [intros [= ->]; by apply grows_same|].
  destruct (read_u32 data 0), (read_u32 data 4), (read_u32 data 8); try done.
  cbn [mbind option_bind]. case_bool_decide; [intros [= ->]; by apply grows_same|].
  destruct (0 <=? _); [|intros [= ->]; by apply grows_same]. cbv zeta.
  destruct (_ && _); intros [= <-]; (split; [done|done|]); by eexists [_].
Qed.

(** A message adds at most one event per byte, and one. *)
Lemma dispatch_grows s sc id data now s' sc' :
  dispatch_message s sc id data now = Some (s', sc') ->
  session_grows (1 + length data) s s'.
Proof.
  unfold dispatch_message. destruct (msg_of_code id) as [m|]; [|intros [= -> ->]; by apply grows_same].
  destruct m.
  - intros [= <- <-]. by apply grows_same.
  - destruct sc as [sc|]; [|intros [= <- <-]; by apply grows_same]. cbv zeta.
    destruct (0 <? _); [|intros [= <- <-]; by apply grows_same].
    destruct (send_interested _) as [s1|] eqn:E; [|done]. cbn [mbind option_bind].
    intros [= <- <-]. eapply (grows_trans 0 0); [|by eapply send_interested_grows|lia].
    by apply grows_same.
  - cbv zeta. destruct (choking_peer_ _); [|intros [= <- <-]; by apply grows_same].
    rewrite build_message_frame by done. cbn [mbind option_bind].
    intros [= <- <-]. eapply (grows_trans 0 0); [|by apply send_message_grows|lia].
    by apply grows_same.
  - intros [= <- <-]. by apply grows_same.
  - unfold handle_have_msg. destruct (read_u32 data 0) as [ci|]; [|done].
    cbn [mbind option_bind]. destruct (with_sched _ _) as [sc1|]; [|done]. cbn [mbind option_bind].
    destruct (interest_if_wanted _ _) as [s1|] eqn:E; [|done]. cbn [mbind option_bind].
    intros [= <- <-]. eapply (grows_trans 0 0); [|by eapply interest_if_wanted_grows|lia].
    unfold record_have. destruct (_ <? _); by apply grows_same.
  - unfold handle_bitfield_msg. cbv zeta. destruct (with_sched _ _) as [sc1|]; [|done].
    cbn [mbind option_bind].
    destruct (interest_if_wanted _ _) as [s1|] eqn:E; [|done]. cbn [mbind option_bind].
    intros [= <- <-]. eapply (grows_trans 0 0); [|by eapply interest_if_wanted_grows|lia].
    by apply grows_same.
  - destruct (handle_request_msg s data) as [s1|] eqn:E; [|done]. cbn [mbind option_bind].
    intros [= <- <-]. apply handle_request_grows in E.
    eapply (grows_trans 1 0); [exact E|by apply grows_same|lia].
  - intros E%handle_piece_grows. eapply (grows_trans 1 0); [exact E|by apply grows_same|lia].
  - unfold handle_cancel_msg. destruct (read_u32 data 0), (read_u32 data 4); try done.
    cbn [mbind option_bind]. intros [= <- <-]. apply grows_same; [done|cbn; set_solver|done].
  - intros [= <- <-]. unfold handle_pex_msg. destruct (_ <? 3); [by apply grows_same|]. cbv zeta.
    destruct (Z.ltb_spec (zlength data) (3 + ntoh16 (load 2 (drop 1 data)) * 8));
      [by apply grows_same|].
    eapply (grows_trans _ 0); [by apply pex_entries_grows|by apply grows_same|].
    unfold zlength in *. lia.
Qed.

(** Once a peer has cancelled a sub-block, no later request for it is
    served on that connection, whatever messages come in between: the
    cancelled set is never cleared, so a sub-block that timed out and is
    requested again from the same peer is refused for ever. *)
Theorem cancel_is_permanent s sc index begin len0 ms now now' s1 s2 sc2 len :
  is_u32 index -> is_u32 begin -> is_u32 len ->
  dispatch_message s sc (msg_code CANCEL)
    (be_bytes 4 index ++ be_bytes 4 begin ++ be_bytes 4 len0) now = Some (s1, sc) ->
  dispatch_all s1 sc ms now' = Some (s2, sc2) ->
  handle_request_msg s2 (be_bytes 4 index ++ be_bytes 4 begin ++ be_bytes 4 len) = Some s2.
Proof.
  intros Hi Hb Hl H1 H2.
  assert ((index, begin) ∈ cancelled_set_ s1) as Hin.
  { revert H1. cbn [dispatch_message msg_code msg_of_code]. unfold handle_cancel_msg.
    rewrite read_u32_front by done.
    rewrite (read_u32_at (be_bytes 4 index) begin _ 4) by (done || by rewrite zlength_be_bytes).
    cbn [mbind option_bind]. intros [= <-]. cbn. set_solver. }
  assert ((index, begin) ∈ cancelled_set_ s2) as Hin2.
  { clear H1. revert s1 sc H2 Hin. induction ms as [|[id d] ms IH]; intros s1 sc H2 Hin.
    { by simplify_eq/=. }
    cbn [dispatch_all] in H2. destruct (dispatch_message s1 sc id d now') as [[s3 sc3]|] eqn:E;
      [|done]. cbn [mbind option_bind] in H2.
    apply (IH s3 sc3 H2). by apply (sg_cancelled _ _ _ (dispatch_grows _ _ _ _ _ _ _ E)). }
  unfold handle_request_msg. destruct (choking_peer_ s2); [done|].
  rewrite read_u32_front by done.
  rewrite (read_u32_at (be_bytes 4 index) begin _ 4) by (done || by rewrite zlength_be_bytes).
  rewrite <- (app_nil_r (be_bytes 4 len)), (app_assoc (be_bytes 4 index)),
    (read_u32_at (be_bytes 4 index ++ be_bytes 4 begin) len _ 8)
    by (done || by rewrite zlength_app, !zlength_be_bytes).
  cbn [mbind option_bind]. by rewrite bool_decide_true.
Qed.

Lemma cancel_is_permanent_witness :
  let s := { demo_session with choking_peer_ := false; file_fd_ := 3 } in
  let s1 := { s with cancelled_set_ := {[(3, 0)]} ∪ ∅ } in
  handle_request_msg s1 (be_bytes 4 3 ++ be_bytes 4 0 ++ be_bytes 4 16384) = Some s1.
Proof.
  intros s s1. apply (cancel_is_permanent s None 3 0 16384 [] 0 0 s1 s1 None 16384);
    [unfold is_u32; lia|unfold is_u32; lia|unfold is_u32; lia|vm_compute; reflexivity|reflexivity].
Defined.

(** ** The handshake between two sessions *)
Lemma send_handshake_fresh s rnd :
  length (info_hash_ s) = 20%nat -> length rnd = 20%nat -> is_u32 (local_speed_mbps_s s) ->
  is_u16 (local_listen_port_ s) -> write_queue_ s = [] -> is_writing_ s = false ->
  exists m h, parse_handshake m = Some h /\ hs_info_hash h = info_hash_ s /\
    speed_mbps h = local_speed_mbps_s s /\ hs_listen_port h = local_listen_port_ s /\
    send_handshake s rnd =
      { s with handshake_sent_ := true; is_writing_ := true; in_flight_ ::= (fun l => l ++ [m]) }.
Proof.
  intros Hih Hrnd Hsp Hpo Hq Hw. unfold send_handshake. cbv zeta.
  set (h0 := {| protocol_id := []; hs_reserved := []; speed_mbps := 0; hs_info_hash := [];
                peer_id := rnd |}).
  set (m := serialize_handshake _).
  destruct (handshake_roundtrip h0 (info_hash_ s) (local_speed_mbps_s s) (local_listen_port_ s) [])
    as (h & Hp & H1 & H2 & _ & H4); [done..|]. rewrite app_nil_r in Hp.
  exists m, h. split_and!; [done..|].
  unfold send_message, do_write. cbn. by rewrite Hq, Hw.
Qed.

Lemma send_handshake_fields s rnd :
  remote_speed_mbps_ (send_handshake s rnd) = remote_speed_mbps_ s /\
  remote_listen_port_ (send_handshake s rnd) = remote_listen_port_ s.
Proof.
  unfold send_handshake. cbv zeta. set (m := serialize_handshake _). clearbody m.
  by destruct (send_message_only_writes s m) as (q & w & f & ->).
Qed.

(** The end of [handle_handshake]. *)
Lemma handshake_finish s now :
  let s' := start_eval_timer { s with state_ := CONNECTED } now in
  let s' := if on_handshake_done_ s' then emit s' EvHandshakeDone else s' in
  state_ s' = CONNECTED /\ remote_speed_mbps_ s' = remote_speed_mbps_ s /\
  remote_listen_port_ s' = remote_listen_port_ s /\ outgoing s' = outgoing s.
Proof.
  cbv zeta. unfold start_eval_timer. cbn. by destruct (on_handshake_done_ s).
Qed.

(** What an accepted handshake leaves. *)
Lemma handshake_accepted s b h rnd now :
  parse_handshake b = Some h -> hs_info_hash h = info_hash_ s ->
  let s' := handle_handshake s (Some b) rnd now in
  state_ s' = CONNECTED /\ remote_speed_mbps_ s' = speed_mbps h /\
  remote_listen_port_ s' = hs_listen_port h /\
  outgoing s' = if handshake_sent_ s then outgoing s
                else outgoing (send_handshake { s with remote_speed_mbps_ := speed_mbps h;
                                                       remote_listen_port_ := hs_listen_port h } rnd).
Proof.
  intros Hp Hi. cbv zeta. unfold handle_handshake. rewrite Hp, Hi, bool_decide_true by done.
  set (s1 := { s with remote_speed_mbps_ := _; remote_listen_port_ := _ }).
  assert (remote_speed_mbps_ s1 = speed_mbps h) as H1 by done.
  assert (remote_listen_port_ s1 = hs_listen_port h) as H2 by done.
  assert (outgoing s1 = outgoing s) as H3 by done.
  assert (handshake_sent_ s1 = handshake_sent_ s) as H4 by done.
  clearbody s1. rewrite H4. destruct (send_handshake_fields s1 rnd) as [H5 H6].
  destruct (handshake_sent_ s).
  - destruct (handshake_finish s1 now) as (? & ? & ? & ?). split_and!; congruence.
  - destruct (handshake_finish (send_handshake s1 rnd) now) as (? & ? & ? & ?).
    split_and!; congruence.
Qed.

Lemma handshake_rejected s b h rnd now :
  parse_handshake b = Some h -> hs_info_hash h <> info_hash_ s -> state_ s <> DISCONNECTED ->
  let s' := handle_handshake s (Some b) rnd now in
  state_ s' = DISCONNECTED /\ outgoing s' = outgoing s.
Proof.
  intros Hp Hi Hs. cbv zeta. unfold handle_handshake. rewrite Hp, bool_decide_false by done.
  unfold disconnect. destruct (state_ s); [| |done]; cbn; by destruct (on_disconnect_ s).
Qed.

(** C32: When one peer connects to another, the two handshakes leave both
    sessions connected, each with the other's link speed and listen port, and
    each handshake sent once, if both are about the same file; otherwise the
    accepting side disconnects without answering. *)
Theorem handshake_exchange ih1 ih2 sp1 sp2 po1 po2 env now ep1 ep2 rnd1 rnd2 :
  length ih1 = 20%nat -> length ih2 = 20%nat -> length rnd1 = 20%nat -> length rnd2 = 20%nat ->
  is_u32 sp1 -> is_u32 sp2 -> is_u16 po1 -> is_u16 po2 ->
  let a := connect_done (start_outbound (session_new ih1 sp1 po1 env now) ep2.1 ep2.2) true rnd1 in
  exists m1, outgoing a = [m1] /\
  let b := handle_handshake (start_inbound (session_new ih2 sp2 po2 env now) (Some ep1))
             (Some m1) rnd2 now in
  if decide (ih1 = ih2) then
    state_ b = CONNECTED /\ remote_speed_mbps_ b = sp1 /\ remote_listen_port_ b = po1 /\
    exists m2, outgoing b = [m2] /\
    let a' := handle_handshake a (Some m2) rnd1 now in
    state_ a' = CONNECTED /\ remote_speed_mbps_ a' = sp2 /\ remote_listen_port_ a' = po2 /\
    outgoing a' = [m1]
  else state_ b = DISCONNECTED /\ outgoing b = [].
Proof.
  intros Hi1 Hi2 Hr1 Hr2 Hs1 Hs2 Hp1 Hp2. cbv zeta.
  set (a0 := { start_outbound (session_new ih1 sp1 po1 env now) ep2.1 ep2.2 with remote_ep_ := Some (ep2.1, ep2.2) }).
  assert (info_hash_ a0 = ih1) as Ea by (cbn; apply take_ge; lia).
  destruct (send_handshake_fresh a0 rnd1) as (m1 & h1 & Hh1 & Ih1 & Sp1 & Po1 & Ha);
    [by rewrite Ea|done..|].
  change (connect_done _ true rnd1) with (send_handshake a0 rnd1). rewrite Ha. exists m1. split; [done|].
  set (b0 := start_inbound _ _). assert (info_hash_ b0 = ih2) as Eb by (cbn; apply take_ge; lia).
  destruct (decide (ih1 = ih2)) as [->|Hne].
  - destruct (handshake_accepted b0 m1 h1 rnd2 now Hh1) as (Hst & Hsp & Hpo & Hout); [congruence|].
    split_and!; [done|by rewrite Hsp|by rewrite Hpo|].
    set (b1 := { b0 with remote_speed_mbps_ := speed_mbps h1;
                         remote_listen_port_ := hs_listen_port h1 }) in Hout.
    destruct (send_handshake_fresh b1 rnd2) as (m2 & h2 & Hh2 & Ih2 & Sp2 & Po2 & Hb);
      [change (info_hash_ b1) with (info_hash_ b0); by rewrite Eb|done..|].
    rewrite Hb in Hout. exists m2. split; [by rewrite Hout|].
    set (a1 := { a0 with handshake_sent_ := true; is_writing_ := true; in_flight_ ::= _ }).
    destruct (handshake_accepted a1 m2 h2 rnd1 now Hh2) as (Hst' & Hsp' & Hpo' & Hout').
    { rewrite Ih2. change (info_hash_ b1) with (info_hash_ b0).
      change (info_hash_ a1) with (info_hash_ a0). congruence. }
    split_and!; [done|by rewrite Hsp'|by rewrite Hpo'|by rewrite Hout'].
  - destruct (handshake_rejected b0 m1 h1 rnd2 now Hh1) as [Hst Hout]; [congruence|done|].
    split; [done|by rewrite Hout].
Qed.

Lemma handshake_exchange_witness :
  let ih := replicate 20 Byte.xab in let rnd := replicate 20 Byte.x07 in
  let a := connect_done (start_outbound (session_new ih 1000 6881 false 0) "10.0.0.2" 6882) true rnd in
  exists m1, outgoing a = [m1] /\
  let b := handle_handshake (start_inbound (session_new ih 100 6882 false 0)
             (Some ("10.0.0.1"%string, 50000))) (Some m1) rnd 0 in
  if decide (ih = ih) then
    state_ b = CONNECTED /\ remote_speed_mbps_ b = 1000 /\ remote_listen_port_ b = 6881 /\
    exists m2, outgoing b = [m2] /\
    let a' := handle_handshake a (Some m2) rnd 0 in
    state_ a' = CONNECTED /\ remote_speed_mbps_ a' = 100 /\ remote_listen_port_ a' = 6882 /\
    outgoing a' = [m1]
  else state_ b = DISCONNECTED /\ outgoing b = [].
Proof.
  apply (handshake_exchange (replicate 20 Byte.xab) (replicate 20 Byte.xab) 1000 100 6881 6882
    false 0 ("10.0.0.1"%string, 50000) ("10.0.0.2"%string, 6882)
    (replicate 20 Byte.x07) (replicate 20 Byte.x07));
    [reflexivity|reflexivity|reflexivity|reflexivity|unfold is_u32; lia|unfold is_u32; lia
    |unfold is_u16; lia|unfold is_u16; lia].
Defined.

(** ** Peer exchange *)
Lemma pex_of_repr_repr p rest : pex_ok p -> pex_of_repr (pex_repr p ++ rest) = p.
Proof.
  destruct p as [ip port fl rs]. intros (H1 & H2 & H3 & H4).
  unfold is_u32, is_u16, is_u8 in *. cbn [pex_ip pex_port pex_flags pex_reserved] in *.
  unfold pex_of_repr, pex_repr. cbn [pex_ip pex_port pex_flags pex_reserved].
  rewrite <- !app_assoc.
  rewrite (load_at 4 ip _ _ eq_refl) by done.
  rewrite drop_app_length' by (by rewrite length_le_split).
  rewrite (load_at 2 port _ _ eq_refl) by done.
  assert (forall n, drop (6 + n) (le_split 4 ip ++ le_split 2 port ++
    [byte.of_Z fl; byte.of_Z rs] ++ rest) = drop n ([byte.of_Z fl; byte.of_Z rs] ++ rest)) as Hd.
  { intros n. rewrite app_assoc, drop_app_ge by (rewrite length_app, !length_le_split; lia).
    rewrite length_app, !length_le_split. f_equal. lia. }
  pose proof (Hd 0%nat) as Hd0. pose proof (Hd 1%nat) as Hd1. cbn [Nat.add] in Hd0, Hd1.
  rewrite Hd0, Hd1. cbn [drop app]. rewrite !load_1_cons, !byte.unsigned_of_Z.
  unfold byte.wrap. by rewrite !Z.mod_small.
Qed.

(** What the receiver of a peer exchange is told about one peer. *)
Definition pex_event (is_delta : bool) (p : PexPeer) : list session_event :=
  if Z.land (pex_flags p) 128 =? 0
  then [EvPexPeer (inet_ntoa (pex_ip p)) (ntoh16 (pex_port p)) (pex_flags p)]
  else if is_delta then [EvPexRemove (inet_ntoa (pex_ip p)) (ntoh16 (pex_port p))] else [].

Lemma pex_entry_event s (is_delta : bool) p :
  on_pex_peer_ s = true -> on_pex_remove_ s = true ->
  exists s', pex_entry (if is_delta then 1 else 0) s p = s' /\
    events_ s' = events_ s ++ pex_event is_delta p /\
    on_pex_peer_ s' = true /\ on_pex_remove_ s' = true.
Proof.
  intros H1 H2. unfold pex_entry, pex_event. cbv zeta. rewrite H1, H2.
  destruct (Z.land (pex_flags p) 128 =? 0), is_delta; cbn [negb andb Z.eqb Pos.eqb];
    eexists; (split; [done|]); cbn; by rewrite ?app_nil_r.
Qed.

Lemma pex_entries_events (is_delta : bool) peers s rest :
  Forall pex_ok peers -> on_pex_peer_ s = true -> on_pex_remove_ s = true ->
  events_ (pex_entries (if is_delta then 1 else 0) s ((peers ≫= pex_repr) ++ rest) (length peers)) =
  events_ s ++ (peers ≫= pex_event is_delta).
Proof.
  intros Hp. revert s. induction Hp as [|p peers Hp _ IH]; intros s H1 H2.
  { simpl. by rewrite app_nil_r. }
  cbn [mbind list_bind length pex_entries]. rewrite <- app_assoc.
  rewrite take_app_length', drop_app_length' by (by rewrite length_pex_repr).
  rewrite <- (app_nil_r (pex_repr p)), pex_of_repr_repr by done.
  destruct (pex_entry_event s is_delta p H1 H2) as (s' & -> & He & H1' & H2').
  cbn [mbind list_bind] in IH. rewrite IH, He by done. by rewrite <- app_assoc.
Qed.

(** A peer exchange message tells the receiver about exactly the peers
    the sender listed, in order: those that left are reported for removal (in
    an incremental exchange), the others with their address, port and flags. *)
Theorem pex_exchange s sc now (is_delta : bool) (peers : list PexPeer) :
  Forall pex_ok peers -> 3 + 8 * zlength peers <= MAX_MSG_SIZE ->
  on_pex_peer_ s = true -> on_pex_remove_ s = true ->
  exists m s', build_pex is_delta peers = Some m /\
    (let '(r, ms) := read_bytes (RHeader []) m in
     r = RHeader [] /\ dispatch_all s sc ms now = Some (s', sc)) /\
    events_ s' = events_ s ++ (peers ≫= pex_event is_delta).
Proof.
  unfold MAX_MSG_SIZE. intros Hp Hl H1 H2. pose proof (zlength_nonneg peers) as H0.
  exists (frame PEX (pex_payload is_delta peers)), (handle_pex_msg s (pex_payload is_delta peers)).
  split; [apply build_pex_frame; lia|].
  assert (zlength (pex_payload is_delta peers) = 3 + 8 * zlength peers) as Hz.
  { unfold pex_payload. rewrite !zlength_app, zlength_be_bytes.
    unfold zlength at 1 2. rewrite length_pex_bodies. unfold zlength. simpl. lia. }
  rewrite read_frame by (unfold MAX_MSG_SIZE; lia). split; [done|].
  unfold handle_pex_msg. rewrite Hz. replace (_ <? 3) with false by lia. cbv zeta.
  unfold pex_payload. cbn [app skipn]. rewrite load_1_cons, drop_0, ntoh16_load_be by (unfold is_u16; lia).
  replace (_ <? _) with false by lia.
  rewrite drop_app_length' by (by rewrite length_be_bytes).
  replace (byte.unsigned _) with (if is_delta then 1 else 0) by (by destruct is_delta).
  replace (Z.to_nat (zlength peers)) with (length peers) by (unfold zlength; lia).
  rewrite <- (app_nil_r (peers ≫= pex_repr)). by apply pex_entries_events.
Qed.

Lemma pex_exchange_witness :
  let s := { demo_session with on_pex_peer_ := true; on_pex_remove_ := true } in
  let peers := [ {| pex_ip := 16777226; pex_port := 57626; pex_flags := 2; pex_reserved := 0 |};
                 {| pex_ip := 33554442; pex_port := 57626; pex_flags := 128; pex_reserved := 0 |} ] in
  exists m s', build_pex true peers = Some m /\
    (let '(r, ms) := read_bytes (RHeader []) m in
     r = RHeader [] /\ dispatch_all s None ms 0 = Some (s', None)) /\
    events_ s' = events_ s ++ [EvPexPeer "10.0.0.1" 6881 2; EvPexRemove "10.0.0.2" 6881].
Proof.
  apply (pex_exchange { demo_session with on_pex_peer_ := true; on_pex_remove_ := true } None 0
    true [ {| pex_ip := 16777226; pex_port := 57626; pex_flags := 2; pex_reserved := 0 |};
           {| pex_ip := 33554442; pex_port := 57626; pex_flags := 128; pex_reserved := 0 |} ]).
  - repeat constructor; vm_compute; congruence.
  - vm_compute. discriminate.
  - reflexivity.
  - reflexivity.
Defined.
