(* ===== verification/PeerManager.v ===== *)
(** * The peers of a task (src/src/daemon/peer_manager.hpp, peer_manager.cpp)

    Accepting and opening connections, the callbacks of the sessions, the
    choke rounds and the peer exchange.  The manager holds the scheduler it
    refers to.  A session is identified by its slot id where the source
    compares pointers.  The calls the scheduler makes during an operation are
    carried out at its end by [apply_calls]: they are the lambdas that
    [TaskManager] installs (src/src/daemon/task_manager.cpp).  [inet_addr] is
    the platform's parser of dotted addresses. *)

From stdpp Require Import pretty.
From S2P Require Import Prelude Platform Protocol ChunkAssembler Scheduler SchedulerSpec PeerSession.
Import OCamlLikeNotations.

(** ** Ordered strings *)
(** [std::sort] and the iteration order of [std::map] on string keys. *)
Fixpoint insert_str {A} (key : A -> string) (x : A) (l : list A) : list A :=
  match l with
  | [] => [x]
  | y :: l' => if String.leb (key x) (key y) then x :: l else y :: insert_str key x l'
  end.

Definition sort_str {A} (key : A -> string) (l : list A) : list A := foldr (insert_str key) [] l.

(** [std::unique]: equal neighbours are dropped. *)
Fixpoint unique_str (l : list string) : list string :=
  match l with
  | x :: ((y :: _) as l') => if decide (x = y) then unique_str l' else x :: unique_str l'
  | _ => l
  end.

(** ** State *)
Definition MAX_PEERS : Z := 60.

Record RecentPeer := {
  rp_when : Z;
  rp_port : Z;
  rp_flags : Z;
}.

Record PeerManager := {
  sched_ : Scheduler;
  mgr_info_hash_ : bytes;
  mgr_local_speed_mbps_ : Z;
  p2p_port_ : Z;
  mgr_file_fd_ : Z;
  initial_bitfield_ : list bool;
  mgr_chunk_offsets_ : option (list Z);
  next_slot_id_ : Z;
  sessions_ : list PeerSession;
  recent_connects_ : gmap string RecentPeer;
  recent_disconnects_ : gmap string RecentPeer;
  local_peer_ips_ : list string;
  mgr_sendfile_env : bool;
}.

Definition manager_eta (m : PeerManager) : PeerManager := {|
  sched_ := sched_ m; mgr_info_hash_ := mgr_info_hash_ m;
  mgr_local_speed_mbps_ := mgr_local_speed_mbps_ m; p2p_port_ := p2p_port_ m;
  mgr_file_fd_ := mgr_file_fd_ m; initial_bitfield_ := initial_bitfield_ m;
  mgr_chunk_offsets_ := mgr_chunk_offsets_ m; next_slot_id_ := next_slot_id_ m;
  sessions_ := sessions_ m; recent_connects_ := recent_connects_ m;
  recent_disconnects_ := recent_disconnects_ m; local_peer_ips_ := local_peer_ips_ m;
  mgr_sendfile_env := mgr_sendfile_env m;
|}.

#[export] Hint Extern 0 (@Setter PeerManager _ ?g) => set_field manager_eta g : typeclass_instances.

Definition is_unspecified_or_broadcast (ip : string) : bool :=
  bool_decide (ip = "0.0.0.0"%string) || bool_decide (ip = "255.255.255.255"%string).

Definition INADDR_NONE : Z := 2 ^ 32 - 1.

Section manager.
Context (inet_addr : string -> Z).

Definition is_connectable_peer_ip (ip : string) : bool :=
  if bool_decide (ip = EmptyString) || bool_decide (ip = "unknown"%string) then false
  else if is_unspecified_or_broadcast ip then false
  else negb (inet_addr ip =? INADDR_NONE).

Definition is_self_peer_endpoint (local_ips : list string) (local_port : Z) (ip : string)
  (port : Z) : bool :=
  if negb (port =? local_port) then false else bool_decide (ip ∈ local_ips).

(** The port a peer listens on: from its handshake, else the socket's. *)
Definition listen_port_of (s : PeerSession) : Z :=
  if remote_listen_port_ s =? 0 then remote_port s else remote_listen_port_ s.

Definition derived_flags (s : PeerSession) : Z := if 1000 <=? remote_speed_mbps_ s then 2 else 0.

(** [exclude] is the slot of the session the list is for. *)
Definition make_full_pex_list (sessions : list PeerSession) (exclude : Z) : list PexPeer :=
  sessions ≫= (fun s =>
    if slot_id_ s =? exclude then []
    else if negb (is_connectable_peer_ip (remote_ip s)) then []
    else [{| pex_ip := inet_addr (remote_ip s); pex_port := hton16 (listen_port_of s);
             pex_flags := derived_flags s; pex_reserved := 0 |}]).

(** [listen_ip] is the acceptor's address, if it has one. *)
Definition collect_local_peer_ips (listen_ip : option string) (detected_ip : string)
  : list string :=
  let ips := ["127.0.0.1"%string] in
  let ips := match listen_ip with
             | Some ip => if is_connectable_peer_ip ip then ips ++ [ip] else ips
             | None => ips
             end in
  let ips := if is_connectable_peer_ip detected_ip then ips ++ [detected_ip] else ips in
  unique_str (sort_str (fun s => s) ips).

(** The constructor, once the acceptor is listening. *)
Definition manager_new (sched : Scheduler) (ih : bytes) (speed port : Z)
  (listen_ip : option string) (detected_ip : string) (sendfile_env : bool) : PeerManager := {|
  sched_ := sched; mgr_info_hash_ := take 20 ih; mgr_local_speed_mbps_ := speed;
  p2p_port_ := port; mgr_file_fd_ := -1; initial_bitfield_ := []; mgr_chunk_offsets_ := None;
  next_slot_id_ := 0; sessions_ := []; recent_connects_ := ∅; recent_disconnects_ := ∅;
  local_peer_ips_ := collect_local_peer_ips listen_ip detected_ip;
  mgr_sendfile_env := sendfile_env;
|}.

Definition get_session (m : PeerManager) (slot : Z) : option PeerSession :=
  snd <$> list_find (fun s => slot_id_ s = slot) (sessions_ m).

Definition put_session (m : PeerManager) (slot : Z) (s' : PeerSession) : PeerManager :=
  { m with sessions_ ::= fmap (fun s => if slot_id_ s =? slot then s' else s) }.

(** ** Connections *)
(** The session both [do_accept] and [connect_to] create and set up. *)
Definition new_session (m : PeerManager) (now : Z) : PeerSession :=
  { session_new (mgr_info_hash_ m) (mgr_local_speed_mbps_ m) (p2p_port_ m) (mgr_sendfile_env m) now
    with io_pool_ := true; file_fd_ := mgr_file_fd_ m; chunk_offsets_ := mgr_chunk_offsets_ m;
         on_handshake_done_ := true }.

Definition on_peer_connected (m : PeerManager) (s : PeerSession) : PeerManager :=
  let id := next_slot_id_ m in
  let s := { s with slot_id_ := id; on_pex_peer_ := true; on_pex_remove_ := true;
                    on_request_timeout_ := true } in
  { m with next_slot_id_ := u32 (id + 1); sessions_ ::= (fun l => l ++ [s]);
           sched_ := on_peer_added (sched_ m) id (remote_speed_mbps_ s) }.

(** [sock] is the accepted connection's remote endpoint, nothing when
    [remote_endpoint] fails; [ok] tells whether [async_accept] succeeded. *)
Definition do_accept (m : PeerManager) (ok : bool) (sock : option (string * Z)) (now : Z)
  : PeerManager :=
  if ok then
    if MAX_PEERS <=? zlength (sessions_ m) then m
    else on_peer_connected m (start_inbound (new_session m now) sock)
  else m.

Definition connect_to (m : PeerManager) (ip : string) (port flags now : Z) : PeerManager :=
  if MAX_PEERS <=? zlength (sessions_ m) then m
  else if negb (is_connectable_peer_ip ip) then m
  else if is_self_peer_endpoint (local_peer_ips_ m) (p2p_port_ m) ip port then m
  else if existsb (fun s => bool_decide (remote_ip s = ip)) (sessions_ m) then m
  else on_peer_connected m (start_outbound (new_session m now) ip port).

Definition recent_of (s : PeerSession) (now : Z) : RecentPeer :=
  {| rp_when := now; rp_port := listen_port_of s; rp_flags := derived_flags s |}.

Definition note_recent_connect (m : PeerManager) (s : PeerSession) (now : Z) : PeerManager :=
  if negb (is_connectable_peer_ip (remote_ip s)) then m
  else { m with recent_connects_ ::= <[remote_ip s := recent_of s now]> }.

Definition note_recent_disconnect (m : PeerManager) (s : PeerSession) (now : Z) : PeerManager :=
  if negb (is_connectable_peer_ip (remote_ip s)) then m
  else { m with recent_disconnects_ ::= <[remote_ip s := recent_of s now]> }.

Definition on_peer_disconnected (m : PeerManager) (s : PeerSession) (now : Z) : PeerManager :=
  let m := { m with sched_ := on_peer_removed (sched_ m) (slot_id_ s) } in
  let m := note_recent_disconnect m s now in
  { m with sessions_ ::= filter (fun x => slot_id_ x <> slot_id_ s) }.

(** ** The callbacks the manager installs *)
(** [on_handshake_done]: the speed, the bitfield and the known peers. *)
Definition on_handshake_done (m : PeerManager) (slot now : Z) : option PeerManager :=
  match get_session m slot with
  | None => Some m
  | Some s =>
    let m := { m with sched_ := on_peer_speed (sched_ m) slot (remote_speed_mbps_ s) } in
    let m := note_recent_connect m s now in
    s ← (match initial_bitfield_ m with
         | [] => Some s
         | bf => b ← build_bitfield bf; Some (send_message s b)
         end);
    s ← (match make_full_pex_list (sessions_ m) slot with
         | [] => Some s
         | peers => b ← build_pex false peers; Some (send_message s b)
         end);
    Some (put_session m slot s)
  end.

Definition on_pex_peer (m : PeerManager) (ip : string) (port flags now : Z) : PeerManager :=
  if MAX_PEERS <=? zlength (sessions_ m) then m
  else if negb (is_connectable_peer_ip ip) then m
  else if existsb (fun s => bool_decide (remote_ip s = ip)) (sessions_ m) then m
  else connect_to m ip port flags now.

Definition on_pex_remove (m : PeerManager) (ip : string) : PeerManager :=
  { m with recent_connects_ ::= delete ip }.

Definition on_request_timeout (m : PeerManager) (chunk_idx begin : Z) : PeerManager :=
  { m with sched_ := on_subblock_timeout (sched_ m) chunk_idx begin }.

(** ** The callbacks of the scheduler *)
Definition to_all (m : PeerManager) (msg : bytes) : PeerManager :=
  { m with sessions_ ::= fmap (fun s => send_message s msg) }.

Definition apply_call (m : PeerManager) (c : call) (now : Z) : option PeerManager :=
  match c with
  | IssueRequest slot chunk begin len =>
    match get_session m slot with
    | None => Some m
    | Some s =>
      msg ← build_request chunk begin len;
      Some (put_session m slot
              (record_request_sent (inc_pending (send_message s msg)) chunk begin now))
    end
  | CancelRequest slot chunk begin len =>
    match get_session m slot with
    | None => Some m
    | Some s =>
      msg ← build_cancel chunk begin len;
      Some (put_session m slot (dec_pending (send_message s msg)))
    end
  | BroadcastHave chunk => msg ← build_have chunk; Some (to_all m msg)
  | BroadcastNotInterested => msg ← build_not_interested; Some (to_all m msg)
  | IssueNotInterested slot =>
    match get_session m slot with
    | None => Some m
    | Some s => s ← send_not_interested s; Some (put_session m slot s)
    end
  end.

Fixpoint apply_calls (m : PeerManager) (cs : list call) (now : Z) : option PeerManager :=
  match cs with
  | [] => Some m
  | c :: cs => m ← apply_call m c now; apply_calls m cs now
  end.

(** ** Events of a session *)
(** The scheduler runs [f]; its calls are carried out. *)
Definition run_sched (m : PeerManager) (f : Scheduler -> option Scheduler) (now : Z)
  : option PeerManager :=
  sc ← f (sched_ m);
  apply_calls { m with sched_ := sc } (drop (length (calls (sched_ m))) (calls sc)) now.

(** An event of the session in slot [slot]; what goes to the thread pools is
    returned. *)
Definition handle_event (m : PeerManager) (slot : Z) (e : session_event) (now : Z)
  : option (PeerManager * list session_event) :=
  match e with
  | EvDispatch _ | EvRead _ | EvSendfile _ => Some (m, [e])
  | EvPexPeer ip port flags => Some (on_pex_peer m ip port flags now, [])
  | EvPexRemove ip _ => Some (on_pex_remove m ip, [])
  | EvTimeout chunk begin => Some (on_request_timeout m chunk begin, [])
  | EvHandshakeDone => m ← on_handshake_done m slot now; Some (m, [])
  | EvDisconnect =>
    Some (match get_session m slot with
          | Some s => on_peer_disconnected m s now
          | None => m
          end, [])
  end.

Fixpoint handle_events (m : PeerManager) (slot : Z) (es : list session_event) (now : Z)
  : option (PeerManager * list session_event) :=
  match es with
  | [] => Some (m, [])
  | e :: es =>
    '(m, out) ← handle_event m slot e now;
    '(m, out') ← handle_events m slot es now;
    Some (m, out ++ out')
  end.

(** A step of the session in slot [slot], its effect on the scheduler, the
    calls that makes and the session's events. *)
Definition session_step (m : PeerManager) (slot : Z)
  (f : PeerSession -> option Scheduler -> option (PeerSession * option Scheduler)) (now : Z)
  : option (PeerManager * list session_event) :=
  match get_session m slot with
  | None => Some (m, [])
  | Some s =>
    '(s', sc) ← f s (Some (sched_ m));
    let es := drop (length (events_ s)) (events_ s') in
    let m := put_session m slot s' in
    m ← run_sched m (fun _ => sc) now;
    handle_events m slot es now
  end.

(** ** Choke rounds *)
Definition set_choked (ss : list PeerSession) (i : nat) (v : bool) : list PeerSession :=
  alter (fun s : PeerSession => { s with choking_peer_ := v }) i ss.

(** The loops of [tick_choke] over positions of [sessions_]. *)
Fixpoint tit_for_tat_loop (ss : list PeerSession) (order : list nat) (n : Z) : list PeerSession :=
  match order with
  | [] => ss
  | i :: order =>
    if 0 <? n then
      match ss !! i with
      | Some s => if peer_interested_ s then tit_for_tat_loop (set_choked ss i false) order (n - 1)
                  else tit_for_tat_loop ss order n
      | None => tit_for_tat_loop ss order n
      end
    else ss
  end.

Definition optimistic_loop (ss : list PeerSession) (order : list nat) : list PeerSession :=
  fold_left (fun ss i => set_choked ss i false) order ss.

Fixpoint anti_starvation_loop (ss : list PeerSession) (order : list nat) (n : Z)
  : list PeerSession :=
  match order with
  | [] => ss
  | i :: order =>
    if n =? 0 then ss
    else
      match ss !! i with
      | Some s =>
        if (remote_speed_mbps_ s <? 1000) && choking_peer_ s
        then anti_starvation_loop (set_choked ss i false) order (n - 1)
        else anti_starvation_loop ss order n
      | None => anti_starvation_loop ss order n
      end
  end.

Definition rate_at (ss : list PeerSession) (i : nat) : Z :=
  match ss !! i with Some s => download_rate_kbps_ s | None => 0 end.

Fixpoint sum_upload (ss : list PeerSession) (acc : Z) : Z :=
  match ss with
  | [] => acc
  | s :: ss => sum_upload ss (u32 (acc + upload_rate_kbps_ s))
  end.

(** The number of upload slots for a local speed and the current uploads. *)
Definition upload_slots (local_speed current_upload_kbps : Z) : Z :=
  let current_upload_mbps := current_upload_kbps / 1000 in
  let idle_speed := if current_upload_mbps <? local_speed
                    then local_speed - current_upload_mbps else 0 in
  Z.min (4 + idle_speed / 10 * 2) 20.

Definition update_rates (now : Z) (s : PeerSession) : option PeerSession :=
  s ← update_download_rate s now; update_upload_rate s now.

(** Who is unchoked: [shuffle] is the random order. *)
Definition choose_unchoked (ss : list PeerSession) (slots : Z) (shuffle : list nat -> list nat)
  : list PeerSession :=
  let sorted := sort_by (fun i => - rate_at ss i) (seq 0 (length ss)) in
  let tit_for_tat := slots * 50 / 100 in
  let optimistic := slots * 25 / 100 in
  let anti_starvation := slots - tit_for_tat - optimistic in
  let ss := tit_for_tat_loop ss sorted tit_for_tat in
  let sorted := shuffle sorted in
  let ss := optimistic_loop ss (take (Z.to_nat optimistic) sorted) in
  anti_starvation_loop ss sorted anti_starvation.

Definition choke_message (s : PeerSession) : option bytes :=
  build_message (if choking_peer_ s then CHOKE else UNCHOKE) [].

Definition tick_choke (m : PeerManager) (shuffle : list nat -> list nat) (now : Z)
  : option PeerManager :=
  match sessions_ m with
  | [] => Some m
  | _ =>
    let ss := (fun s : PeerSession => { s with choking_peer_ := true }) <$> sessions_ m in
    ss ← mapM (update_rates now) ss;
    let slots := upload_slots (mgr_local_speed_mbps_ m) (sum_upload ss 0) in
    let ss := choose_unchoked ss slots shuffle in
    ss ← mapM (fun s => b ← choke_message s; Some (send_message s b)) ss;
    Some { m with sessions_ := ss }
  end.

(** ** Incremental peer exchange *)
Definition recent_pex (now mark : Z) (e : string * RecentPeer) : list PexPeer :=
  let '(ip, r) := e in
  if (now - 60 * 10 ^ 9 <? rp_when r) && is_connectable_peer_ip ip && negb (rp_port r =? 0)
  then [{| pex_ip := inet_addr ip; pex_port := hton16 (rp_port r);
           pex_flags := Z.lor (rp_flags r) mark; pex_reserved := 0 |}]
  else [].

Definition by_ip (m : gmap string RecentPeer) : list (string * RecentPeer) :=
  sort_str fst (map_to_list m).

Definition tick_pex (m : PeerManager) (now : Z) : option PeerManager :=
  let delta := (by_ip (recent_connects_ m) ≫= recent_pex now 0) ++
               (by_ip (recent_disconnects_ m) ≫= recent_pex now 128) in
  m ← (match delta with
       | [] => Some m
       | _ => msg ← build_pex true delta; Some (to_all m msg)
       end);
  Some { m with recent_connects_ := ∅; recent_disconnects_ := ∅ }.

End manager.
