(* ===== verification/PeerManagerSpec.v ===== *)
(** * What the peer manager guarantees

    Whatever connects, disconnects or is received, the manager's sessions and
    the scheduler's peer slots stay in step, at most [MAX_PEERS] sessions
    exist, and the scheduler stays in a reachable state: the manager keeps the
    promise on slot ids that [SchedulerSpec] relies on.  A choke round serves
    at most the computed number of slots and tells every peer its state.  Two
    theorems show where the code falls short: a choke round in the middle of a
    handshake breaks it, and peers that left are never advertised. *)

From S2P Require Import Prelude Platform Protocol ChunkAssembler Scheduler SchedulerProofs SchedulerSpec PeerSession PeerSessionSpec PeerManager.
Import OCamlLikeNotations.

Section manager.
Context (inet_addr : string -> Z) (speed : Z) (sizes act : list Z).
Hypothesis Hn : zlength sizes < 2 ^ 32.
Hypothesis Hsizes : Forall is_u32 sizes.

Abbreviation slots m := (slot_id_ <$> sessions_ m).

(** The sessions and the scheduler's peers are the same, in the same order;
    the scheduler's active chunks are [act]. *)
Record mgr_ok (m : PeerManager) : Prop := {
  mo_reach : reach speed sizes (sched_ m);
  mo_slots : slots m = ids (sched_ m);
  mo_count : zlength (sessions_ m) <= MAX_PEERS;
  mo_fresh : Forall (fun id => 0 <= id < next_slot_id_ m) (slots m);
  mo_next : 0 <= next_slot_id_ m < 2 ^ 32;
  mo_bitfield : zlength (initial_bitfield_ m) < 2 ^ 32 - 8;
  mo_active : active_chunks_ (sched_ m) = act;
}.

Lemma mgr_ok_same m m' :
  sched_ m' = sched_ m -> slots m' = slots m -> next_slot_id_ m' = next_slot_id_ m ->
  initial_bitfield_ m' = initial_bitfield_ m -> mgr_ok m -> mgr_ok m'.
Proof.
  intros H1 H2 H3 H4 [? ? Hc ? ? ? ?].
  split; rewrite ?H1, ?H2, ?H3, ?H4; try done.
  apply (f_equal length) in H2. rewrite !length_fmap in H2. unfold zlength in *. lia.
Qed.

(** The scheduler does something that leaves its peers and active chunks. *)
Lemma mgr_ok_sched m sc :
  mgr_ok m -> reach speed sizes sc -> leaves (sched_ m) sc -> mgr_ok { m with sched_ := sc }.
Proof. intros [? H2 ? ? ? ? ?] Hr [Hi Ha]. split; cbn; try done; [by rewrite Hi|by rewrite Ha]. Qed.

Lemma mgr_ok_inner m o :
  mgr_ok m -> inner_op o -> exists sc, run_op o (sched_ m) = Some sc /\ mgr_ok { m with sched_ := sc }.
Proof using Hn Hsizes.
  intros Hm Ho. destruct (inner_op_reach speed sizes (sched_ m) o) as (sc & Hs & Hr & Hi);
    [done|done|apply Hm|done|]. exists sc. split; [done|]. by apply mgr_ok_sched.
Qed.

Lemma get_session_Some m slot s :
  get_session m slot = Some s -> s ∈ sessions_ m /\ slot_id_ s = slot.
Proof.
  unfold get_session. destruct (list_find _ _) as [[i x]|] eqn:E; [|done].
  cbn. intros [= <-]. apply list_find_Some in E as (Hx & Hid & _).
  split; [by eapply list_elem_of_lookup_2|done].
Qed.

Lemma put_session_ok m slot s' :
  slot_id_ s' = slot -> mgr_ok m -> mgr_ok (put_session m slot s').
Proof.
  intros Hs Hm. apply (mgr_ok_same m); try done. unfold put_session. cbn.
  rewrite <- list_fmap_compose. apply list_fmap_ext. intros i x _. cbn.
  destruct (Z.eqb_spec (slot_id_ x) slot); congruence.
Qed.

Lemma send_message_slot s b : slot_id_ (send_message s b) = slot_id_ s.
Proof. apply (sg_slot 0), send_message_grows. Qed.

Lemma to_all_ok m b : mgr_ok m -> mgr_ok (to_all m b).
Proof.
  apply mgr_ok_same; try done. unfold to_all. cbn. rewrite <- list_fmap_compose.
  apply list_fmap_ext. intros i x _. apply send_message_slot.
Qed.

(** *** The scheduler's calls *)
Lemma apply_call_ok m c now :
  mgr_ok m -> exists m', apply_call m c now = Some m' /\ mgr_ok m' /\
    next_slot_id_ m' = next_slot_id_ m.
Proof.
  intros Hm. destruct c as [slot ch b len|slot ch b len|ch| |slot]; cbn [apply_call].
  - destruct (get_session m slot) as [s|] eqn:E; [|by eauto].
    apply get_session_Some in E as [_ Hid]. rewrite build_request_frame. cbn [mbind option_bind].
    eexists. split; [done|]. split; [|done]. apply put_session_ok; [|done].
    cbn. by rewrite send_message_slot.
  - destruct (get_session m slot) as [s|] eqn:E; [|by eauto].
    apply get_session_Some in E as [_ Hid]. rewrite build_cancel_frame. cbn [mbind option_bind].
    eexists. split; [done|]. split; [|done]. apply put_session_ok; [|done].
    unfold dec_pending. destruct (0 <? _); cbn; by rewrite send_message_slot.
  - rewrite build_have_frame. cbn [mbind option_bind]. eexists. split; [done|].
    split; [by apply to_all_ok|done].
  - unfold build_not_interested. rewrite build_message_frame by done. cbn [mbind option_bind].
    eexists. split; [done|]. split; [by apply to_all_ok|done].
  - destruct (get_session m slot) as [s|] eqn:E; [|by eauto].
    apply get_session_Some in E as [_ Hid]. unfold send_not_interested.
    destruct (negb _); [cbn [mbind option_bind]; eexists; split; [done|]; split; [by apply put_session_ok|done]|].
    unfold build_not_interested. rewrite build_message_frame by done. cbn [mbind option_bind].
    eexists. split; [done|]. split; [|done]. apply put_session_ok; [|done].
    by rewrite send_message_slot.
Qed.

Lemma apply_calls_ok cs now : forall m,
  mgr_ok m -> exists m', apply_calls m cs now = Some m' /\ mgr_ok m' /\
    next_slot_id_ m' = next_slot_id_ m.
Proof.
  induction cs as [|c cs IH]; intros m Hm; [by eauto|]. cbn [apply_calls].
  destruct (apply_call_ok m c now Hm) as (m1 & -> & Hm1 & Hn1). cbn [mbind option_bind].
  destruct (IH m1 Hm1) as (m2 & -> & Hm2 & Hn2). exists m2. split_and!; [done|done|congruence].
Qed.

Lemma run_sched_ok m (f : Scheduler -> option Scheduler) sc now :
  mgr_ok m -> f (sched_ m) = Some sc -> reach speed sizes sc -> leaves (sched_ m) sc ->
  exists m', run_sched m f now = Some m' /\ mgr_ok m' /\ next_slot_id_ m' = next_slot_id_ m.
Proof.
  intros Hm Hf Hr Hi. unfold run_sched. rewrite Hf. cbn [mbind option_bind].
  destruct (apply_calls_ok (drop (length (calls (sched_ m))) (calls sc)) now
    { m with sched_ := sc }) as (m' & -> & ? & ?); [by apply mgr_ok_sched|]. by eauto.
Qed.

(** *** Peers come and go *)
Lemma connected_ok m s :
  mgr_ok m -> zlength (sessions_ m) < MAX_PEERS -> next_slot_id_ m + 1 < 2 ^ 32 ->
  mgr_ok (on_peer_connected m s) /\ next_slot_id_ (on_peer_connected m s) = next_slot_id_ m + 1.
Proof.
  intros [H1 H2 H3 H4 H5 H6 H7] Hlt Hnx.
  assert (u32 (next_slot_id_ m + 1) = next_slot_id_ m + 1) as Hu
    by (apply u32_small; unfold is_u32; lia).
  assert (next_slot_id_ m ∉ slots m) as Hnin.
  { intros Hin. rewrite Forall_forall in H4. specialize (H4 _ Hin). lia. }
  split; [|done]. unfold on_peer_connected. cbv zeta. split; cbn; rewrite ?Hu; try done; try lia.
  - apply (reach_step _ _ (sched_ m) (OpAdded (next_slot_id_ m) (remote_speed_mbps_ s))); [done| |done].
    cbn. unfold ids in H2. by rewrite <- H2.
  - rewrite fmap_app, H2. unfold ids. cbn. by rewrite fmap_app.
  - rewrite zlength_app. change (zlength [_]) with 1. lia.
  - rewrite fmap_app. apply Forall_app. split; [|repeat constructor; cbn; lia].
    eapply Forall_impl; [exact H4|]. cbn. lia.
Qed.

(** What a callback may do: at most one new slot. *)
Definition advances (m m' : PeerManager) : Prop :=
  mgr_ok m' /\ next_slot_id_ m <= next_slot_id_ m' <= next_slot_id_ m + 1.

Lemma advances_same m m' : mgr_ok m' -> next_slot_id_ m' = next_slot_id_ m -> advances m m'.
Proof. intros H1 H2. split; [done|lia]. Qed.

Lemma connect_to_ok m ip port flags now :
  mgr_ok m -> next_slot_id_ m + 1 < 2 ^ 32 -> advances m (connect_to inet_addr m ip port flags now).
Proof.
  intros Hm Hnx. unfold connect_to.
  destruct (Z.leb_spec MAX_PEERS (zlength (sessions_ m))); [by apply advances_same|].
  destruct (negb _); [by apply advances_same|].
  destruct (is_self_peer_endpoint _ _ _ _); [by apply advances_same|].
  destruct (existsb _ _); [by apply advances_same|].
  destruct (connected_ok m (start_outbound (new_session m now) ip port)) as [H1 H2]; [done|lia|done|].
  split; [done|lia].
Qed.

Lemma do_accept_ok m ok sock now :
  mgr_ok m -> next_slot_id_ m + 1 < 2 ^ 32 -> advances m (do_accept m ok sock now).
Proof.
  intros Hm Hnx. unfold do_accept. destruct ok; [|by apply advances_same].
  destruct (Z.leb_spec MAX_PEERS (zlength (sessions_ m))); [by apply advances_same|].
  destruct (connected_ok m (start_inbound (new_session m now) sock)) as [H1 H2]; [done|lia|done|].
  split; [done|lia].
Qed.

Lemma note_connect_ok m s now : mgr_ok m ->
  mgr_ok (note_recent_connect inet_addr m s now) /\
  next_slot_id_ (note_recent_connect inet_addr m s now) = next_slot_id_ m /\
  initial_bitfield_ (note_recent_connect inet_addr m s now) = initial_bitfield_ m /\
  sessions_ (note_recent_connect inet_addr m s now) = sessions_ m.
Proof.
  intros Hm. unfold note_recent_connect. destruct (negb _); [done|].
  split_and!; [by apply (mgr_ok_same m)|done|done|done].
Qed.

Lemma filter_slots (ss : list PeerSession) id :
  slot_id_ <$> filter (fun x => slot_id_ x <> id) ss = filter (fun x => x <> id) (slot_id_ <$> ss).
Proof.
  induction ss as [|s ss IH]; [done|]. cbn [fmap list_fmap]. destruct (decide (slot_id_ s <> id)).
  - rewrite !filter_cons_True by done. cbn [fmap list_fmap]. by f_equal.
  - by rewrite !filter_cons_False.
Qed.

Lemma disconnected_ok m s now :
  mgr_ok m -> advances m (on_peer_disconnected inet_addr m s now).
Proof using Hn Hsizes.
  intros [H1 H2 H3 H4 H5 H6 H7]. unfold on_peer_disconnected. cbv zeta.
  set (m1 := note_recent_disconnect _ _ _ _).
  assert (sched_ m1 = on_peer_removed (sched_ m) (slot_id_ s) /\ sessions_ m1 = sessions_ m /\
    next_slot_id_ m1 = next_slot_id_ m /\ initial_bitfield_ m1 = initial_bitfield_ m)
    as (E1 & E2 & E3 & E4).
  { subst m1. unfold note_recent_disconnect. by destruct (negb _). }
  clearbody m1. split; [|cbn; lia].
  split; cbn; rewrite ?E1, ?E2, ?E3, ?E4; try done.
  - by apply (reach_step _ _ (sched_ m) (OpRemoved (slot_id_ s))).
  - rewrite filter_slots, H2. symmetry.
    apply (run_op_ids (sched_ m) (OpRemoved (slot_id_ s))); [|done|done].
    by apply (reach_wf speed sizes).
  - pose proof (length_filter (fun x => slot_id_ x <> slot_id_ s) (sessions_ m)).
    unfold zlength in *. lia.
  - rewrite filter_slots. rewrite Forall_forall in *. intros x [_ Hx]%list_elem_of_filter. auto.
  - rewrite <-H7. apply (run_op_active (sched_ m) (OpRemoved (slot_id_ s))); [|done|done].
    by apply (reach_wf speed sizes).
Qed.

Lemma full_pex_list_length ss ex : zlength (make_full_pex_list inet_addr ss ex) <= zlength ss.
Proof.
  unfold make_full_pex_list. induction ss as [|s ss IH]; [done|]. cbn [mbind list_bind] in *.
  rewrite zlength_app. change (zlength (s :: ss)) with (Z.of_nat (S (length ss))).
  unfold zlength in *. destruct (_ =? ex); [simpl; lia|]. destruct (negb _); simpl; lia.
Qed.

Lemma handshake_done_ok m slot now :
  mgr_ok m -> exists m', on_handshake_done inet_addr m slot now = Some m' /\ advances m m'.
Proof using Hn Hsizes.
  intros Hm. unfold on_handshake_done. destruct (get_session m slot) as [s|] eqn:E;
    [|eexists; split; [done|by apply advances_same]].
  apply get_session_Some in E as [_ Hid]. cbv zeta.
  destruct (mgr_ok_inner m (OpSpeed slot (remote_speed_mbps_ s)) Hm) as (sc & [= <-] & Hm1); [done|].
  set (m1 := { m with sched_ := on_peer_speed _ _ _ }) in *.
  destruct (note_connect_ok m1 s now Hm1) as (Hm2 & Hn2 & Hb2 & Hs2).
  set (m2 := note_recent_connect _ _ _ _) in *.
  assert (exists s1, match initial_bitfield_ m2 with
    | [] => Some s | _ :: _ => b ← build_bitfield (initial_bitfield_ m2); Some (send_message s b)
    end = Some s1 /\ slot_id_ s1 = slot) as (s1 & Hs1 & Hid1).
  { destruct (initial_bitfield_ m2) as [|b bf] eqn:Ebf; [by eauto|]. rewrite <- Ebf.
    destruct (build_bitfield_frame (initial_bitfield_ m2)) as (x & -> & _); [apply Hm2|].
    cbn [mbind option_bind]. eexists. split; [done|]. by rewrite send_message_slot. }
  replace (match initial_bitfield_ m2 with [] => Some s | _ => _ end) with (Some s1).
  2:{ rewrite <- Hs1. by destruct (initial_bitfield_ m2). }
  cbn [mbind option_bind].
  pose proof (full_pex_list_length (sessions_ m2) slot) as Hl.
  assert (zlength (sessions_ m2) <= MAX_PEERS) as Hc by apply Hm2. unfold MAX_PEERS in Hc.
  destruct (make_full_pex_list _ _ _) as [|p ps] eqn:Ep; cbn [mbind option_bind].
  - eexists. split; [done|]. apply advances_same; [by apply put_session_ok|done].
  - rewrite build_pex_frame by lia. cbn [mbind option_bind]. eexists. split; [done|].
    apply advances_same; [|done]. apply put_session_ok; [|done]. by rewrite send_message_slot.
Qed.

(** *** Events of the sessions *)
Lemma handle_event_ok m slot e now :
  mgr_ok m -> next_slot_id_ m + 1 < 2 ^ 32 ->
  exists m' out, handle_event inet_addr m slot e now = Some (m', out) /\ advances m m'.
Proof using Hn Hsizes.
  intros Hm Hnx. destruct e as [t|j|j|ip port flags|ip port|c b| |]; cbn [handle_event].
  - do 2 eexists. split; [done|by apply advances_same].
  - do 2 eexists. split; [done|by apply advances_same].
  - do 2 eexists. split; [done|by apply advances_same].
  - do 2 eexists. split; [done|]. unfold on_pex_peer.
    destruct (_ <=? _); [by apply advances_same|]. destruct (negb _); [by apply advances_same|].
    destruct (existsb _ _); [by apply advances_same|]. by apply connect_to_ok.
  - do 2 eexists. split; [done|]. apply advances_same; [by apply (mgr_ok_same m)|done].
  - destruct (mgr_ok_inner m (OpTimeout c b) Hm) as (sc & [= <-] & Hm1); [done|].
    do 2 eexists. split; [done|]. by apply advances_same.
  - destruct (handshake_done_ok m slot now Hm) as (m' & -> & Ha). cbn [mbind option_bind]. by eauto.
  - do 2 eexists. split; [done|]. destruct (get_session m slot) as [s|]; [|by apply advances_same].
    by apply disconnected_ok.
Qed.

Lemma handle_events_ok slot es now : forall m,
  mgr_ok m -> next_slot_id_ m + zlength es < 2 ^ 32 ->
  exists m' out, handle_events inet_addr m slot es now = Some (m', out) /\ mgr_ok m'.
Proof using Hn Hsizes.
  induction es as [|e es IH]; intros m Hm Hnx; [by eauto|]. cbn [handle_events].
  assert (zlength (e :: es) = 1 + zlength es) as Hl by (unfold zlength; simpl; lia).
  pose proof (zlength_nonneg es).
  destruct (handle_event_ok m slot e now Hm) as (m1 & out & -> & Hm1 & Hn1); [lia|].
  cbn [mbind option_bind].
  destruct (IH m1 Hm1) as (m2 & out' & -> & Hm2); [lia|]. cbn [mbind option_bind]. by eauto.
Qed.

(** A step of a session that keeps its slot, adds at most [n] events and
    leaves the scheduler reachable with the same peers and active chunks. *)
Lemma session_step_ok m slot f now (n : nat) :
  mgr_ok m -> next_slot_id_ m + Z.of_nat n < 2 ^ 32 ->
  (forall s, get_session m slot = Some s ->
     exists s' sc, f s (Some (sched_ m)) = Some (s', Some sc) /\ session_grows n s s' /\
       reach speed sizes sc /\ leaves (sched_ m) sc) ->
  exists m' out, session_step inet_addr m slot f now = Some (m', out) /\ mgr_ok m'.
Proof using Hn Hsizes.
  intros Hm Hnx Hf. unfold session_step. destruct (get_session m slot) as [s|] eqn:E; [|by eauto].
  destruct (Hf s eq_refl) as (s' & sc & -> & [Hsl _ (es & Hev & Hlen)] & Hr & Hi).
  apply get_session_Some in E as [_ Hid]. cbn [mbind option_bind]. cbv zeta.
  assert (mgr_ok (put_session m slot s')) as Hp by (apply put_session_ok; [congruence|done]).
  destruct (run_sched_ok (put_session m slot s') (fun _ => Some sc) sc now Hp)
    as (m1 & -> & Hm1 & Hn1); [done|done|done|]. cbn [mbind option_bind].
  rewrite Hev, drop_app_length. apply handle_events_ok; [done|].
  rewrite Hn1. cbn. unfold zlength. lia.
Qed.

(** A step that does not touch the scheduler. *)
Lemma session_only_ok m slot (f : PeerSession -> option PeerSession) now :
  mgr_ok m -> next_slot_id_ m + 1 < 2 ^ 32 ->
  (forall s, exists s', f s = Some s' /\ session_grows 1 s s') ->
  exists m' out, session_step inet_addr m slot
    (fun s sc => s' ← f s; Some (s', sc)) now = Some (m', out) /\ mgr_ok m'.
Proof using Hn Hsizes.
  intros Hm Hnx Hf. apply (session_step_ok m slot _ now 1); [done|lia|]. intros s _.
  destruct (Hf s) as (s' & -> & Hg). cbn [mbind option_bind]. do 2 eexists.
  split; [done|]. split; [done|]. split; [apply Hm|done].
Qed.
End manager.

(** The scheduler handles an event that leaves its peers. *)
Lemma run_op_mgr_ok speed sizes act m o now :
  zlength sizes < 2 ^ 32 -> Forall is_u32 sizes -> mgr_ok speed sizes act m ->
  op_ok (sched_ m) o -> (forall id sp, o <> OpAdded id sp) -> (forall id, o <> OpRemoved id) ->
  exists sc m', run_op o (sched_ m) = Some sc /\ run_sched m (run_op o) now = Some m' /\
    mgr_ok speed sizes (active_chunks_ sc) m' /\ next_slot_id_ m' = next_slot_id_ m.
Proof.
  intros Hn Hz [H1 H2 H3 H4 H5 H6 H7] Hok Ha Hr. pose proof (reach_wf speed sizes _ Hn Hz H1) as Hw.
  destruct (run_op_safe (sched_ m) o Hw Hok) as (sc & Hsc & _). exists sc.
  assert (ids sc = ids (sched_ m)) as Hi.
  { rewrite (run_op_ids (sched_ m) o sc Hw Hok Hsc). destruct o; try done; exfalso;
      [by eapply Ha|by eapply Hr]. }
  assert (mgr_ok speed sizes (active_chunks_ sc) { m with sched_ := sc }) as Hm.
  { split; cbn; try done; [by eapply reach_step|by rewrite Hi]. }
  unfold run_sched. rewrite Hsc. cbn [mbind option_bind].
  destruct (apply_calls_ok speed sizes _ (drop (length (calls (sched_ m))) (calls sc)) now _ Hm)
    as (m' & -> & ? & ?). by eauto.
Qed.

(** ** The steps of a session *)
Lemma disconnect_grows s : session_grows 1 s (disconnect s).
Proof.
  unfold disconnect. destruct (state_ s); [| |by apply grows_same];
    cbn; destruct (on_disconnect_ s); try (by apply grows_same);
    (split; [done|done|]); by eexists [_].
Qed.

Lemma do_write_grows n s : session_grows n s (do_write s).
Proof. unfold do_write. destruct (write_queue_ s); by apply grows_same. Qed.

Lemma write_done_grows s ok : session_grows 1 s (write_done s ok).
Proof.
  unfold write_done. destruct (in_flight_ s) as [|m fl]; [by apply grows_same|]. destruct ok.
  - cbv zeta. set (s1 := { s with in_flight_ := fl; wire_ ::= _ }).
    assert (session_grows 0 s s1) as H1 by (by apply grows_same).
    destruct (write_queue_ s1); [by apply grows_same|].
    eapply (grows_trans 0 0); [exact H1|apply do_write_grows|lia].
  - eapply (grows_trans 0 1); [|apply disconnect_grows|lia]. by apply grows_same.
Qed.

Lemma send_handshake_grows s rnd : session_grows 0 s (send_handshake s rnd).
Proof.
  unfold send_handshake. cbv zeta. set (m := serialize_handshake _). clearbody m.
  eapply (grows_trans 0 0); [apply (send_message_grows 0 s m)|by apply grows_same|lia].
Qed.

Lemma connect_done_grows s ok rnd : session_grows 1 s (connect_done s ok rnd).
Proof.
  unfold connect_done. destruct ok; [|apply disconnect_grows].
  eapply (grows_trans 0 0); [|apply send_handshake_grows|lia]. by apply grows_same.
Qed.

Lemma handle_handshake_grows s buf rnd now : session_grows 1 s (handle_handshake s buf rnd now).
Proof.
  unfold handle_handshake. destruct buf as [b|]; [|apply disconnect_grows].
  destruct (parse_handshake b) as [h|]; [|apply disconnect_grows].
  case_bool_decide; [|apply disconnect_grows]. cbv zeta.
  set (s1 := { s with remote_speed_mbps_ := _; remote_listen_port_ := _ }).
  assert (session_grows 0 s s1) as H1 by (by apply grows_same). clearbody s1.
  set (s2 := if handshake_sent_ s1 then s1 else send_handshake s1 rnd).
  assert (session_grows 0 s1 s2) as H2.
  { subst s2. destruct (handshake_sent_ s1); [by apply grows_same|apply send_handshake_grows]. }
  clearbody s2. eapply (grows_trans 0 1); [by eapply (grows_trans 0 0)| |lia].
  unfold start_eval_timer. cbn. destruct (on_handshake_done_ s2); [|by apply grows_same].
  split; [done|done|]. by eexists [_].
Qed.

Lemma read_done_grows s j n data :
  n < 2 ^ 32 - 13 -> n <= zlength data ->
  exists s', read_done s j n data = Some s' /\ session_grows 1 s s'.
Proof.
  intros Hn Hd. unfold read_done. destruct (closed_ s); [eexists; split; [done|by apply grows_same]|].
  destruct (Z.ltb_spec 0 n); cbn [andb]; [|eexists; split; [done|by apply grows_same]].
  case_bool_decide; [|eexists; split; [done|by apply grows_same]].
  replace (n <=? zlength data) with true by lia. cbn [mbind option_bind].
  rewrite build_piece_frame by (unfold zlength; rewrite length_take; lia). cbn [mbind option_bind].
  eexists. split; [done|]. eapply (grows_trans 0 0); [|apply send_message_grows|lia].
  by apply grows_same.
Qed.

Lemma expire_one_grows s ci begin m :
  session_grows 1 s (expire_one s ci begin m) /\
  (pipeline_cap_ (expire_one s ci begin m), avg_latency_us_ (expire_one s ci begin m)) =
  (pipeline_cap_ s, avg_latency_us_ s).
Proof.
  unfold expire_one. destruct (send_message_only_writes s m) as (q & w & f & ->). cbv zeta. cbn.
  destruct (on_request_timeout_ s); (split; [|done]); [|by apply grows_same].
  split; [done|done|]. by eexists [_].
Qed.

Lemma timeout_loop_total now es : forall s,
  exists s', timeout_loop s now es = Some s' /\ session_grows (length es) s s' /\
    (pipeline_cap_ s', avg_latency_us_ s') = (pipeline_cap_ s, avg_latency_us_ s).
Proof.
  induction es as [|[[ci begin] t] es IH]; intros s.
  { eexists. split; [done|]. split; [by apply grows_same|done]. }
  cbn [timeout_loop]. destruct (_ <=? _).
  - rewrite build_cancel_frame. cbn [mbind option_bind].
    set (m := frame _ _). destruct (expire_one_grows s ci begin m) as [Hg Hs].
    destruct (IH (expire_one s ci begin m)) as (s' & Hs' & Hg' & He').
    exists s'. split; [exact Hs'|]. split; [|congruence].
    eapply (grows_trans 1); [exact Hg|exact Hg'|simpl; lia].
  - destruct (IH s) as (s' & Hs' & Hg' & He'). exists s'. split; [done|]. split; [|done].
    eapply (grows_trans 0); [by apply grows_same|exact Hg'|simpl; lia].
Qed.

(** The casts of [do_eval_tick] are in range. *)
Definition eval_fits (s : PeerSession) : Prop :=
  0 <= pipeline_cap_ s < 2 ^ 31 /\ is_Some (to_u32 (avg_latency_us_ s)).

Lemma next_cap_total s : 0 <= pipeline_cap_ s < 2 ^ 31 -> is_Some (next_cap s).
Proof.
  intros H. unfold next_cap, grow_cap. destruct (_ && _); [|done].
  by replace (_ <? 2 ^ 32) with true by (Z.div_mod_to_equations; lia).
Qed.

Lemma eval_tick_reach speed sizes s sc now :
  zlength sizes < 2 ^ 32 -> Forall is_u32 sizes -> reach speed sizes sc -> eval_fits s ->
  exists s' sc', do_eval_tick s (Some sc) now = Some (s', Some sc') /\
    session_grows (1 + size (pending_times_ s)) s s' /\ reach speed sizes sc' /\ leaves sc sc'.
Proof.
  intros Hn Hz Hr [Hcap [rtt Hrtt]]. unfold do_eval_tick.
  destruct (negb _); [do 2 eexists; split; [done|]; split_and!; [by apply grows_same|done|done]|].
  destruct (_ <? _); [do 2 eexists; split; [done|]; split_and!; [by apply grows_same|done|done]|].
  cbv zeta. set (s0 := { s with last_eval_time_ := now }).
  destruct (timeout_loop_total now (pending_entries s0) s0) as (s1 & -> & Hg & Hs).
  assert (length (pending_entries s0) = size (pending_times_ s)) as Hlen.
  { rewrite (Permutation_length (pending_entries_perm s0)). apply length_map_to_list. }
  rewrite Hlen in Hg. injection Hs as Hc Ha. cbn [mbind option_bind].
  assert (session_grows (size (pending_times_ s)) s s1) as Hg1.
  { eapply (grows_trans 0); [by apply (grows_same 0 s s0)|exact Hg|lia]. }
  destruct (_ <=? _).
  { do 2 eexists. split; [done|]. split_and!; [|done|done].
    eapply grows_trans; [exact Hg1|apply disconnect_grows|lia]. }
  set (s2 := { s1 with pipeline_eval_cycles_ := _ }).
  destruct (next_cap_total s2) as [cap ->]; [subst s2; cbn; by rewrite Hc|].
  cbn [mbind option_bind]. set (s3 := { s2 with pipeline_cap_ := _; timeout_count_this_cycle_ := _ }).
  assert (session_grows (1 + size (pending_times_ s)) s s3) as Hg3.
  { eapply (grows_trans _ 0); [exact Hg1|by apply grows_same|lia]. }
  destruct (peer_slot sc (slot_id_ s3)) as [x|]; [|do 2 eexists; by split].
  change (avg_latency_us_ s3) with (avg_latency_us_ s1). rewrite Ha.
  change (avg_latency_us_ s0) with (avg_latency_us_ s). rewrite Hrtt. cbn [mbind option_bind].
  destruct (inner_op_reach speed sizes sc
    (OpEval (slot_id_ s3) cap (consecutive_timeouts_ s3) rtt) Hn Hz Hr) as (sc' & [= <-] & ? & ?);
    [done|]. do 2 eexists. by split.
Qed.

(** ** Everything that reaches a manager *)
Inductive mgr_op :=
| MAccept (ok : bool) (sock : option (string * Z))
| MConnect (ip : string) (port flags : Z)
| MConnected (slot : Z) (ok : bool) (rnd : bytes)
| MHandshake (slot : Z) (buf : option bytes) (rnd : bytes)
| MMessage (slot id : Z) (data : bytes)
| MReadError (slot : Z)
| MWritten (slot : Z) (ok : bool)
| MFileRead (slot : Z) (j : ReadJob) (n : Z) (data : bytes)
| MEval (slot : Z)
| MSchedTick
| MVerified (ms : list ChunkCompleteMsg)
| MVerifyFailed (c : Z)
| MTickPex
| MTickChoke (shuffle : list nat -> list nat).

Definition run_mgr (inet_addr : string -> Z) (m : PeerManager) (o : mgr_op) (now : Z)
  : option (PeerManager * list session_event) :=
  match o with
  | MAccept ok sock => Some (do_accept m ok sock now, [])
  | MConnect ip port flags => Some (connect_to inet_addr m ip port flags now, [])
  | MConnected slot ok rnd =>
    session_step inet_addr m slot (fun s sc => Some (connect_done s ok rnd, sc)) now
  | MHandshake slot buf rnd =>
    session_step inet_addr m slot (fun s sc => Some (handle_handshake s buf rnd now, sc)) now
  | MMessage slot id data =>
    session_step inet_addr m slot (fun s sc => dispatch_message s sc id data now) now
  | MReadError slot => session_step inet_addr m slot (fun s sc => Some (disconnect s, sc)) now
  | MWritten slot ok => session_step inet_addr m slot (fun s sc => Some (write_done s ok, sc)) now
  | MFileRead slot j n data =>
    session_step inet_addr m slot (fun s sc => s' ← read_done s j n data; Some (s', sc)) now
  | MEval slot => session_step inet_addr m slot (fun s sc => do_eval_tick s sc now) now
  | MSchedTick => m ← run_sched m (fun sc => sched_tick sc (now_ms now)) now; Some (m, [])
  | MVerified ms => m ← run_sched m (fun sc => process_completions sc ms) now; Some (m, [])
  | MVerifyFailed c => m ← run_sched m (fun sc => on_verify_failed sc c) now; Some (m, [])
  | MTickPex => m ← tick_pex inet_addr m now; Some (m, [])
  | MTickChoke shuffle => m ← tick_choke m shuffle now; Some (m, [])
  end.

(** Message bodies are long enough, casts of [double] are in range, slot ids
    do not wrap around, and what is verified is an active chunk, once. *)
Definition mgr_fits (m : PeerManager) (o : mgr_op) (now : Z) : Prop :=
  match o with
  | MMessage slot id data =>
    next_slot_id_ m + 1 + zlength data < 2 ^ 32 /\
    forall s, get_session m slot = Some s -> body_ok s id data
  | MEval slot =>
    forall s, get_session m slot = Some s ->
      eval_fits s /\ next_slot_id_ m + 1 + Z.of_nat (size (pending_times_ s)) < 2 ^ 32
  | MFileRead _ _ n data =>
    next_slot_id_ m + 1 < 2 ^ 32 /\ n < 2 ^ 32 - 13 /\ n <= zlength data
  | MSchedTick => True
  | MVerified ms => completions_ok (sched_ m) ms
  | MVerifyFailed c => c ∈ active_chunks_ (sched_ m)
  | MTickPex => Z.of_nat (size (recent_connects_ m) + size (recent_disconnects_ m)) < 2 ^ 16
  | MTickChoke _ => Forall (fun s => is_Some (update_rates now s)) (sessions_ m)
  | _ => next_slot_id_ m + 1 < 2 ^ 32
  end.

(** *** Choke rounds *)
Lemma set_choked_slots ss i v : slot_id_ <$> set_choked ss i v = slot_id_ <$> ss.
Proof.
  unfold set_choked. apply list_eq. intros j. rewrite !list_lookup_fmap.
  destruct (decide (i = j)) as [->|].
  - rewrite list_lookup_alter_eq. by destruct (ss !! j).
  - by rewrite list_lookup_alter_ne.
Qed.

Lemma tit_for_tat_slots order : forall ss n, slot_id_ <$> tit_for_tat_loop ss order n = slot_id_ <$> ss.
Proof.
  induction order as [|i order IH]; intros ss n; [done|]. cbn [tit_for_tat_loop].
  destruct (0 <? n); [|done]. destruct (ss !! i) as [s|]; [|done].
  destruct (peer_interested_ s); [|done]. by rewrite IH, set_choked_slots.
Qed.

Lemma optimistic_slots order : forall ss, slot_id_ <$> optimistic_loop ss order = slot_id_ <$> ss.
Proof.
  unfold optimistic_loop. induction order as [|i order IH]; intros ss; [done|]. cbn [fold_left].
  by rewrite IH, set_choked_slots.
Qed.

Lemma anti_starvation_slots order : forall ss n,
  slot_id_ <$> anti_starvation_loop ss order n = slot_id_ <$> ss.
Proof.
  induction order as [|i order IH]; intros ss n; [done|]. cbn [anti_starvation_loop].
  destruct (n =? 0); [done|]. destruct (ss !! i) as [s|]; [|done].
  destruct (_ && _); [|done]. by rewrite IH, set_choked_slots.
Qed.

Lemma choose_unchoked_slots ss n shuffle :
  slot_id_ <$> choose_unchoked ss n shuffle = slot_id_ <$> ss.
Proof.
  unfold choose_unchoked. cbv zeta.
  by rewrite anti_starvation_slots, optimistic_slots, tit_for_tat_slots.
Qed.

Lemma mapM_slots (f : PeerSession -> option PeerSession) ss ss' :
  (forall s s', f s = Some s' -> slot_id_ s' = slot_id_ s) ->
  mapM f ss = Some ss' -> slot_id_ <$> ss' = slot_id_ <$> ss.
Proof.
  intros Hf H%mapM_Some. induction H as [|s s' ss ss' Hs _ IH]; [done|]. cbn [fmap list_fmap].
  f_equal; [by apply Hf|done].
Qed.

Lemma update_rates_slot now s s' : update_rates now s = Some s' -> slot_id_ s' = slot_id_ s.
Proof.
  unfold update_rates, update_download_rate, update_upload_rate. cbv zeta.
  destruct (if 0 <? _ then _ else _) as [r|]; [|done]. cbn.
  destruct (if 0 <? _ then _ else _) as [r'|]; [|done]. cbn. by intros [= <-].
Qed.

Lemma update_rates_choked now s :
  is_Some (update_rates now s) -> is_Some (update_rates now { s with choking_peer_ := true }).
Proof.
  unfold update_rates, update_download_rate, update_upload_rate. cbv zeta. cbn.
  destruct (if 0 <? now - last_download_eval_time_ s then _ else _) as [r|]; [|done]. cbn.
  by destruct (if 0 <? now - last_upload_eval_time_ s then _ else _).
Qed.

Lemma choke_message_frame s :
  choke_message s = Some (frame (if choking_peer_ s then CHOKE else UNCHOKE) []).
Proof. unfold choke_message. by apply build_message_frame. Qed.

Lemma tick_choke_total m shuffle now :
  Forall (fun s => is_Some (update_rates now s)) (sessions_ m) ->
  exists ss ss', tick_choke m shuffle now = Some { m with sessions_ := ss' } /\
    (sessions_ m <> [] ->
     mapM (update_rates now) ((fun s => { s with choking_peer_ := true }) <$> sessions_ m) = Some ss /\
     ss' = (fun s => send_message s (frame (if choking_peer_ s then CHOKE else UNCHOKE) [])) <$>
       choose_unchoked ss (upload_slots (mgr_local_speed_mbps_ m) (sum_upload ss 0)) shuffle) /\
    slot_id_ <$> ss' = slot_id_ <$> sessions_ m.
Proof.
  intros Hf. unfold tick_choke. destruct (sessions_ m) as [|s0 ss0] eqn:E.
  { exists [], []. split; [|done]. destruct m. cbn in E. by subst. }
  rewrite <- E in *. clear s0 ss0 E. cbv zeta.
  assert (is_Some (mapM (update_rates now)
    ((fun s => { s with choking_peer_ := true }) <$> sessions_ m))) as [ss Hss].
  { apply mapM_is_Some, Forall_fmap. eapply Forall_impl; [exact Hf|]. intros s. apply update_rates_choked. }
  rewrite Hss. cbn [mbind option_bind].
  set (ch := choose_unchoked _ _ _).
  assert (mapM (fun s => b ← choke_message s; Some (send_message s b)) ch =
    Some ((fun s => send_message s (frame (if choking_peer_ s then CHOKE else UNCHOKE) [])) <$> ch))
    as Hch.
  { apply mapM_Some. apply Forall2_fmap_r. apply Forall_Forall2_diag, Forall_true.
    intros s. by rewrite choke_message_frame. }
  rewrite Hch. cbn [mbind option_bind]. exists ss, ((fun s => send_message s
    (frame (if choking_peer_ s then CHOKE else UNCHOKE) [])) <$> ch).
  split; [done|]. split; [done|]. rewrite <- list_fmap_compose.
  rewrite (list_fmap_ext _ slot_id_) by (intros; apply send_message_slot).
  subst ch. rewrite choose_unchoked_slots. rewrite (mapM_slots _ _ _ (update_rates_slot now) Hss).
  by rewrite <- list_fmap_compose.
Qed.

(** *** Peer exchange *)
Lemma insert_str_perm {A} (key : A -> string) x l : insert_str key x l ≡ₚ x :: l.
Proof.
  induction l as [|y l IH]; [done|]. cbn [insert_str]. destruct (String.leb _ _); [done|].
  rewrite IH. apply Permutation_swap.
Qed.

Lemma sort_str_perm {A} (key : A -> string) l : sort_str key l ≡ₚ l.
Proof. induction l as [|y l IH]; [done|]. simpl. rewrite insert_str_perm. by apply Permutation_skip. Qed.

Lemma sort_str_length {A} (key : A -> string) l : length (sort_str key l) = length l.
Proof. by rewrite sort_str_perm. Qed.

Lemma recent_pex_length inet_addr now mark l :
  (length (l ≫= recent_pex inet_addr now mark) <= length l)%nat.
Proof.
  induction l as [|[ip r] l IH]; [done|]. cbn [mbind list_bind] in *. rewrite length_app.
  unfold recent_pex at 1. destruct (_ && _); simpl; lia.
Qed.

Lemma tick_pex_total inet_addr m now :
  Z.of_nat (size (recent_connects_ m) + size (recent_disconnects_ m)) < 2 ^ 16 ->
  exists m', tick_pex inet_addr m now = Some m' /\ sched_ m' = sched_ m /\
    slot_id_ <$> sessions_ m' = slot_id_ <$> sessions_ m /\
    next_slot_id_ m' = next_slot_id_ m /\ initial_bitfield_ m' = initial_bitfield_ m.
Proof.
  intros Hs. unfold tick_pex. cbv zeta. set (delta := _ ++ _).
  assert (zlength delta < 2 ^ 16) as Hd.
  { subst delta. rewrite zlength_app. unfold zlength.
    pose proof (recent_pex_length inet_addr now 0 (by_ip (recent_connects_ m))).
    pose proof (recent_pex_length inet_addr now 128 (by_ip (recent_disconnects_ m))).
    unfold by_ip in *. rewrite !sort_str_length, !length_map_to_list in *. lia. }
  destruct delta as [|p delta]; [eexists; by split_and!|].
  rewrite build_pex_frame by done. cbn [mbind option_bind]. eexists. split; [done|].
  split; [done|]. split; [|done]. cbn. rewrite <- list_fmap_compose.
  apply list_fmap_ext. intros. apply send_message_slot.
Qed.

(** Only verified chunks leave the active ones. *)
Definition op_active (o : mgr_op) (act act' : list Z) : Prop :=
  match o with
  | MVerified ms => forall c, c ∈ act' <-> c ∈ act /\ (c ∉ msg_chunk_idx <$> ms)
  | _ => act' = act
  end.

Definition verifies (o : mgr_op) : bool :=
  match o with MVerified _ | MVerifyFailed _ => true | _ => false end.

Lemma run_mgr_session_ok inet_addr speed sizes act m o now :
  zlength sizes < 2 ^ 32 -> Forall is_u32 sizes ->
  mgr_ok speed sizes act m -> mgr_fits m o now -> verifies o = false ->
  exists m' out, run_mgr inet_addr m o now = Some (m', out) /\ mgr_ok speed sizes act m'.
Proof.
  intros Hn Hz Hm Hf Hv. destruct o; try done; cbn [run_mgr mgr_fits] in *; clear Hv.
  - do 2 eexists. split; [done|]. by apply do_accept_ok.
  - do 2 eexists. split; [done|]. by apply connect_to_ok.
  - apply (session_only_ok inet_addr speed sizes act Hn Hz m slot (fun s => Some (connect_done s ok rnd)));
      [done|done|]. intros s. eexists. split; [done|apply connect_done_grows].
  - apply (session_only_ok inet_addr speed sizes act Hn Hz m slot
      (fun s => Some (handle_handshake s buf rnd now))); [done|done|].
    intros s. eexists. split; [done|apply handle_handshake_grows].
  - destruct Hf as [Hnx Hb]. apply (session_step_ok inet_addr speed sizes act Hn Hz m slot _ now (1 + length data));
      [done|unfold zlength in Hnx; lia|]. intros s Hs.
    destruct (dispatch_safe speed sizes s (sched_ m) id data now Hn Hz (mo_reach _ _ _ _ Hm) (Hb s Hs))
      as (s' & sc' & Hd & Hr & Hi). exists s', sc'. split; [done|].
    split; [by eapply dispatch_grows|done].
  - apply (session_only_ok inet_addr speed sizes act Hn Hz m slot (fun s => Some (disconnect s)));
      [done|done|]. intros s. eexists. split; [done|apply disconnect_grows].
  - apply (session_only_ok inet_addr speed sizes act Hn Hz m slot (fun s => Some (write_done s ok)));
      [done|done|]. intros s. eexists. split; [done|apply write_done_grows].
  - destruct Hf as (Hnx & ? & ?). apply session_only_ok; [done..|]. intros s. by apply read_done_grows.
  - destruct (get_session m slot) as [s|] eqn:E; [|unfold session_step; rewrite E; by eauto].
    destruct (Hf s eq_refl) as [Hfit Hnx].
    apply (session_step_ok inet_addr speed sizes act Hn Hz m slot _ now (1 + size (pending_times_ s)));
      [done|lia|]. rewrite E. intros s' [= <-].
    apply eval_tick_reach; [done|done|apply Hm|done].
  - destruct (inner_op_reach speed sizes (sched_ m) (OpTick (now_ms now)) Hn Hz (mo_reach _ _ _ _ Hm))
      as (sc & Hsc & Hr & Hl); [done|].
    destruct (run_sched_ok speed sizes act m (fun sc => sched_tick sc (now_ms now)) sc now Hm)
      as (m' & -> & ? & _); [done|done|done|]. cbn [mbind option_bind]. by eauto.
  - destruct (tick_pex_total inet_addr m now Hf) as (m' & -> & ? & ? & ? & ?).
    cbn [mbind option_bind]. do 2 eexists. split; [done|]. by apply (mgr_ok_same speed sizes act m).
  - destruct (tick_choke_total m shuffle now Hf) as (ss & ss' & -> & _ & Hs).
    cbn [mbind option_bind]. do 2 eexists. split; [done|]. by apply (mgr_ok_same speed sizes act m).
Qed.

Lemma run_mgr_ok inet_addr speed sizes act m o now :
  zlength sizes < 2 ^ 32 -> Forall is_u32 sizes ->
  mgr_ok speed sizes act m -> mgr_fits m o now ->
  exists m' out act', run_mgr inet_addr m o now = Some (m', out) /\ mgr_ok speed sizes act' m' /\
    op_active o act act'.
Proof.
  intros Hn Hz Hm Hf. destruct (verifies o) eqn:Hv.
  - assert (wf (sched_ m)) as Hw by (eapply reach_wf; [..|apply Hm]; done).
    destruct o; try done; cbn [run_mgr mgr_fits op_active] in *.
    + destruct (run_op_mgr_ok speed sizes act m (OpCompletions ms) now Hn Hz Hm) as (sc & m' & Hs & Hr & Hok & _);
        [done..|]. cbn [run_op] in *. unfold run_op in Hr. rewrite Hr. cbn [mbind option_bind].
      do 3 eexists. split; [done|]. split; [exact Hok|]. rewrite <-(mo_active _ _ _ _ Hm).
      by apply (run_op_active (sched_ m) (OpCompletions ms)).
    + destruct (run_op_mgr_ok speed sizes act m (OpVerifyFailed c) now Hn Hz Hm) as (sc & m' & Hs & Hr & Hok & _);
        [done..|]. unfold run_op in Hr. rewrite Hr. cbn [mbind option_bind].
      do 3 eexists. split; [done|]. split; [exact Hok|]. rewrite <-(mo_active _ _ _ _ Hm).
      by apply (run_op_active (sched_ m) (OpVerifyFailed c)).
  - destruct (run_mgr_session_ok inet_addr speed sizes act m o now Hn Hz Hm Hf Hv) as (m' & out & Hr & Hok).
    exists m', out, act. split; [done|]. split; [done|]. by destruct o.
Qed.

(** ** Reachable managers *)
Lemma mark_loop_peers bf : forall s i, peer_slots_ (mark_loop s i bf) = peer_slots_ s.
Proof.
  induction bf as [|b bf IH]; intros s i; [done|]. cbn [mark_loop]. rewrite IH.
  destruct b; [|done]. unfold mark_one. destruct (zget _ i) as [st|]; [|done].
  destruct (complete_b st); [done|]. by destruct (decide _).
Qed.

Lemma sched_start_peers speed sizes shuffle mark bf : ids (sched_start speed sizes shuffle mark bf) = [].
Proof.
  unfold ids, sched_start, mark_all_complete. cbv zeta. destruct mark; [|done].
  destruct (_ =? 0); [|destruct (_ <? _)]; cbn; by rewrite mark_loop_peers.
Qed.

(** A manager as the commands set it up, and then whatever happens to it. *)
Inductive mgr_reach (inet_addr : string -> Z) (speed : Z) (sizes : list Z) : PeerManager -> Prop :=
| mgr_start ih port listen_ip ip env fd offsets mark bf shuffle :
    (forall l, shuffle l ≡ₚ l) -> length bf = length sizes ->
    mgr_reach inet_addr speed sizes
      { manager_new inet_addr (sched_start speed sizes shuffle mark bf) ih speed port listen_ip ip env
        with initial_bitfield_ := bf; mgr_file_fd_ := fd; mgr_chunk_offsets_ := Some offsets }
| mgr_step m o now m' out :
    mgr_reach inet_addr speed sizes m -> mgr_fits m o now ->
    run_mgr inet_addr m o now = Some (m', out) -> mgr_reach inet_addr speed sizes m'.

Lemma mgr_reach_ok inet_addr speed sizes m :
  zlength sizes < 2 ^ 32 - 8 -> Forall is_u32 sizes ->
  mgr_reach inet_addr speed sizes m -> mgr_ok speed sizes (active_chunks_ (sched_ m)) m.
Proof.
  intros Hn Hz. induction 1 as [ih port listen_ip ip env fd offsets mark bf shuffle Hsh Hbf|m o now m' out _ IH Hf Hrun].
  - split; cbn; try done.
    + by constructor.
    + symmetry. apply (sched_start_peers speed sizes shuffle mark bf).
    + unfold zlength in *. rewrite Hbf. lia.
  - destruct (run_mgr_ok inet_addr speed sizes (active_chunks_ (sched_ m)) m o now) as (m1 & out1 & act' & Hr & Hok & _);
      [lia|done|exact IH|done|]. simplify_eq. by rewrite (mo_active _ _ _ _ Hok).
Qed.



(** ** Choke rounds *)
Definition unchoked_count (ss : list PeerSession) : Z :=
  count_true ((fun s => negb (choking_peer_ s)) <$> ss).

Lemma set_choked_count ss i :
  unchoked_count ss <= unchoked_count (set_choked ss i false) <= unchoked_count ss + 1.
Proof.
  unfold unchoked_count, set_choked. revert i. induction ss as [|s ss IH]; intros i; [simpl; lia|].
  destruct i as [|i]; cbn; [destruct (choking_peer_ s); simpl; lia|].
  specialize (IH i). cbn in IH. destruct (negb (choking_peer_ s)); lia.
Qed.

Lemma tit_for_tat_count order : forall ss n, 0 <= n ->
  unchoked_count ss <= unchoked_count (tit_for_tat_loop ss order n) <= unchoked_count ss + n.
Proof.
  induction order as [|i order IH]; intros ss n Hn; cbn [tit_for_tat_loop]; [lia|].
  destruct (Z.ltb_spec 0 n); [|lia]. destruct (ss !! i) as [s|]; [|by apply IH].
  destruct (peer_interested_ s); [|by apply IH].
  pose proof (set_choked_count ss i). specialize (IH (set_choked ss i false) (n - 1)). lia.
Qed.

Lemma optimistic_count order : forall ss,
  unchoked_count ss <= unchoked_count (optimistic_loop ss order) <= unchoked_count ss + zlength order.
Proof.
  unfold optimistic_loop. induction order as [|i order IH]; intros ss; [change (zlength []) with 0; simpl; lia|].
  cbn [fold_left]. pose proof (set_choked_count ss i). specialize (IH (set_choked ss i false)).
  unfold zlength in *. simpl. lia.
Qed.

Lemma anti_starvation_count order : forall ss n, 0 <= n ->
  unchoked_count ss <= unchoked_count (anti_starvation_loop ss order n) <= unchoked_count ss + n.
Proof.
  induction order as [|i order IH]; intros ss n Hn; cbn [anti_starvation_loop]; [lia|].
  destruct (Z.eqb_spec n 0); [lia|]. destruct (ss !! i) as [s|]; [|by apply IH].
  destruct (_ && _); [|by apply IH].
  pose proof (set_choked_count ss i). specialize (IH (set_choked ss i false) (n - 1)). lia.
Qed.

Lemma unchoked_pos ss i s : ss !! i = Some s -> choking_peer_ s = false -> 1 <= unchoked_count ss.
Proof.
  unfold unchoked_count. revert i. induction ss as [|x ss IH]; intros [|i] Hi Hs; [done|done| |];
    simplify_eq/=.
  - rewrite Hs. simpl. pose proof (count_true_bounds ((fun s => negb (choking_peer_ s)) <$> ss)). lia.
  - specialize (IH i Hi Hs). destruct (negb _); lia.
Qed.

Lemma choose_unchoked_bounds ss n shuffle :
  Forall (fun s => choking_peer_ s = true) ss -> ss <> [] -> 4 <= n -> (forall l, shuffle l ≡ₚ l) ->
  1 <= unchoked_count (choose_unchoked ss n shuffle) <= n.
Proof.
  intros Hc Hne Hn Hsh. unfold choose_unchoked. cbv zeta.
  set (sorted := sort_by _ _).
  assert (unchoked_count ss = 0) as H0.
  { unfold unchoked_count. clear sorted Hne. induction Hc as [|s ss Hs _ IH]; [done|]. simpl. by rewrite Hs. }
  pose proof (tit_for_tat_count sorted ss (n * 50 / 100)) as H1.
  set (ss1 := tit_for_tat_loop _ _ _) in *.
  pose proof (optimistic_count (take (Z.to_nat (n * 25 / 100)) (shuffle sorted)) ss1) as H2.
  set (ss2 := optimistic_loop _ _) in *.
  pose proof (anti_starvation_count (shuffle sorted) ss2 (n - n * 50 / 100 - n * 25 / 100)) as H3.
  assert (1 <= unchoked_count ss2) as Hpos.
  { destruct (shuffle sorted) as [|i order] eqn:E.
    { destruct ss; [done|]. specialize (Hsh sorted). rewrite E in Hsh. subst sorted.
      rewrite sort_by_perm in Hsh. by apply Permutation_nil_l in Hsh. }
    assert (i ∈ seq 0 (length ss)) as Hi.
    { rewrite <- (sort_by_perm (fun i => - rate_at ss i)). fold sorted. rewrite <- (Hsh sorted), E.
      apply elem_of_cons. by left. }
    apply elem_of_seq in Hi. subst ss2.
    destruct (Z.to_nat (n * 25 / 100)) as [|k] eqn:Ek; [Z.div_mod_to_equations; lia|].
    cbn [take]. unfold optimistic_loop. cbn [fold_left].
    pose proof (optimistic_count (take k order) (set_choked ss1 i false)) as Hge.
    unfold optimistic_loop in Hge.
    assert (length ss1 = length ss) as Hl.
    { rewrite <- (length_fmap slot_id_ ss1), <- (length_fmap slot_id_ ss). f_equal. apply tit_for_tat_slots. }
    destruct (lookup_lt_is_Some_2 ss1 i) as [s Hs]; [lia|].
    assert (1 <= unchoked_count (set_choked ss1 i false)); [|lia].
    eapply (unchoked_pos _ i); [unfold set_choked; by rewrite list_lookup_alter_eq, Hs|done]. }
  assert (zlength (take (Z.to_nat (n * 25 / 100)) (shuffle sorted)) <= n * 25 / 100) as Hopt.
  { unfold zlength. rewrite length_take. Z.div_mod_to_equations. lia. }
  Z.div_mod_to_equations. lia.
Qed.

Lemma upload_slots_range local current : 0 <= current -> 4 <= upload_slots local current <= 20.
Proof.
  intros Hc. unfold upload_slots. cbv zeta. destruct (Z.ltb_spec (current / 1000) local);
    Z.div_mod_to_equations; lia.
Qed.

Lemma sum_upload_range ss acc : 0 <= acc -> 0 <= sum_upload ss acc.
Proof.
  revert acc. induction ss as [|s ss IH]; intros acc Ha; [done|]. cbn [sum_upload]. apply IH.
  pose proof (u32_range (acc + upload_rate_kbps_ s)). unfold is_u32 in *. lia.
Qed.

Lemma update_rates_all_choked now ss ss' :
  mapM (update_rates now) ((fun s => { s with choking_peer_ := true }) <$> ss) = Some ss' ->
  Forall (fun s => choking_peer_ s = true) ss'.
Proof.
  intros H%mapM_Some. apply Forall_forall. intros s' Hs'.
  apply list_elem_of_lookup in Hs' as [i Hi].
  destruct (Forall2_lookup_r _ _ _ _ _ H Hi) as (s & Hs & Hu).
  rewrite list_lookup_fmap in Hs. destruct (ss !! i) as [s0|]; [|done]. injection Hs as <-.
  revert Hu. unfold update_rates, update_download_rate, update_upload_rate. cbv zeta.
  destruct (if 0 <? _ then _ else _) as [r|]; [|done]. cbn.
  destruct (if 0 <? _ then _ else _) as [r'|]; [|done]. cbn. by intros [= <-].
Qed.


(** Two sessions, one interested. *)
Definition demo_manager : PeerManager :=
  { manager_new (fun _ => 0) (sched_start 1000 demo_sizes (fun l => l) false [false; false])
      (replicate 20 Byte.xab) 1000 6881 None "10.0.0.5" false
    with sessions_ := [{ demo_session with peer_interested_ := true };
                       { demo_session with slot_id_ := 1 }] }.


Lemma outgoing_send_handshake s rnd :
  (is_writing_ s = false -> write_queue_ s = []) ->
  exists m, outgoing (send_handshake s rnd) = outgoing s ++ [m].
Proof.
  intros Hq. unfold send_handshake. cbv zeta. set (m := serialize_handshake _). exists m.
  exact (outgoing_send s m Hq).
Qed.

(** A choke round that meets a connection whose handshake is not over
    spoils it: the peer reads the choke message as the beginning of the
    handshake and refuses it. *)
Theorem choke_round_breaks_handshake ih speed port env now sock (id : P2PMsgId) m1 h1 rnd :
  parse_handshake m1 = Some h1 -> hs_info_hash h1 = take 20 ih ->
  let s := send_message (start_inbound (session_new ih speed port env now) sock) (frame id []) in
  let s' := handle_handshake s (Some m1) rnd now in
  state_ s' = CONNECTED /\ parse_handshake (take 67 (concat (outgoing s'))) = None.
Proof.
  intros Hp Hi s s'.
  destruct (handshake_accepted s m1 h1 rnd now Hp) as (Hst & _ & _ & Hout); [done|].
  split; [done|]. fold s' in Hout.
  assert (exists rest, outgoing s' = frame id [] :: rest) as [rest ->].
  { rewrite Hout. change (handshake_sent_ s) with false. cbn iota.
    match goal with |- context [send_handshake ?x rnd] =>
      destruct (outgoing_send_handshake x rnd) as [m Hm]; [done|] end.
    rewrite Hm. by eexists. }
  cbn [concat]. by apply (parse_handshake_wrong_start 67 _ Byte.x00).
Qed.

(** A peer that leaves is never noted as gone: its socket is closed
    before the manager is told, so its address is already unknown, and the
    next incremental exchange does not mention it. *)
Theorem left_peer_not_noted inet_addr m s now :
  state_ s <> DISCONNECTED ->
  recent_disconnects_ (on_peer_disconnected inet_addr m (disconnect s) now) = recent_disconnects_ m.
Proof.
  intros Hs. assert (remote_ip (disconnect s) = "unknown"%string) as Hu.
  { unfold disconnect. destruct (state_ s); [| |done]; cbn; by destruct (on_disconnect_ s). }
  unfold on_peer_disconnected, note_recent_disconnect. cbv zeta. by rewrite Hu.
Qed.

Lemma left_peer_not_noted_witness :
  recent_disconnects_ (on_peer_disconnected (fun _ => 0) demo_manager (disconnect demo_session) 5) =
  recent_disconnects_ demo_manager.
Proof. apply left_peer_not_noted. discriminate. Defined.

Lemma choke_round_breaks_handshake_witness :
  let ih := replicate 20 Byte.xab in
  let h := handshake_build {| protocol_id := []; hs_reserved := []; speed_mbps := 0;
                              hs_info_hash := []; peer_id := replicate 20 Byte.x07 |} ih 100 6882 in
  let s := send_message (start_inbound (session_new ih 1000 6881 false 0)
             (Some ("10.0.0.7"%string, 51000))) (frame CHOKE []) in
  let s' := handle_handshake s (Some (serialize_handshake h)) (replicate 20 Byte.x01) 0 in
  state_ s' = CONNECTED /\ parse_handshake (take 67 (concat (outgoing s'))) = None.
Proof.
  intros ih h. apply (choke_round_breaks_handshake ih 1000 6881 false 0
    (Some ("10.0.0.7"%string, 51000)) CHOKE (serialize_handshake h)
    (match parse_handshake (serialize_handshake h) with Some h => h | None => h end));
    vm_compute; reflexivity.
Defined.
