(* ===== verification/Workers.v ===== *)
(** * The thread pools (src/src/daemon/io_worker.hpp, io_worker.cpp,
    verify_worker.hpp, verify_worker.cpp)

    Pieces go from the network thread to one of the I/O threads, which copies
    them into the output file; a completed chunk goes to the verify threads,
    whose results the main thread drains.  The queues are lists, a thread's
    iteration is one step: [on_piece] as a whole (the interleavings inside it
    are in [ChunkAssembler]).  A step is [None] where the source indexes an
    array out of range or writes outside a mapping.  [sha256] stands for the
    digest of [Hash]. *)

From S2P Require Import Prelude Platform Seed ChunkAssembler PeerSession.
Import OCamlLikeNotations.

(** [VerifyTask] and [VerifyResult]. *)
Record VerifyTask := {
  vt_chunk_idx : Z;
  vt_winning_peer_slot : Z;
  vt_data : option Ptr;
  vt_length : Z;
  vt_expected_hash : bytes;
}.

Record VerifyResult := {
  vr_chunk_idx : Z;
  vr_winning_peer_slot : Z;
  vr_passed : bool;
  vr_actual_hash : bytes;
}.

(** Both pools of a task, the assemblers they share and the output file. *)
Record Pools := {
  pl_assemblers : list ChunkAssembler;
  pl_chunks : list ChunkEntry;
  pl_mem : bytes;
  io_queues_ : list (list PieceTask);
  io_running_ : bool;
  task_queue_ : list VerifyTask;
  result_queue_ : list VerifyResult;
  verify_workers_ : Z;
  verify_running_ : bool;
}.

Definition pools_eta (p : Pools) : Pools := {|
  pl_assemblers := pl_assemblers p; pl_chunks := pl_chunks p; pl_mem := pl_mem p;
  io_queues_ := io_queues_ p; io_running_ := io_running_ p; task_queue_ := task_queue_ p;
  result_queue_ := result_queue_ p; verify_workers_ := verify_workers_ p;
  verify_running_ := verify_running_ p;
|}.

#[export] Hint Extern 0 (@Setter Pools _ ?g) => set_field pools_eta g : typeclass_instances.

(** ** Starting and stopping *)
(** The number of I/O threads the commands ask for, and that of the verify
    threads when none is given; [cores] is [hardware_concurrency()]. *)
Definition io_threads (cores : Z) : Z := Z.min (Z.max 2 (cores / 2)) 8.

Definition verify_threads (num_workers cores : Z) : Z :=
  if num_workers =? 0 then Z.max 2 (Z.min 4 (cores / 4)) else num_workers.

Definition verify_start (p : Pools) (num_workers cores : Z) : Pools :=
  { p with verify_workers_ := verify_threads num_workers cores; verify_running_ := true }.

(** [assert(num_workers > 0 && num_workers <= 32)]. *)
Definition io_start (p : Pools) (num_workers : Z) : option Pools :=
  if (0 <? num_workers) && (num_workers <=? 32)
  then Some { p with io_queues_ := replicate (Z.to_nat num_workers) []; io_running_ := true }
  else None.

Definition io_stop (p : Pools) : Pools := { p with io_running_ := false; io_queues_ := [] }.

Definition poison : VerifyTask := {|
  vt_chunk_idx := UINT32_MAX; vt_winning_peer_slot := 0; vt_data := None; vt_length := 0;
  vt_expected_hash := [];
|}.

Definition verify_stop (p : Pools) : Pools :=
  { p with verify_running_ := false;
           task_queue_ ::= (fun q => q ++ replicate (Z.to_nat (verify_workers_ p)) poison) }.

(** ** I/O threads *)
(** The thread that gets a piece. *)
Definition worker_of (t : PieceTask) (num_workers : Z) : Z :=
  Z.lxor (pt_chunk_idx t) (pt_begin t / SUB_BLOCK_SIZE) mod num_workers.

Definition io_dispatch (p : Pools) (t : PieceTask) : option Pools :=
  let n := zlength (io_queues_ p) in
  if n =? 0 then None
  else
    q ← zget (io_queues_ p) (worker_of t n);
    qs ← zset (io_queues_ p) (worker_of t n) (q ++ [t]);
    Some { p with io_queues_ := qs }.

(** [VerifyWorkerPool::enqueue]. *)
Definition verify_enqueue (p : Pools) (msg : ChunkCompleteMsg) : option Pools :=
  a ← zget (pl_assemblers p) (msg_chunk_idx msg);
  ch ← zget (pl_chunks p) (msg_chunk_idx msg);
  let task := {| vt_chunk_idx := msg_chunk_idx msg; vt_winning_peer_slot := winning_peer_slot msg;
                 vt_data := base_ a; vt_length := chunk_size_ a;
                 vt_expected_hash := ce_sha256 ch |} in
  Some { p with task_queue_ ::= (fun q => q ++ [task]) }.

(** What an I/O thread does with a piece. *)
Definition process_piece (p : Pools) (t : PieceTask) : option Pools :=
  a ← zget (pl_assemblers p) (pt_chunk_idx t);
  '(a, mem, complete) ← on_piece a (pl_mem p) (pt_begin t) (pt_data t);
  asms ← zset (pl_assemblers p) (pt_chunk_idx t) a;
  let p := { p with pl_assemblers := asms; pl_mem := mem } in
  if complete : bool
  then verify_enqueue p {| msg_chunk_idx := pt_chunk_idx t; winning_peer_slot := pt_peer_slot t |}
  else Some p.

(** An iteration of the loop of I/O thread [i]. *)
Definition io_worker_step (p : Pools) (i : Z) : option Pools :=
  match zget (io_queues_ p) i with
  | Some (t :: q) =>
    qs ← zset (io_queues_ p) i q;
    process_piece { p with io_queues_ := qs } t
  | _ => Some p
  end.

(** ** Verify threads *)
Section verify.
Variable sha256 : bytes -> bytes.

(** The bytes of a task, read through its mapping. *)
Definition task_bytes (mem : bytes) (t : VerifyTask) : option bytes :=
  base ← vt_data t;
  if (p_off base + vt_length t <=? p_lim base) && (p_lim base <=? zlength mem)
  then Some (zslice mem (p_off base) (vt_length t)) else None.

(** An iteration of a verify thread; a poison task ends the thread. *)
Definition verify_step (p : Pools) : option Pools :=
  match task_queue_ p with
  | [] => Some p
  | t :: q =>
    let p := { p with task_queue_ := q } in
    if vt_chunk_idx t =? UINT32_MAX then Some p
    else
      data ← task_bytes (pl_mem p) t;
      let actual := sha256 data in
      let passed := bool_decide (take 32 actual = take 32 (vt_expected_hash t)) in
      let r := {| vr_chunk_idx := vt_chunk_idx t; vr_winning_peer_slot := vt_winning_peer_slot t;
                  vr_passed := passed; vr_actual_hash := actual |} in
      Some { p with result_queue_ ::= (fun l => l ++ [r]) }
  end.
End verify.

Definition drain_results (p : Pools) : Pools * list VerifyResult :=
  ({ p with result_queue_ := [] }, result_queue_ p).

(** ** What the pools guarantee *)
(** The assembler of a chunk writes where the chunk is in the file. *)
Record asm_ok (size : Z) (a : ChunkAssembler) (ch : ChunkEntry) : Prop := {
  ao_sbs : sub_block_size_ a = SUB_BLOCK_SIZE;
  ao_size : chunk_size_ a = ce_length ch;
  ao_len : 0 < ce_length ch < 2 ^ 32;
  ao_off : 0 <= ce_offset ch;
  ao_base : exists b, base_ a = Some b /\ p_off b = ce_offset ch /\
    ce_offset ch + ce_length ch <= p_lim b <= size;
  ao_mask : ce_length ch <= 32 * SUB_BLOCK_SIZE * zlength (completed_mask_ a);
}.

(** A piece the threads can handle: of a chunk there is, not empty, and whose
    end does not wrap around. *)
Definition task_ok (n : nat) (t : PieceTask) : Prop :=
  0 <= pt_chunk_idx t < Z.of_nat n /\ 0 <= pt_begin t /\ pt_data t <> [] /\
  pt_begin t + zlength (pt_data t) < 2 ^ 32.

(** A verify task is about the chunk it names. *)
Definition vtask_ok (size : Z) (chunks : list ChunkEntry) (t : VerifyTask) : Prop :=
  vt_chunk_idx t <> UINT32_MAX ->
  exists ch b, zget chunks (vt_chunk_idx t) = Some ch /\ vt_data t = Some b /\
    p_off b = ce_offset ch /\ ce_offset ch + ce_length ch <= p_lim b <= size /\
    vt_length t = ce_length ch /\ vt_expected_hash t = ce_sha256 ch.

Record pools_ok (p : Pools) : Prop := {
  po_asms : Forall2 (asm_ok (zlength (pl_mem p))) (pl_assemblers p) (pl_chunks p);
  po_count : zlength (pl_chunks p) < UINT32_MAX;
  po_queues : Forall (Forall (task_ok (length (pl_chunks p)))) (io_queues_ p);
  po_tasks : Forall (vtask_ok (zlength (pl_mem p)) (pl_chunks p)) (task_queue_ p);
}.

(** [on_piece] on such a piece. *)
Lemma on_piece_ok size a ch mem begin data :
  asm_ok size a ch -> zlength mem = size -> 0 <= begin -> data <> [] ->
  begin + zlength data < 2 ^ 32 ->
  exists a' mem' r, on_piece a mem begin data = Some (a', mem', r) /\
    asm_ok size a' ch /\ zlength mem' = size /\
    (begin + zlength data <= ce_length ch ->
       mem' = blit mem (ce_offset ch + begin) data) /\
    (ce_length ch < begin + zlength data -> mem' = mem /\ a' = a /\ r = false) /\
    (slot_done (completed_mask_ a) (begin / SUB_BLOCK_SIZE) = true -> r = false).
Proof.
  intros [Hsbs Hsz Hlen Hoff (b & Hb & Hpo & Hlim) Hmask] Hmem Hb0 Hne Hw.
  assert (0 < zlength data) as Hd by (destruct data; [done|unfold zlength; simpl; lia]).
  unfold on_piece. rewrite Hsbs. change (SUB_BLOCK_SIZE =? 0) with false. cbn iota.
  rewrite Hb, Hsz, u32_small by (unfold is_u32; lia).
  destruct (Z.ltb_spec (ce_length ch) (begin + zlength data)) as [Hgt|Hle].
  { exists a, mem, false. split; [done|]. split; [by split; eauto|]. split; [done|]. split; [lia|done]. }
  unfold memcpy_ptr. rewrite Hpo. replace (_ <=? p_lim b) with true by lia.
  rewrite memcpy_at_Some by lia. cbn [mbind option_bind].
  destruct (fetch_or_slot_spec a (begin / SUB_BLOCK_SIZE)) as (a' & -> & Hgeo & Hpend & _).
  { split; [apply Z.div_pos; unfold SUB_BLOCK_SIZE; lia|].
    apply Z.div_lt_upper_bound; unfold SUB_BLOCK_SIZE in *; lia. }
  cbn [mbind option_bind]. destruct Hgeo as (Eb & Es & Esb & _ & Em).
  assert (asm_ok size a' ch) as Hok'.
  { split; [congruence|congruence|done|done|exists b; split_and!; congruence || lia|].
    by rewrite Em. }
  assert (zlength (blit mem (ce_offset ch + begin) data) = size) as Hbl.
  { unfold zlength. rewrite length_blit; [exact Hmem|lia|lia]. }
  destruct (slot_done _ _); cbn [negb].
  - do 3 eexists. split; [done|]. by split_and!; try done; lia.
  - destruct (fetch_sub_pending a') as [a2 r] eqn:E. unfold fetch_sub_pending in E.
    injection E as <- <-. do 3 eexists. split; [done|]. split; [|by split_and!; try done; lia].
    destruct Hok' as [H1 H2 H3 H4 H5 H6]. by split.
Qed.

Lemma vtask_ok_size size chunks t size' :
  size' = size -> vtask_ok size chunks t -> vtask_ok size' chunks t.
Proof. by intros ->. Qed.

Lemma pools_lookup p i :
  pools_ok p -> 0 <= i < zlength (pl_chunks p) ->
  exists a ch, zget (pl_assemblers p) i = Some a /\ zget (pl_chunks p) i = Some ch /\
    asm_ok (zlength (pl_mem p)) a ch.
Proof.
  intros Hp Hi. destruct (proj2 (zget_is_Some (pl_chunks p) i) Hi) as [ch Hch].
  destruct (zget_Some (pl_chunks p) i ch) as [Hs _]. destruct (Hs Hch) as [_ Hl].
  destruct (Forall2_lookup_r _ _ _ _ _ (po_asms _ Hp) Hl) as (a & Ha & Hok).
  exists a, ch. split_and!; [|done|done]. apply zget_Some. by split; [lia|].
Qed.

(** The effect of a piece on the file and the assemblers: only its chunk. *)
Record piece_effect (p p' : Pools) (i : Z) (ch : ChunkEntry) : Prop := {
  pe_ok : pools_ok p';
  pe_mem k : ~ (ce_offset ch <= k < ce_offset ch + ce_length ch) ->
    zget (pl_mem p') k = zget (pl_mem p) k;
  pe_size : zlength (pl_mem p') = zlength (pl_mem p);
  pe_asms j : j <> i -> zget (pl_assemblers p') j = zget (pl_assemblers p) j;
  pe_chunks : pl_chunks p' = pl_chunks p;
  pe_results : result_queue_ p' = result_queue_ p;
  pe_queues : io_queues_ p' = io_queues_ p;
}.

Lemma zget_blit_outside (mem data : bytes) off k :
  0 <= off -> off + zlength data <= zlength mem -> ~ (off <= k < off + zlength data) ->
  zget (blit mem off data) k = zget mem k.
Proof.
  intros Ho Hl Hk. destruct (Z.ltb_spec k 0).
  { unfold zget, in_range. by replace (0 <=? k) with false by lia. }
  rewrite <- (Z2Nat.id k) by lia. rewrite !zget_of_nat. apply lookup_blit_outside; [lia|lia|].
  unfold zlength in Hk. lia.
Qed.

Lemma verify_enqueue_ok p msg a ch :
  pools_ok p -> zget (pl_assemblers p) (msg_chunk_idx msg) = Some a ->
  zget (pl_chunks p) (msg_chunk_idx msg) = Some ch -> asm_ok (zlength (pl_mem p)) a ch ->
  exists p', verify_enqueue p msg = Some p' /\ pools_ok p' /\ pl_mem p' = pl_mem p /\
    pl_assemblers p' = pl_assemblers p /\ pl_chunks p' = pl_chunks p /\
    result_queue_ p' = result_queue_ p /\ io_queues_ p' = io_queues_ p.
Proof.
  intros [H1 H2 H3 H4] Ha Hch [Hsbs Hsz Hlen Hoff (b & Hb & Hpo & Hlim) Hmask].
  unfold verify_enqueue. rewrite Ha, Hch. cbn [mbind option_bind]. eexists. split; [done|].
  split; [|done]. split; cbn; try done. apply Forall_app. split; [done|]. constructor; [|constructor].
  intros _. exists ch, b. cbn. by split_and!; try done; lia.
Qed.

Lemma process_piece_ok p t ch :
  pools_ok p -> task_ok (length (pl_chunks p)) t ->
  zget (pl_chunks p) (pt_chunk_idx t) = Some ch ->
  exists p', process_piece p t = Some p' /\ piece_effect p p' (pt_chunk_idx t) ch.
Proof.
  intros Hp (Hi & Hb & Hne & Hw) Hch.
  destruct (pools_lookup p (pt_chunk_idx t) Hp) as (a & ch' & Ha & Hch' & Hok); [done|].
  rewrite Hch in Hch'. injection Hch' as <-.
  destruct (on_piece_ok _ a ch (pl_mem p) (pt_begin t) (pt_data t) Hok eq_refl Hb Hne Hw)
    as (a' & mem' & r & Hon & Hok' & Hsz & Hin & Hout & _).
  unfold process_piece. rewrite Ha. cbn [mbind option_bind]. rewrite Hon. cbn [mbind option_bind].
  rewrite zset_zupd by (eapply zget_range; exact Ha). cbn [mbind option_bind]. cbv zeta.
  set (p1 := { p with pl_assemblers := _; pl_mem := _ }).
  assert (zget (pl_assemblers p1) (pt_chunk_idx t) = Some a') as Ha1
    by (apply zget_zupd_eq; by eapply zget_range).
  assert (piece_effect p p1 (pt_chunk_idx t) ch) as He.
  { split; try done.
    - destruct Hp as [P1 P2 P3 P4]. split; cbn; rewrite ?Hsz; try done.
      apply Forall2_same_length_lookup. split.
      + rewrite length_zupd. by eapply Forall2_length.
      + intros j x y Hx Hy. rewrite <- zget_of_nat in Hx. rewrite zget_zupd in Hx.
        rewrite (proj2 (in_range_iff _ _)) in Hx by (by eapply zget_range).
        destruct (Z.eqb_spec (pt_chunk_idx t) (Z.of_nat j)) as [E|E]; cbn [andb] in Hx.
        * injection Hx as <-. rewrite <- zget_of_nat, <- E, Hch in Hy. by injection Hy as <-.
        * rewrite zget_of_nat in Hx. by apply (Forall2_lookup_lr _ _ _ _ _ _ P1 Hx Hy).
    - intros k Hk. cbn. destruct (Z.le_gt_cases (pt_begin t + zlength (pt_data t)) (ce_length ch)) as [Hle|Hgt].
      + rewrite Hin by done. pose proof (zlength_nonneg (pt_data t)).
        destruct Hok as [_ _ ? ? (b & _ & _ & ?) _].
        apply zget_blit_outside; lia.
      + destruct (Hout Hgt) as (-> & _). done.
    - intros j Hj. cbn. by apply zget_zupd_ne. }
  destruct r; [|by eexists].
  destruct (verify_enqueue_ok p1 {| msg_chunk_idx := pt_chunk_idx t; winning_peer_slot := pt_peer_slot t |}
    a' ch) as (p2 & Hp2 & Hok2 & Em & Ea & Ec & Er & Eq); [apply He|done|done|by cbn; rewrite Hsz|].
  exists p2. split; [done|]. destruct He as [E1 E2 E3 E4 E5 E6 E7].
  split; rewrite ?Em, ?Ea, ?Ec, ?Er, ?Eq; done.
Qed.

Lemma Forall_zupd {A} (P : A -> Prop) l i x : Forall P l -> P x -> Forall P (zupd l i x).
Proof. intros Hl Hx. unfold zupd. destruct (in_range l i); [by apply Forall_insert|done]. Qed.

(** What happens to the pools. *)
Inductive pool_op :=
| PDispatch (t : PieceTask)
| PIo (i : Z)
| PVerify
| PDrain.

Definition run_pool (sha256 : bytes -> bytes) (p : Pools) (o : pool_op) : option Pools :=
  match o with
  | PDispatch t => io_dispatch p t
  | PIo i => io_worker_step p i
  | PVerify => verify_step sha256 p
  | PDrain => Some (drain_results p).1
  end.

Fixpoint run_pools (sha256 : bytes -> bytes) (p : Pools) (ops : list pool_op) : option Pools :=
  match ops with
  | [] => Some p
  | o :: ops => p ← run_pool sha256 p o; run_pools sha256 p ops
  end.

Definition pool_op_ok (n : nat) (o : pool_op) : Prop :=
  match o with PDispatch t => task_ok n t | _ => True end.

Lemma io_dispatch_ok p t :
  pools_ok p -> io_queues_ p <> [] -> task_ok (length (pl_chunks p)) t ->
  exists p', io_dispatch p t = Some p' /\ pools_ok p' /\
    length (io_queues_ p') = length (io_queues_ p) /\ pl_chunks p' = pl_chunks p.
Proof.
  intros [H1 H2 H3 H4] Hne Ht. unfold io_dispatch. cbv zeta.
  assert (0 < zlength (io_queues_ p)) as Hn
    by (destruct (io_queues_ p); [done|unfold zlength; simpl; lia]).
  replace (_ =? 0) with false by lia.
  assert (0 <= worker_of t (zlength (io_queues_ p)) < zlength (io_queues_ p)) as Hw
    by (apply Z.mod_pos_bound; lia).
  destruct (proj2 (zget_is_Some (io_queues_ p) _) Hw) as [q Hq]. rewrite Hq. cbn [mbind option_bind].
  rewrite zset_zupd by done. cbn [mbind option_bind]. eexists. split; [done|].
  split; [|split; [cbn; apply length_zupd|done]]. split; cbn; try done.
  apply Forall_zupd; [done|]. apply Forall_app. split; [|constructor; [done|constructor]].
  apply zget_Some in Hq as [_ Hq]. by apply (Forall_lookup_1 _ _ _ _ H3 Hq).
Qed.

Lemma io_worker_step_ok p i :
  pools_ok p -> exists p', io_worker_step p i = Some p' /\ pools_ok p' /\
    length (io_queues_ p') = length (io_queues_ p) /\ pl_chunks p' = pl_chunks p.
Proof.
  intros Hp. unfold io_worker_step. destruct (zget (io_queues_ p) i) as [[|t q]|] eqn:E; [by eauto| |by eauto].
  rewrite zset_zupd by (by eapply zget_range). cbn [mbind option_bind].
  set (p1 := { p with io_queues_ := _ }). pose proof Hp as [H1 H2 H3 H4].
  apply zget_Some in E as Hq. destruct Hq as [_ Hq].
  pose proof (Forall_lookup_1 _ _ _ _ H3 Hq) as [Ht Hq']%Forall_cons.
  assert (pools_ok p1) as Hp1 by (split; cbn; try done; by apply Forall_zupd).
  destruct (proj2 (zget_is_Some (pl_chunks p1) (pt_chunk_idx t))) as [ch Hch].
  { destruct Ht as [Ht _]. cbn. unfold zlength. lia. }
  destruct (process_piece_ok p1 t ch Hp1) as (p' & Hp' & He); [done|done|].
  exists p'. split; [done|]. destruct He. split; [done|]. split; [|by rewrite pe_chunks0].
  rewrite pe_queues0. apply length_zupd.
Qed.

Lemma verify_step_ok sha256 p :
  pools_ok p -> exists p', verify_step sha256 p = Some p' /\ pools_ok p' /\
    length (io_queues_ p') = length (io_queues_ p) /\ pl_chunks p' = pl_chunks p /\
    forall r, r ∈ result_queue_ p' -> r ∈ result_queue_ p \/
      exists ch, zget (pl_chunks p) (vr_chunk_idx r) = Some ch /\
        (vr_passed r = true <->
         take 32 (sha256 (zslice (pl_mem p) (ce_offset ch) (ce_length ch))) = take 32 (ce_sha256 ch)).
Proof.
  intros [H1 H2 H3 H4]. unfold verify_step. destruct (task_queue_ p) as [|t q] eqn:E.
  { exists p. split; [done|]. split; [by split; rewrite ?E|]. split_and!; auto. }
  apply Forall_cons in H4 as [Ht Hq]. cbv zeta. destruct (Z.eqb_spec (vt_chunk_idx t) UINT32_MAX) as [He|He].
  { eexists. split; [done|]. split; [by split|]. split_and!; auto. }
  destruct (Ht He) as (ch & b & Hch & Hb & Hpo & Hlim & Hl & Hx).
  unfold task_bytes. rewrite Hb. cbn [mbind option_bind pl_mem apply_update].
  rewrite Hpo, Hl. replace (_ && _) with true by lia. cbn [mbind option_bind].
  eexists. split; [done|]. split; [by split|]. split_and!; [done|done|].
  cbn. intros r [Hr|Hr]%elem_of_app; [by left|]. apply list_elem_of_singleton in Hr as ->.
  right. exists ch. cbn. split; [done|]. by rewrite bool_decide_eq_true, Hx.
Qed.


(** A piece for a sub-block that has already arrived is written into the
    file all the same, and nothing is verified again: whoever sends one after
    the chunk passed verification changes the finished file. *)
Theorem late_piece_overwrites p t a ch :
  pools_ok p -> task_ok (length (pl_chunks p)) t ->
  zget (pl_assemblers p) (pt_chunk_idx t) = Some a -> zget (pl_chunks p) (pt_chunk_idx t) = Some ch ->
  pt_begin t + zlength (pt_data t) <= ce_length ch ->
  slot_done (completed_mask_ a) (pt_begin t / SUB_BLOCK_SIZE) = true ->
  exists p', process_piece p t = Some p' /\
    zslice (pl_mem p') (ce_offset ch + pt_begin t) (zlength (pt_data t)) = pt_data t /\
    task_queue_ p' = task_queue_ p /\ result_queue_ p' = result_queue_ p.
Proof.
  intros Hp (Hi & Hb & Hne & Hw) Ha Hch Hle Hdone.
  destruct (pools_lookup p (pt_chunk_idx t) Hp) as (a0 & ch0 & Ha0 & Hch0 & Hok); [done|].
  simplify_eq.
  destruct (on_piece_ok _ a ch (pl_mem p) (pt_begin t) (pt_data t) Hok eq_refl Hb Hne Hw)
    as (a' & mem' & r & Hon & _ & _ & Hin & _ & Hr).
  unfold process_piece. rewrite Ha. cbn [mbind option_bind]. rewrite Hon. cbn [mbind option_bind].
  rewrite zset_zupd by (eapply zget_range; exact Ha). cbn [mbind option_bind]. rewrite (Hr Hdone).
  eexists. split; [done|]. cbn. split; [|done]. rewrite (Hin Hle).
  destruct Hok as [_ _ ? ? (b & _ & _ & ?) _]. apply zslice_blit; lia.
Qed.

(** ** Instances *)
(** A task with one 5-byte chunk whose digest is its own content. *)
Definition demo_chunk : ChunkEntry := {|
  ce_offset := 2; ce_length := 5;
  ce_sha256 := [Byte.x01; Byte.x02; Byte.x03; Byte.x04; Byte.x05] |}.

Definition demo_pools : Pools := {|
  pl_assemblers := [assembler_init (Some {| p_off := 2; p_lim := 10 |}) 5 SUB_BLOCK_SIZE];
  pl_chunks := [demo_chunk]; pl_mem := replicate 10 Byte.x00;
  io_queues_ := [[]; []]; io_running_ := true; task_queue_ := []; result_queue_ := [];
  verify_workers_ := 2; verify_running_ := true;
|}.

Definition demo_task : PieceTask := {|
  pt_chunk_idx := 0; pt_begin := 0; pt_length := 5; pt_peer_slot := 7;
  pt_data := [Byte.x01; Byte.x02; Byte.x03; Byte.x04; Byte.x05] |}.

Lemma demo_pools_ok : pools_ok demo_pools.
Proof.
  split; [|reflexivity|by repeat constructor|constructor].
  repeat constructor; try (vm_compute; congruence).
  exists {| p_off := 2; p_lim := 10 |}. vm_compute. repeat split; discriminate.
Defined.

Lemma demo_task_ok : task_ok 1 demo_task.
Proof. by repeat split; vm_compute. Defined.


(** The pools once the chunk is there, and a second, different piece. *)
Definition demo_done : Pools :=
  match run_pools (fun b => b) demo_pools [PDispatch demo_task; PIo 0; PVerify; PDrain] with
  | Some p => p
  | None => demo_pools
  end.

Definition demo_forged : PieceTask := {|
  pt_chunk_idx := 0; pt_begin := 0; pt_length := 1; pt_peer_slot := 9; pt_data := [Byte.xff] |}.

Lemma demo_done_ok : pools_ok demo_done.
Proof.
  split; [|reflexivity|by repeat constructor|constructor].
  repeat constructor; try (vm_compute; congruence).
  exists {| p_off := 2; p_lim := 10 |}. vm_compute. repeat split; discriminate.
Defined.

Lemma late_piece_overwrites_witness :
  exists p', process_piece demo_done demo_forged = Some p' /\
    zslice (pl_mem p') 2 1 = [Byte.xff] /\
    task_queue_ p' = task_queue_ demo_done /\ result_queue_ p' = result_queue_ demo_done.
Proof.
  apply (late_piece_overwrites demo_done demo_forged
    (match pl_assemblers demo_done with a :: _ => a | [] => assembler_new end) demo_chunk).
  - apply demo_done_ok.
  - by repeat split; vm_compute.
  - vm_compute. reflexivity.
  - reflexivity.
  - vm_compute. discriminate.
  - vm_compute. reflexivity.
Defined.
