(* ===== verification/Transfer.v ===== *)
(** * A chunk from one peer's file to the other's

    The parts put together: a request built by the downloading side is framed,
    read and handled by the serving side, whose read pool and write queue
    produce a piece, which the downloading side's session hands to its I/O
    threads.  [fetch_subblock] composes the operations of [Protocol],
    [PeerSession] and the read pool; the theorems show which bytes arrive, and
    when a chunk can be completed from them. *)

From S2P Require Import Prelude Platform Protocol ChunkAssembler Scheduler SchedulerProofs SchedulerSpec PeerSession PeerSessionSpec.
Import OCamlLikeNotations.

(** One request of the scheduler, answered: [file] is the file the serving
    session [seeder] has open, [sc] the downloading side's scheduler. *)
Definition fetch_subblock (file : bytes) (seeder leecher : PeerSession) (sc : option Scheduler)
  (now chunk begin : Z) : option PieceTask :=
  req ← build_request chunk begin SUB_BLOCK_SIZE;
  '(s1, _) ← dispatch_all seeder None (read_bytes (RHeader []) req).2 now;
  match last (events_ s1) with
  | Some (EvRead j) =>
    s2 ← serve file s1 j;
    m ← last (outgoing s2);
    '(l1, _) ← dispatch_all leecher sc (read_bytes (RHeader []) m).2 now;
    match last (events_ l1) with
    | Some (EvDispatch t) => Some t
    | _ => None
    end
  | _ => None
  end.

(** A session that serves sub-blocks of the chunk at [off]: connected, the
    peer unchoked, the file open, without sendfile. *)
Record seeder_ready (s : PeerSession) (chunk off : Z) : Prop := {
  sr_unchoked : choking_peer_ s = false;
  sr_cancelled b : (chunk, b) ∉ cancelled_set_ s;
  sr_file : 0 <= file_fd_ s;
  sr_sendfile : use_sendfile_ s = false;
  sr_open : closed_ s = false;
  sr_offsets : exists o, chunk_offsets_ s = Some o /\ zget o chunk = Some off;
  sr_writer : is_writing_ s = false -> write_queue_ s = [];
}.

Definition sched_fine (sc : option Scheduler) : Prop :=
  match sc with
  | None => True
  | Some sc => exists speed sizes, zlength sizes < 2 ^ 32 /\ Forall is_u32 sizes /\
      reach speed sizes sc
  end.

Lemma sched_fine_piece sc slot c b now :
  sched_fine (Some sc) -> is_Some (dec_peer_pending sc slot c b now).
Proof.
  intros (speed & sizes & Hn & Hz & Hr).
  destruct (inner_op_reach speed sizes sc (OpPiece slot c b now) Hn Hz Hr) as (sc' & Hs & _); [done|].
  by eexists.
Qed.

(** The serving side reads the request and posts the read. *)
Lemma seeder_reads seeder now chunk begin len off :
  is_u32 chunk -> is_u32 begin -> is_u32 len -> 0 <= off + begin < 2 ^ 64 ->
  seeder_ready seeder chunk off ->
  dispatch_all seeder None (read_bytes (RHeader [])
    (frame REQUEST (be_bytes 4 chunk ++ be_bytes 4 begin ++ be_bytes 4 len))).2 now =
  Some (emit seeder (EvRead {| rj_off := off + begin; rj_len := len; rj_index := chunk;
                               rj_begin := begin |}), None).
Proof.
  intros Hc Hb Hl Hf [H1 H2 H3 H4 H5 (o & H6 & H7) H8].
  rewrite read_frame by (rewrite !zlength_app, !zlength_be_bytes; unfold MAX_MSG_SIZE; lia).
  cbn [snd dispatch_all dispatch_message msg_code msg_of_code].
  rewrite (handle_request_built seeder chunk begin len off o) by (done || apply H2).
  done.
Qed.

(** The downloading side reads the piece and dispatches it. *)
Lemma leecher_dispatches leecher sc now chunk begin data :
  is_u32 chunk -> is_u32 begin -> zlength data <= MAX_MSG_SIZE - 8 -> io_pool_ leecher = true ->
  sched_fine sc ->
  exists l1 sc1, dispatch_all leecher sc (read_bytes (RHeader [])
      (frame PIECE (piece_payload chunk begin data))).2 now = Some (l1, sc1) /\
    last (events_ l1) = Some (EvDispatch {| pt_chunk_idx := chunk; pt_begin := begin;
      pt_length := zlength data; pt_peer_slot := slot_id_ leecher; pt_data := data |}).
Proof.
  intros Hc Hb Hd Hio Hsc. rewrite read_frame.
  2:{ unfold piece_payload. rewrite !zlength_app, !zlength_be_bytes. lia. }
  cbn [snd dispatch_all dispatch_message msg_code msg_of_code].
  destruct (handle_piece_built leecher sc chunk begin data now) as (l1 & sc1 & -> & He); [done..| |].
  { intros sc0 slot ->. by apply sched_fine_piece. }
  exists l1, sc1. split; [done|]. by rewrite He, last_snoc.
Qed.

(** What arrives for a request: the bytes of the file from there on, at most
    one sub-block and not beyond the end of the file. *)
Lemma fetch_subblock_spec file seeder leecher sc now chunk off begin :
  is_u32 chunk -> is_u32 begin -> 0 <= off -> off + begin < zlength file < 2 ^ 64 ->
  seeder_ready seeder chunk off -> io_pool_ leecher = true -> sched_fine sc ->
  fetch_subblock file seeder leecher sc now chunk begin = Some
    {| pt_chunk_idx := chunk; pt_begin := begin;
       pt_length := zlength (zslice file (off + begin) SUB_BLOCK_SIZE);
       pt_peer_slot := slot_id_ leecher; pt_data := zslice file (off + begin) SUB_BLOCK_SIZE |}.
Proof.
  intros Hc Hb Ho Hf Hr Hio Hsc. pose proof Hb as Hb0. destruct Hb0 as [Hb0 _].
  assert (0 < SUB_BLOCK_SIZE < 2 ^ 32 - 13 /\ SUB_BLOCK_SIZE <= MAX_MSG_SIZE - 8) as [Hs Hmax] by done.
  unfold fetch_subblock. generalize dependent SUB_BLOCK_SIZE. intros sbs Hs Hmax.
  rewrite build_request_frame. cbn [mbind option_bind].
  rewrite (seeder_reads seeder now chunk begin sbs off) by (done || unfold is_u32; lia).
  cbn [mbind option_bind]. set (j := {| rj_off := _; rj_len := _; rj_index := _; rj_begin := _ |}).
  assert (last (events_ (emit seeder (EvRead j))) = Some (EvRead j)) as -> by apply last_snoc.
  destruct (serve_sends_piece (emit seeder (EvRead j)) file j) as (s2 & -> & Hout);
    [apply Hr|apply Hr|cbn; lia|exact Hs|]. cbn [mbind option_bind].
  rewrite Hout, last_snoc. cbn [mbind option_bind].
  change (piece_payload _ _ _) with (piece_payload chunk begin (zslice file (off + begin) sbs)).
  destruct (leecher_dispatches leecher sc now chunk begin (zslice file (off + begin) sbs))
    as (l1 & sc1 & -> & He); [done|done| |done|done|].
  { rewrite zlength_zslice by lia. lia. }
  cbn [mbind option_bind]. by rewrite He.
Qed.

(** ** Completing a chunk *)
(** Pieces fetched for the sub-blocks of the chunk at [off] of length [len]. *)
Definition fetched (file : bytes) (off len : Z) (p : Piece) : Prop :=
  0 <= pc_begin p < len /\ pc_begin p mod SUB_BLOCK_SIZE = 0 /\
  exists seeder leecher sc now chunk t, is_u32 chunk /\ seeder_ready seeder chunk off /\
    io_pool_ leecher = true /\ sched_fine sc /\
    fetch_subblock file seeder leecher sc now chunk (pc_begin p) = Some t /\
    pc_data p = pt_data t.

(** The chunk ends where a sub-block ends, or where the file ends. *)
Definition regular_chunk (file : bytes) (off len : Z) : Prop :=
  0 <= off /\ 0 < len /\ off + len <= zlength file /\ zlength file < 2 ^ 64 /\
  (len mod SUB_BLOCK_SIZE = 0 \/ off + len = zlength file).

(** A sub-block of the chunk is what the file has there. *)
Lemma subblock_slice (file : bytes) off len sbs b :
  0 < sbs -> 0 <= off -> 0 <= b < len -> b mod sbs = 0 -> off + len <= zlength file ->
  len mod sbs = 0 \/ off + len = zlength file ->
  zslice file (off + b) sbs = zslice (zslice file off len) b (slot_len len sbs (b / sbs)).
Proof.
  intros Hs Ho Hb Hmod Hf Hreg. unfold slot_len.
  assert (b / sbs * sbs = b) as -> by (pose proof (Z.div_mod b sbs); lia).
  rewrite zslice_zslice by lia. destruct Hreg as [Hm|He].
  - f_equal. apply Z.div_exact in Hm, Hmod; [|lia|lia].
    assert (b / sbs < len / sbs) by (apply (Z.mul_lt_mono_pos_l sbs); lia).
    assert (sbs * (b / sbs + 1) <= sbs * (len / sbs)) by (apply Z.mul_le_mono_nonneg_l; lia). lia.
  - destruct (Z.le_gt_cases sbs (len - b)); [f_equal; lia|apply zslice_to_end; lia].
Qed.

Lemma fetched_piece_ok file off len p :
  regular_chunk file off len -> len < 2 ^ 32 -> fetched file off len p ->
  piece_ok (zslice file off len) SUB_BLOCK_SIZE p.
Proof.
  intros (Ho & Hl & Hf & Hsz & Hreg) Hl32
    (Hb & Hmod & seeder & leecher & sc & now & c & t & Hc & Hr & Hio & Hsc & Hft & Hd).
  pose proof (fetch_subblock_spec file seeder leecher sc now c off (pc_begin p)) as Hspec.
  rewrite Hft in Hspec. destruct t as [ti tb tl ts td]. cbn in Hd. subst td.
  assert (pc_data p = zslice file (off + pc_begin p) SUB_BLOCK_SIZE) as Hd.
  { assert (is_u32 (pc_begin p)) as Hu by (unfold is_u32; lia).
    assert (off + pc_begin p < zlength file < 2 ^ 64) as Hlt by lia.
    specialize (Hspec Hc Hu Ho Hlt Hr Hio Hsc). by injection Hspec. }
  assert (zlength (zslice file off len) = len) as Hz by (apply length_zslice; lia).
  split; [rewrite Hz; lia|]. split; [done|]. rewrite Hd, Hz.
  by apply subblock_slice.
Qed.

(** A chunk whose end is the end of a sub-block or of the file is
    downloaded correctly: once the pieces fetched for all its sub-blocks are
    with the I/O threads, every run of the threads is finite, none gets stuck,
    the run reports completion exactly once, and then the output file holds
    the chunk's bytes of the source file. *)
Theorem chunk_download_completes file off len base mem0 (queues : list (list Piece)) :
  regular_chunk file off len -> target_ok (zslice file off len) SUB_BLOCK_SIZE base mem0 ->
  Forall (Forall (fetched file off len)) queues ->
  (forall s, 0 <= s < (len + SUB_BLOCK_SIZE - 1) / SUB_BLOCK_SIZE ->
     Exists (Exists (fun p => pc_begin p / SUB_BLOCK_SIZE = s)) queues) ->
  let m0 := start_machine base len SUB_BLOCK_SIZE mem0 queues in
  (forall k m, nsteps step k m0 m -> (k <= work m0)%nat) /\
  (forall m, steps m0 m -> (exists m', step m m') \/ m_completions m = 1) /\
  (forall m, steps m0 m -> m_completions m = 1 ->
     zslice (m_mem m) (p_off base) len = zslice file off len).
Proof.
  intros Hreg Ht Hq Hcov. pose proof Hreg as (Ho & Hl & Hf & _ & _).
  assert (zlength (zslice file off len) = len) as Hz by (apply length_zslice; lia).
  assert (len < 2 ^ 32) as Hl32.
  { destruct Ht as (_ & _ & Hw & _). rewrite Hz in Hw. unfold SUB_BLOCK_SIZE in Hw. lia. }
  assert (Forall (Forall (piece_ok (zslice file off len) SUB_BLOCK_SIZE)) queues) as Hok.
  { eapply Forall_impl; [exact Hq|]. intros q Hq'. eapply Forall_impl; [exact Hq'|].
    intros p. by apply fetched_piece_ok. }
  cbv zeta. set (content := zslice file off len) in *. clearbody content.
  rewrite <- Hz in Hcov |- *.
  destruct (interleaving_completes _ _ _ _ _ Ht Hok Hcov) as [H1 H2].
  split; [exact H1|]. split; [exact H2|]. intros m Hm Hone.
  destruct (interleaving_safe _ _ _ _ _ _ Ht Hok Hm) as (_ & _ & H3 & _). by apply H3.
Qed.

(** A chunk that ends inside a sub-block, with file content behind it, is
    never completed: the piece that arrives for its last sub-block carries
    bytes of the next chunk and is refused, however often it is fetched. *)
Theorem irregular_tail_refused file off len seeder leecher sc now chunk base mem a begin t :
  is_u32 chunk -> 0 <= off -> 0 <= begin < len -> len < 2 ^ 31 ->
  begin mod SUB_BLOCK_SIZE = 0 -> len < begin + SUB_BLOCK_SIZE -> off + len < zlength file < 2 ^ 64 ->
  seeder_ready seeder chunk off -> io_pool_ leecher = true -> sched_fine sc ->
  base_ a = Some base -> chunk_size_ a = len -> sub_block_size_ a = SUB_BLOCK_SIZE ->
  fetch_subblock file seeder leecher sc now chunk begin = Some t ->
  on_piece a mem (pt_begin t) (pt_data t) = Some (a, mem, false).
Proof.
  intros Hc Ho Hb Hl Hm Hend Hf Hr Hio Hsc Hba Hsz Hsbs Hft.
  rewrite (fetch_subblock_spec file seeder leecher sc now chunk off) in Hft;
    [|done|unfold is_u32; lia|done|lia|done|done|done]. injection Hft as <-. cbn [pt_begin pt_data].
  unfold on_piece. rewrite Hsbs, Hba, Hsz. change (SUB_BLOCK_SIZE =? 0) with false. cbn iota.
  rewrite zlength_zslice by (unfold SUB_BLOCK_SIZE; lia).
  rewrite u32_small by (unfold is_u32, SUB_BLOCK_SIZE; lia).
  by replace (len <? _) with true by lia.
Qed.

(** ** Instances *)
Definition demo_file : bytes := [Byte.x01; Byte.x02; Byte.x03; Byte.x04; Byte.x05].

Definition demo_seeder : PeerSession :=
  { demo_session with choking_peer_ := false; file_fd_ := 3; chunk_offsets_ := Some [0; 2] }.

Definition demo_leecher : PeerSession := { demo_session with io_pool_ := true; slot_id_ := 4 }.

Lemma demo_seeder_ready chunk off :
  zget [0; 2] chunk = Some off -> seeder_ready demo_seeder chunk off.
Proof.
  intros Hz. split; [done|intros b; apply not_elem_of_empty|done|done|done|by exists [0; 2]|done].
Qed.

Definition demo_fetched : Piece := {| pc_begin := 0; pc_data := [Byte.x03; Byte.x04; Byte.x05] |}.

Lemma demo_fetched_ok : fetched demo_file 2 3 demo_fetched.
Proof.
  split; [cbn; lia|]. split; [done|].
  exists demo_seeder, demo_leecher, None, 0, 1,
    {| pt_chunk_idx := 1; pt_begin := 0; pt_length := 3; pt_peer_slot := 4;
       pt_data := [Byte.x03; Byte.x04; Byte.x05] |}.
  split; [unfold is_u32; lia|]. split; [by apply demo_seeder_ready|].
  split; [done|]. split; [done|]. split; [vm_compute; reflexivity|done].
Qed.

Lemma chunk_download_completes_witness :
  let m0 := start_machine {| p_off := 2; p_lim := 5 |} 3 SUB_BLOCK_SIZE (replicate 5 Byte.x00)
              [[demo_fetched]] in
  (forall k m, nsteps step k m0 m -> (k <= work m0)%nat) /\
  (forall m, steps m0 m -> (exists m', step m m') \/ m_completions m = 1) /\
  (forall m, steps m0 m -> m_completions m = 1 ->
     zslice (m_mem m) 2 3 = [Byte.x03; Byte.x04; Byte.x05]).
Proof.
  apply (chunk_download_completes demo_file 2 3 {| p_off := 2; p_lim := 5 |}).
  - unfold regular_chunk. change (zlength demo_file) with 5. lia.
  - unfold target_ok, SUB_BLOCK_SIZE. change (zlength (zslice demo_file 2 3)) with 3.
    change (zlength (replicate 5 Byte.x00)) with 5. cbn [p_off p_lim]. lia.
  - repeat constructor; apply demo_fetched_ok.
  - intros s Hs. change ((3 + SUB_BLOCK_SIZE - 1) / SUB_BLOCK_SIZE) with 1 in Hs.
    left. left. change (pc_begin demo_fetched / SUB_BLOCK_SIZE) with 0. lia.
Defined.

(** The first chunk (2 bytes) ends inside a sub-block. *)
Lemma irregular_tail_refused_witness :
  let a := assembler_init (Some {| p_off := 0; p_lim := 5 |}) 2 SUB_BLOCK_SIZE in
  on_piece a (replicate 5 Byte.x00) 0 demo_file = Some (a, replicate 5 Byte.x00, false).
Proof.
  intros a.
  apply (irregular_tail_refused demo_file 0 2 demo_seeder demo_leecher None 0 0
    {| p_off := 0; p_lim := 5 |} (replicate 5 Byte.x00) a 0
    {| pt_chunk_idx := 0; pt_begin := 0; pt_length := 5; pt_peer_slot := 4; pt_data := demo_file |}).
  - unfold is_u32. lia.
  - lia.
  - lia.
  - lia.
  - reflexivity.
  - unfold SUB_BLOCK_SIZE. lia.
  - vm_compute. split; reflexivity.
  - by apply demo_seeder_ready.
  - reflexivity.
  - exact I.
  - reflexivity.
  - reflexivity.
  - reflexivity.
  - vm_compute. reflexivity.
Defined.
