(* ===== verification/TaskManager.v ===== *)
(** * Tasks (src/src/daemon/task_manager.hpp, task_manager.cpp)

    The commands that create tasks, the periodic tick of a task and the
    announces to its tracker.  A task owns its thread pools, with the output
    file ([pl_mem]), and its peer manager, with the scheduler.  A command is
    given the file system and what the system calls and random choices it
    makes return ([cmd_env]); it gives back the file system, the manager and
    its reply, or the exception it throws.  Logging is not modelled.
    [sha256], [sha1], [inet_addr], the JSON reader and the resolver are
    parameters. *)

From Stdlib Require Import Ascii Floats.SpecFloat.
From S2P Require Import Prelude Text Json FileUtil Platform Hash Seed FastCDC Protocol ChunkAssembler SegmentIO Scheduler SchedulerProofs SchedulerSpec PeerSession NetUtil Tracker PeerManager Workers.
Import OCamlLikeNotations.

(** ** State *)
Record ActiveTask := {
  task_id : string;
  at_seed : TSeedFile;
  at_file_path : string;
  at_seed_path : string;
  is_seed : bool;
  at_state : string;
  started_at : string;
  finished_at : string;
  started_mono : Z;
  at_pools : Pools;
  at_mgr : PeerManager;
  at_client : option TrackerClient;
  seed_fd : Z;
  at_writer : option SegmentWriter;
  bytes_done : Z;
  speed_ema : spec_float;
  completed_speed_mib_s : spec_float;
  startup_announce_deadline : Z;
  next_startup_announce : Z;
  last_bytes_done : Z;
  tracker_dead : bool;
}.

Definition task_eta (t : ActiveTask) : ActiveTask := {|
  task_id := task_id t; at_seed := at_seed t; at_file_path := at_file_path t;
  at_seed_path := at_seed_path t; is_seed := is_seed t; at_state := at_state t;
  started_at := started_at t; finished_at := finished_at t; started_mono := started_mono t;
  at_pools := at_pools t; at_mgr := at_mgr t; at_client := at_client t; seed_fd := seed_fd t;
  at_writer := at_writer t; bytes_done := bytes_done t; speed_ema := speed_ema t;
  completed_speed_mib_s := completed_speed_mib_s t;
  startup_announce_deadline := startup_announce_deadline t;
  next_startup_announce := next_startup_announce t; last_bytes_done := last_bytes_done t;
  tracker_dead := tracker_dead t;
|}.

#[export] Hint Extern 0 (@Setter ActiveTask _ ?g) => set_field task_eta g : typeclass_instances.

Record TaskManager := {
  tm_p2p_port_ : Z;
  tracker_host_ : text;
  tm_tracker_port_ : Z;
  tracker_ : TrackerServer;
  tasks_ : gmap string ActiveTask;
}.

Definition task_manager_eta (tm : TaskManager) : TaskManager := {|
  tm_p2p_port_ := tm_p2p_port_ tm; tracker_host_ := tracker_host_ tm;
  tm_tracker_port_ := tm_tracker_port_ tm; tracker_ := tracker_ tm; tasks_ := tasks_ tm;
|}.

#[export] Hint Extern 0 (@Setter TaskManager _ ?g) => set_field task_manager_eta g : typeclass_instances.

Definition task_manager_new (p2p_port : Z) (tracker_host : text) (tracker_port : Z) : TaskManager := {|
  tm_p2p_port_ := p2p_port; tracker_host_ := tracker_host; tm_tracker_port_ := tracker_port;
  tracker_ := server_new tracker_port; tasks_ := ∅;
|}.

(** The exceptions that leave a command or a tick. *)
Inductive task_error :=
| SeedFailed (e : seed_error)
| BindFailed
| ClientFailed (e : client_error).

Inductive reply := Replied (t : text) | Threw (e : task_error).

(** What the environment decides during a command. *)
Record cmd_env := {
  env_tid : string;
  env_iso : string;
  env_now : Z;
  env_cores : Z;
  env_speed : Z;
  env_shuffle : list Z -> list Z;
  env_bind_ok : bool;
  env_listen_ip : option string;
  env_local_ip : string;
  env_sendfile : bool;
  env_open : open_calls;
  env_mmap_ok : Z -> bool;
  env_map_file : bool;
  env_fopen : bool;
  env_old_fd : Z;
  env_copied : Z -> nat -> Z;
}.

(** Eight draws from 0 to 15, printed in hexadecimal. *)
Definition hex_digit (d : Z) : ascii := Ascii.ascii_of_nat (Z.to_nat (if d <? 10 then 48 + d else 87 + d)).

Definition gen_task_id (draw : nat -> Z) : string :=
  String.string_of_list_ascii ((fun i => hex_digit (draw i)) <$> seq 0 8).

Definition error_reply (msg : string) : text := js "{'status':'error','error':'" ++ txt msg ++ js "'}".
Definition id_reply (tid : string) : text := js "{'status':'ok','data':{'task_id':'" ++ txt tid ++ js "'}}".

Section tasks.
Context (sha256 sha1 : bytes -> bytes) (inet_addr : string -> Z) (resolves : text -> bool).
Context `{JsonReader}.

(** ** Parts of the commands *)
(** The assemblers of a download; nothing if a chunk gets no address. *)
Fixpoint init_assemblers (w : SegmentWriter) (cs : list ChunkEntry) (i : Z) (mmap_ok : Z -> bool)
  : SegmentWriter * option (list ChunkAssembler) :=
  match cs with
  | [] => (w, Some [])
  | c :: cs =>
    match get_chunk_base w (ce_offset c) (ce_length c) (mmap_ok i) with
    | (w, None) => (w, None)
    | (w, Some base) =>
      let '(w, rest) := init_assemblers w cs (i + 1) mmap_ok in
      (w, cons (assembler_init (Some base) (ce_length c) SUB_BLOCK_SIZE) <$> rest)
    end
  end.

(** The pools of a task, started. *)
Definition start_pools (cs : list ChunkEntry) (asms : list ChunkAssembler) (mem : bytes) (cores : Z)
  : option Pools :=
  let p := {| pl_assemblers := asms; pl_chunks := cs; pl_mem := mem; io_queues_ := [];
              io_running_ := false; task_queue_ := []; result_queue_ := []; verify_workers_ := 0;
              verify_running_ := false |} in
  io_start (verify_start p 0 cores) (io_threads cores).

(** The scheduler once its callbacks are set; [bf] is marked complete if
    [mark]. *)
Definition start_scheduler (e : cmd_env) (cs : list ChunkEntry) (randomize mark : bool) (bf : list bool)
  : Scheduler :=
  let sc := sched_init sched_new (zlength cs) (env_speed e) in
  let sc := set_chunk_sizes sc (ce_length <$> cs) in
  let sc := if randomize then randomize_piece_order sc (env_shuffle e) else sc in
  let sc := if mark then mark_all_complete sc bf else sc in
  set_not_interested_issuer (set_cancel_issuer sc).

Definition start_manager (tm : TaskManager) (e : cmd_env) (sd : TSeedFile) (sc : Scheduler) (fd : Z)
  (bf : list bool) : PeerManager :=
  { manager_new inet_addr sc (info_hash sd) (env_speed e) (tm_p2p_port_ tm) (env_listen_ip e)
      (env_local_ip e) (env_sendfile e)
    with initial_bitfield_ := bf; mgr_file_fd_ := fd;
         mgr_chunk_offsets_ := Some (ce_offset <$> chunks sd) }.

(** The key of a chunk: its digest. *)
Definition chunk_key (c : ChunkEntry) : bytes := take 32 (ce_sha256 c).

Definition cdc_config (h : TSeedHeader) : FastCDCConfig :=
  {| cfg_min_size := min_chunk_size h; cfg_avg_size := avg_chunk_size h;
     cfg_max_size := max_chunk_size h |}.

Definition scan_file (e : cmd_env) (content : option bytes) (cfg : FastCDCConfig) : list ChunkEntry :=
  fastcdc_scan_file sha256 (if env_map_file e then content else None)
    (if env_fopen e then content else None) cfg.

(** *** Resuming *)
(** Whether the scan of the existing file has the wanted chunk at its place;
    the index maps a digest to its chunks. *)
Definition resume_match (local : list ChunkEntry) (want : ChunkEntry) : bool :=
  existsb (fun c => (ce_offset c =? ce_offset want) && (ce_length c =? ce_length want))
    (filter (fun c => chunk_key c = chunk_key want) local).

Fixpoint sum_matched (acc : Z) (cs : list ChunkEntry) (bf : list bool) : Z :=
  match cs, bf with
  | c :: cs, b :: bf => sum_matched (if b : bool then u64 (acc + ce_length c) else acc) cs bf
  | _, _ => acc
  end.

(** *** Updating *)
(** The candidates for a wanted chunk are tried in order; [k] counts the
    copies tried. *)
Fixpoint clone_candidates (fs : FileSystem) (old new : string) (want : ChunkEntry) (i : Z) (k : nat)
  (copied : Z -> nat -> Z) (cands : list ChunkEntry) : FileSystem * option ChunkEntry :=
  match cands with
  | [] => (fs, None)
  | cand :: cands =>
    if negb (ce_length cand =? ce_length want) then clone_candidates fs old new want i k copied cands
    else
      let '(fs, ok) := clone_range fs old (ce_offset cand) new (ce_offset want) (ce_length want)
                         (copied i k) in
      if ok : bool then (fs, Some cand) else clone_candidates fs old new want i (S k) copied cands
  end.

(** [candidates.erase(cand)]. *)
Fixpoint remove_entry (c : ChunkEntry) (l : list ChunkEntry) : list ChunkEntry :=
  match l with
  | [] => []
  | x :: l => if (ce_offset x =? ce_offset c) && (ce_length x =? ce_length c) &&
                 bool_decide (chunk_key x = chunk_key c)
              then l else x :: remove_entry c l
  end.

(** The loop over the wanted chunks; [index] holds the chunks of the old file
    not used yet. *)
Fixpoint clone_loop (fs : FileSystem) (old new : string) (copied : Z -> nat -> Z)
  (index : list ChunkEntry) (i : Z) (cs : list ChunkEntry) : FileSystem * list bool :=
  match cs with
  | [] => (fs, [])
  | want :: cs =>
    let '(fs, used) := clone_candidates fs old new want i 0 copied
                         (filter (fun c => chunk_key c = chunk_key want) index) in
    let index := match used with Some c => remove_entry c index | None => index end in
    let '(fs, bf) := clone_loop fs old new copied index (i + 1) cs in
    (fs, match used with Some _ => true | None => false end :: bf)
  end.

(** The copies into the output file, if there are any. *)
Definition clone_old (fs : FileSystem) (e : cmd_env) (old new : string) (index : option (list ChunkEntry))
  (cs : list ChunkEntry) : FileSystem * list bool :=
  match index with
  | Some index => if env_old_fd e <? 0 then (fs, replicate (length cs) false)
                  else clone_loop fs old new (env_copied e) index 0 cs
  | None => (fs, replicate (length cs) false)
  end.

(** ** Announces *)
Definition text_of_bytes (b : bytes) : text := Ascii.ascii_of_byte <$> b.

(** The command line wins over the seed's URL, the local host is the last
    resort. *)
Definition announce_target (tm : TaskManager) (sd : TSeedFile) : text * Z :=
  let '(host, port) :=
    match tracker_host_ tm with
    | [] => match parse_tracker_url (text_of_bytes (announce_url sd)) with
            | Some u => (url_host u, url_port u)
            | None => ([], tm_tracker_port_ tm)
            end
    | h => (h, tm_tracker_port_ tm)
    end in
  (match host with [] => txt "127.0.0.1" | _ => host end, port).

Definition task_client (tm : TaskManager) (t : ActiveTask) : TrackerClient :=
  match at_client t with
  | Some c => c
  | None => { client_new (txt (sha1_hex (info_hash (at_seed t)))) (tm_p2p_port_ tm) 1000
              with on_dead_ := true }
  end.

(** The task after the call, and the exception, if there is one. *)
Definition announce_task_now (tm : TaskManager) (t : ActiveTask) : ActiveTask * option task_error :=
  let '(host, port) := announce_target tm (at_seed t) in
  let c := task_client tm t in
  let t := { t with at_client := Some c; tracker_dead := false } in
  match client_announce resolves c host port with
  | Ok c => ({ t with at_client := Some c }, None)
  | Err e => ({ t with at_client := Some { c with retry_count_ := 0; dead_signalled_ := false } },
              Some (ClientFailed e))
  end.

(** The callback of an announce: connections to the peers it returned. *)
Definition connect_peers (m : PeerManager) (peers : list PexPeer) (now : Z) : PeerManager :=
  foldl (fun m p => connect_to inet_addr m (inet_ntoa (pex_ip p)) (ntoh16 (pex_port p)) (pex_flags p) now)
    m peers.

(** The end of one of the client's connections, with its callbacks. *)
Definition client_done (t : ActiveTask) (i : nat) (o : outcome) (now : Z)
  : result task_error ActiveTask :=
  match at_client t with
  | None => Ok t
  | Some c =>
    match attempt_done inet_addr c i o with
    | Err e => Err (ClientFailed e)
    | Ok c' =>
      let m := foldl (fun m peers => connect_peers m peers now) (at_mgr t)
                 (drop (length (delivered_ c)) (delivered_ c')) in
      Ok { t with at_client := Some c'; at_mgr := m;
                  tracker_dead := tracker_dead t || negb (dead_calls_ c' =? dead_calls_ c)%nat }
    end
  end.

Definition client_timer_fired (t : ActiveTask) (i : nat) (cancelled : bool) : result task_error ActiveTask :=
  match at_client t with
  | None => Ok t
  | Some c =>
    match timer_fired resolves c i cancelled with
    | Err e => Err (ClientFailed e)
    | Ok c => Ok { t with at_client := Some c }
    end
  end.

(** [tasks_[tid] = task; announce_task_now(task)]. *)
Definition store_task (tm : TaskManager) (t : ActiveTask) (ok : text) : TaskManager * reply :=
  let '(t, err) := announce_task_now tm t in
  let tm := { tm with tasks_ ::= <[task_id t := t]> } in
  (tm, match err with Some e => Threw e | None => Replied ok end).

(** ** The commands *)
Definition new_task (e : cmd_env) (sd : TSeedFile) (seed_path file_path : string) (seeding : bool)
  (p : Pools) (m : PeerManager) (fd : Z) (w : option SegmentWriter) (done : Z) : ActiveTask := {|
  task_id := env_tid e; at_seed := sd; at_file_path := file_path; at_seed_path := seed_path;
  is_seed := seeding; at_state := if seeding then "seeding" else "downloading";
  started_at := env_iso e; finished_at := EmptyString; started_mono := env_now e;
  at_pools := p; at_mgr := m; at_client := None; seed_fd := fd; at_writer := w; bytes_done := done;
  speed_ema := S754_zero false; completed_speed_mib_s := S754_zero false;
  startup_announce_deadline := if seeding then 0 else env_now e + 60 * 10 ^ 9;
  next_startup_announce := if seeding then 0 else env_now e + 2 * 10 ^ 9;
  last_bytes_done := 0; tracker_dead := false;
|}.

Definition cmd_seed (fs : FileSystem) (tm : TaskManager) (e : cmd_env) (seed_path file_path : string)
  : option (FileSystem * TaskManager * reply) :=
  match read_tseed sha256 sha1 (fs !! seed_path) with
  | Err err => Some (fs, tm, Threw (SeedFailed err))
  | Ok sd =>
    if sys_fd (env_open e) <? 0
    then Some (fs, tm, Replied (error_reply "cannot open file for seeding"))
    else
      let cs := chunks sd in
      let asms := (fun c => assembler_init None (ce_length c) SUB_BLOCK_SIZE) <$> cs in
      p ← start_pools cs asms [] (env_cores e);
      if negb (env_bind_ok e) then Some (fs, tm, Threw BindFailed)
      else
        let full := replicate (length cs) true in
        let m := start_manager tm e sd (start_scheduler e cs false true full) (sys_fd (env_open e)) full in
        let t := new_task e sd seed_path file_path true p m (sys_fd (env_open e)) None 0 in
        let '(tm, r) := store_task tm t (id_reply (env_tid e)) in
        Some (fs, tm, r)
  end.

(** The output file: its writer and content, or the reply that ends the
    command. *)
Definition open_output (fs : FileSystem) (e : cmd_env) (sd : TSeedFile) (path : string)
  : FileSystem * (SegmentWriter * list ChunkAssembler * bytes + text) :=
  let '(ok, w, disk) := writer_open writer_new path (file_size (header sd)) DEFAULT_SEGMENT_SIZE
                          (env_open e) (fs !! path) in
  let fs := match disk with Some d => <[path := d]> fs | None => fs end in
  if negb ok then (fs, inr (error_reply "cannot create output file"))
  else
    match init_assemblers w (chunks sd) 0 (env_mmap_ok e) with
    | (_, None) => (fs, inr (error_reply "mmap chunk base failed"))
    | (w, Some asms) => (fs, inl (w, asms, default [] disk))
    end.

Definition cmd_add (fs : FileSystem) (tm : TaskManager) (e : cmd_env) (seed_path save_path : string)
  : option (FileSystem * TaskManager * reply) :=
  match read_tseed sha256 sha1 (fs !! seed_path) with
  | Err err => Some (fs, tm, Threw (SeedFailed err))
  | Ok sd =>
    let file_exists := match fs !! save_path with Some d => 0 <? zlength d | None => false end in
    match open_output fs e sd save_path with
    | (fs, inr err) => Some (fs, tm, Replied err)
    | (fs, inl (w, asms, mem)) =>
      let cs := chunks sd in
      p ← start_pools cs asms mem (env_cores e);
      if negb (env_bind_ok e) then Some (fs, tm, Threw BindFailed)
      else
        let local := scan_file e (Some mem) (cdc_config (header sd)) in
        let bf := if file_exists then resume_match local <$> cs else replicate (length cs) false in
        let done := sum_matched 0 cs bf in
        let m := start_manager tm e sd (start_scheduler e cs true (0 <? done) bf) (fd_ w) bf in
        let t := new_task e sd seed_path save_path false p m (-1) (Some w) done in
        let '(tm, r) := store_task tm t (id_reply (env_tid e)) in
        Some (fs, tm, r)
    end
  end.

(** The chunks of the old file, if the incremental update is possible. *)
Definition old_index (fs : FileSystem) (e : cmd_env) (old_seed_path old_file_path : string)
  : option (list ChunkEntry) :=
  if decide (old_file_path = EmptyString) then None
  else
    match read_tseed sha256 sha1 (fs !! old_seed_path) with
    | Err _ => None
    | Ok sd => Some (scan_file e (fs !! old_file_path) (cdc_config (header sd)))
    end.

Definition update_reply (tid : string) (chunk_count matched : Z) : text :=
  js "{'status':'ok','data':{'task_id':'" ++ txt tid ++ js "','chunk_count':" ++ print_dec chunk_count ++
  js ",'matched':" ++ print_dec matched ++ js "}}".

Definition cmd_update (fs : FileSystem) (tm : TaskManager) (e : cmd_env)
  (new_seed_path new_file_path old_seed_path old_file_path : string)
  : option (FileSystem * TaskManager * reply) :=
  match read_tseed sha256 sha1 (fs !! new_seed_path) with
  | Err err => Some (fs, tm, Threw (SeedFailed err))
  | Ok sd =>
    let index := old_index fs e old_seed_path old_file_path in
    match open_output fs e sd new_file_path with
    | (fs, inr err) => Some (fs, tm, Replied err)
    | (fs, inl (w, asms, _)) =>
      let cs := chunks sd in
      let '(fs, bf) := clone_old fs e old_file_path new_file_path index cs in
      p ← start_pools cs asms (default [] (fs !! new_file_path)) (env_cores e);
      if negb (env_bind_ok e) then Some (fs, tm, Threw BindFailed)
      else
        let matched := count_true bf in
        let m := start_manager tm e sd (start_scheduler e cs true (0 <? matched) bf) (fd_ w) bf in
        let t := new_task e sd new_seed_path new_file_path false p m (-1) (Some w) (sum_matched 0 cs bf) in
        let '(tm, r) := store_task tm t (update_reply (env_tid e) (zlength cs) matched) in
        Some (fs, tm, r)
    end
  end.

(** ** Queries *)
Record TaskInfo := {
  ti_task_id : string;
  ti_state : string;
  ti_progress : spec_float;
  ti_bytes_done : Z;
  ti_speed_mib_s : spec_float;
  ti_file_path : string;
  ti_seed_path : string;
  ti_started_at : string;
  ti_finished_at : string;
}.

(** The order of [std::map]. *)
Definition tasks_in_order (tm : TaskManager) : list (string * ActiveTask) :=
  sort_str fst (map_to_list (tasks_ tm)).

Definition MIB : spec_float := dmul (of_int 1024) (of_int 1024).

Definition dpos (x : spec_float) : bool :=
  match x with S754_finite false _ _ | S754_infinity false => true | _ => false end.

Definition task_info (tid : string) (t : ActiveTask) : TaskInfo :=
  let state := if decide (at_state t = EmptyString)
               then (if is_seed t then "seeding" else "downloading")%string else at_state t in
  {| ti_task_id := tid; ti_state := state;
     ti_progress := if 0 <? file_size (header (at_seed t))
                    then ddiv (of_int (bytes_done t)) (of_int (file_size (header (at_seed t))))
                    else S754_zero false;
     ti_bytes_done := bytes_done t;
     ti_speed_mib_s := if decide (state = "complete"%string) then
                         if dpos (completed_speed_mib_s t) then completed_speed_mib_s t
                         else dmul (ddiv (speed_ema t) MIB) (of_int 10)
                       else dmul (ddiv (speed_ema t) MIB) (of_int 10);
     ti_file_path := at_file_path t; ti_seed_path := at_seed_path t;
     ti_started_at := started_at t; ti_finished_at := finished_at t |}.

Definition cmd_list (tm : TaskManager) : list TaskInfo :=
  (fun kv => task_info kv.1 kv.2) <$> tasks_in_order tm.

Definition cmd_remove (tm : TaskManager) (tid : string) : TaskManager * text :=
  match tasks_ tm !! tid with
  | Some _ => ({ tm with tasks_ ::= delete tid }, js "{'status':'ok'}")
  | None => (tm, error_reply "task not found")
  end.

Definition peer_reply (s : PeerSession) : text :=
  js "{'ip':'" ++ txt (remote_ip s) ++ js "','port':" ++ print_dec (remote_port s) ++
  js ",'speed_mbps':" ++ print_dec (remote_speed_mbps_ s) ++ js ",'pending':" ++
  print_dec (pending_requests_ s) ++ js ",'flags':0}".

Definition cmd_peers (tm : TaskManager) (tid : string) : text :=
  match tasks_ tm !! tid with
  | None => error_reply "task not found"
  | Some t => js "{'status':'ok','data':{'peers':[" ++ commas (peer_reply <$> sessions_ (at_mgr t)) ++ js "]}}"
  end.

(** ** The tick *)
(** The results of the verify threads: the manager after the failures, the
    bytes verified and the chunks that passed. *)
Fixpoint take_results (cs : list ChunkEntry) (m : PeerManager) (done : Z)
  (passed : list ChunkCompleteMsg) (rs : list VerifyResult) (now : Z)
  : option (PeerManager * Z * list ChunkCompleteMsg) :=
  match rs with
  | [] => Some (m, done, passed)
  | r :: rs =>
    if vr_passed r then
      let msg := {| msg_chunk_idx := vr_chunk_idx r; winning_peer_slot := vr_winning_peer_slot r |} in
      let done := match zget cs (vr_chunk_idx r) with
                  | Some c => u64 (done + ce_length c)
                  | None => done
                  end in
      take_results cs m done (passed ++ [msg]) rs now
    else
      m ← run_sched m (fun sc => on_verify_failed sc (vr_chunk_idx r)) now;
      take_results cs m done passed rs now
  end.

(** Whether the download is over. *)
Definition check_complete (t : ActiveTask) (now : Z) (iso : string) : ActiveTask :=
  if (file_size (header (at_seed t)) <=? bytes_done t) && bool_decide (at_state t = "downloading"%string)
  then
    let elapsed := ddiv (of_int (now - started_mono t)) (of_int 1000000000) in
    let t := { t with at_state := "complete"%string; finished_at := iso } in
    if dpos elapsed
    then { t with completed_speed_mib_s :=
             ddiv (ddiv (of_int (file_size (header (at_seed t)))) elapsed) MIB }
    else t
  else t.

(** The literals 0.125 and 0.875. *)
Definition EMA_NEW : spec_float := ddiv (of_int 1) (of_int 8).
Definition EMA_OLD : spec_float := ddiv (of_int 7) (of_int 8).

Definition update_speed (t : ActiveTask) : ActiveTask :=
  let delta := u64 (bytes_done t - last_bytes_done t) in
  { t with last_bytes_done := bytes_done t;
           speed_ema := dadd (dmul EMA_NEW (of_int delta)) (dmul EMA_OLD (speed_ema t)) }.

(** The body of the loop of [tick] up to the announce. *)
Definition tick_work (t : ActiveTask) (now : Z) (iso : string) : option ActiveTask :=
  m ← run_sched (at_mgr t) (fun sc => sched_tick sc (now_ms now)) now;
  let '(p, results) := drain_results (at_pools t) in
  '(m, done, passed) ← take_results (chunks (at_seed t)) m (bytes_done t) [] results now;
  m ← (match passed with
       | [] => Some m
       | _ => run_sched m (fun sc => process_completions sc passed) now
       end);
  let t := { t with at_mgr := m; at_pools := p; bytes_done := done } in
  let t := check_complete t now iso in
  Some (if tracker_dead t && bool_decide (at_state t = "downloading"%string)
        then { t with at_state := "waiting"%string } else t).

Definition startup_announce (tm : TaskManager) (t : ActiveTask) (now : Z) : ActiveTask * option task_error :=
  if negb (is_seed t) && bool_decide (at_state t = "downloading"%string) &&
     (now <? startup_announce_deadline t) && (next_startup_announce t <=? now)
  then announce_task_now tm { t with next_startup_announce := now + 2 * 10 ^ 9 }
  else (t, None).

Definition tick_task (tm : TaskManager) (t : ActiveTask) (now : Z) (iso : string)
  : option (ActiveTask * option task_error) :=
  t ← tick_work t now iso;
  let '(t, err) := startup_announce tm t now in
  Some (match err with Some _ => t | None => update_speed t end, err).

(** A loop over the tasks, in order; an exception ends it. *)
Fixpoint each_task (f : TaskManager -> ActiveTask -> option (ActiveTask * option task_error))
  (tm : TaskManager) (l : list (string * ActiveTask)) : option (TaskManager * option task_error) :=
  match l with
  | [] => Some (tm, None)
  | (tid, t) :: l =>
    '(t, err) ← f tm t;
    let tm := { tm with tasks_ ::= <[tid := t]> } in
    match err with
    | Some _ => Some (tm, err)
    | None => each_task f tm l
    end
  end.

Definition tick (tm : TaskManager) (now : Z) (iso : string) : option (TaskManager * option task_error) :=
  each_task (fun tm t => tick_task tm t now iso) tm (tasks_in_order tm).

Definition tick_tracker_announce (tm : TaskManager) : option (TaskManager * option task_error) :=
  each_task (fun tm t => Some (announce_task_now tm { t with at_client := Some (task_client tm t) }))
    tm (tasks_in_order tm).

Definition tick_choke_all (tm : TaskManager) (shuffle : list nat -> list nat) (now : Z)
  : option (TaskManager * option task_error) :=
  each_task (fun _ t => m ← tick_choke (at_mgr t) shuffle now; Some ({ t with at_mgr := m }, None))
    tm (tasks_in_order tm).

Definition tick_pex_all (tm : TaskManager) (now : Z) : option (TaskManager * option task_error) :=
  each_task (fun _ t => m ← tick_pex inet_addr (at_mgr t) now; Some ({ t with at_mgr := m }, None))
    tm (tasks_in_order tm).

(** The statistics timer: every session's rates are brought up to date. *)
Definition do_stats_tick (tm : TaskManager) (ec : bool) (now : Z) : option (TaskManager * option task_error) :=
  if ec then Some (tm, None)
  else
    each_task (fun _ t =>
      ss ← mapM (update_rates now) (sessions_ (at_mgr t));
      Some ({ t with at_mgr ::= (fun m : PeerManager => { m with sessions_ := ss }) }, None))
    tm (tasks_in_order tm).
End tasks.
