(* ===== verification/TaskStart.v ===== *)
(** * What the commands that start a download establish

    [add] and [update] leave a task whose pools, scheduler and manager agree
    on which chunks are there.  A chunk that is taken over from a file on disk
    has, in the output file, the digest the seed lists; the bytes counted as
    done are those of these chunks; the scheduler regards exactly them as
    complete.  A finished download is recognised as such.  Updating a file in
    place does not have this property: [update_in_place_corrupts]. *)

From Stdlib Require Import Ascii Floats.SpecFloat.
From S2P Require Import Prelude Text Json FileUtil Platform Hash Seed FastCDC Protocol ChunkAssembler SegmentIO Scheduler SchedulerProofs SchedulerSpec PeerSession NetUtil Tracker PeerManager PeerManagerSpec Workers TaskManager.
Import OCamlLikeNotations.

(** ** Vocabulary *)
(** The bytes of a chunk in the file have the digest the seed lists. *)
Definition chunk_good (sha256 : bytes -> bytes) (mem : bytes) (c : ChunkEntry) : Prop :=
  take 32 (sha256 (zslice mem (ce_offset c) (ce_length c))) = take 32 (ce_sha256 c).

Definition flagged (bf : list bool) (i : Z) : bool := default false (zget bf i).

(** The bytes of the flagged chunks. *)
Fixpoint flagged_bytes (cs : list ChunkEntry) (bf : list bool) : Z :=
  match cs, bf with
  | c :: cs, b :: bf => (if b : bool then ce_length c else 0) + flagged_bytes cs bf
  | _, _ => 0
  end.

(** The chunks follow each other from [off] to [size], and none is empty. *)
Fixpoint covers (off size : Z) (cs : list ChunkEntry) : Prop :=
  match cs with
  | [] => off = size
  | c :: cs => ce_offset c = off /\ 0 < ce_length c /\ covers (off + ce_length c) size cs
  end.

(** A seed as [write_tseed] makes it from a scan, not larger than the segment
    writer supports. *)
Record seed_consistent (sd : TSeedFile) : Prop := {
  sc_covers : covers 0 (file_size (header sd)) (chunks sd);
  sc_size : file_size (header sd) <= 2 ^ 57;
  sc_count : zlength (chunks sd) < 2 ^ 32 - 8;
}.

Lemma covers_entry cs : forall off size c,
  covers off size cs -> c ∈ cs ->
  off <= ce_offset c /\ 0 < ce_length c /\ ce_offset c + ce_length c <= size.
Proof.
  assert (forall cs off size, covers off size cs -> off <= size) as Hle.
  { induction cs0 as [|c cs0 IH]; cbn [covers]; [lia|]. intros off size (_ & H & Ht).
    apply IH in Ht. lia. }
  induction cs as [|x cs IH]; intros off size c; [by intros _ ?%not_elem_of_nil|].
  intros (Ho & Hl & Ht) [->|Hc]%elem_of_cons; [apply Hle in Ht; lia|].
  destruct (IH _ _ _ Ht Hc) as (? & ? & ?). lia.
Qed.

Lemma covers_positive off size cs : covers off size cs -> Forall (fun c => 0 < ce_length c) cs.
Proof. intros H. apply Forall_forall. intros c Hc. by apply (covers_entry cs off size). Qed.

Lemma tiles_covers sha256 data cs : forall off size, tiles sha256 data off size cs -> covers off size cs.
Proof.
  induction cs as [|c cs IH]; intros off size; cbn [tiles covers]; [done|].
  intros (? & ? & _ & ?). split_and!; auto.
Qed.

(** Chunks do not overlap. *)
Lemma covers_disjoint cs : forall off size i j c d,
  covers off size cs -> cs !! i = Some c -> cs !! j = Some d -> (i < j)%nat ->
  ce_offset c + ce_length c <= ce_offset d.
Proof.
  induction cs as [|x cs IH]; intros off size i j c d; [done|]. intros (Ho & Hl & Ht) Hi Hj Hlt.
  destruct j as [|j]; [lia|]. cbn in Hj. destruct i as [|i]; cbn in Hi.
  - injection Hi as <-. apply list_elem_of_lookup_2 in Hj.
    destruct (covers_entry _ _ _ _ Ht Hj). lia.
  - eapply IH; [done..|lia].
Qed.

(** ** Sums *)
Lemma flagged_bytes_nonneg cs : forall bf, Forall (fun c => 0 < ce_length c) cs -> 0 <= flagged_bytes cs bf.
Proof.
  induction cs as [|c cs IH]; intros [|b bf]; cbn; try lia. intros [Hc Hcs]%Forall_cons.
  specialize (IH bf Hcs). destruct b; lia.
Qed.

(** The 64-bit sum never wraps: there are fewer than 2^32 chunks of fewer
    than 2^32 bytes. *)
Lemma sum_matched_flagged cs : forall bf acc,
  Forall entry_ok cs -> 0 <= acc -> acc + zlength cs * 2 ^ 32 <= 2 ^ 64 ->
  sum_matched acc cs bf = acc + flagged_bytes cs bf.
Proof.
  induction cs as [|c cs IH]; intros [|b bf] acc Hcs Ha Hb; cbn [sum_matched flagged_bytes]; try lia.
  apply Forall_cons in Hcs as [(_ & Hl & _) Hcs].
  change (zlength (c :: cs)) with (Z.of_nat (S (length cs))) in Hb. unfold zlength in IH.
  unfold is_u32 in Hl. destruct b.
  - rewrite u64_small by (unfold is_u64; lia). rewrite IH by (try done; lia). lia.
  - rewrite IH by (try done; lia). lia.
Qed.

Lemma sum_matched_ok cs bf :
  Forall entry_ok cs -> zlength cs < 2 ^ 32 -> sum_matched 0 cs bf = flagged_bytes cs bf.
Proof. intros Hcs Hn. rewrite sum_matched_flagged by (try done; lia). lia. Qed.

Lemma flagged_bytes_all cs : forall off size,
  covers off size cs -> flagged_bytes cs (replicate (length cs) true) = size - off.
Proof.
  induction cs as [|c cs IH]; intros off size; cbn; [lia|]. intros (_ & _ & Ht).
  rewrite (IH _ _ Ht). lia.
Qed.

(** A sum of nothing flags nothing. *)
Lemma flagged_bytes_zero cs : forall bf i,
  Forall (fun c => 0 < ce_length c) cs -> length bf = length cs -> flagged_bytes cs bf <= 0 ->
  flagged bf i = false.
Proof.
  unfold flagged. intros bf i Hcs Hlen Hz.
  destruct (zget bf i) as [[]|] eqn:E; [|done..]. exfalso.
  apply zget_Some in E as [_ E]. revert bf E Hlen Hz. generalize (Z.to_nat i) as k.
  induction Hcs as [|c cs Hc Hcs IH]; intros k [|b bf] E Hlen Hz; try done.
  cbn in *. pose proof (flagged_bytes_nonneg cs bf Hcs).
  destruct k as [|k]; [injection E as ->; lia|]. cbn in E. apply (IH k bf E); [lia|]. destruct b; lia.
Qed.

(** ** The scheduler *)
Lemma mark_one_states s i k :
  zget (complete_b <$> chunk_states_ (mark_one s i)) k =
  (fun b => b || (k =? i)) <$> zget (complete_b <$> chunk_states_ s) k.
Proof.
  unfold mark_one. destruct (zget (chunk_states_ s) i) as [st|] eqn:E.
  - assert (zget (complete_b <$> chunk_states_ s) i = Some (complete_b st)) as Ei
      by (by rewrite zget_fmap, E).
    destruct (complete_b st) eqn:Hc.
    + destruct (Z.eqb_spec k i) as [->|].
      * by rewrite Ei.
      * destruct (zget _ k) as [b|]; [|done]. cbn. by rewrite orb_false_r.
    + set (s1 := if decide (st = MISSING) then _ else _).
      assert (chunk_states_ s1 = chunk_states_ s) as Es by (subst s1; by case_decide).
      cbn. rewrite Es, !zget_fmap, zget_zupd, (proj2 (in_range_iff _ _)) by (by eapply zget_range).
      rewrite andb_true_r, (Z.eqb_sym k i). destruct (Z.eqb_spec i k) as [<-|].
      * rewrite E. cbn. by rewrite orb_true_r.
      * destruct (zget _ k) as [b|]; [|done]. cbn. by rewrite orb_false_r.
  - destruct (Z.eqb_spec k i) as [->|].
    + by rewrite zget_fmap, E.
    + destruct (zget _ k) as [b|]; [|done]. cbn. by rewrite orb_false_r.
Qed.

Lemma flagged_cons b bf i : flagged (b :: bf) i = if i =? 0 then b else flagged bf (i - 1).
Proof.
  unfold flagged. destruct (Z.eqb_spec i 0) as [->|]; [done|]. f_equal.
  destruct (Z.ltb_spec i 0).
  - unfold zget, in_range. by replace (0 <=? i) with false by lia; replace (0 <=? i - 1) with false by lia.
  - replace i with (Z.of_nat (S (Z.to_nat (i - 1)))) at 1 by lia. rewrite zget_of_nat.
    change ((b :: bf) !! S (Z.to_nat (i - 1))) with (bf !! Z.to_nat (i - 1)).
    rewrite <-zget_of_nat. f_equal. lia.
Qed.

Lemma mark_loop_states bf : forall s i k,
  zget (complete_b <$> chunk_states_ (mark_loop s i bf)) k =
  (fun b => b || flagged bf (k - i)) <$> zget (complete_b <$> chunk_states_ s) k.
Proof.
  induction bf as [|b bf IH]; intros s i k; cbn [mark_loop].
  { destruct (zget _ k) as [x|]; [|done]. cbn. unfold flagged, zget, in_range.
    replace (_ && _) with false by (unfold zlength; cbn; lia). cbn. by rewrite orb_false_r. }
  rewrite IH, flagged_cons. replace (k - (i + 1)) with (k - i - 1) by lia.
  assert (forall x : bool, (if b then x || (k =? i) else x) || flagged bf (k - i - 1) =
    x || (if k - i =? 0 then b else flagged bf (k - i - 1))) as Hb.
  { intros x. destruct (Z.eqb_spec (k - i) 0) as [E|], (Z.eqb_spec k i); try lia; destruct b;
      rewrite ?orb_false_r; try done.
    - by rewrite orb_true_r.
    - rewrite E. unfold flagged, zget, in_range. replace (0 <=? 0 - 1) with false by lia. cbn.
      by rewrite orb_false_r. }
  specialize (Hb (default false (zget (complete_b <$> chunk_states_ s) k))).
  destruct b; rewrite ?mark_one_states; destruct (zget _ k) as [x|]; try done; cbn in *; by rewrite Hb.
Qed.

Lemma sched_start_states speed sizes shuffle mark bf k :
  zget (complete_b <$> chunk_states_ (sched_start speed sizes shuffle mark bf)) k =
  if in_range sizes k then Some (mark && flagged bf k) else None.
Proof.
  assert (zget (complete_b <$> chunk_states_ (sched_setup speed sizes)) k =
          if in_range sizes k then Some false else None) as H0.
  { cbn. rewrite zget_fmap. destruct (in_range sizes k) eqn:E.
    - apply in_range_iff in E. replace (zget _ k) with (Some MISSING); [done|].
      symmetry. apply zget_Some. split; [lia|]. apply lookup_replicate_2. unfold zlength in *. lia.
    - unfold zget. replace (in_range _ k) with false; [done|]. symmetry. unfold in_range, zlength in *.
      rewrite length_replicate. by rewrite Z2Nat.id by lia. }
  unfold sched_start. cbv zeta. destruct mark; [|exact H0]. cbn [andb].
  assert (chunk_states_ (mark_all_complete (randomize_piece_order (sched_setup speed sizes) shuffle) bf) =
    chunk_states_ (mark_loop (randomize_piece_order (sched_setup speed sizes) shuffle) 0 bf)) as E.
  { unfold mark_all_complete. destruct (_ =? 0); [done|]. by destruct (_ <? _). }
  cbn. rewrite E, mark_loop_states, Z.sub_0_r. cbn [randomize_piece_order set_active chunk_states_].
  rewrite H0. by destruct (in_range sizes k).
Qed.

(** The active chunks at the start are those not on disk. *)
Lemma sched_start_active speed sizes shuffle mark bf c :
  zlength sizes < 2 ^ 32 -> Forall is_u32 sizes -> (forall l, shuffle l ≡ₚ l) ->
  c ∈ active_chunks_ (sched_start speed sizes shuffle mark bf) <->
  0 <= c < zlength sizes /\ mark && flagged bf c = false.
Proof.
  intros Hn Hz Hsh. pose proof (sched_start_wf speed sizes shuffle mark bf Hn Hz Hsh) as Hw.
  rewrite (cok_active _ (wf_chunks _ Hw)), sched_start_states.
  destruct (in_range sizes c) eqn:E.
  - apply in_range_iff in E. split; [by intros [= ->]|by intros [_ ->]].
  - split; [done|]. intros [Hr _]. apply in_range_iff in Hr. congruence.
Qed.

(** ** The output file and its assemblers *)
(** An assembler that has seen no piece. *)
Definition asm_new (a : ChunkAssembler) (c : ChunkEntry) : Prop :=
  exists b, a = assembler_init (Some b) (ce_length c) SUB_BLOCK_SIZE.

Definition asm_fresh (size : Z) (a : ChunkAssembler) (c : ChunkEntry) : Prop :=
  asm_ok size a c /\ asm_new a c.

Lemma assembler_init_ok size b c :
  0 <= ce_offset c -> 0 < ce_length c <= MAX_CHUNK_SIZE -> p_off b = ce_offset c ->
  ce_offset c + ce_length c <= p_lim b <= size ->
  asm_ok size (assembler_init (Some b) (ce_length c) SUB_BLOCK_SIZE) c.
Proof.
  unfold MAX_CHUNK_SIZE. intros Ho Hl Hb Hlim. split; cbn; try done; try lia; [by exists b|].
  unfold zlength. rewrite length_replicate.
  rewrite (u32_small (_ - 1)) by (unfold is_u32, SUB_BLOCK_SIZE; lia).
  rewrite u32_small by (unfold is_u32, SUB_BLOCK_SIZE; Z.div_mod_to_equations; lia).
  unfold SUB_BLOCK_SIZE. Z.div_mod_to_equations. lia.
Qed.

Lemma init_assemblers_ok cs : forall w i mmap_ok w' asms,
  writer_ok w -> Forall entry_ok cs -> Forall (fun c => 0 < ce_length c) cs ->
  init_assemblers w cs i mmap_ok = (w', Some asms) ->
  Forall2 (asm_fresh (file_size_ w)) asms cs.
Proof.
  induction cs as [|c cs IH]; intros w i mmap_ok w' asms Hw Hok Hpos; cbn [init_assemblers].
  { intros [= <- <-]. constructor. }
  apply Forall_cons in Hok as [(Ho & Hl & _) Hok]. apply Forall_cons in Hpos as [Hc Hpos].
  destruct (get_chunk_base w (ce_offset c) (ce_length c) (mmap_ok i)) as [w1 [b|]] eqn:E; [|done].
  destruct (init_assemblers w1 cs (i + 1) mmap_ok) as [w2 [rest|]] eqn:E2; [|done]. intros [= <- <-].
  destruct (store_base_ok (S := segment_store) w _ _ _ _ _ Hw Ho Hl E) as (Hw1 & Hs & Hb & _).
  destruct (Hb b eq_refl) as (Hpo & Hlim & _).
  pose proof (store_base_max (S := segment_store) w _ _ _ _ _ E) as Hmax. cbn in Hs, Hlim.
  constructor.
  - split; [|by exists b]. apply assembler_init_ok; [apply Ho|done|done|done].
  - rewrite <-Hs. by apply (IH w1 (i + 1) mmap_ok w2 rest).
Qed.

Lemma open_output_ok fs e sd path fs' w asms mem :
  Forall entry_ok (chunks sd) -> Forall (fun c => 0 < ce_length c) (chunks sd) ->
  0 <= file_size (header sd) <= 2 ^ 57 ->
  open_output fs e sd path = (fs', inl (w, asms, mem)) ->
  fs' = <[path := mem]> fs /\ zlength mem = file_size (header sd) /\ 0 < zlength mem /\
  (fs !! path = Some mem \/
   (forall old, fs !! path = Some old -> zlength old <> file_size (header sd)) /\
   mem = replicate (Z.to_nat (file_size (header sd))) Byte.x00) /\
  Forall2 (asm_fresh (zlength mem)) asms (chunks sd).
Proof.
  intros Hok Hpos Hs. unfold open_output.
  destruct (writer_open _ _ _ _ _ _) as [[ok w1] disk] eqn:E. destruct ok; [|done]. cbn [negb].
  destruct (init_assemblers _ _ _ _) as [w2 [asms'|]] eqn:Ei; [|done]. intros [= <- -> -> <-].
  assert (0 < file_size (header sd)) as H0.
  { unfold writer_open in E. destruct (Z.eqb_spec (file_size (header sd)) 0); [done|lia]. }
  destruct (writer_open_file _ _ _ _ _ _ _ _ H0 E) as (content & -> & Hlen & Hcase).
  destruct (writer_open_ok _ _ _ _ _ _ (proj2 Hs) (proj1 Hs) E) as (Hw & Hfs & _). cbn.
  split_and!; [done|done|lia|done|]. rewrite Hlen, <-Hfs. by eapply init_assemblers_ok.
Qed.

(** The system calls of a command succeed, and the segment writer supports the
    chunks. *)
Record calls_ok (e : cmd_env) (cs : list ChunkEntry) : Prop := {
  co_open : 0 <= sys_fd (env_open e);
  co_size : sys_fallocate (env_open e) || sys_ftruncate (env_open e) = true;
  co_mmap i : env_mmap_ok e i = true;
  co_bind : env_bind_ok e = true;
  co_chunks : cs <> [] /\ Forall (fun c => ce_length c <= MAX_CHUNK_SIZE) cs;
}.

Lemma init_assemblers_total mmap_ok cs : forall w i,
  writer_ok w -> (forall i, mmap_ok i = true) -> Forall entry_ok cs ->
  Forall (fun c => 0 < ce_length c <= MAX_CHUNK_SIZE /\ ce_offset c + ce_length c <= file_size_ w) cs ->
  exists w' asms, init_assemblers w cs i mmap_ok = (w', Some asms).
Proof.
  induction cs as [|c cs IH]; intros w i Hw Hm Hok Hin; cbn [init_assemblers]; [by eauto|].
  apply Forall_cons in Hok as [(Ho & Hl & _) Hok]. apply Forall_cons in Hin as [[Hc Hf] Hin].
  destruct (store_base_total (S := segment_store) w (ce_offset c) (ce_length c) Hw (proj1 Ho) Hc Hf) as [b Hb].
  rewrite Hm. destruct (get_chunk_base w _ _ true) as [w1 r] eqn:E. cbn in Hb. rewrite E in Hb. cbn in Hb. subst r.
  destruct (store_base_ok (S := segment_store) w _ _ _ _ _ Hw Ho Hl E) as (Hw1 & Hs & _). cbn in Hs.
  destruct (IH w1 (i + 1) Hw1 Hm Hok) as (w' & asms & ->); [by rewrite Hs|]. by eauto.
Qed.

Lemma open_output_total fs e sd path :
  seed_consistent sd -> Forall entry_ok (chunks sd) -> calls_ok e (chunks sd) ->
  exists fs' w asms mem, open_output fs e sd path = (fs', inl (w, asms, mem)).
Proof.
  intros Hc Hok [Hfd Hsz Hm _ [Hne Hmax]]. unfold open_output.
  assert (0 < file_size (header sd)) as H0.
  { destruct (chunks sd) as [|c cs] eqn:E; [done|]. pose proof (sc_covers _ Hc) as Hcov. rewrite E in Hcov.
    destruct (covers_entry _ _ _ c Hcov) as (? & ? & ?); [by left|]. destruct Hcov as [? _]. lia. }
  destruct (writer_open _ _ _ _ _ _) as [[ok w] disk] eqn:E.
  assert (ok = true) as ->.
  { revert E. unfold writer_open. replace (_ =? 0) with false by lia. rewrite Hsz.
    replace (sys_fd (env_open e) <? 0) with false by lia.
    by destruct (match fs !! path with Some _ => _ | None => _ end); intros [= <- _ _]. }
  destruct (writer_open_ok _ _ _ _ _ _ (sc_size _ Hc) (Z.lt_le_incl _ _ H0) E) as (Hw & Hfs & _). cbn [negb].
  destruct (init_assemblers_total (env_mmap_ok e) (chunks sd) w 0 Hw Hm Hok) as (w' & asms & ->); [|by eauto].
  rewrite Hfs. apply Forall_forall. intros c Hx. rewrite Forall_forall in Hmax.
  destruct (covers_entry _ _ _ c (sc_covers _ Hc) Hx) as (? & ? & ?). split; [split; [done|by apply Hmax]|done].
Qed.

(** ** The pools *)
Lemma io_threads_range cores : 2 <= io_threads cores <= 8.
Proof. unfold io_threads. lia. Qed.

(** Freshly started pools. *)
Record pools_fresh (cs : list ChunkEntry) (mem : bytes) (p : Pools) : Prop := {
  pf_chunks : pl_chunks p = cs;
  pf_mem : pl_mem p = mem;
  pf_asms : Forall2 (asm_fresh (zlength mem)) (pl_assemblers p) cs;
  pf_queues : exists n, io_queues_ p = replicate (S n) [];
  pf_tasks : task_queue_ p = [];
  pf_results : result_queue_ p = [];
}.

Lemma start_pools_ok cs asms mem cores :
  Forall2 (asm_fresh (zlength mem)) asms cs ->
  exists p, start_pools cs asms mem cores = Some p /\ pools_fresh cs mem p.
Proof.
  intros Ha. unfold start_pools, io_start. pose proof (io_threads_range cores) as Hr.
  replace (_ && _) with true by lia. eexists. split; [done|]. split; cbn; try done.
  exists (Z.to_nat (io_threads cores) - 1)%nat.
  by destruct (Z.to_nat (io_threads cores)) as [|n] eqn:E; [lia|]; cbn; rewrite Nat.sub_0_r.
Qed.

Lemma pools_fresh_ok cs mem p :
  zlength cs < UINT32_MAX -> pools_fresh cs mem p -> pools_ok p /\ io_queues_ p <> [].
Proof.
  intros Hn [Hc Hm Ha (n & Hq) Ht Hr]. split; [|by rewrite Hq]. split; rewrite ?Hc, ?Hm, ?Hq, ?Ht; try done.
  - eapply Forall2_impl; [exact Ha|]. by intros a c [? _].
  - apply Forall_replicate. constructor.
Qed.

(** ** The task *)
Section start.
Context (sha256 sha1 : bytes -> bytes) (inet_addr : string -> Z) (resolves : text -> bool).
Context `{JsonReader}.

(** A download that has just been started; the chunks of [bf] are on disk. *)
Record started (sd : TSeedFile) (bf : list bool) (mem : bytes) (t : ActiveTask) : Prop := {
  st_seed : at_seed t = sd;
  st_state : at_state t = "downloading"%string;
  st_pools : pools_fresh (chunks sd) mem (at_pools t);
  st_size : zlength mem = file_size (header sd);
  st_mgr : exists speed, mgr_ok speed (ce_length <$> chunks sd) (active_chunks_ (sched_ (at_mgr t))) (at_mgr t);
  st_active c : c ∈ active_chunks_ (sched_ (at_mgr t)) <->
    0 <= c < zlength (chunks sd) /\ flagged bf c = false;
  st_bytes : bytes_done t = flagged_bytes (chunks sd) bf;
  st_bitfield : initial_bitfield_ (at_mgr t) = bf /\ length bf = length (chunks sd);
  st_good i c : zget (chunks sd) i = Some c -> flagged bf i = true -> chunk_good sha256 mem c;
  st_dead : tracker_dead t = false;
}.

(** A command that leaves no task says so, and has a reason to. *)
Definition refused (e : cmd_env) (sd : TSeedFile) (r : reply) : Prop :=
  ((exists msg, r = Replied (error_reply msg)) \/ r = Threw BindFailed) /\ ~ calls_ok e (chunks sd).

(** The reply of a command that leaves a task: [ok], or that the name of the
    tracker could not be resolved. *)
Definition accepted (tm : TaskManager) (sd : TSeedFile) (ok : text) : reply :=
  if resolves (announce_target tm sd).1 then Replied ok else Threw (ClientFailed ResolveFailed).

Lemma open_output_refused fs e sd path fs' err :
  seed_consistent sd -> Forall entry_ok (chunks sd) -> open_output fs e sd path = (fs', inr err) ->
  refused e sd (Replied err).
Proof.
  intros Hc Hok Ho. split.
  - left. revert Ho. unfold open_output. destruct (writer_open _ _ _ _ _ _) as [[ok w] disk].
    destruct ok; cbn [negb]; [|intros [= _ <-]; by eexists].
    destruct (init_assemblers _ _ _ _) as [? []]; [done|]. intros [= _ <-]. by eexists.
  - intros Hcalls. destruct (open_output_total fs e sd path Hc Hok Hcalls) as (? & ? & ? & ? & Ho').
    congruence.
Qed.

Lemma bind_refused e sd : env_bind_ok e = false -> refused e sd (Threw BindFailed).
Proof. intros Hb. split; [by right|]. intros [_ _ _ Hb' _]. congruence. Qed.

(** An announce touches the tracker client only. *)
Lemma announce_started tm sd bf mem t :
  started sd bf mem t -> started sd bf mem (announce_task_now resolves tm t).1 /\
  task_id (announce_task_now resolves tm t).1 = task_id t /\
  (announce_task_now resolves tm t).2 =
    if resolves (announce_target tm sd).1 then None else Some (ClientFailed ResolveFailed).
Proof.
  intros [H1 H2 H3 H4 H5 H6 H7 H8 H9 _]. unfold announce_task_now.
  rewrite H1. destruct (announce_target tm sd) as [host port]. cbv zeta. unfold client_announce, do_announce.
  cbn [fst]. destruct (resolves host); by split_and!; [split|..].
Qed.

(** The order of the active chunks: random for a download. *)
Definition start_order (e : cmd_env) (randomize : bool) : list Z -> list Z :=
  if randomize then env_shuffle e else fun l => l.

Lemma start_scheduler_start e cs randomize mark bf :
  start_scheduler e cs randomize mark bf =
  sched_start (env_speed e) (ce_length <$> cs) (start_order e randomize) mark bf.
Proof.
  unfold start_scheduler, sched_start, sched_setup, start_order. cbv zeta.
  assert (zlength (ce_length <$> cs) = zlength cs) as -> by (unfold zlength; by rewrite length_fmap).
  set (sc := set_chunk_sizes _ _). clearbody sc.
  assert ((if randomize then randomize_piece_order sc (env_shuffle e) else sc) =
    randomize_piece_order sc (if randomize then env_shuffle e else fun l => l)) as ->
    by (destruct randomize; [done|by destruct sc]).
  by destruct mark.
Qed.

Lemma start_manager_ok tm e sd randomize mark bf fd :
  Forall entry_ok (chunks sd) -> seed_consistent sd -> (forall l, start_order e randomize l ≡ₚ l) ->
  length bf = length (chunks sd) -> (mark = false -> forall i, flagged bf i = false) ->
  let m := start_manager inet_addr tm e sd (start_scheduler e (chunks sd) randomize mark bf) fd bf in
  mgr_ok (env_speed e) (ce_length <$> chunks sd) (active_chunks_ (sched_ m)) m /\
  initial_bitfield_ m = bf /\
  forall c, c ∈ active_chunks_ (sched_ m) <-> 0 <= c < zlength (chunks sd) /\ flagged bf c = false.
Proof.
  intros Hok Hc Hsh Hbf Hmark m.
  assert (zlength (ce_length <$> chunks sd) = zlength (chunks sd)) as Hzl
    by (unfold zlength; by rewrite length_fmap).
  pose proof (sc_count _ Hc) as Hcount.
  assert (Forall is_u32 (ce_length <$> chunks sd)) as Hz.
  { apply Forall_fmap. eapply Forall_impl; [exact Hok|]. by intros c (_ & ? & _). }
  split; [|split; [done|]].
  - apply (mgr_reach_ok inet_addr); [lia|done|]. subst m. rewrite start_scheduler_start.
    apply mgr_start; [done|]. by rewrite length_fmap.
  - intros c. assert (sched_ m = start_scheduler e (chunks sd) randomize mark bf) as -> by done.
    rewrite start_scheduler_start, sched_start_active by (try done; lia). rewrite Hzl.
    destruct mark; [done|]. split; intros [? _]; (split; [done|]); [by apply Hmark|done].
Qed.

(** The end of both commands. *)
Lemma store_started tm e sd p w bf mark seed_path path mem fd done rep tm' r :
  Forall entry_ok (chunks sd) -> seed_consistent sd -> (forall l, env_shuffle e l ≡ₚ l) ->
  length bf = length (chunks sd) -> (mark = false -> forall i, flagged bf i = false) ->
  pools_fresh (chunks sd) mem p -> zlength mem = file_size (header sd) ->
  done = flagged_bytes (chunks sd) bf ->
  (forall i c, zget (chunks sd) i = Some c -> flagged bf i = true -> chunk_good sha256 mem c) ->
  store_task resolves tm (new_task e sd seed_path path false p
    (start_manager inet_addr tm e sd (start_scheduler e (chunks sd) true mark bf) fd bf)
    (-1) (Some w) done) rep = (tm', r) ->
  r = accepted tm sd rep /\
  exists t, tasks_ tm' = <[env_tid e := t]> (tasks_ tm) /\ started sd bf mem t.
Proof.
  intros Hok Hc Hsh Hbf Hmark Hp Hsz Hd Hg. unfold store_task.
  destruct (start_manager_ok tm e sd true mark bf fd Hok Hc Hsh Hbf Hmark) as (Hm & Hi & Ha).
  set (m := start_manager _ _ _ _ _ _ _) in *. set (t := new_task _ _ _ _ _ _ _ _ _ _).
  assert (started sd bf mem t) as Ht by (split; try done; by eauto).
  destruct (announce_started tm sd bf mem t Ht) as (Ht' & Hid & Herr).
  destruct (announce_task_now resolves tm t) as [t' err]. cbn in Ht', Hid, Herr. intros [= <- <-]. subst err.
  unfold accepted. destruct (resolves _); (split; [done|]); exists t'; by rewrite Hid.
Qed.

(** *** add *)
Lemma read_tseed_typed file sd :
  read_tseed sha256 sha1 file = Ok sd -> seed_ok (header sd) (file_name sd) (announce_url sd) (chunks sd).
Proof. destruct file as [f|]; [|done]. intros Hr. by apply read_tseed_inv in Hr as (_ & ? & _). Qed.

(** What a scan finds is there. *)
Lemma scan_file_entry e content h c :
  is_u32 (max_chunk_size h) -> c ∈ scan_file sha256 e content (cdc_config h) ->
  exists data, content = Some data /\ 0 <= ce_offset c /\ 0 < ce_length c /\
    ce_offset c + ce_length c <= zlength data /\
    ce_sha256 c = sha256 (zslice data (ce_offset c) (ce_length c)).
Proof.
  intros Hm. unfold scan_file, fastcdc_scan_file.
  destruct content as [data|]; [|by destruct (env_map_file e), (env_fopen e); intros ?%not_elem_of_nil].
  assert (c ∈ fastcdc_scan_buffer sha256 data (cdc_config h) -> exists data0, Some data = Some data0 /\
    0 <= ce_offset c /\ 0 < ce_length c /\ ce_offset c + ce_length c <= zlength data0 /\
    ce_sha256 c = sha256 (zslice data0 (ce_offset c) (ce_length c))) as Hs.
  { intros Hc. exists data. split; [done|].
    by apply (tiles_entry sha256 data _ _ 0 c (scan_buffer_tiles sha256 data (cdc_config h) Hm)). }
  destruct (env_map_file e); [exact Hs|]. destruct (env_fopen e); [exact Hs|]. by intros ?%not_elem_of_nil.
Qed.

Lemma resume_match_true local want :
  resume_match local want = true <->
  exists c, c ∈ local /\ chunk_key c = chunk_key want /\ ce_offset c = ce_offset want /\
    ce_length c = ce_length want.
Proof.
  unfold resume_match. rewrite existsb_exists. split.
  - intros (c & Hin & Hc). apply list_elem_of_In, list_elem_of_filter in Hin as [Hk Hin].
    exists c. split_and!; [done|done|lia|lia].
  - intros (c & Hin & Hk & Ho & Hl). exists c.
    split; [apply list_elem_of_In, list_elem_of_filter; done|lia].
Qed.

Lemma flagged_fmap {A} (f : A -> bool) l i x : zget l i = Some x -> flagged (f <$> l) i = f x.
Proof. intros Hx. unfold flagged. by rewrite zget_fmap, Hx. Qed.

Lemma flagged_none n i : flagged (replicate n false) i = false.
Proof. unfold flagged. rewrite zget_replicate. by case_match. Qed.

(** The chunks [add] finds in the file are in the file. *)
Lemma resume_good e sd mem i c :
  is_u32 (max_chunk_size (header sd)) -> zget (chunks sd) i = Some c ->
  flagged (resume_match (scan_file sha256 e (Some mem) (cdc_config (header sd))) <$> chunks sd) i = true ->
  chunk_good sha256 mem c.
Proof.
  intros Hm Hc. rewrite (flagged_fmap _ _ _ _ Hc), resume_match_true. intros (x & Hx & Hk & Ho & Hl).
  destruct (scan_file_entry _ _ _ _ Hm Hx) as (data & [= <-] & _ & _ & _ & Hs).
  unfold chunk_good, chunk_key in *. by rewrite <-Hk, <-Ho, <-Hl, Hs.
Qed.

(** The chunks [add] takes over when the output file has content [mem]. *)
Definition resume_flags (fs : FileSystem) (e : cmd_env) (save_path : string) (sd : TSeedFile) (mem : bytes)
  : list bool :=
  if match fs !! save_path with Some d => 0 <? zlength d | None => false end
  then resume_match (scan_file sha256 e (Some mem) (cdc_config (header sd))) <$> chunks sd
  else replicate (length (chunks sd)) false.

Lemma cmd_add_starts fs tm e seed_path save_path sd :
  read_tseed sha256 sha1 (fs !! seed_path) = Ok sd -> seed_consistent sd ->
  (forall l, env_shuffle e l ≡ₚ l) ->
  exists fs' tm' r, cmd_add sha256 sha1 inet_addr resolves fs tm e seed_path save_path = Some (fs', tm', r) /\
    (tm' = tm /\ refused e sd r \/ r = accepted tm sd (id_reply (env_tid e)) /\ exists t mem, tasks_ tm' = <[env_tid e := t]> (tasks_ tm) /\
       fs' = <[save_path := mem]> fs /\ started sd (resume_flags fs e save_path sd mem) mem t /\
       (fs !! save_path = Some mem \/
        (forall old, fs !! save_path = Some old -> zlength old <> file_size (header sd)))).
Proof.
  intros Hr Hc Hsh. destruct (read_tseed_typed _ _ Hr) as [Hh _ _ _ _ _ Hok].
  unfold cmd_add. rewrite Hr. cbv zeta. set (exists_ := match fs !! save_path with Some _ => _ | None => _ end).
  destruct (open_output fs e sd save_path) as [fs' [[[w asms] mem]|err]] eqn:Eo;
    [|do 3 eexists; split; [done|]; left; split; [done|]; by eapply open_output_refused].
  destruct (open_output_ok _ _ _ _ _ _ _ _ Hok (covers_positive _ _ _ (sc_covers _ Hc))
    (conj (proj1 (ok_file_size _ Hh)) (sc_size _ Hc)) Eo) as (-> & Hsz & Hpos & Hcase & Ha).
  destruct (start_pools_ok (chunks sd) asms mem (env_cores e) Ha) as (p & -> & Hp). cbn [mbind option_bind].
  destruct (env_bind_ok e) eqn:Eb; cbn [negb];
    [|do 3 eexists; split; [done|]; left; split; [done|]; by apply bind_refused].
  set (bf := if exists_ then _ else _). set (done := sum_matched 0 (chunks sd) bf).
  pose proof (sc_count _ Hc) as Hcount.
  assert (done = flagged_bytes (chunks sd) bf) as Hd by (apply sum_matched_ok; [done|lia]).
  assert (length bf = length (chunks sd)) as Hbf
    by (subst bf; destruct exists_; by rewrite ?length_fmap, ?length_replicate).
  destruct (store_task _ _ _ _) as [tm' r] eqn:Es. do 3 eexists. split; [done|]. right.
  assert ((0 <? done) = false -> forall i, flagged bf i = false) as Hmark.
  { intros Hz i. eapply flagged_bytes_zero; [exact (covers_positive _ _ _ (sc_covers _ Hc))|done|lia]. }
  assert (forall i c, zget (chunks sd) i = Some c -> flagged bf i = true -> chunk_good sha256 mem c) as Hg;
    [|destruct (store_started _ _ _ _ _ _ _ _ _ _ _ _ _ _ _ Hok Hc Hsh Hbf Hmark Hp Hsz Hd Hg Es)
      as (Hrep & t & Ht & Hst); split; [exact Hrep|]; exists t, mem; split_and!; [done|done|done|]; destruct Hcase as [|[? _]]; auto].
  intros i c Hi Hf. subst bf. destruct exists_; [|by rewrite flagged_none in Hf].
  eapply resume_good; [apply Hh|done|done].
Qed.

(** C6: [add] always ends.  It refuses only when a system call failed or the
    seed has no chunk or a chunk too long for the segment writer, and then it
    reports an error and leaves the tasks as they are.  Otherwise it answers
    with the task's id (or that the tracker's name cannot be resolved) and the
    task it leaves is consistent: the output file has the size the seed says, a chunk is
    taken over from an existing file only if its bytes there have the digest
    the seed lists, the scheduler regards exactly these chunks as complete and
    the bytes counted as done are exactly theirs. *)
Theorem add_starts_consistent_task fs tm e seed_path save_path sd :
  read_tseed sha256 sha1 (fs !! seed_path) = Ok sd -> seed_consistent sd ->
  (forall l, env_shuffle e l ≡ₚ l) ->
  exists fs' tm' r, cmd_add sha256 sha1 inet_addr resolves fs tm e seed_path save_path = Some (fs', tm', r) /\
    (tm' = tm /\ refused e sd r \/
     r = accepted tm sd (id_reply (env_tid e)) /\ exists t mem bf, tasks_ tm' = <[env_tid e := t]> (tasks_ tm) /\
       fs' = <[save_path := mem]> fs /\ started sd bf mem t).
Proof.
  intros Hr Hc Hsh. destruct (cmd_add_starts fs tm e seed_path save_path sd Hr Hc Hsh)
    as (fs' & tm' & r & Hrun & Hcase). do 3 eexists. split; [done|].
  destruct Hcase as [|(? & t & mem & ? & ? & ? & _)]; [by left|right]. split; [done|]. by do 3 eexists.
Qed.

Lemma tiles_size data cs : forall off size size', tiles sha256 data off size cs -> covers off size' cs -> size = size'.
Proof.
  induction cs as [|c cs IH]; intros off size size'; cbn [tiles covers]; [congruence|].
  intros (_ & _ & _ & Ht) (_ & _ & Hc). by apply (IH _ _ _ Ht Hc).
Qed.

(** C30: Adding a finished download recognises it: if the output file has the
    content whose chunking the seed lists, then, unless the command refuses as
    above, nothing is written, no chunk is left to fetch and all bytes are
    counted as done. *)
Theorem add_recognises_finished fs tm e seed_path save_path sd data :
  read_tseed sha256 sha1 (fs !! seed_path) = Ok sd -> seed_consistent sd ->
  (forall l, env_shuffle e l ≡ₚ l) -> fs !! save_path = Some data -> 0 < zlength data ->
  env_map_file e = true -> chunks sd = fastcdc_scan_buffer sha256 data (cdc_config (header sd)) ->
  exists fs' tm' r, cmd_add sha256 sha1 inet_addr resolves fs tm e seed_path save_path = Some (fs', tm', r) /\
    (tm' = tm /\ refused e sd r \/
     r = accepted tm sd (id_reply (env_tid e)) /\ exists t, tasks_ tm' = <[env_tid e := t]> (tasks_ tm) /\ fs' = fs /\
       active_chunks_ (sched_ (at_mgr t)) = [] /\ bytes_done t = file_size (header sd) /\
       file_size (header sd) = zlength data).
Proof.
  intros Hr Hc Hsh Hd Hpos Hmap Hcs. destruct (read_tseed_typed _ _ Hr) as [Hh _ _ _ _ _ _].
  assert (zlength data = file_size (header sd)) as Hsz.
  { apply (tiles_size data (chunks sd) 0); [|apply Hc]. rewrite Hcs. apply scan_buffer_tiles, Hh. }
  destruct (cmd_add_starts fs tm e seed_path save_path sd Hr Hc Hsh) as (fs' & tm' & r & Hrun & Hcase).
  do 3 eexists. split; [done|]. destruct Hcase as [|(Hrep & t & mem & Ht & -> & Hst & Hm)]; [by left|right].
  split; [done|].
  assert (mem = data) as -> by (destruct Hm as [Hm|Hm]; [congruence|by destruct (Hm data Hd)]).
  assert (resume_flags fs e save_path sd data = replicate (length (chunks sd)) true) as Hf.
  { unfold resume_flags. rewrite Hd. replace (0 <? zlength data) with true by lia.
    unfold scan_file, fastcdc_scan_file. rewrite Hmap, <-Hcs. apply list_eq. intros k. rewrite list_lookup_fmap.
    destruct (chunks sd !! k) as [c|] eqn:Ek; cbn.
    - rewrite lookup_replicate_2 by (by eapply lookup_lt_Some). f_equal. apply resume_match_true.
      exists c. split; [|done]. by eapply list_elem_of_lookup_2.
    - symmetry. apply lookup_replicate_None. by apply lookup_ge_None. }
  rewrite Hf in Hst. destruct Hst as [_ _ _ _ _ Ha Hb _ _]. exists t. split_and!; [done|by apply insert_id| |..].
  - destruct (active_chunks_ _) as [|i l]; [done|]. destruct (proj1 (Ha i)) as [Hi Hfi]; [by left|].
    unfold flagged in Hfi. rewrite zget_replicate in Hfi.
    replace (_ && _) with true in Hfi by (unfold zlength in Hi; lia). done.
  - rewrite Hb, (flagged_bytes_all _ _ _ (sc_covers _ Hc)). lia.
  - done.
Qed.

(** *** update *)
(** What one copy does to the output file: nothing outside the wanted chunk. *)
Record copies (d d' : bytes) (want : ChunkEntry) : Prop := {
  cp_size : zlength d' = zlength d;
  cp_outside k : ~ (ce_offset want <= k < ce_offset want + ce_length want) -> zget d' k = zget d k;
}.

Lemma copies_refl d want : copies d d want.
Proof. done. Qed.

Lemma copies_trans d1 d2 d3 want : copies d1 d2 want -> copies d2 d3 want -> copies d1 d3 want.
Proof. intros [H1 H2] [H3 H4]. split; [congruence|]. intros k Hk. by rewrite H4, H2. Qed.

Lemma clone_range_ok fs old new src s d want n :
  fs !! old = Some s -> fs !! new = Some d -> 0 <= src -> src + ce_length want <= zlength s ->
  0 <= ce_offset want -> 0 < ce_length want -> ce_offset want + ce_length want <= zlength d ->
  n <= ce_length want ->
  exists d' ok, clone_range fs old src new (ce_offset want) (ce_length want) n = (<[new := d']> fs, ok) /\
    copies d d' want /\
    (ok = true -> zslice d' (ce_offset want) (ce_length want) = zslice s src (ce_length want)).
Proof.
  intros Hs Hd H0 Hsrc Ho Hl Hend Hn. unfold clone_range. rewrite Hs, Hd.
  destruct (Z.ltb_spec 0 n) as [Hpos|Hneg].
  - assert (zlength (zslice s src n) = n) as Hzl by (apply length_zslice; lia).
    rewrite file_write_inside by lia. do 2 eexists. split; [done|]. split.
    + split; [unfold zlength; rewrite length_blit by lia; done|].
      intros k Hk. apply zget_blit_outside; lia.
    + intros ->%Z.eqb_eq. rewrite <-Hzl at 2. apply zslice_blit; lia.
  - exists d, (n =? ce_length want). rewrite insert_id by done. split; [done|]. split; [apply copies_refl|]. lia.
Qed.

Lemma clone_candidates_ok old new want i copied cands : forall fs s d k,
  old <> new -> fs !! old = Some s -> fs !! new = Some d ->
  0 <= ce_offset want -> 0 < ce_length want -> ce_offset want + ce_length want <= zlength d ->
  (forall k, copied i k <= ce_length want) ->
  Forall (fun c => 0 <= ce_offset c /\ ce_offset c + ce_length c <= zlength s) cands ->
  exists d' used, clone_candidates fs old new want i k copied cands = (<[new := d']> fs, used) /\
    copies d d' want /\
    forall c, used = Some c -> c ∈ cands /\ ce_length c = ce_length want /\
      zslice d' (ce_offset want) (ce_length want) = zslice s (ce_offset c) (ce_length want).
Proof.
  induction cands as [|c cands IH]; intros fs s d k Hne Hs Hd Ho Hl Hend Hcp Hin; cbn [clone_candidates].
  { exists d, None. rewrite insert_id by done. split; [done|]. split; [apply copies_refl|done]. }
  apply Forall_cons in Hin as [[Hc0 Hc1] Hin].
  destruct (Z.eqb_spec (ce_length c) (ce_length want)) as [Heq|Hneq]; cbn [negb].
  2:{ destruct (IH fs s d k Hne Hs Hd Ho Hl Hend Hcp Hin) as (d' & used & Hr & Hcop & Hu).
      exists d', used. split; [done|]. split; [done|]. intros x Hx. destruct (Hu x Hx) as (? & ? & ?).
      split_and!; [by apply elem_of_cons; right|done|done]. }
  destruct (clone_range_ok fs old new (ce_offset c) s d want (copied i k)) as (d1 & ok & -> & Hcop & Hok);
    [done..|lia|done|done|done|done|].
  destruct ok.
  { exists d1, (Some c). split; [done|]. split; [done|]. intros x [= <-].
    split_and!; [apply elem_of_cons; by left|done|by apply Hok]. }
  destruct (IH (<[new := d1]> fs) s d1 (S k)) as (d' & used & Hr & Hcop' & Hu); try done.
  - by rewrite lookup_insert_ne.
  - by rewrite lookup_insert_eq.
  - by rewrite (cp_size _ _ _ Hcop).
  - exists d', used. rewrite Hr, insert_insert_eq. split; [done|].
    split; [by eapply copies_trans|]. intros x Hx. destruct (Hu x Hx) as (? & ? & ?).
    split_and!; [by apply elem_of_cons; right|done|done].
Qed.

(** The entries of the old file's index are about its content. *)
Definition index_ok (s : bytes) (c : ChunkEntry) : Prop :=
  0 <= ce_offset c /\ ce_offset c + ce_length c <= zlength s /\
  ce_sha256 c = sha256 (zslice s (ce_offset c) (ce_length c)).

Lemma remove_entry_sublist c l : remove_entry c l `sublist_of` l.
Proof.
  induction l as [|x l IH]; cbn [remove_entry]; [done|]. destruct (_ && _); by constructor.
Qed.

Lemma Forall_sublist {A} (P : A -> Prop) l k : l `sublist_of` k -> Forall P k -> Forall P l.
Proof. induction 1; rewrite ?Forall_cons; naive_solver. Qed.

Lemma clone_loop_ok old new copied cs : forall fs s d index i off size,
  old <> new -> fs !! old = Some s -> fs !! new = Some d -> 0 <= off -> covers off size cs ->
  size <= zlength d -> Forall (index_ok s) index ->
  (forall j c k, cs !! j = Some c -> copied (i + Z.of_nat j) k <= ce_length c) ->
  exists d' bf, clone_loop fs old new copied index i cs = (<[new := d']> fs, bf) /\
    length bf = length cs /\ zlength d' = zlength d /\ (forall k, k < off -> zget d' k = zget d k) /\
    forall j c, cs !! j = Some c -> bf !! j = Some true -> chunk_good sha256 d' c.
Proof.
  induction cs as [|want cs IH]; intros fs s d index i off size Hne Hs Hd H0 Hcov Hsz Hix Hcp;
    cbn [clone_loop].
  { exists d, []. rewrite insert_id by done. by split_and!. }
  pose proof Hcov as (Ho & Hl & Hcov'). set (cands := filter _ index).
  destruct (covers_entry (want :: cs) off size want Hcov) as (_ & _ & Hwend); [by left|].
  assert (Forall (index_ok s) cands) as Hcands
    by (eapply Forall_sublist; [apply sublist_filter|done]).
  destruct (clone_candidates_ok old new want i copied cands fs s d 0) as (d1 & used & -> & Hcop & Hu);
    try done; [lia|lia| | |].
  { intros k. specialize (Hcp 0%nat want k eq_refl). by rewrite Z.add_0_r in Hcp. }
  { eapply Forall_impl; [exact Hcands|]. by intros c (? & ? & _). }
  set (index' := match used with Some c => remove_entry c index | None => index end).
  assert (Forall (index_ok s) index') as Hix'.
  { subst index'. destruct used as [c|]; [|done]. eapply Forall_sublist; [|exact Hix].
    apply remove_entry_sublist. }
  destruct (IH (<[new := d1]> fs) s d1 index' (i + 1) (off + ce_length want) size)
    as (d' & bf & -> & Hlen & Hzl & Hbelow & Hgood); try done.
  { by rewrite lookup_insert_ne. } { by rewrite lookup_insert_eq. } { lia. }
  { by rewrite (cp_size _ _ _ Hcop). }
  { intros j c k Hj. specialize (Hcp (S j) c k Hj). by replace (i + 1 + Z.of_nat j) with (i + Z.of_nat (S j)) by lia. }
  do 2 eexists. rewrite insert_insert_eq. split; [done|]. split_and!.
  - cbn. lia.
  - by rewrite Hzl, (cp_size _ _ _ Hcop).
  - intros k Hk. rewrite Hbelow by lia. apply (cp_outside _ _ _ Hcop). lia.
  - intros [|j] c; [|apply Hgood]. intros [= <-]. destruct used as [x|]; [|done]. intros _.
    destruct (Hu x eq_refl) as (Hx & Hxl & Hxs).
    rewrite Forall_forall in Hcands. destruct (Hcands x Hx) as (_ & _ & Hsha).
    apply list_elem_of_filter in Hx as [Hk _]. unfold chunk_good, chunk_key in *.
    rewrite (zslice_ext d' d1) by (try lia; intros; apply Hbelow; lia).
    by rewrite Hxs, <-Hxl, <-Hsha, Hk.
Qed.

Lemma clone_loop_nil fs old new copied cs : forall i,
  clone_loop fs old new copied [] i cs = (fs, replicate (length cs) false).
Proof.
  induction cs as [|c cs IH]; intros i; [done|]. cbn [clone_loop length replicate].
  rewrite filter_nil. cbn [clone_candidates]. by rewrite IH.
Qed.

Lemma count_true_none bf i : count_true bf <= 0 -> flagged bf i = false.
Proof.
  unfold flagged. intros Hc. destruct (zget bf i) as [[]|] eqn:E; [|done..]. exfalso.
  apply zget_Some in E as [_ E]. revert E Hc. generalize (Z.to_nat i) as k.
  induction bf as [|b bf IH]; intros [|k] E Hc; try done; cbn in *; pose proof (count_true_bounds bf).
  - injection E as ->. lia.
  - apply (IH k E). destruct b; lia.
Qed.

(** [copy_file_range] does not copy more than it is asked to. *)
Definition copies_bounded (e : cmd_env) (cs : list ChunkEntry) : Prop :=
  forall i c k, zget cs i = Some c -> env_copied e i k <= ce_length c.

Lemma clone_old_ok fs e sd old_seed old new mem :
  old <> new -> seed_consistent sd -> zlength mem = file_size (header sd) ->
  copies_bounded e (chunks sd) ->
  exists d bf, clone_old (<[new := mem]> fs) e old new (old_index sha256 sha1 fs e old_seed old) (chunks sd) =
      (<[new := d]> fs, bf) /\
    length bf = length (chunks sd) /\ zlength d = zlength mem /\
    forall i c, zget (chunks sd) i = Some c -> flagged bf i = true -> chunk_good sha256 d c.
Proof.
  intros Hne Hc Hsz Hcp.
  assert (exists d bf, (<[new := mem]> fs, replicate (length (chunks sd)) false) = (<[new := d]> fs, bf) /\
    length bf = length (chunks sd) /\ zlength d = zlength mem /\
    forall i c, zget (chunks sd) i = Some c -> flagged bf i = true -> chunk_good sha256 d c) as Hnone.
  { do 2 eexists. split; [done|]. rewrite length_replicate. split_and!; [done|done|].
    intros i c _. by rewrite flagged_none. }
  unfold clone_old, old_index. case_decide; [done|].
  destruct (read_tseed _ _ (fs !! old_seed)) as [osd|] eqn:Er; [|done].
  destruct (env_old_fd e <? 0); [done|]. destruct (read_tseed_typed _ _ Er) as [Hh _ _ _ _ _ _].
  set (index := scan_file _ _ _ _). destruct (fs !! old) as [s|] eqn:Eold.
  2:{ assert (index = []) as ->.
      { subst index. unfold scan_file, fastcdc_scan_file. by destruct (env_map_file e), (env_fopen e). }
      by rewrite clone_loop_nil. }
  assert (Forall (index_ok s) index) as Hix.
  { apply Forall_forall. intros c Hx. destruct (scan_file_entry _ _ _ _ (ok_max _ Hh) Hx)
      as (data & [= <-] & ? & ? & ? & ?). by split_and!. }
  destruct (clone_loop_ok old new (env_copied e) (chunks sd) (<[new := mem]> fs) s mem index 0 0
    (file_size (header sd)) Hne) as (d & bf & -> & Hlen & Hzl & _ & Hgood); try done.
  - by rewrite lookup_insert_ne.
  - by rewrite lookup_insert_eq.
  - apply Hc.
  - lia.
  - intros j c k Hj. apply Hcp. by rewrite Z.add_0_l, zget_of_nat.
  - exists d, bf. rewrite insert_insert_eq. split_and!; try done. intros i c Hi Hf.
    apply zget_Some in Hi as [Hi0 Hi]. apply (Hgood _ _ Hi). unfold flagged in Hf.
    destruct (zget bf i) as [b|] eqn:Eb; [|done]. cbn in Hf. subst b. by apply zget_Some in Eb as [_ Eb].
Qed.

Lemma cmd_update_starts fs tm e new_seed_path new_file_path old_seed_path old_file_path sd :
  read_tseed sha256 sha1 (fs !! new_seed_path) = Ok sd -> seed_consistent sd ->
  (forall l, env_shuffle e l ≡ₚ l) -> old_file_path <> new_file_path -> copies_bounded e (chunks sd) ->
  exists fs' tm' r,
    cmd_update sha256 sha1 inet_addr resolves fs tm e new_seed_path new_file_path old_seed_path old_file_path =
      Some (fs', tm', r) /\
    (tm' = tm /\ refused e sd r \/
     exists t mem bf, r = accepted tm sd (update_reply (env_tid e) (zlength (chunks sd)) (count_true bf)) /\
       tasks_ tm' = <[env_tid e := t]> (tasks_ tm) /\ fs' = <[new_file_path := mem]> fs /\ started sd bf mem t).
Proof.
  intros Hr Hc Hsh Hne Hcp. destruct (read_tseed_typed _ _ Hr) as [Hh _ _ _ _ _ Hok].
  unfold cmd_update. rewrite Hr. cbv zeta.
  destruct (open_output fs e sd new_file_path) as [fs' [[[w asms] mem]|err]] eqn:Eo;
    [|do 3 eexists; split; [done|]; left; split; [done|]; by eapply open_output_refused].
  destruct (open_output_ok _ _ _ _ _ _ _ _ Hok (covers_positive _ _ _ (sc_covers _ Hc))
    (conj (proj1 (ok_file_size _ Hh)) (sc_size _ Hc)) Eo) as (-> & Hsz & Hpos & _ & Ha).
  destruct (clone_old_ok fs e sd old_seed_path old_file_path new_file_path mem Hne Hc Hsz Hcp)
    as (d & bf & Hcl & Hbf & Hzl & Hg).
  rewrite Hcl. clear Hcl. rewrite lookup_insert_eq. cbn [default].
  rewrite <-Hzl in Ha. destruct (start_pools_ok (chunks sd) asms d (env_cores e) Ha) as (p & Hp & Hfresh).
  unfold default, id in *. rewrite Hp. cbn [mbind option_bind].
  destruct (env_bind_ok e) eqn:Eb; cbn [negb];
    [|do 3 eexists; split; [done|]; left; split; [done|]; by apply bind_refused].
  pose proof (sc_count _ Hc) as Hcount.
  assert (sum_matched 0 (chunks sd) bf = flagged_bytes (chunks sd) bf) as Hd
    by (apply sum_matched_ok; [done|lia]).
  assert ((0 <? count_true bf) = false -> forall i, flagged bf i = false) as Hmark
    by (intros Hz i; apply count_true_none; lia).
  assert (zlength d = file_size (header sd)) as Hszd by congruence.
  destruct (store_task _ _ _ _) as [tm' r] eqn:Es. do 3 eexists. split; [done|]. right.
  destruct (store_started _ _ _ _ _ _ _ _ _ _ _ _ _ _ _ Hok Hc Hsh Hbf Hmark Hfresh Hszd Hd Hg Es)
    as (Hrep & t & Ht & Hst). by exists t, d, bf.
Qed.

(** C14: Updating a file to a new version always ends, and unless it refuses
    (see [refused]) and when the new version is written to another path the
    task it leaves is consistent and the reply tells the number of chunks
    taken over:
    every chunk taken over from the old file has, at its place in the new
    file, the digest the new seed lists, even if the old file is not what its
    seed says and if some of the copies fail or are incomplete. *)
Theorem update_starts_consistent_task fs tm e new_seed_path new_file_path old_seed_path old_file_path sd :
  read_tseed sha256 sha1 (fs !! new_seed_path) = Ok sd -> seed_consistent sd ->
  (forall l, env_shuffle e l ≡ₚ l) -> old_file_path <> new_file_path -> copies_bounded e (chunks sd) ->
  exists fs' tm' r,
    cmd_update sha256 sha1 inet_addr resolves fs tm e new_seed_path new_file_path old_seed_path old_file_path =
      Some (fs', tm', r) /\
    (tm' = tm /\ refused e sd r \/
     exists t mem bf, r = accepted tm sd (update_reply (env_tid e) (zlength (chunks sd)) (count_true bf)) /\
       tasks_ tm' = <[env_tid e := t]> (tasks_ tm) /\ fs' = <[new_file_path := mem]> fs /\ started sd bf mem t).
Proof. apply cmd_update_starts. Qed.
End start.

(** ** Updating in place *)
(** A digest, for the examples: the first 32 bytes. *)
Definition demo_sha (b : bytes) : bytes := take 32 (b ++ replicate 32 Byte.x00).

(** Seeds of the two-byte files "ab" and "ba" with chunks of one byte. *)
Definition demo_chunk (off : Z) (b : byte) : ChunkEntry :=
  {| ce_offset := off; ce_length := 1; ce_sha256 := demo_sha [b] |}.

Definition demo_seed_file (b0 b1 : byte) : bytes :=
  match write_tseed demo_sha true true (Some [b0; b1]) [Byte.x66] [] [demo_chunk 0 b0; demo_chunk 1 b1] 1 1 1 with
  | Ok f => f
  | Err _ => []
  end.

Definition demo_fs : FileSystem :=
  <["old.tseed"%string := demo_seed_file Byte.x61 Byte.x62]>
  (<["new.tseed"%string := demo_seed_file Byte.x62 Byte.x61]>
  {["file"%string := [Byte.x61; Byte.x62]]}).

(** Every system call succeeds and a copy is complete. *)
Definition demo_env : cmd_env := {|
  env_tid := "t1"; env_iso := "now"; env_now := 0; env_cores := 4; env_speed := 1000;
  env_shuffle := fun l => l; env_bind_ok := true; env_listen_ip := None; env_local_ip := "10.0.0.5";
  env_sendfile := false; env_open := {| sys_fd := 5; sys_fallocate := true; sys_ftruncate := true |};
  env_mmap_ok := fun _ => true; env_map_file := true; env_fopen := true; env_old_fd := 6;
  env_copied := fun _ _ => 1;
|}.

Definition demo_tm : TaskManager := task_manager_new 6881 (txt "10.0.0.1") 9000.

Definition demo_new_seed : TSeedFile := {|
  header := {| magic := MAGIC; version := 1; flags := 0; chunk_count := 2; file_size := 2;
               min_chunk_size := 1; avg_chunk_size := 1; max_chunk_size := 1; file_name_len := 1;
               announce_len := 0; reserved := replicate 20 Byte.x00;
               file_sha256 := demo_sha [Byte.x62; Byte.x61] |};
  file_name := [Byte.x66]; announce_url := [];
  chunks := [demo_chunk 0 Byte.x62; demo_chunk 1 Byte.x61];
  info_hash := demo_sha (info_hash_input (demo_sha [Byte.x62; Byte.x61])
                 [demo_chunk 0 Byte.x62; demo_chunk 1 Byte.x61]);
|}.

Lemma demo_new_seed_read : read_tseed demo_sha demo_sha (demo_fs !! "new.tseed"%string) = Ok demo_new_seed.
Proof. vm_compute. reflexivity. Qed.

Lemma demo_new_seed_consistent : seed_consistent demo_new_seed.
Proof. split; [by split_and!|done|done]. Qed.

Lemma demo_new_seed_copies : copies_bounded demo_env (chunks demo_new_seed).
Proof.
  intros i c k Hi. apply zget_Some in Hi as [_ Hi]. cbn.
  destruct (Z.to_nat i) as [|[|n]]; cbn in Hi; simplify_eq; done.
Qed.

(** Updating a file in place, with every system call successful and every
    copy complete, can leave a task that counts a chunk as there although the
    file does not have it: the copies read what earlier copies overwrote. *)
Theorem update_in_place_corrupts :
  exists fs' tm' r t mem,
    cmd_update demo_sha demo_sha (fun _ => 0) (fun _ => true) demo_fs demo_tm demo_env
      "new.tseed" "file" "old.tseed" "file" = Some (fs', tm', r) /\
    tasks_ tm' !! "t1"%string = Some t /\ fs' !! "file"%string = Some mem /\
    initial_bitfield_ (at_mgr t) = [true; true] /\ active_chunks_ (sched_ (at_mgr t)) = [] /\
    bytes_done t = file_size (header demo_new_seed) /\
    ~ chunk_good demo_sha mem (demo_chunk 1 Byte.x61).
Proof.
  do 5 eexists. split; [vm_compute; reflexivity|]. split; [vm_compute; reflexivity|].
  split; [vm_compute; reflexivity|]. split_and!; [vm_compute; reflexivity..|].
  unfold chunk_good. vm_compute. done.
Qed.

(** The same update to another path does not. *)
Lemma update_starts_consistent_task_witness :
  exists fs' tm' r,
    cmd_update demo_sha demo_sha (fun _ => 0) (fun _ => true) demo_fs demo_tm demo_env
      "new.tseed" "new" "old.tseed" "file" = Some (fs', tm', r) /\
    (tm' = demo_tm /\ refused demo_env demo_new_seed r \/
     exists t mem bf, r = accepted (fun _ => true) demo_tm demo_new_seed (update_reply "t1" 2 (count_true bf)) /\
       tasks_ tm' = <["t1"%string := t]> (tasks_ demo_tm) /\ fs' = <["new"%string := mem]> demo_fs /\ started demo_sha demo_new_seed bf mem t).
Proof.
  apply (update_starts_consistent_task demo_sha demo_sha (fun _ => 0) (fun _ => true) demo_fs demo_tm demo_env
    "new.tseed" "new" "old.tseed" "file" demo_new_seed).
  - apply demo_new_seed_read.
  - apply demo_new_seed_consistent.
  - done.
  - discriminate.
  - apply demo_new_seed_copies.
Defined.

Lemma add_starts_consistent_task_witness :
  exists fs' tm' r,
    cmd_add demo_sha demo_sha (fun _ => 0) (fun _ => true) demo_fs demo_tm demo_env "new.tseed" "file" =
      Some (fs', tm', r) /\
    (tm' = demo_tm /\ refused demo_env demo_new_seed r \/
     r = accepted (fun _ => true) demo_tm demo_new_seed (id_reply "t1") /\ exists t mem bf, tasks_ tm' = <["t1"%string := t]> (tasks_ demo_tm) /\
       fs' = <["file"%string := mem]> demo_fs /\ started demo_sha demo_new_seed bf mem t).
Proof.
  apply (add_starts_consistent_task demo_sha demo_sha (fun _ => 0) (fun _ => true) demo_fs demo_tm demo_env
    "new.tseed" "file" demo_new_seed).
  - apply demo_new_seed_read.
  - apply demo_new_seed_consistent.
  - done.
Defined.

Lemma add_recognises_finished_witness :
  exists fs' tm' r,
    cmd_add demo_sha demo_sha (fun _ => 0) (fun _ => true)
      (<["file"%string := [Byte.x62; Byte.x61]]> demo_fs) demo_tm demo_env "new.tseed" "file" =
      Some (fs', tm', r) /\
    (tm' = demo_tm /\ refused demo_env demo_new_seed r \/
     r = accepted (fun _ => true) demo_tm demo_new_seed (id_reply "t1") /\ exists t, tasks_ tm' = <["t1"%string := t]> (tasks_ demo_tm) /\
       fs' = <["file"%string := [Byte.x62; Byte.x61]]> demo_fs /\
       active_chunks_ (sched_ (at_mgr t)) = [] /\ bytes_done t = file_size (header demo_new_seed) /\
       file_size (header demo_new_seed) = 2).
Proof.
  apply (add_recognises_finished demo_sha demo_sha (fun _ => 0) (fun _ => true)
    (<["file"%string := [Byte.x62; Byte.x61]]> demo_fs) demo_tm demo_env "new.tseed" "file" demo_new_seed
    [Byte.x62; Byte.x61]).
  - vm_compute. reflexivity.
  - apply demo_new_seed_consistent.
  - done.
  - vm_compute. reflexivity.
  - done.
  - done.
  - vm_compute. reflexivity.
Defined.
