(* ===== verification/Discovery.v ===== *)
(** * How the peers of a torrent find each other

    A task's client announces itself to the tracker; the tracker answers with
    the other peers of the torrent; the task's manager connects to them
    (announce_task_now and its callback in src/src/daemon/task_manager.cpp,
    PeerManager::connect_to).  [Tracker], [TrackerSpec], [PeerManager] and
    [TaskManager] put together. *)

From Stdlib Require Import Ascii.
From S2P Require Import Prelude Text Json Platform Seed Protocol Scheduler SchedulerProofs PeerSession Tracker TrackerSpec PeerManager TaskManager TaskStart.
Import OCamlLikeNotations.

(** The endpoints of the connections. *)
Abbreviation targets m := (outbound_ <$> sessions_ m).

Section discovery.
Context (inet_addr : string -> Z) `{JR : JsonReader}.

(** A peer the manager connects to, if there is room: its address can be
    connected to, it is not the manager itself, and no session is connected
    with that address. *)
Definition wanted (m : PeerManager) (ep : string * Z) : Prop :=
  is_connectable_peer_ip inet_addr ep.1 = true /\
  is_self_peer_endpoint (local_peer_ips_ m) (p2p_port_ m) ep.1 ep.2 = false /\
  Forall (fun s => remote_ip s <> ep.1) (sessions_ m).

#[export] Instance wanted_dec m ep : Decision (wanted m ep).
Proof. unfold wanted. apply _. Defined.

Lemma connectable_known ip : is_connectable_peer_ip inet_addr ip = true -> ip <> "unknown"%string.
Proof. intros H ->. done. Qed.

Lemma connect_to_spec m ip port flags now :
  zlength (sessions_ m) < MAX_PEERS ->
  let m' := connect_to inet_addr m ip port flags now in
  targets m' = targets m ++ (if decide (wanted m (ip, port)) then [Some (ip, port)] else []) /\
  zlength (sessions_ m') <= zlength (sessions_ m) + 1 /\
  forall ep, wanted m' ep <-> wanted m ep.
Proof.
  intros Hroom. cbv zeta. unfold connect_to. replace (MAX_PEERS <=? _) with false by lia.
  assert (existsb (fun s => bool_decide (remote_ip s = ip)) (sessions_ m) = false <->
    Forall (fun s => remote_ip s <> ip) (sessions_ m)) as Hex.
  { clear. induction (sessions_ m) as [|s l IH]; cbn; [done|].
    rewrite orb_false_iff, bool_decide_eq_false, IH, Forall_cons. done. }
  destruct (decide (wanted m (ip, port))) as [(H1 & H2 & H3)|Hno]; cbn in *.
  - rewrite H1, H2. cbn [negb]. apply Hex in H3 as Hf. rewrite Hf. cbn.
    rewrite fmap_app. split; [done|]. rewrite zlength_app. split; [done|]. intros ep. unfold wanted. cbn.
    rewrite Forall_app, Forall_singleton. split; [tauto|]. intros (W1 & W2 & W3). split_and!; try done.
    cbn. by apply not_eq_sym, connectable_known.
  - rewrite app_nil_r. destruct (is_connectable_peer_ip inet_addr ip) eqn:E1; cbn [negb]; [|by split_and!; try done; lia].
    destruct (is_self_peer_endpoint _ _ ip port) eqn:E2; [by split_and!; try done; lia|].
    destruct (existsb _ _) eqn:E3; [by split_and!; try done; lia|]. destruct Hno. split_and!; [done|done|by apply Hex].
Qed.

(** The endpoint an entry of a response is about. *)
Definition pex_endpoint (p : PexPeer) : string * Z := (inet_ntoa (pex_ip p), ntoh16 (pex_port p)).

Lemma connect_peers_spec peers now : forall m,
  zlength (sessions_ m) + zlength peers <= MAX_PEERS ->
  targets (connect_peers inet_addr m peers now) =
  targets m ++ (Some <$> filter (wanted m) (pex_endpoint <$> peers)).
Proof.
  induction peers as [|p peers IH]; intros m Hroom; [cbn; by rewrite app_nil_r|].
  assert (zlength (p :: peers) = 1 + zlength peers) as Hl by (unfold zlength; simpl; lia).
  pose proof (zlength_nonneg peers). unfold connect_peers. cbn [foldl].
  destruct (connect_to_spec m (inet_ntoa (pex_ip p)) (ntoh16 (pex_port p)) (pex_flags p) now) as (Ht & Hn & Hw); [lia|].
  fold (connect_peers inet_addr (connect_to inet_addr m (inet_ntoa (pex_ip p)) (ntoh16 (pex_port p)) (pex_flags p) now) peers now).
  rewrite IH, Ht, <- app_assoc by lia. f_equal. cbn [fmap list_fmap]. rewrite filter_cons. unfold pex_endpoint at 2.
  rewrite (list_filter_iff (wanted (connect_to _ _ _ _ _ _)) (wanted m)) by done.
  by destruct (decide (wanted m _)).
Qed.

(** The peers of a response, as endpoints. *)
Lemma response_endpoints peers :
  Forall (fun e => is_u16 (tp_port e) /\ inet_ntoa (inet_addr (tp_ip e)) = tp_ip e) peers ->
  pex_endpoint <$> (pex_of inet_addr <$> peers) = endpoint <$> peers.
Proof.
  induction 1 as [|e peers [Hp Hi] _ IH]; [done|]. cbn [fmap list_fmap]. f_equal; [|exact IH].
  unfold pex_endpoint, endpoint. cbn. by rewrite Hi, ntoh16_hton16.
Qed.

(** A response reaches the manager. *)
Lemma response_connects t c i host tport resp peers now :
  at_client t = Some c -> attempts_ c !! i = Some (host, tport) ->
  parse_tracker_response inet_addr resp = Some peers ->
  exists t', client_done inet_addr t i (Response resp) now = Ok t' /\
    at_mgr t' = connect_peers inet_addr (at_mgr t) peers now.
Proof.
  intros Hc Hi Hp. unfold client_done. rewrite Hc. unfold attempt_done. rewrite Hi. cbv zeta. rewrite Hp.
  set (c1 := { c with attempts_ ::= delete i; delivered_ ::= _ }). set (c2 := match peers with [] => _ | _ => _ end).
  assert (delivered_ c2 = delivered_ c ++ [peers]) as Hd.
  { unfold c2, schedule_empty_poll. by destruct peers; [destruct (negb _)|]. }
  eexists. split; [done|]. cbn. by rewrite Hd, drop_app_length.
Qed.

End discovery.

(** While a connection is being made its session has no address: a second
    response starts a second connection to the same peer. *)
Theorem connecting_peer_not_seen inet_addr m ip port flags flags' now now' :
  zlength (sessions_ m) + 1 < MAX_PEERS -> wanted inet_addr m (ip, port) ->
  targets (connect_to inet_addr (connect_to inet_addr m ip port flags now) ip port flags' now') =
  targets m ++ [Some (ip, port); Some (ip, port)].
Proof.
  intros Hroom Hw. destruct (connect_to_spec inet_addr m ip port flags now) as (Ht & Hn & Hsame); [lia|].
  destruct (connect_to_spec inet_addr (connect_to inet_addr m ip port flags now) ip port flags' now') as (Ht' & _); [lia|].
  rewrite Ht', Ht. rewrite !decide_True by (done || by apply Hsame). by rewrite <- app_assoc.
Qed.

(** ** An instance *)
(** A task that was added, and one other peer. *)
Definition demo_inet : string -> Z := fun _ => 33554442.

Definition demo_task : option ActiveTask :=
  '(_, tm, _) ← cmd_add demo_sha demo_sha demo_inet (fun _ => true) demo_fs demo_tm demo_env "old.tseed" "new";
  tasks_ tm !! "t1"%string.

Definition demo_ops (c : TrackerClient) : list tracker_op :=
  [TAnnounce (String.string_of_list_ascii (info_hash_hex_ c)) "10.0.0.2" 6882 100 5].

Lemma demo_task_announces :
  (fun t => (length (sessions_ (at_mgr t)), (fun c => (forallb hex_char (info_hash_hex_ c), length (info_hash_hex_ c),
     client_port_ c, client_speed_ c, length (attempts_ c))) <$> at_client t,
     bool_decide (wanted demo_inet (at_mgr t) ("10.0.0.2"%string, 6882)))) <$> demo_task =
  Some (0%nat, Some (true, 64%nat, 6881, 1000, 1%nat), true).
Proof. vm_compute. reflexivity. Qed.

Lemma demo_swarm c :
  swarm (foldl run_tracker (server_new 8080) (demo_ops c)) (String.string_of_list_ascii (info_hash_hex_ c)) =
  [{| tp_ip := "10.0.0.2"; tp_port := 6882; tp_flags := 0; tp_last_announce := 5 |}].
Proof. unfold swarm. cbn. rewrite lookup_insert_eq. unfold swarm. cbn. by rewrite lookup_empty. Qed.

