(* ===== verification/TaskRun.v ===== *)
(** * What "complete" means

    A download as [add] or [update] leaves it, and then everything that can
    happen to it: messages and timers of the peer sessions, steps of the I/O
    and verify threads, the tick of the task manager, the tracker.  In every
    state that is reached the bytes counted as done are those of the chunks
    that are not active any more, and each of these chunks has, in the file,
    the digest the seed lists; so a task that says "complete" has the file.
    The restrictions on pieces are those the other files show to be needed:
    see [Workers.late_piece_overwrites] and [resumed_chunk_counted_twice]
    below. *)

From Stdlib Require Import Ascii Floats.SpecFloat.
From S2P Require Import Prelude Text Json FileUtil Platform Hash Seed FastCDC Protocol ChunkAssembler SegmentIO Scheduler SchedulerProofs SchedulerSpec PeerSession NetUtil Tracker PeerManager PeerManagerSpec Workers TaskManager TaskStart.
Import OCamlLikeNotations.

(** ** The assemblers count their slots *)
Definition counted (a : ChunkAssembler) : Prop :=
  total_slots_ a = (chunk_size_ a + SUB_BLOCK_SIZE - 1) / SUB_BLOCK_SIZE /\
  pending_count_ a = total_slots_ a - count_true (done_flags (completed_mask_ a) (total_slots_ a)).

Lemma asm_fresh_counted size a c : asm_fresh size a c -> counted a /\ pending_count_ a <> 0.
Proof.
  intros [[_ _ Hl _ _ Hm] (b & ->)]. cbn in Hm. unfold counted. cbn.
  unfold zlength in Hm. rewrite length_replicate in Hm.
  assert (u32 (ce_length c + SUB_BLOCK_SIZE - 1) = ce_length c + SUB_BLOCK_SIZE - 1) as E.
  { destruct (Z.lt_ge_cases (ce_length c + SUB_BLOCK_SIZE - 1) (2 ^ 32)) as [Hs|Hs];
      [apply u32_small; unfold is_u32, SUB_BLOCK_SIZE in *; lia|exfalso].
    assert (u32 (ce_length c + SUB_BLOCK_SIZE - 1) = ce_length c + SUB_BLOCK_SIZE - 1 - 2 ^ 32) as Hw
      by (clear Hm; unfold u32, SUB_BLOCK_SIZE in *; symmetry; apply (Z.mod_unique_pos _ _ 1); lia).
    rewrite Hw, (Z.div_small (_ - 2 ^ 32)) in Hm by (unfold SUB_BLOCK_SIZE in *; lia).
    change (u32 (0 + 31) / 32) with 0 in Hm. change (Z.of_nat (Z.to_nat 0)) with 0 in Hm. lia. }
  rewrite E. set (n := (ce_length c + SUB_BLOCK_SIZE - 1) / SUB_BLOCK_SIZE).
  assert (0 < n) by (subst n; unfold SUB_BLOCK_SIZE; Z.div_mod_to_equations; lia).
  split; [|lia]. split; [done|].
  assert (done_flags (replicate (Z.to_nat (u32 (n + 31) / 32)) 0) n = replicate (Z.to_nat n) false) as ->.
  { unfold done_flags. apply list_eq. intros i. rewrite list_lookup_fmap.
    destruct (decide (i < Z.to_nat n)%nat).
    - rewrite lookup_seqZ_lt, lookup_replicate_2 by lia. cbn. by rewrite slot_done_zeros.
    - rewrite lookup_seqZ_ge by lia. symmetry. apply lookup_replicate_None. lia. }
  rewrite count_true_replicate_false. lia.
Qed.

(** A piece that is accepted marks a slot there is, and reports the chunk when
    it was the last one missing. *)
Lemma on_piece_accepts size a ch mem begin data :
  asm_ok size a ch -> zlength mem = size -> counted a -> 0 <= begin -> data <> [] ->
  begin + zlength data <= ce_length ch ->
  let slot := begin / SUB_BLOCK_SIZE in
  exists a', on_piece a mem begin data =
      Some (a', blit mem (ce_offset ch + begin) data,
            negb (slot_done (completed_mask_ a) slot) && (pending_count_ a =? 1)) /\
    counted a' /\ 0 <= slot < total_slots_ a /\ total_slots_ a' = total_slots_ a /\
    (forall s, slot_done (completed_mask_ a') s = slot_done (completed_mask_ a) s || (s =? slot)) /\
    pending_count_ a' = pending_count_ a - (if slot_done (completed_mask_ a) slot then 0 else 1).
Proof.
  intros [Hsbs Hsz Hlen Hoff (b & Hb & Hpo & Hlim) Hmask] Hmem [Ht Hc] Hb0 Hne Hle slot.
  assert (0 < zlength data) as Hd by (destruct data; [done|unfold zlength; simpl; lia]).
  unfold on_piece. rewrite Hsbs. change (SUB_BLOCK_SIZE =? 0) with false. cbn iota.
  rewrite Hb, Hsz, u32_small by (unfold is_u32; lia). replace (ce_length ch <? _) with false by lia.
  unfold memcpy_ptr. rewrite Hpo. replace (_ <=? p_lim b) with true by lia.
  rewrite memcpy_at_Some by lia. cbn [mbind option_bind]. fold slot.
  assert (0 <= slot < total_slots_ a) as Hslot.
  { rewrite Ht, Hsz. subst slot. unfold SUB_BLOCK_SIZE. Z.div_mod_to_equations. lia. }
  destruct (fetch_or_slot_spec a slot) as (a1 & -> & (Eb & Es & Esb & Et & Em) & Hpend & Hmask').
  { subst slot. split; [apply Z.div_pos; unfold SUB_BLOCK_SIZE; lia|].
    apply Z.div_lt_upper_bound; unfold SUB_BLOCK_SIZE in *; lia. }
  cbn [mbind option_bind].
  pose proof (done_flags_mark _ _ (total_slots_ a) slot Hslot Hmask') as Hcount.
  pose proof (count_true_bounds (done_flags (completed_mask_ a1) (total_slots_ a))) as Hbd.
  rewrite zlength_done_flags in Hbd by lia.
  assert (total_slots_ a < 2 ^ 32) as Hts.
  { rewrite Ht, Hsz. unfold SUB_BLOCK_SIZE. Z.div_mod_to_equations. lia. }
  pose proof (count_true_bounds (done_flags (completed_mask_ a) (total_slots_ a))).
  destruct (slot_done (completed_mask_ a) slot); cbn [negb andb].
  - exists a1. unfold counted. rewrite Et, Es, Hpend. split_and!; try done; lia.
  - unfold fetch_sub_pending. eexists. split; [by rewrite Hpend|]. unfold counted. cbn.
    rewrite Et, Es. rewrite u32_small by (unfold is_u32; lia). split_and!; try done; lia.
Qed.

Lemma on_piece_counted size a ch mem begin data a' mem' r :
  asm_ok size a ch -> zlength mem = size -> counted a -> 0 <= begin -> data <> [] ->
  begin + zlength data < 2 ^ 32 -> on_piece a mem begin data = Some (a', mem', r) ->
  counted a' /\ (pending_count_ a = 0 -> pending_count_ a' = 0 /\ r = false) /\
  (r = true -> pending_count_ a' = 0).
Proof.
  intros Hok Hmem Hc Hb0 Hne Hw Hon.
  destruct (Z.le_gt_cases (begin + zlength data) (ce_length ch)) as [Hle|Hgt].
  - destruct (on_piece_accepts size a ch mem begin data Hok Hmem Hc Hb0 Hne Hle)
      as (a1 & Hon1 & Hc1 & Hslot & Ht & Hm & Hp).
    rewrite Hon in Hon1. injection Hon1 as -> -> ->. split; [done|].
    pose proof (done_flags_mark _ _ (total_slots_ a) _ Hslot Hm) as Hcount.
    pose proof (count_true_bounds (done_flags (completed_mask_ a1) (total_slots_ a))) as Hbd.
    rewrite zlength_done_flags in Hbd by lia. destruct Hc as [_ Hc].
    destruct (slot_done _ _); cbn [negb andb]; split; try done; lia.
  - destruct (on_piece_ok size a ch mem begin data Hok Hmem Hb0 Hne Hw)
      as (a1 & m1 & r1 & Hon1 & _ & _ & _ & Hout & _).
    rewrite Hon in Hon1. injection Hon1 as <- <- <-. destruct (Hout Hgt) as (_ & -> & ->). by split.
Qed.

(** ** What a piece does *)
(** The chunk's assembler has all its sub-blocks. *)
Definition finished (p : Pools) (i : Z) : Prop :=
  pending_count_ <$> zget (pl_assemblers p) i = Some 0.

(** A piece of a finished chunk carries the bytes that are there. *)
Definition late_ok (p : Pools) (t : PieceTask) : Prop :=
  finished p (pt_chunk_idx t) ->
  forall c, zget (pl_chunks p) (pt_chunk_idx t) = Some c ->
    pt_begin t + zlength (pt_data t) <= ce_length c ->
    zslice (pl_mem p) (ce_offset c + pt_begin t) (zlength (pt_data t)) = pt_data t.

Lemma process_piece_detail p t p' :
  process_piece p t = Some p' ->
  exists a a' r q, zget (pl_assemblers p) (pt_chunk_idx t) = Some a /\
    on_piece a (pl_mem p) (pt_begin t) (pt_data t) = Some (a', pl_mem p', r) /\
    pl_assemblers p' = zupd (pl_assemblers p) (pt_chunk_idx t) a' /\
    task_queue_ p' = task_queue_ p ++ q /\
    vt_chunk_idx <$> q = (if r : bool then [pt_chunk_idx t] else []).
Proof.
  unfold process_piece. intros Hp. destruct (zget (pl_assemblers p) (pt_chunk_idx t)) as [a|] eqn:Ea; [|done].
  cbn [mbind option_bind] in Hp. destruct (on_piece _ _ _ _) as [[[a' mem] r]|] eqn:Eo; [|done].
  cbn [mbind option_bind] in Hp. rewrite zset_zupd in Hp by (by eapply zget_range).
  cbn [mbind option_bind] in Hp. cbv zeta in Hp. exists a, a', r. destruct r.
  - unfold verify_enqueue in Hp.
    do 2 (match type of Hp with context [zget ?l ?i] => destruct (zget l i) as [?|]; [|done] end;
      cbn [mbind option_bind] in Hp).
    injection Hp as <-. eexists. by split_and!.
  - injection Hp as <-. exists []. by rewrite app_nil_r.
Qed.

Lemma on_piece_same size a ch mem begin data a' mem' r :
  asm_ok size a ch -> zlength mem = size -> 0 <= begin -> data <> [] -> begin + zlength data < 2 ^ 32 ->
  (begin + zlength data <= ce_length ch ->
   zslice mem (ce_offset ch + begin) (zlength data) = data) ->
  on_piece a mem begin data = Some (a', mem', r) -> mem' = mem.
Proof.
  intros Hok Hm Hb Hne Hw Hsame Hon.
  destruct (on_piece_ok size a ch mem begin data Hok Hm Hb Hne Hw) as (a1 & m1 & r1 & Hon1 & _ & _ & Hin & Hout & _).
  rewrite Hon in Hon1. injection Hon1 as <- <- <-.
  destruct (Z.le_gt_cases (begin + zlength data) (ce_length ch)) as [Hle|Hgt]; [|by apply Hout].
  rewrite Hin by done. rewrite <-(Hsame Hle). destruct Hok as [_ _ ? ? (b & _ & _ & ?) _].
  pose proof (zlength_nonneg data). apply blit_same; lia.
Qed.

Lemma covers_apart cs off size i j c d :
  covers off size cs -> zget cs i = Some c -> zget cs j = Some d -> i <> j ->
  ce_offset c + ce_length c <= ce_offset d \/ ce_offset d + ce_length d <= ce_offset c.
Proof.
  intros Hc [Hi0 Hi]%zget_Some [Hj0 Hj]%zget_Some Hne.
  destruct (decide (Z.to_nat i < Z.to_nat j)%nat).
  - left. by apply (covers_disjoint cs off size (Z.to_nat i) (Z.to_nat j)).
  - right. apply (covers_disjoint cs off size (Z.to_nat j) (Z.to_nat i)); try done. lia.
Qed.

(** ** The pools between two ticks *)
(** The chunks whose verification is under way or whose result is waiting. *)
Definition reported (p : Pools) : list Z :=
  (vt_chunk_idx <$> task_queue_ p) ++ (vr_chunk_idx <$> result_queue_ p).

Section run.
Context (sha256 : bytes -> bytes) (inet_addr : string -> Z).
Context (speed : Z) (sd : TSeedFile) (bf : list bool).
Hypothesis Hseed : seed_consistent sd.

Record pool_inv (act : list Z) (p : Pools) : Prop := {
  pi_ok : pools_ok p;
  pi_queues : io_queues_ p <> [];
  pi_chunks : pl_chunks p = chunks sd;
  pi_counted : Forall counted (pl_assemblers p);
  pi_pieces : Forall (Forall (fun t => flagged bf (pt_chunk_idx t) = false)) (io_queues_ p);
  pi_alive : Forall (fun t => vt_chunk_idx t <> UINT32_MAX) (task_queue_ p);
  pi_nodup : NoDup (reported p);
  pi_reported i : i ∈ reported p -> i ∈ act /\ finished p i;
  pi_inactive i c : zget (chunks sd) i = Some c -> i ∉ act ->
    chunk_good sha256 (pl_mem p) c /\ (flagged bf i = true \/ finished p i);
  pi_passed r c : r ∈ result_queue_ p -> vr_passed r = true ->
    zget (chunks sd) (vr_chunk_idx r) = Some c -> chunk_good sha256 (pl_mem p) c;
}.

(** The pieces the network thread hands over. *)
Definition piece_fits (t : PieceTask) : Prop :=
  task_ok (length (chunks sd)) t /\ flagged bf (pt_chunk_idx t) = false.

(** A piece changes the bytes of its own chunk only, and nothing once the
    chunk is finished. *)
Lemma process_piece_slices p t p' ch i c :
  pools_ok p -> pl_chunks p = chunks sd -> task_ok (length (chunks sd)) t -> late_ok p t ->
  zget (chunks sd) (pt_chunk_idx t) = Some ch -> process_piece p t = Some p' ->
  zget (chunks sd) i = Some c -> i <> pt_chunk_idx t \/ finished p i ->
  zslice (pl_mem p') (ce_offset c) (ce_length c) = zslice (pl_mem p) (ce_offset c) (ce_length c).
Proof using Hseed.
  intros Hp Hcs Ht Hlate Hch Hrun Hc Hi.
  destruct (covers_entry _ _ _ c (sc_covers _ Hseed)) as (Hc0 & _).
  { apply zget_Some in Hc as [_ Hc]. by eapply list_elem_of_lookup_2. }
  destruct (decide (i = pt_chunk_idx t)) as [->|Hne].
  - destruct Hi as [|Hfin]; [done|]. destruct (process_piece_detail _ _ _ Hrun) as (a & a' & r & q & Ha & Hon & _).
    destruct (pools_lookup p (pt_chunk_idx t) Hp) as (a0 & ch0 & Ha0 & Hch0 & Hok).
    { rewrite Hcs. by eapply zget_range. }
    rewrite Ha in Ha0. injection Ha0 as <-. destruct Ht as (_ & Hb & Hne & Hw).
    by rewrite (on_piece_same _ _ _ _ _ _ _ _ _ Hok eq_refl Hb Hne Hw (Hlate Hfin ch0 Hch0) Hon).
  - rewrite <-Hcs in Hch, Ht. destruct (process_piece_ok p t ch Hp Ht Hch) as (p1 & Hp1 & He).
    rewrite Hrun in Hp1. injection Hp1 as <-. apply zslice_ext; [done|]. intros k Hk.
    apply (pe_mem _ _ _ _ He). rewrite Hcs in Hch.
    destruct (covers_apart _ _ _ _ _ _ _ (sc_covers _ Hseed) Hc Hch Hne); lia.
Qed.

Lemma finished_zupd p p' i a a' j :
  zget (pl_assemblers p) i = Some a -> pl_assemblers p' = zupd (pl_assemblers p) i a' ->
  (pending_count_ a = 0 -> pending_count_ a' = 0) -> finished p j -> finished p' j.
Proof.
  unfold finished. intros Ha -> Hz Hj. destruct (decide (i = j)) as [<-|Hne].
  - rewrite zget_zupd_eq by (by eapply zget_range). rewrite Ha in Hj. injection Hj as Hj.
    cbn. f_equal. auto.
  - by rewrite zget_zupd_ne.
Qed.

Lemma process_piece_inv act p t :
  pool_inv act p -> piece_fits t -> late_ok p t ->
  exists p', process_piece p t = Some p' /\ pool_inv act p' /\ io_queues_ p' = io_queues_ p.
Proof using Hseed.
  intros [H1 H2 H3 H4 H5 H6 H7 H8 H9 H10] [Ht Hfl] Hlate. set (i := pt_chunk_idx t) in *.
  destruct (proj2 (zget_is_Some (chunks sd) i)) as [ch Hch]; [destruct Ht as [Ht _]; unfold zlength; lia|].
  pose proof Ht as Ht'. pose proof Hch as Hch'. rewrite <-H3 in Ht', Hch'.
  destruct (process_piece_ok p t ch H1 Ht' Hch') as (p' & Hrun & He). exists p'. split; [done|].
  destruct He as [E1 _ E3 _ E5 E6 E7]. split; [|done].
  destruct (process_piece_detail _ _ _ Hrun) as (a & a' & r & q & Ha & Hon & Has & Hq & Hqi).
  fold i in Ha, Has, Hqi.
  destruct (pools_lookup p i H1) as (a0 & ch0 & Ha0 & Hch0 & Hok); [rewrite H3; by eapply zget_range|].
  rewrite Ha in Ha0. injection Ha0 as <-.
  pose proof Ht as (_ & Hb & Hne & Hw).
  assert (counted a) as Hca by (apply zget_Some in Ha as [_ Ha1]; by apply (Forall_lookup_1 _ _ _ _ H4 Ha1)).
  destruct (on_piece_counted _ _ _ _ _ _ _ _ _ Hok eq_refl Hca Hb Hne Hw Hon) as (Hc' & Hz & Hr).
  assert (forall j, finished p j -> finished p' j) as Hmono
    by (intros j; apply (finished_zupd p p' i a a'); [done|done|]; intros; by apply Hz).
  assert (forall j c, zget (chunks sd) j = Some c -> j <> i \/ finished p j ->
    chunk_good sha256 (pl_mem p) c -> chunk_good sha256 (pl_mem p') c) as Hgood.
  { intros j c Hj Hcase. unfold chunk_good.
    by rewrite (process_piece_slices p t p' ch j c H1 H3 Ht Hlate Hch Hrun Hj Hcase). }
  assert (r = true -> pending_count_ a <> 0) as Hpend by (intros -> Hp0; by destruct (Hz Hp0)).
  assert (finished p i -> pending_count_ a = 0) as Hfa by (unfold finished; rewrite Ha; by intros [= ->]).
  split; rewrite ?E5, ?E6, ?E7; try done.
  - rewrite Has. apply Forall_zupd; done.
  - rewrite Hq. apply Forall_app. split; [done|].
    assert (Forall (fun x => x <> UINT32_MAX) (vt_chunk_idx <$> q)) as Hf; [|by rewrite Forall_fmap in Hf].
    rewrite Hqi. destruct r; constructor; [|constructor].
    pose proof (po_count _ H1) as Hn. rewrite H3 in Hn. apply zget_range in Hch. lia.
  - unfold reported. rewrite Hq, E6, fmap_app, Hqi, <-app_assoc, (Permutation_app_comm (if r then _ else _)), app_assoc.
    apply NoDup_app. split; [exact H7|]. split; [|destruct r; [apply NoDup_singleton|constructor]].
    intros x Hx Hxr. destruct r; [|by apply not_elem_of_nil in Hxr].
    apply list_elem_of_singleton in Hxr as ->. apply Hpend; [done|]. by apply Hfa, H8.
  - intros j Hj. unfold reported in Hj. rewrite Hq, E6, fmap_app, Hqi in Hj.
    destruct (decide (j ∈ reported p)) as [Hin|Hnin]; [destruct (H8 j Hin); auto|].
    assert (r = true /\ j = i) as [-> ->].
    { unfold reported in Hnin. destruct r; set_solver +Hj Hnin. }
    split.
    + destruct (decide (i ∈ act)) as [|Hna]; [done|]. exfalso.
      destruct (H9 i ch Hch Hna) as [_ [Hf|Hf]]; [congruence|]. by apply Hpend, Hfa.
    + unfold finished. rewrite Has, zget_zupd_eq by (by eapply zget_range). cbn. f_equal. by apply Hr.
  - intros j c Hj Hna. destruct (H9 j c Hj Hna) as [Hg Hf]. split; [|destruct Hf; [by left|right; by apply Hmono]].
    apply (Hgood j c Hj); [|done]. destruct (decide (j = i)) as [->|]; [|by left].
    right. destruct Hf as [Hf|]; [congruence|done].
  - intros x c Hx Hp Hc. apply (Hgood _ _ Hc); [|by eapply H10].
    right. apply H8. unfold reported. apply elem_of_app. right. by apply list_elem_of_fmap_2.
Qed.

Lemma pool_pop act p i t q :
  pool_inv act p -> zget (io_queues_ p) i = Some (t :: q) ->
  pool_inv act { p with io_queues_ := zupd (io_queues_ p) i q }.
Proof using.
  intros [H1 H2 H3 H4 H5 H6 H7 H8 H9 H10] E. apply zget_Some in E as [_ Hq].
  pose proof (Forall_lookup_1 _ _ _ _ (po_queues _ H1) Hq) as [Ht Hqt]%Forall_cons.
  pose proof (Forall_lookup_1 _ _ _ _ H5 Hq) as [Hf Hqf]%Forall_cons.
  split; try done; cbn; [|..|by apply Forall_zupd].
  - destruct H1. split; cbn; try done. by apply Forall_zupd.
  - intros Hz. apply H2. apply (f_equal length) in Hz. rewrite length_zupd in Hz. by destruct (io_queues_ p).
Qed.

Lemma io_step_inv act p i :
  pool_inv act p ->
  (forall t q, zget (io_queues_ p) i = Some (t :: q) -> late_ok p t) ->
  exists p', io_worker_step p i = Some p' /\ pool_inv act p'.
Proof using Hseed.
  intros Hp Hlate. unfold io_worker_step.
  destruct (zget (io_queues_ p) i) as [[|t q]|] eqn:E; [by eauto| |by eauto].
  rewrite zset_zupd by (by eapply zget_range). cbn [mbind option_bind].
  pose proof (pool_pop act p i t q Hp E) as Hp1. set (p1 := { p with io_queues_ := _ }) in *.
  apply zget_Some in E as Hq. destruct Hq as [_ Hq]. destruct Hp as [H1 _ H3 _ H5 _ _ _ _ _].
  pose proof (Forall_lookup_1 _ _ _ _ (po_queues _ H1) Hq) as [Ht _]%Forall_cons.
  pose proof (Forall_lookup_1 _ _ _ _ H5 Hq) as [Hf _]%Forall_cons.
  destruct (process_piece_inv act p1 t Hp1) as (p' & Hrun & Hp' & _).
  - split; [by rewrite <-H3|done].
  - by apply (Hlate t q).
  - by eauto.
Qed.

Lemma dispatch_inv act p t :
  pool_inv act p -> piece_fits t -> exists p', io_dispatch p t = Some p' /\ pool_inv act p'.
Proof using.
  intros [H1 H2 H3 H4 H5 H6 H7 H8 H9 H10] [Ht Hf]. rewrite <-H3 in Ht.
  destruct (io_dispatch_ok p t H1 H2 Ht) as (p' & Hd & Hok & Hlen & Hcs). exists p'. split; [done|].
  unfold io_dispatch in Hd. cbv zeta in Hd. destruct (_ =? 0); [done|].
  destruct (zget (io_queues_ p) _) as [q|] eqn:Eq; [|done]. cbn [mbind option_bind] in Hd.
  rewrite zset_zupd in Hd by (by eapply zget_range). cbn [mbind option_bind] in Hd. injection Hd as <-.
  split; try done; cbn.
  - intros Hz. apply H2. apply (f_equal length) in Hz. rewrite length_zupd in Hz. by destruct (io_queues_ p).
  - apply Forall_zupd; [done|]. apply Forall_app. split; [|by constructor].
    apply zget_Some in Eq as [_ Eq]. by apply (Forall_lookup_1 _ _ _ _ H5 Eq).
Qed.

Lemma verify_step_inv act p :
  pool_inv act p -> exists p', verify_step sha256 p = Some p' /\ pool_inv act p'.
Proof using.
  intros [H1 H2 H3 H4 H5 H6 H7 H8 H9 H10].
  destruct (verify_step_ok sha256 p H1) as (p' & Hv & Hok & Hlen & Hcs & Hres). exists p'. split; [done|].
  unfold verify_step in Hv. destruct (task_queue_ p) as [|t q] eqn:Eq.
  { injection Hv as <-. by split; rewrite ?Eq. }
  apply Forall_cons in H6 as [Ht Hq]. cbv zeta in Hv. rewrite (proj2 (Z.eqb_neq _ _) Ht) in Hv.
  destruct (task_bytes _ t) as [data|]; [|done]. cbn [mbind option_bind] in Hv. injection Hv as <-.
  assert (forall i, i ∈ (vt_chunk_idx <$> q) ++ (vr_chunk_idx <$> result_queue_ p) ++ [vt_chunk_idx t] <->
    i ∈ reported p) as Hsame.
  { intros i. unfold reported. rewrite Eq. cbn. rewrite elem_of_cons, !elem_of_app, list_elem_of_singleton. tauto. }
  split; try done; cbn.
  - unfold reported in H7 |- *. rewrite Eq in H7. cbn in H7 |- *. rewrite fmap_app. cbn.
    rewrite app_assoc, (Permutation_app_comm _ [vt_chunk_idx t]). done.
  - intros i Hi. apply H8, Hsame. unfold reported in Hi. cbn in Hi. by rewrite fmap_app in Hi.
  - intros r c Hr Hp Hc. cbn in Hres. destruct (Hres r Hr) as [Hold|(ch & Hch & Hiff)]; [by eapply H10|].
    rewrite H3, Hc in Hch. injection Hch as <-. by apply Hiff.
Qed.

(** ** Bytes done *)
(** The chunks that are not active. *)
Definition inactive (act : list Z) : list bool :=
  (fun i => negb (bool_decide (i ∈ act))) <$> seqZ 0 (zlength (chunks sd)).

Definition done_bytes (act : list Z) : Z := flagged_bytes (chunks sd) (inactive act).

Definition length_of (i : Z) : Z := default 0 (ce_length <$> zget (chunks sd) i).

Definition sum_lengths (ks : list Z) : Z := foldr (fun i n => length_of i + n) 0 ks.

Lemma zget_inactive act i :
  0 <= i < zlength (chunks sd) -> zget (inactive act) i = Some (negb (bool_decide (i ∈ act))).
Proof using.
  intros Hi. unfold inactive. rewrite zget_fmap.
  replace (zget (seqZ 0 _) i) with (Some i); [done|]. symmetry. apply zget_Some. split; [lia|].
  rewrite lookup_seqZ_lt by lia. f_equal. lia.
Qed.

Lemma flagged_bytes_set cs : forall l i c,
  zget cs i = Some c -> zget l i = Some false ->
  flagged_bytes cs (zupd l i true) = flagged_bytes cs l + ce_length c.
Proof using.
  intros l i c Hc Hl. unfold zupd. rewrite (proj2 (in_range_iff l i)) by (by eapply zget_range).
  apply zget_Some in Hc as [_ Hc], Hl as [_ Hl]. revert cs l Hc Hl. generalize (Z.to_nat i) as k.
  induction k as [|k IH]; intros [|x cs] [|b l] Hc Hl; try done.
  - injection Hc as ->. injection Hl as ->. cbn. lia.
  - change (<[S k := true]> (b :: l)) with (b :: <[k := true]> l). cbn [flagged_bytes].
    rewrite (IH cs l Hc Hl). lia.
Qed.

Lemma done_bytes_one act act' i :
  i ∈ act -> 0 <= i < zlength (chunks sd) -> (forall j, j ∈ act' <-> j ∈ act /\ j <> i) ->
  done_bytes act' = done_bytes act + length_of i.
Proof using.
  intros Hi Hr Hact. destruct (proj2 (zget_is_Some (chunks sd) i) Hr) as [c Hc].
  assert (inactive act' = zupd (inactive act) i true) as He.
  { assert (length (inactive act) = length (chunks sd)) as Hl
      by (unfold inactive, zlength; rewrite length_fmap, length_seqZ; lia).
    apply list_eq. intros k. rewrite <-!zget_of_nat, zget_zupd.
    rewrite (proj2 (in_range_iff _ _)) by (unfold zlength in *; lia). rewrite andb_true_r.
    destruct (Z.ltb_spec (Z.of_nat k) (zlength (chunks sd))) as [Hk|Hk].
    - rewrite !zget_inactive by lia. destruct (Z.eqb_spec i (Z.of_nat k)) as [<-|Hne].
      + rewrite bool_decide_eq_false_2; [done|]. rewrite Hact. tauto.
      + do 2 f_equal. apply bool_decide_ext. rewrite Hact. naive_solver.
    - replace (i =? _) with false by lia. rewrite !zget_of_nat, !lookup_ge_None_2; [done|..];
        unfold inactive; rewrite length_fmap, length_seqZ; lia. }
  unfold done_bytes, length_of. rewrite He, Hc.
  apply flagged_bytes_set; [done|]. rewrite zget_inactive by done. by rewrite bool_decide_eq_true_2.
Qed.

Lemma done_bytes_remove ks : forall act act',
  NoDup ks -> Forall (fun i => i ∈ act /\ 0 <= i < zlength (chunks sd)) ks ->
  (forall j, j ∈ act' <-> j ∈ act /\ j ∉ ks) ->
  done_bytes act' = done_bytes act + sum_lengths ks.
Proof using.
  induction ks as [|i ks IH]; intros act act' Hnd Hin Hact; cbn [sum_lengths foldr].
  - rewrite Z.add_0_r. unfold done_bytes, inactive. f_equal. apply list_fmap_ext. intros j x _.
    f_equal. apply bool_decide_ext. rewrite Hact.
    pose proof (not_elem_of_nil x). tauto.
  - apply NoDup_cons in Hnd as [Hi Hnd]. apply Forall_cons in Hin as [[Hia Hir] Hin].
    set (act1 := filter (fun j => j <> i) act).
    assert (forall j, j ∈ act1 <-> j ∈ act /\ j <> i) as H1
      by (intros j; unfold act1; rewrite list_elem_of_filter; tauto).
    rewrite (IH act1 act' Hnd).
    + rewrite (done_bytes_one act act1 i Hia Hir H1). fold (sum_lengths ks). lia.
    + apply Forall_forall. intros j Hj. rewrite Forall_forall in Hin. destruct (Hin j Hj).
      rewrite H1. split; [|done]. split; [done|]. by intros ->.
    + intros j. rewrite Hact, H1, not_elem_of_cons. tauto.
Qed.

Lemma flagged_bytes_le cs : forall l off size, covers off size cs -> flagged_bytes cs l <= size - off.
Proof using.
  induction cs as [|c cs IH]; intros [|b l] off size; cbn; [lia|lia| |].
  - intros (_ & ? & Ht). specialize (IH [] _ _ Ht). destruct cs; cbn in IH; lia.
  - intros (_ & ? & Ht). specialize (IH l _ _ Ht). destruct b; lia.
Qed.

(** If all bytes are done no chunk is active. *)
Lemma flagged_bytes_full cs : forall l off size i c,
  covers off size cs -> size - off <= flagged_bytes cs l -> zget cs i = Some c -> zget l i = Some true.
Proof using.
  intros l off size i c Hcov Hs [Hi0 Hi]%zget_Some. apply zget_Some. split; [done|].
  revert cs l off size Hcov Hs Hi. generalize (Z.to_nat i) as k.
  induction k as [|k IH]; intros [|x cs] l off size Hcov Hs Hi; try done; destruct Hcov as (Ho & Hl & Ht);
    (destruct l as [|b l]; [cbn in Hs; pose proof (flagged_bytes_le cs [] _ _ Ht); destruct cs; cbn in *; lia|]);
    cbn in *; pose proof (flagged_bytes_le cs l _ _ Ht) as Hb.
  - destruct b; [done|lia].
  - apply (IH cs l _ _ Ht); [destruct b; lia|done].
Qed.

Lemma done_bytes_full act i c :
  file_size (header sd) <= done_bytes act -> zget (chunks sd) i = Some c -> i ∉ act.
Proof using Hseed.
  intros Hd Hc. pose proof (flagged_bytes_full (chunks sd) (inactive act) 0 _ i c (sc_covers _ Hseed)) as Hf.
  specialize (Hf ltac:(unfold done_bytes in Hd; lia) Hc).
  rewrite zget_inactive in Hf by (by eapply zget_range). injection Hf as Hf.
  apply negb_true_iff, bool_decide_eq_false in Hf. done.
Qed.

Lemma done_bytes_none act :
  (forall i, 0 <= i < zlength (chunks sd) -> i ∉ act) -> done_bytes act = file_size (header sd).
Proof using Hseed.
  intros Hact. unfold done_bytes. replace (inactive act) with (replicate (length (chunks sd)) true).
  { rewrite (flagged_bytes_all _ _ _ (sc_covers _ Hseed)). lia. }
  symmetry. apply list_eq. intros k. rewrite <-!zget_of_nat.
  destruct (Z.ltb_spec (Z.of_nat k) (zlength (chunks sd))) as [Hk|Hk].
  - rewrite zget_inactive by lia. rewrite zget_of_nat, lookup_replicate_2 by (unfold zlength in Hk; lia).
    rewrite bool_decide_eq_false_2; [done|]. apply Hact. lia.
  - rewrite !zget_of_nat, !lookup_ge_None_2; [done| |]; unfold inactive, zlength in *;
      rewrite ?length_replicate, ?length_fmap, ?length_seqZ; lia.
Qed.

(** ** The tick *)
Hypothesis Hentries : Forall entry_ok (chunks sd).

Abbreviation sizes := (ce_length <$> chunks sd).

Lemma sizes_ok : zlength sizes < 2 ^ 32 /\ Forall is_u32 sizes.
Proof using Hseed Hentries.
  pose proof (sc_count _ Hseed). split; [unfold zlength in *; rewrite length_fmap; lia|].
  apply Forall_fmap. eapply Forall_impl; [exact Hentries|]. by intros c (_ & ? & _).
Qed.

(** What the main thread tells the scheduler. *)
Lemma run_sched_event act m o f now :
  mgr_ok speed sizes act m -> mgr_fits m o now ->
  (forall m, run_mgr inet_addr m o now = (m ← run_sched m f now; Some (m, []))) ->
  exists m' act', run_sched m f now = Some m' /\ mgr_ok speed sizes act' m' /\ op_active o act act'.
Proof using Hseed Hentries.
  intros Hm Hf Hrun. destruct sizes_ok as [Hn Hz].
  destruct (run_mgr_ok inet_addr speed sizes act m o now Hn Hz Hm Hf) as (m' & out & act' & Hr & Hok & Ha).
  rewrite Hrun in Hr. destruct (run_sched m f now) as [m1|]; [|done]. cbn in Hr. injection Hr as <- <-.
  by eauto.
Qed.

Definition passed_results (rs : list VerifyResult) : list Z :=
  vr_chunk_idx <$> filter (fun r => vr_passed r = true) rs.

Lemma passed_results_cons r rs :
  passed_results (r :: rs) = (if vr_passed r then [vr_chunk_idx r] else []) ++ passed_results rs.
Proof using.
  unfold passed_results. destruct (vr_passed r) eqn:E.
  - by rewrite filter_cons_True.
  - by rewrite filter_cons_False by congruence.
Qed.

Lemma length_of_nonneg i : 0 <= length_of i.
Proof using Hentries.
  unfold length_of. destruct (zget (chunks sd) i) as [c|] eqn:E; cbn; [|lia]. apply zget_Some in E as [_ E].
  pose proof (Forall_lookup_1 _ _ _ _ Hentries E) as (_ & ? & _). unfold is_u32 in *. lia.
Qed.

Lemma sum_lengths_nonneg ks : 0 <= sum_lengths ks.
Proof using Hentries.
  unfold sum_lengths. induction ks as [|i ks IH]; cbn; [lia|]. pose proof (length_of_nonneg i). lia.
Qed.

Lemma take_results_ok act now rs : forall m done passed,
  mgr_ok speed sizes act m -> Forall (fun r => vr_chunk_idx r ∈ act) rs ->
  0 <= done -> done + sum_lengths (passed_results rs) < 2 ^ 64 ->
  exists m' ms, take_results (chunks sd) m done passed rs now =
      Some (m', done + sum_lengths (passed_results rs), passed ++ ms) /\
    mgr_ok speed sizes act m' /\ msg_chunk_idx <$> ms = passed_results rs.
Proof using Hseed Hentries inet_addr.
  induction rs as [|r rs IH]; intros m done passed Hm Hin H0 Hlt; cbn [take_results].
  { exists m, []. cbn. by rewrite Z.add_0_r, app_nil_r. }
  apply Forall_cons in Hin as [Hr Hin]. rewrite passed_results_cons in *.
  pose proof (sum_lengths_nonneg (passed_results rs)) as Hnn. destruct (vr_passed r).
  - cbn [app sum_lengths foldr] in *. fold (sum_lengths (passed_results rs)) in *. cbv zeta.
    assert (match zget (chunks sd) (vr_chunk_idx r) with Some c => u64 (done + ce_length c) | None => done end =
      done + length_of (vr_chunk_idx r) /\ 0 <= length_of (vr_chunk_idx r)) as [-> Hl].
    { revert Hlt. unfold length_of. destruct (zget (chunks sd) (vr_chunk_idx r)) as [c|] eqn:E;
        cbn; intros Hlt; [|lia]. apply zget_Some in E as [_ E]. pose proof (Forall_lookup_1 _ _ _ _ Hentries E) as (_ & Hc & _).
      unfold is_u32 in Hc. rewrite u64_small by (unfold is_u64; lia). lia. }
    set (msg := {| msg_chunk_idx := _; winning_peer_slot := _ |}).
    destruct (IH m (done + length_of (vr_chunk_idx r)) (passed ++ [msg]) Hm Hin) as (m' & ms & -> & Hm' & Hms);
      [lia|lia|]. exists m', (msg :: ms). rewrite <-app_assoc. cbn. rewrite Hms.
    split_and!; [do 3 f_equal; lia|done|done].
  - cbn [app] in *.
    destruct (run_sched_event act m (MVerifyFailed (vr_chunk_idx r))
      (fun sc => on_verify_failed sc (vr_chunk_idx r)) now Hm) as (m1 & act1 & -> & Hm1 & ->).
    + cbn. by rewrite (mo_active _ _ _ _ Hm).
    + done.
    + cbn [mbind option_bind]. by apply IH.
Qed.

(** ** A task *)
Abbreviation active t := (active_chunks_ (sched_ (at_mgr t))).

Record task_inv (t : ActiveTask) : Prop := {
  ti_seed : at_seed t = sd;
  ti_pools : pool_inv (active t) (at_pools t);
  ti_mgr : mgr_ok speed sizes (active t) (at_mgr t);
  ti_bytes : bytes_done t = done_bytes (active t);
  ti_complete : at_state t = "complete"%string -> forall i c, zget (chunks sd) i = Some c -> i ∉ active t;
}.

(** The results have been handed to the scheduler. *)
Lemma drain_inv act act' p :
  pool_inv act p -> (forall i, i ∈ act' <-> i ∈ act /\ i ∉ passed_results (result_queue_ p)) ->
  pool_inv act' (drain_results p).1.
Proof using.
  intros [H1 H2 H3 H4 H5 H6 H7 H8 H9 H10] Hact. unfold reported in *.
  apply NoDup_app in H7 as (Hn1 & Hdis & _).
  assert (forall i, i ∈ passed_results (result_queue_ p) -> exists r, r ∈ result_queue_ p /\
    vr_passed r = true /\ vr_chunk_idx r = i) as Hpass.
  { intros i (r & -> & Hr)%list_elem_of_fmap. apply list_elem_of_filter in Hr as [? ?]. by eauto. }
  split; try done; unfold reported; cbn; rewrite ?app_nil_r; try done.
  - by destruct H1.
  - intros i Hi. destruct (H8 i) as [Ha Hf]; [apply elem_of_app; by left|]. split; [|done].
    apply Hact. split; [done|]. intros (r & Hr & _ & <-)%Hpass.
    apply (Hdis (vr_chunk_idx r) Hi). by apply list_elem_of_fmap_2.
  - intros i c Hc Hna. destruct (decide (i ∈ act)) as [Ha|Ha]; [|by apply H9].
    destruct (decide (i ∈ passed_results (result_queue_ p))) as [Hp|Hp]; [|by destruct Hna; apply Hact].
    destruct (Hpass i Hp) as (r & Hr & Hpr & <-). split; [by eapply H10|]. right.
    apply H8, elem_of_app. right. by apply list_elem_of_fmap_2.
  - by intros r c ?%not_elem_of_nil.
Qed.

Lemma reported_range act p i : pool_inv act p -> i ∈ reported p -> 0 <= i < zlength (chunks sd).
Proof using.
  intros [H1 _ H3 _ _ _ _ H8 _ _] Hi. destruct (H8 i Hi) as [_ Hf]. unfold finished in Hf.
  destruct (zget (pl_assemblers p) i) as [a|] eqn:E; [|done]. apply zget_range in E.
  pose proof (Forall2_length _ _ _ (po_asms _ H1)) as Hl. rewrite H3 in Hl. unfold zlength in *. lia.
Qed.

Lemma done_bytes_bounds act : 0 <= done_bytes act <= 2 ^ 57.
Proof using Hseed.
  unfold done_bytes. split; [apply flagged_bytes_nonneg; by eapply covers_positive, Hseed|].
  pose proof (flagged_bytes_le _ (inactive act) _ _ (sc_covers _ Hseed)). pose proof (sc_size _ Hseed). lia.
Qed.

(** What follows the results changes the state of the task only. *)
Lemma check_complete_fields t now iso :
  let t' := check_complete t now iso in
  at_seed t' = at_seed t /\ at_pools t' = at_pools t /\ at_mgr t' = at_mgr t /\
  bytes_done t' = bytes_done t /\
  (at_state t' = "complete"%string ->
   at_state t = "complete"%string \/ file_size (header (at_seed t)) <= bytes_done t) /\
  (at_state t = "downloading"%string -> file_size (header (at_seed t)) <= bytes_done t ->
   at_state t' = "complete"%string).
Proof using.
  unfold check_complete. destruct ((_ <=? _) && _) eqn:E.
  - apply andb_true_iff in E as [E _]. cbv zeta.
    destruct (dpos _); cbn; split_and!; try done; intros _; right; lia.
  - split_and!; try done; [by left|]. intros Hd Hle. rewrite bool_decide_eq_true_2 in E by done. lia.
Qed.

(** The scheduler learns of the chunks that passed. *)
Lemma complete_passed act m ms now :
  mgr_ok speed sizes act m -> NoDup (msg_chunk_idx <$> ms) -> Forall (fun i => i ∈ act) (msg_chunk_idx <$> ms) ->
  exists m' act', match ms with [] => Some m | _ => run_sched m (fun sc => process_completions sc ms) now end =
      Some m' /\ mgr_ok speed sizes act' m' /\
    forall i, i ∈ act' <-> i ∈ act /\ i ∉ msg_chunk_idx <$> ms.
Proof using Hseed Hentries inet_addr.
  intros Hm Hnd Hin. destruct ms as [|x ms].
  { exists m, act. split; [done|]. split; [done|]. intros i. pose proof (not_elem_of_nil i). cbn. tauto. }
  destruct (run_sched_event act m (MVerified (x :: ms)) (fun sc => process_completions sc (x :: ms)) now Hm)
    as (m' & act' & Hr & Hm' & Ha); [|done|by eauto].
  split; [done|]. rewrite (mo_active _ _ _ _ Hm). by rewrite Forall_fmap in Hin.
Qed.

Lemma tick_inv t now iso :
  task_inv t -> exists t', tick_work t now iso = Some t' /\ task_inv t' /\
    (forall i, i ∈ active t' <-> i ∈ active t /\ i ∉ passed_results (result_queue_ (at_pools t))) /\
    (at_state t = "downloading"%string -> file_size (header sd) <= bytes_done t' ->
     at_state t' = "complete"%string).
Proof using Hseed Hentries inet_addr.
  intros [H1 H2 H3 H4 H5]. unfold tick_work.
  destruct (run_sched_event _ _ MSchedTick (fun sc => sched_tick sc (now_ms now)) now H3 I)
    as (m1 & act1 & -> & Hm1 & ->); [done|]. cbn [mbind option_bind]. unfold drain_results.
  set (rs := result_queue_ (at_pools t)). set (ks := passed_results rs).
  assert (forall i, i ∈ ks -> i ∈ reported (at_pools t)) as Hsub.
  { intros i (r & -> & Hr)%list_elem_of_fmap. apply list_elem_of_filter in Hr as [_ Hr].
    apply elem_of_app. right. by apply list_elem_of_fmap_2. }
  assert (NoDup ks) as Hnd.
  { eapply sublist_NoDup; [|apply fmap_sublist, sublist_filter].
    pose proof (pi_nodup _ _ H2) as Hn. by apply NoDup_app in Hn as (_ & _ & ?). }
  assert (Forall (fun i => i ∈ active t) ks) as Hin
    by (apply Forall_forall; intros i Hi; by apply (pi_reported _ _ H2), Hsub).
  assert (forall act', (forall i, i ∈ act' <-> i ∈ active t /\ i ∉ ks) ->
    done_bytes act' = bytes_done t + sum_lengths ks) as Hsum.
  { intros act' Ha. rewrite H4. apply done_bytes_remove; [done| |done]. rewrite Forall_forall in *.
    intros i Hi. split; [by apply Hin|]. by eapply reported_range; [|apply Hsub]. }
  destruct (take_results_ok (active t) now rs m1 (bytes_done t) [] Hm1) as (m2 & ms & Htake & Hm2 & Hms).
  { apply Forall_forall. intros r Hr. apply (pi_reported _ _ H2), elem_of_app. right. by apply list_elem_of_fmap_2. }
  { rewrite H4. apply done_bytes_bounds. }
  { fold ks. rewrite <-(Hsum (filter (fun i => i ∉ ks) (active t))).
    - pose proof (done_bytes_bounds (filter (fun i => i ∉ ks) (active t))). lia.
    - intros i. rewrite list_elem_of_filter. tauto. }
  fold ks in Htake, Hms.
  rewrite H1, Htake. cbn [mbind option_bind app].
  destruct (complete_passed _ m2 ms now Hm2) as (m3 & act3 & Hrun & Hm3 & Ha3); [by rewrite Hms..|].
  rewrite Hrun. cbn [mbind option_bind]. rewrite Hms in Ha3. eexists. split; [done|].
  set (t1 := { t with at_mgr := _; at_pools := _; bytes_done := _ }).
  destruct (check_complete_fields t1 now iso) as (F1 & F2 & F3 & F4 & F5 & F6).
  set (t2 := check_complete t1 now iso) in *.
  assert (task_inv t2) as Hi.
  { split; rewrite ?F1, ?F2, ?F3, ?F4; cbn; rewrite ?(mo_active _ _ _ _ Hm3); try done.
    - apply (drain_inv (active t)); [done|]. exact Ha3.
    - by rewrite (Hsum act3 Ha3).
    - intros [Hc|Hc]%F5; intros i c Hi; cbn in Hc.
      + intros Hx. apply Ha3 in Hx as [Hx _]. by apply (H5 Hc i c Hi).
      + rewrite H1, <-(Hsum act3 Ha3) in Hc. by eapply done_bytes_full. }
  assert (forall i, i ∈ active t2 <-> i ∈ active t /\ i ∉ ks) as Ha
    by (rewrite F3; cbn; by rewrite (mo_active _ _ _ _ Hm3)).
  assert (at_state t = "downloading"%string -> file_size (header sd) <= bytes_done t2 ->
    at_state t2 = "complete"%string) as Hst.
  { intros Hd. rewrite F4. intros Hle. apply F6; [done|]. cbn. by rewrite H1. }
  destruct (tracker_dead t2 && bool_decide (at_state t2 = "downloading"%string)) eqn:Ed; [|done].
  apply andb_true_iff in Ed as [_ Ed%bool_decide_eq_true]. split; [by destruct Hi|]. split; [done|].
  cbn. intros Hd Hle. specialize (Hst Hd Hle). by rewrite Ed in Hst.
Qed.

(** *** A fresh task *)
Lemma started_inv mem t :
  started sha256 sd bf mem t -> mgr_ok speed sizes (active t) (at_mgr t) -> task_inv t.
Proof using Hseed.
  intros [S1 S2 S3 S4 _ S6 S7 [S8 S9] S10 _] Hm.
  pose proof (sc_count _ Hseed) as Hcount.
  assert (zlength (chunks sd) < UINT32_MAX) as Hu by (unfold UINT32_MAX; lia).
  destruct (pools_fresh_ok _ _ _ Hu S3) as [Hok Hne].
  destruct S3 as [P1 P2 P3 (n & P4) P5 P6]. split; try done.
  - split; unfold reported; rewrite ?P1, ?P4, ?P5, ?P6; try done.
    + apply Forall_forall. intros a (i & Ha)%list_elem_of_lookup_1.
      destruct (Forall2_lookup_l _ _ _ _ _ P3 Ha) as (c & _ & Hf). by apply asm_fresh_counted in Hf as [? _].
    + apply Forall_replicate. constructor.
    + constructor.
    + by intros i ?%not_elem_of_nil.
    + intros i c Hc Hna. assert (flagged bf i = true) as Hf.
      { destruct (flagged bf i) eqn:E; [done|]. destruct Hna. apply S6. split; [by eapply zget_range|done]. }
      split; [|by left]. rewrite P2. by eapply S10.
    + by intros r c ?%not_elem_of_nil.
  - rewrite S7. unfold done_bytes. f_equal. apply list_eq. intros k. rewrite <-!zget_of_nat.
    destruct (Z.ltb_spec (Z.of_nat k) (zlength (chunks sd))) as [Hk|Hk].
    + rewrite zget_inactive by lia. destruct (proj2 (zget_is_Some bf (Z.of_nat k))) as [b Hb];
        [unfold zlength in *; lia|]. rewrite Hb. f_equal.
      assert (flagged bf (Z.of_nat k) = b) as Hf by (unfold flagged; by rewrite Hb).
      destruct b; [rewrite bool_decide_eq_false_2|rewrite bool_decide_eq_true_2]; try done; rewrite S6;
        rewrite Hf; [by intros [_ ?]|by split; [lia|]].
    + rewrite !zget_of_nat, !lookup_ge_None_2; [done| |unfold zlength in *; lia].
      unfold inactive. rewrite length_fmap, length_seqZ. unfold zlength in *. lia.
  - intros Hc. rewrite S2 in Hc. done.
Qed.

(** *** Everything that happens to a task *)
Inductive task_op :=
| TNet (o : mgr_op)
| TIo (i : Z)
| TVerify
| TTick (iso : string)
| TTracker (c : option TrackerClient) (dead : bool).

(** The pieces among the events of a session, handed to the I/O threads. *)
Definition handed (out : list session_event) : list PieceTask :=
  out ≫= fun e => match e with EvDispatch t => [t] | _ => [] end.

Fixpoint dispatch_all (p : Pools) (ts : list PieceTask) : option Pools :=
  match ts with
  | [] => Some p
  | t :: ts => p ← io_dispatch p t; dispatch_all p ts
  end.

Definition run_task (t : ActiveTask) (o : task_op) (now : Z) : option ActiveTask :=
  match o with
  | TNet o =>
    '(m, out) ← run_mgr inet_addr (at_mgr t) o now;
    p ← dispatch_all (at_pools t) (handed out);
    Some { t with at_mgr := m; at_pools := p }
  | TIo i => p ← io_worker_step (at_pools t) i; Some { t with at_pools := p }
  | TVerify => p ← verify_step sha256 (at_pools t); Some { t with at_pools := p }
  | TTick iso => tick_work t now iso
  | TTracker c dead => Some { t with at_client := c; tracker_dead := dead }
  end.

(** What the sessions are given fits [PeerManagerSpec]; the pieces are of
    chunks that were not on disk, not empty, and do not wrap around; and a
    piece of a finished chunk repeats what is there. *)
Definition task_fits (t : ActiveTask) (o : task_op) (now : Z) : Prop :=
  match o with
  | TNet o => verifies o = false /\ mgr_fits (at_mgr t) o now /\
    forall m out, run_mgr inet_addr (at_mgr t) o now = Some (m, out) -> Forall piece_fits (handed out)
  | TIo i => forall x q, zget (io_queues_ (at_pools t)) i = Some (x :: q) -> late_ok (at_pools t) x
  | _ => True
  end.

Inductive task_reach (t0 : ActiveTask) : ActiveTask -> Prop :=
| task_here : task_reach t0 t0
| task_next t o now t' :
    task_reach t0 t -> task_fits t o now -> run_task t o now = Some t' -> task_reach t0 t'.

Lemma dispatch_all_inv act ts : forall p,
  pool_inv act p -> Forall piece_fits ts -> exists p', dispatch_all p ts = Some p' /\ pool_inv act p'.
Proof using.
  induction ts as [|t ts IH]; intros p Hp Hts; cbn [dispatch_all]; [by eauto|].
  apply Forall_cons in Hts as [Ht Hts]. destruct (dispatch_inv act p t Hp Ht) as (p1 & -> & Hp1). by apply IH.
Qed.

Lemma run_task_inv t o now :
  task_inv t -> task_fits t o now -> exists t', run_task t o now = Some t' /\ task_inv t'.
Proof using Hseed Hentries.
  intros Ht Hf. pose proof Ht as [H1 H2 H3 H4 H5]. destruct o as [o|i| |iso|c dead]; cbn [run_task task_fits] in *.
  - destruct Hf as (Hv & Hf & Hp). destruct sizes_ok as [Hn Hz].
    destruct (run_mgr_session_ok inet_addr speed sizes _ _ o now Hn Hz H3 Hf Hv) as (m & out & Hr & Hm).
    rewrite Hr. cbn [mbind option_bind].
    destruct (dispatch_all_inv _ _ _ H2 (Hp m out Hr)) as (p & -> & Hp').
    eexists. split; [done|]. split; cbn; rewrite ?(mo_active _ _ _ _ Hm); done.
  - destruct (io_step_inv _ _ i H2 Hf) as (p & -> & Hp). eexists. split; [done|]. by split.
  - destruct (verify_step_inv _ _ H2) as (p & -> & Hp). eexists. split; [done|]. by split.
  - destruct (tick_inv t now iso Ht) as (t' & ? & ? & _). by eauto.
  - eexists. split; [done|]. by split.
Qed.

(** What "complete" means. *)
Lemma inv_complete t :
  task_inv t -> at_state t = "complete"%string -> Forall (chunk_good sha256 (pl_mem (at_pools t))) (chunks sd).
Proof using.
  intros Ht Hc. apply Forall_forall. intros c (i & Hi)%list_elem_of_lookup_1.
  assert (zget (chunks sd) (Z.of_nat i) = Some c) as Hz by (by rewrite zget_of_nat).
  apply (pi_inactive _ _ (ti_pools _ Ht) (Z.of_nat i) c Hz). by apply (ti_complete _ Ht Hc _ _ Hz).
Qed.

Lemma task_reach_inv t0 t : task_inv t0 -> task_reach t0 t -> task_inv t.
Proof using Hseed Hentries.
  intros H0. induction 1 as [|t o now t' _ IH Hf Hr]; [done|].
  destruct (run_task_inv t o now IH Hf) as (t1 & Hr1 & Ht1). congruence.
Qed.
End run.


(** Once every chunk that is not on disk has been verified, the next tick
    of the task manager finishes the download: a task in state "downloading"
    all of whose chunks are either inactive or have a positive result waiting
    becomes "complete". *)
Theorem verified_download_completes sha256 inet_addr sd bf mem t0 t now iso :
  seed_consistent sd -> Forall entry_ok (chunks sd) -> started sha256 sd bf mem t0 ->
  task_reach sha256 inet_addr sd bf t0 t -> at_state t = "downloading"%string ->
  (forall i, 0 <= i < zlength (chunks sd) -> i ∈ active_chunks_ (sched_ (at_mgr t)) ->
     exists r, r ∈ result_queue_ (at_pools t) /\ vr_chunk_idx r = i /\ vr_passed r = true) ->
  exists t', tick_work t now iso = Some t' /\ at_state t' = "complete"%string /\
    bytes_done t' = file_size (header sd).
Proof.
  intros Hs He Hst Hreach Hd Hall. pose proof (st_mgr _ _ _ _ _ Hst) as [speed Hm].
  pose proof (started_inv sha256 speed sd bf Hs mem t0 Hst Hm) as H0.
  pose proof (task_reach_inv sha256 inet_addr speed sd bf Hs He t0 t H0 Hreach) as Ht.
  destruct (tick_inv sha256 inet_addr speed sd bf Hs He t now iso Ht) as (t' & Hr & Ht' & Ha & Hc).
  exists t'. split; [done|].
  assert (bytes_done t' = file_size (header sd)) as Hb.
  { rewrite (ti_bytes _ _ _ _ _ Ht'). apply (done_bytes_none sd Hs). intros i Hi [Hx Hn]%Ha. apply Hn.
    destruct (Hall i Hi Hx) as (r & Hin & <- & Hp). by apply list_elem_of_fmap_2, list_elem_of_filter. }
  split; [|done]. apply Hc; [done|lia].
Qed.

(** ** Instances *)
(** The seed of the two-byte file "ab". *)
Definition demo_old_seed : TSeedFile := {|
  header := {| magic := MAGIC; version := 1; flags := 0; chunk_count := 2; file_size := 2;
               min_chunk_size := 1; avg_chunk_size := 1; max_chunk_size := 1; file_name_len := 1;
               announce_len := 0; reserved := replicate 20 Byte.x00;
               file_sha256 := demo_sha [Byte.x61; Byte.x62] |};
  file_name := [Byte.x66]; announce_url := [];
  chunks := [demo_chunk 0 Byte.x61; demo_chunk 1 Byte.x62];
  info_hash := demo_sha (info_hash_input (demo_sha [Byte.x61; Byte.x62])
                 [demo_chunk 0 Byte.x61; demo_chunk 1 Byte.x62]);
|}.

Lemma demo_old_seed_read : read_tseed demo_sha demo_sha (demo_fs !! "old.tseed"%string) = Ok demo_old_seed.
Proof. vm_compute. reflexivity. Qed.

Lemma demo_old_seed_consistent : seed_consistent demo_old_seed.
Proof. split; [by split_and!|done|done]. Qed.

Lemma demo_old_seed_entries : Forall entry_ok (chunks demo_old_seed).
Proof. repeat constructor; vm_compute; congruence. Qed.

(** The task [add] makes when the given file is at the place of the output. *)
Definition demo_add (file : bytes) : option ActiveTask :=
  match cmd_add demo_sha demo_sha (fun _ => 0) (fun _ => true) (<["file"%string := file]> demo_fs) demo_tm
          demo_env "old.tseed" "file" with
  | Some (_, tm, _) => tasks_ tm !! "t1"%string
  | None => None
  end.

Lemma demo_add_started file t :
  demo_add file = Some t -> exists bf mem, started demo_sha demo_old_seed bf mem t /\
    bf = initial_bitfield_ (at_mgr t).
Proof.
  unfold demo_add.
  destruct (cmd_add_starts demo_sha demo_sha (fun _ => 0) (fun _ => true)
    (<["file"%string := file]> demo_fs) demo_tm demo_env "old.tseed" "file" demo_old_seed)
    as (fs' & tm' & r & -> & [[-> _]|(_ & t' & mem & Ht & _ & Hst & _)]).
  - by rewrite lookup_insert_ne, demo_old_seed_read.
  - apply demo_old_seed_consistent.
  - done.
  - done.
  - rewrite Ht. change (env_tid demo_env) with "t1"%string. rewrite lookup_insert_eq. intros [= ->].
    do 2 eexists. split; [exact Hst|]. symmetry. apply Hst.
Qed.


Lemma verified_download_completes_witness :
  exists t0 t', demo_add [Byte.x61; Byte.x62] = Some t0 /\ tick_work t0 0 "now" = Some t' /\
    at_state t' = "complete"%string /\ bytes_done t' = file_size (header demo_old_seed).
Proof.
  destruct (demo_add [Byte.x61; Byte.x62]) as [t0|] eqn:E; [|by vm_compute in E].
  destruct (demo_add_started _ _ E) as (bf & mem & Hst & Hbf).
  assert (initial_bitfield_ (at_mgr t0) = [true; true]) as Hi.
  { assert ((fun t => initial_bitfield_ (at_mgr t)) <$> demo_add [Byte.x61; Byte.x62] = Some [true; true]) as Hv
      by (vm_compute; reflexivity). rewrite E in Hv. by injection Hv. }
  destruct (verified_download_completes demo_sha (fun _ => 0) demo_old_seed bf mem t0 t0 0 "now")
    as (t' & ? & ? & ?); [apply demo_old_seed_consistent|apply demo_old_seed_entries|exact Hst|constructor|
      apply Hst| |by eauto 8].
  intros i Hr Hx. exfalso. apply (st_active _ _ _ _ _ Hst) in Hx as [_ Hx]. rewrite Hbf, Hi in Hx.
  assert (i = 0 \/ i = 1) as [-> | ->] by (unfold zlength in Hr; cbn in Hr; lia); done.
Defined.

(** ** Why pieces of resumed chunks are excluded *)
(** The assembler of a chunk found on disk is as empty as the others. *)
Definition demo_piece : PieceTask := {|
  pt_chunk_idx := 0; pt_begin := 0; pt_length := 1; pt_peer_slot := 0; pt_data := [Byte.x61];
|}.

(** A resumed download whose second chunk is missing; a peer sends the first
    chunk although nobody asked for it. *)
Definition demo_double : option ActiveTask :=
  t ← demo_add [Byte.x61; Byte.xff];
  p ← dispatch_all (at_pools t) [demo_piece];
  t ← run_task demo_sha (fun _ => 0) { t with at_pools := p } (TIo 0) 0;
  t ← run_task demo_sha (fun _ => 0) t TVerify 0;
  run_task demo_sha (fun _ => 0) t (TTick "now") 0.

(** The chunk is verified a second time and its bytes are counted twice: the
    task says "complete" although the file lacks the other chunk. *)
Theorem resumed_chunk_counted_twice :
  exists t, demo_double = Some t /\ at_state t = "complete"%string /\ bytes_done t = 2 /\
    ~ chunk_good demo_sha (pl_mem (at_pools t)) (demo_chunk 1 Byte.x62).
Proof.
  eexists. split; [vm_compute; reflexivity|]. split; [vm_compute; reflexivity|].
  split; [vm_compute; reflexivity|]. unfold chunk_good. vm_compute. done.
Qed.
