(* ===== verification/Download.v ===== *)
(** * A download that is served correctly ends

    [TaskRun] shows that a task never says "complete" wrongly.  Here is the
    other half: when the peers send the bytes of the file the seed was made
    from, and every sub-block of the missing chunks has been handed to the I/O
    threads, the threads run out of work after a bounded number of steps, and
    the next tick of the task manager makes the task "complete", with the
    file's bytes in the output.  [fetched_genuine] says which sub-blocks a
    serving session of [Transfer] delivers. *)

From S2P Require Import Prelude Text Json FileUtil Platform Hash Seed FastCDC Protocol ChunkAssembler SegmentIO Scheduler SchedulerProofs SchedulerSpec PeerSession PeerSessionSpec NetUtil Tracker PeerManager PeerManagerSpec Workers Transfer TaskManager TaskStart TaskRun.
Import OCamlLikeNotations.

(** ** Sub-blocks of the file *)
(** The seed is of a file with these bytes. *)
Record describes (sha256 : bytes -> bytes) (sd : TSeedFile) (data : bytes) : Prop := {
  ds_size : zlength data = file_size (header sd);
  ds_digests : Forall (chunk_good sha256 data) (chunks sd);
}.

(** The piece is a sub-block of a chunk, with the bytes of the file. *)
Definition genuine (sd : TSeedFile) (data : bytes) (t : PieceTask) : Prop :=
  exists c, zget (chunks sd) (pt_chunk_idx t) = Some c /\
    0 <= pt_begin t < ce_length c /\ pt_begin t mod SUB_BLOCK_SIZE = 0 /\
    pt_data t = zslice data (ce_offset c + pt_begin t)
                  (slot_len (ce_length c) SUB_BLOCK_SIZE (pt_begin t / SUB_BLOCK_SIZE)).

(** The sub-block [s] of the chunk is in the file. *)
Definition slot_true (data mem : bytes) (c : ChunkEntry) (s : Z) : Prop :=
  forall k, s * SUB_BLOCK_SIZE <= k < s * SUB_BLOCK_SIZE + SUB_BLOCK_SIZE -> k < ce_length c ->
    zget mem (ce_offset c + k) = zget data (ce_offset c + k).

(** The slot is marked as received. *)
Definition marked (p : Pools) (i s : Z) : Prop :=
  exists a, zget (pl_assemblers p) i = Some a /\ slot_done (completed_mask_ a) s = true.

(** What a piece is about. *)
Abbreviation slot_of t := (pt_begin t / SUB_BLOCK_SIZE).

(** The piece waits in the queue of an I/O thread. *)
Definition queued (p : Pools) (t : PieceTask) : Prop :=
  exists i q, zget (io_queues_ p) i = Some q /\ t ∈ q.

Lemma queued_pop p p1 i t q :
  zget (io_queues_ p) i = Some (t :: q) -> io_queues_ p1 = zupd (io_queues_ p) i q ->
  forall x, queued p x <-> queued p1 x \/ x = t.
Proof.
  intros E Hp1 x. unfold queued. rewrite Hp1. pose proof (zget_range _ _ _ E) as Hr. split.
  - intros (j & l & Hj & Hx). destruct (decide (j = i)) as [->|Hne].
    + rewrite E in Hj. injection Hj as <-. apply elem_of_cons in Hx as [-> |Hx]; [by right|].
      left. exists i, q. by rewrite zget_zupd_eq.
    + left. exists j, l. by rewrite zget_zupd_ne.
  - intros [(j & l & Hj & Hx)| ->]; [|exists i, (t :: q); split; [done|]; apply elem_of_cons; by left].
    destruct (decide (j = i)) as [->|Hne].
    + rewrite zget_zupd_eq in Hj by done. injection Hj as <-. exists i, (t :: q). split; [done|].
      apply elem_of_cons. by right.
    + rewrite zget_zupd_ne in Hj by done. by exists j, l.
Qed.

Section honest.
Context (sha256 : bytes -> bytes) (inet_addr : string -> Z).
Context (speed : Z) (sd : TSeedFile) (bf : list bool) (data : bytes).
Hypothesis Hseed : seed_consistent sd.
Hypothesis Hentries : Forall entry_ok (chunks sd).
Hypothesis Hdata : describes sha256 sd data.

Lemma chunk_inside i c :
  zget (chunks sd) i = Some c ->
  0 <= ce_offset c /\ 0 < ce_length c < 2 ^ 32 /\ ce_offset c + ce_length c <= zlength data.
Proof using Hseed Hentries Hdata.
  intros [_ Hi]%zget_Some.
  destruct (covers_entry _ _ _ c (sc_covers _ Hseed)) as (? & ? & ?); [by eapply list_elem_of_lookup_2|].
  pose proof (Forall_lookup_1 _ _ _ _ Hentries Hi) as (_ & Hl & _). unfold is_u32 in Hl.
  rewrite (ds_size _ _ _ Hdata). lia.
Qed.

(** Where a genuine piece lies. *)
Lemma genuine_place t c :
  genuine sd data t -> zget (chunks sd) (pt_chunk_idx t) = Some c ->
  let len := zlength (pt_data t) in
  0 < len <= SUB_BLOCK_SIZE /\ pt_begin t = slot_of t * SUB_BLOCK_SIZE /\ 0 <= slot_of t /\
  pt_begin t + len <= ce_length c /\ (pt_begin t + SUB_BLOCK_SIZE <= ce_length c -> len = SUB_BLOCK_SIZE) /\
  (ce_length c <= pt_begin t + SUB_BLOCK_SIZE -> pt_begin t + len = ce_length c) /\
  pt_data t = zslice data (ce_offset c + pt_begin t) len.
Proof using Hseed Hentries Hdata.
  intros (c' & Hc' & Hb & Hmod & Hd) Hc. rewrite Hc in Hc'. injection Hc' as <-.
  destruct (chunk_inside _ _ Hc) as (H0 & H1 & H2). cbv zeta.
  assert (pt_begin t = slot_of t * SUB_BLOCK_SIZE) as E.
  { pose proof (Z.div_mod (pt_begin t) SUB_BLOCK_SIZE). unfold SUB_BLOCK_SIZE in *. lia. }
  assert (0 <= slot_of t) by (apply Z.div_pos; unfold SUB_BLOCK_SIZE in *; lia).
  assert (zlength (pt_data t) = slot_len (ce_length c) SUB_BLOCK_SIZE (slot_of t)) as Hl.
  { rewrite Hd. apply length_zslice; unfold slot_len in *; rewrite <-?E; unfold SUB_BLOCK_SIZE in *; lia. }
  rewrite Hl, <-Hd. unfold slot_len. rewrite <-E. unfold SUB_BLOCK_SIZE in *. split_and!; done || lia.
Qed.

Lemma genuine_task_ok t : genuine sd data t -> task_ok (length (chunks sd)) t.
Proof using Hseed Hentries Hdata.
  intros Hg. pose proof Hg as (c & Hc & Hb & _).
  destruct (genuine_place t c Hg Hc) as (H1 & _ & _ & H2 & _). destruct (chunk_inside _ _ Hc) as (_ & H3 & _).
  pose proof (zget_range _ _ _ Hc) as Hr. split; [unfold zlength in Hr; lia|]. split; [lia|].
  split; [|lia]. intros E. rewrite E in H1. by destruct H1 as [H1 _].
Qed.

(** The chunk's bytes are in the file once all its slots are true. *)
Lemma slots_true_slice mem i c off len :
  zget (chunks sd) i = Some c ->
  (forall s, 0 <= s < (ce_length c + SUB_BLOCK_SIZE - 1) / SUB_BLOCK_SIZE -> slot_true data mem c s) ->
  0 <= off -> off + len <= ce_length c ->
  zslice mem (ce_offset c + off) len = zslice data (ce_offset c + off) len.
Proof using Hseed Hentries Hdata.
  intros Hc Hs Ho Hl. destruct (chunk_inside _ _ Hc) as (H0 & H1 & _). apply zslice_ext; [lia|].
  intros k Hk. replace k with (ce_offset c + (k - ce_offset c)) by lia.
  apply (Hs ((k - ce_offset c) / SUB_BLOCK_SIZE)); unfold SUB_BLOCK_SIZE; Z.div_mod_to_equations; lia.
Qed.

(** ** What holds of the pools when all pieces are genuine *)
Record truthful (act : list Z) (p : Pools) : Prop := {
  tr_size : zlength (pl_mem p) = zlength data;
  tr_slots i c s : zget (chunks sd) i = Some c -> marked p i s -> slot_true data (pl_mem p) c s;
  tr_finished i : flagged bf i = false -> finished p i -> i ∈ reported p \/ i ∉ act;
  tr_passed : Forall (fun r => vr_passed r = true) (result_queue_ p);
}.

(** A finished chunk has all its slots marked, and so its bytes. *)
Lemma finished_marked act p i c s :
  pool_inv sha256 sd bf act p -> zget (chunks sd) i = Some c -> finished p i ->
  0 <= s < (ce_length c + SUB_BLOCK_SIZE - 1) / SUB_BLOCK_SIZE -> marked p i s.
Proof using.
  intros Hp Hc Hf Hs. unfold finished in Hf.
  destruct (pools_lookup p i (pi_ok _ _ _ _ _ Hp)) as (a & c' & Ha & Hc' & Hok).
  { rewrite (pi_chunks _ _ _ _ _ Hp). by eapply zget_range. }
  rewrite (pi_chunks _ _ _ _ _ Hp), Hc in Hc'. injection Hc' as <-. exists a. split; [done|].
  rewrite Ha in Hf. injection Hf as Hf. apply zget_Some in Ha as [_ Ha].
  destruct (Forall_lookup_1 _ _ _ _ (pi_counted _ _ _ _ _ Hp) Ha) as [Ht Hn].
  rewrite (ao_size _ _ _ Hok) in Ht. rewrite Hf in Hn.
  assert (Forall (eq true) (done_flags (completed_mask_ a) (total_slots_ a))) as Hall
    by (apply count_true_full; rewrite zlength_done_flags; lia).
  rewrite Forall_forall in Hall. symmetry. apply Hall.
  pose proof (zget_done_flags (completed_mask_ a) (total_slots_ a) s) as Hz.
  apply zget_Some in Hz as [_ Hz]; [|lia]. by eapply list_elem_of_lookup_2.
Qed.

Lemma marked_finished act p i c :
  pool_inv sha256 sd bf act p -> zget (chunks sd) i = Some c ->
  (forall s, 0 <= s < (ce_length c + SUB_BLOCK_SIZE - 1) / SUB_BLOCK_SIZE -> marked p i s) -> finished p i.
Proof using.
  intros Hp Hc Hm. unfold finished.
  destruct (pools_lookup p i (pi_ok _ _ _ _ _ Hp)) as (a & c' & Ha & Hc' & Hok).
  { rewrite (pi_chunks _ _ _ _ _ Hp). by eapply zget_range. }
  rewrite (pi_chunks _ _ _ _ _ Hp), Hc in Hc'. injection Hc' as <-. rewrite Ha. cbn. f_equal.
  apply zget_Some in Ha as Hl. destruct Hl as [_ Hl].
  destruct (Forall_lookup_1 _ _ _ _ (pi_counted _ _ _ _ _ Hp) Hl) as [Ht Hn].
  rewrite (ao_size _ _ _ Hok) in Ht. destruct Hok as [_ _ Hlen _ _ _].
  assert (0 <= total_slots_ a) as H0 by (rewrite Ht; apply Z.div_pos; unfold SUB_BLOCK_SIZE; lia).
  assert (done_flags (completed_mask_ a) (total_slots_ a) = replicate (Z.to_nat (total_slots_ a)) true) as Hd.
  { apply list_eq. intros k. rewrite <-!zget_of_nat.
    destruct (Z.ltb_spec (Z.of_nat k) (total_slots_ a)) as [Hk|Hk].
    - rewrite zget_done_flags by lia. destruct (Hm (Z.of_nat k)) as (a' & Ha' & Hd); [lia|].
      rewrite Ha in Ha'. injection Ha' as <-. rewrite Hd.
      by rewrite zget_of_nat, lookup_replicate_2 by lia.
    - rewrite !zget_of_nat, !lookup_ge_None_2; [done|rewrite length_replicate; lia|].
      unfold done_flags. rewrite length_fmap, length_seqZ. lia. }
  rewrite Hn, Hd, count_true_replicate_true. lia.
Qed.

(** *** A piece *)
Lemma piece_finished (act : list Z) p p' t a a' (r : bool) q i :
  zget (pl_assemblers p) (pt_chunk_idx t) = Some a ->
  pl_assemblers p' = zupd (pl_assemblers p) (pt_chunk_idx t) a' ->
  task_queue_ p' = task_queue_ p ++ q -> vt_chunk_idx <$> q = (if r then [pt_chunk_idx t] else []) ->
  result_queue_ p' = result_queue_ p ->
  (pending_count_ a <> 0 -> pending_count_ a' = 0 -> r = true) ->
  (finished p i -> i ∈ reported p \/ i ∉ act) -> finished p' i -> i ∈ reported p' \/ i ∉ act.
Proof using.
  intros Ha Has Hq Hqi Hres Hr Hold Hf.
  assert (forall j, j ∈ reported p' <-> j ∈ reported p \/ j ∈ vt_chunk_idx <$> q) as Hrep
    by (intros j; unfold reported; rewrite Hq, Hres, fmap_app, !elem_of_app; tauto).
  rewrite Hrep, Hqi. unfold finished in Hf, Hold. rewrite Has in Hf.
  destruct (decide (i = pt_chunk_idx t)) as [->|Hne].
  - rewrite zget_zupd_eq in Hf by (by eapply zget_range). injection Hf as Hf. rewrite Ha in Hold. cbn in Hold.
    destruct (decide (pending_count_ a = 0)) as [Hz|Hz]; [destruct Hold; [by rewrite Hz|tauto..]|].
    rewrite (Hr Hz Hf). left. right. by apply list_elem_of_singleton.
  - rewrite zget_zupd_ne in Hf by done. destruct (Hold Hf); tauto.
Qed.

Lemma process_piece_true act p t p' :
  pool_inv sha256 sd bf act p -> truthful act p -> genuine sd data t -> process_piece p t = Some p' ->
  truthful act p' /\ marked p' (pt_chunk_idx t) (slot_of t) /\
  (forall i s, marked p i s -> marked p' i s).
Proof using Hseed Hentries Hdata.
  intros Hp [T1 T2 T3 T4] Hg Hrun. pose proof Hg as (c & Hc & Hb & _).
  destruct (genuine_place t c Hg Hc) as (G1 & G2 & G3 & G4 & G5 & G6 & G7).
  destruct (chunk_inside _ _ Hc) as (C1 & C2 & C3). pose proof (zget_range _ _ _ Hc) as Hr.
  destruct (process_piece_detail _ _ _ Hrun) as (a & a' & r & q & Ha & Hon & Has & Hq & Hqi).
  pose proof (pi_chunks _ _ _ _ _ Hp) as Hcs.
  assert (result_queue_ p' = result_queue_ p) as Hres.
  { pose proof (genuine_task_ok t Hg) as Hok. rewrite <-Hcs in Hok, Hc.
    destruct (process_piece_ok p t c (pi_ok _ _ _ _ _ Hp) Hok Hc) as (p1 & Hp1 & He).
    rewrite Hrun in Hp1. injection Hp1 as <-. apply He. }
  destruct (pools_lookup p (pt_chunk_idx t) (pi_ok _ _ _ _ _ Hp)) as (a0 & c0 & Ha0 & Hc0 & Hok); [by rewrite Hcs|].
  rewrite Hcs, Hc in Hc0. injection Hc0 as <-. rewrite Ha in Ha0. injection Ha0 as <-.
  assert (counted a) as Hca
    by (apply zget_Some in Ha as [_ Hl]; by apply (Forall_lookup_1 _ _ _ _ (pi_counted _ _ _ _ _ Hp) Hl)).
  destruct (on_piece_accepts _ a c (pl_mem p) (pt_begin t) (pt_data t) Hok eq_refl Hca)
    as (a1 & Hon1 & _ & Hslot & _ & Hmask & Hpend); [lia|by intros E; rewrite E in G1; destruct G1|done|].
  rewrite Hon in Hon1. injection Hon1 as <- Hmem Hr'.
  assert (forall k, zget (pl_mem p') k = if (ce_offset c + pt_begin t <=? k) &&
      (k <? ce_offset c + pt_begin t + zlength (pt_data t)) then zget data k else zget (pl_mem p) k) as Hk.
  { intros k. rewrite Hmem. rewrite G7 at 1. apply zget_blit_same; lia. }
  assert (forall i s, marked p' i s <-> marked p i s \/ (i = pt_chunk_idx t /\ s = slot_of t)) as Hm.
  { intros i s. unfold marked. rewrite Has. destruct (decide (i = pt_chunk_idx t)) as [->|Hne].
    - rewrite zget_zupd_eq by (by eapply zget_range). rewrite Ha. split.
      + intros (x & [= <-] & Hx). rewrite Hmask in Hx.
        apply orb_true_iff in Hx as [Hx|Hx]; [left; by eauto|right; split; [done|lia]].
      + intros [(x & [= <-] & Hx)|[_ ->]]; eexists; (split; [done|]); rewrite Hmask, orb_true_iff; [by left|right; lia].
    - rewrite zget_zupd_ne by done. naive_solver. }
  split; [|split; [apply Hm; by right|intros i s Hi; apply Hm; by left]].
  split.
  - rewrite <-T1, Hmem. unfold zlength. f_equal. apply length_blit; unfold zlength in *; lia.
  - intros i d s Hd Hs k Hks Hkl. rewrite Hk. destruct ((_ <=? _) && _) eqn:E; [done|].
    apply Hm in Hs as [Hs|[-> ->]]; [by apply (T2 i d s)|]. rewrite Hc in Hd. injection Hd as <-. lia.
  - intros i Hfl. apply (piece_finished act p p' t a a' r q); try done; [|by apply T3].
    rewrite Hr', Hpend. intros ? ?. destruct (slot_done _ _); lia.
  - by rewrite Hres.
Qed.

(** The pieces handed over so far are queued or marked; the queued ones are
    genuine. *)
Record pieces_kept (got : list PieceTask) (p : Pools) : Prop := {
  pk_genuine t : queued p t -> genuine sd data t;
  pk_kept t : t ∈ got -> queued p t \/ marked p (pt_chunk_idx t) (slot_of t);
}.

(** A finished chunk has its bytes, so a late piece repeats them. *)
Lemma finished_slice act p i c off len :
  pool_inv sha256 sd bf act p -> truthful act p -> zget (chunks sd) i = Some c -> finished p i ->
  0 <= off -> off + len <= ce_length c ->
  zslice (pl_mem p) (ce_offset c + off) len = zslice data (ce_offset c + off) len.
Proof using Hseed Hentries Hdata.
  intros Hp Ht Hc Hf. apply (slots_true_slice _ i); [done|]. intros s Hs.
  apply (tr_slots _ _ Ht i); [done|]. by apply (finished_marked act p i c).
Qed.

Lemma genuine_late_ok act p t :
  pool_inv sha256 sd bf act p -> truthful act p -> genuine sd data t -> late_ok p t.
Proof using Hseed Hentries Hdata.
  intros Hp Ht Hg Hf c Hc _. rewrite (pi_chunks _ _ _ _ _ Hp) in Hc.
  destruct (genuine_place t c Hg Hc) as (? & ? & ? & ? & _ & _ & Hd). destruct Hg as (c' & _ & Hb & _).
  rewrite Hd at 2. apply (finished_slice act p (pt_chunk_idx t)); done || lia.
Qed.

(** *** A step of an I/O thread *)
Lemma io_step_true act got p i p' :
  pool_inv sha256 sd bf act p -> truthful act p -> pieces_kept got p -> io_worker_step p i = Some p' ->
  truthful act p' /\ pieces_kept got p'.
Proof using Hseed Hentries Hdata.
  intros Hp Ht [K1 K2] Hs. unfold io_worker_step in Hs.
  destruct (zget (io_queues_ p) i) as [[|t q]|] eqn:E; [by injection Hs as <-| |by injection Hs as <-].
  rewrite zset_zupd in Hs by (by eapply zget_range). cbn [mbind option_bind] in Hs.
  set (p1 := { p with io_queues_ := _ }) in Hs.
  assert (forall x, queued p x <-> queued p1 x \/ x = t) as Hq by (by apply (queued_pop _ _ i t q)).
  assert (genuine sd data t) as Hg by (apply K1, Hq; by right).
  pose proof (pool_pop sha256 sd bf act p i t q Hp E) as Hp1. fold p1 in Hp1.
  assert (truthful act p1) as Ht1 by (by destruct Ht; split).
  destruct (process_piece_true act p1 t p' Hp1 Ht1 Hg Hs) as (Ht' & Hm & Hmono).
  split; [done|].
  assert (io_queues_ p' = io_queues_ p1) as Hqq.
  { pose proof (genuine_task_ok t Hg) as Hok. pose proof (pi_chunks _ _ _ _ _ Hp1) as Hcs.
    destruct Hg as (c & Hc & _). rewrite <-Hcs in Hok, Hc.
    destruct (process_piece_ok p1 t c (pi_ok _ _ _ _ _ Hp1) Hok Hc) as (p2 & Hp2 & He).
    rewrite Hs in Hp2. injection Hp2 as <-. apply He. }
  assert (forall x, queued p' x <-> queued p1 x) as Hq' by (intros x; unfold queued; by rewrite Hqq).
  split; intros x; [rewrite Hq'; intros Hx; apply K1, Hq; by left|].
  intros [Hx|Hx]%K2; [|right; by apply Hmono].
  apply Hq in Hx as [Hx| ->]; [left; by apply Hq'|by right].
Qed.

(** *** Pieces handed over *)
Lemma dispatch_true act got p t p' :
  truthful act p -> pieces_kept got p -> genuine sd data t -> io_dispatch p t = Some p' ->
  truthful act p' /\ pieces_kept (got ++ [t]) p'.
Proof using.
  intros [T1 T2 T3 T4] [K1 K2] Hg Hd. unfold io_dispatch in Hd. cbv zeta in Hd. destruct (_ =? 0); [done|].
  destruct (zget (io_queues_ p) _) as [q|] eqn:Eq; [|done]. cbn [mbind option_bind] in Hd.
  rewrite zset_zupd in Hd by (by eapply zget_range). cbn [mbind option_bind] in Hd. injection Hd as <-.
  set (w := worker_of t _) in *. set (p' := { p with io_queues_ := zupd (io_queues_ p) w (q ++ [t]) }).
  split; [by split|].
  assert (forall x, queued p' x <-> queued p x \/ x = t) as Hq.
  { intros x. unfold queued. cbn. split.
    - intros (j & l & Hj & Hx). destruct (decide (j = w)) as [->|Hne].
      + rewrite zget_zupd_eq in Hj by (by eapply zget_range). injection Hj as <-.
        apply elem_of_app in Hx as [Hx|Hx%list_elem_of_singleton]; [left; by exists w, q|by right].
      + rewrite zget_zupd_ne in Hj by done. left. by exists j, l.
    - intros [(j & l & Hj & Hx)| ->].
      + destruct (decide (j = w)) as [->|Hne].
        * rewrite Eq in Hj. injection Hj as <-. exists w, (q ++ [t]).
          rewrite zget_zupd_eq by (by eapply zget_range). split; [done|]. apply elem_of_app. by left.
        * exists j, l. by rewrite zget_zupd_ne.
      + exists w, (q ++ [t]). rewrite zget_zupd_eq by (by eapply zget_range). split; [done|].
        apply elem_of_app. right. by apply list_elem_of_singleton. }
  split; intros x; [intros [Hx| ->]%Hq; [by apply K1|done]|].
  intros [[Hx|Hx]%K2|Hx%list_elem_of_singleton]%elem_of_app; [|by right|]; left; apply Hq; tauto.
Qed.

Lemma dispatch_all_true act ts : forall got p p',
  truthful act p -> pieces_kept got p -> Forall (genuine sd data) ts -> dispatch_all p ts = Some p' ->
  truthful act p' /\ pieces_kept (got ++ ts) p'.
Proof using.
  induction ts as [|t ts IH]; intros got p p' Ht Hk Hg Hd; cbn [dispatch_all] in Hd.
  { injection Hd as <-. by rewrite app_nil_r. }
  apply Forall_cons in Hg as [Hg Hgs]. destruct (io_dispatch p t) as [p1|] eqn:E; [|done].
  destruct (dispatch_true act got p t p1 Ht Hk Hg E) as [Ht1 Hk1]. cbn [mbind option_bind] in Hd.
  destruct (IH _ _ _ Ht1 Hk1 Hgs Hd) as [? Hk']. by rewrite <-app_assoc in Hk'.
Qed.

(** *** A step of a verify thread: every chunk passes *)
Lemma verify_step_true act got p p' :
  pool_inv sha256 sd bf act p -> truthful act p -> pieces_kept got p -> verify_step sha256 p = Some p' ->
  truthful act p' /\ pieces_kept got p'.
Proof using Hseed Hentries Hdata.
  intros Hp Ht Hk Hv.
  destruct (verify_step_ok sha256 p (pi_ok _ _ _ _ _ Hp)) as (p1 & Hv1 & _ & _ & _ & Hres).
  rewrite Hv in Hv1. injection Hv1 as <-. unfold verify_step in Hv.
  destruct (task_queue_ p) as [|t q] eqn:Eq; [by injection Hv as <-|].
  pose proof (pi_alive _ _ _ _ _ Hp) as Ha. rewrite Eq in Ha. apply Forall_cons in Ha as [Hne _].
  cbv zeta in Hv. rewrite (proj2 (Z.eqb_neq _ _) Hne) in Hv.
  destruct (task_bytes _ t) as [bs|]; [|done]. cbn [mbind option_bind] in Hv. injection Hv as <-.
  split; [|by destruct Hk]. pose proof Ht as [T1 T2 T3 T4]. split; try done.
  - intros i Hf Hfin. destruct (T3 i Hf Hfin) as [Hi|]; [left|by right]. revert Hi. unfold reported.
    rewrite Eq. cbn. rewrite fmap_app, elem_of_cons, !elem_of_app. cbn. rewrite list_elem_of_singleton. tauto.
  - cbn [result_queue_ apply_update] in *. apply Forall_forall. intros r Hr.
    destruct (Hres r Hr) as [Hold|(c & Hc & Hiff)]; [rewrite Forall_forall in T4; by apply T4|].
    assert (r ∈ result_queue_ p \/ vr_chunk_idx r = vt_chunk_idx t) as [Hold|Hidx].
    { apply elem_of_app in Hr as [?|Hr]; [by left|]. apply list_elem_of_singleton in Hr as ->. by right. }
    { rewrite Forall_forall in T4. by apply T4. }
    rewrite (pi_chunks _ _ _ _ _ Hp) in Hc. apply Hiff.
    assert (finished p (vr_chunk_idx r)) as Hfin.
    { apply (pi_reported _ _ _ _ _ Hp). unfold reported. rewrite Eq, Hidx. by left. }
    destruct (chunk_inside _ _ Hc) as (? & ? & _).
    pose proof (finished_slice act p _ c 0 (ce_length c) Hp Ht Hc Hfin) as Hsl. rewrite Z.add_0_r in Hsl.
    rewrite Hsl by lia. apply zget_Some in Hc as [_ Hc].
    exact (Forall_lookup_1 _ _ _ _ (ds_digests _ _ _ Hdata) Hc).
Qed.

(** *** The results are taken *)
Lemma drain_true act act' got p :
  truthful act p -> pieces_kept got p ->
  (forall i, i ∈ act' <-> i ∈ act /\ i ∉ passed_results (result_queue_ p)) ->
  truthful act' (drain_results p).1 /\ pieces_kept got (drain_results p).1.
Proof using.
  intros [T1 T2 T3 T4] Hk Hact. split; [|by destruct Hk]. split; try done.
  intros i Hf Hfin. unfold reported in *. cbn. rewrite app_nil_r, Hact.
  destruct (T3 i Hf Hfin) as [[Hi|Hi]%elem_of_app|]; [by left| |right; tauto].
  right. intros [_ Hn]. apply Hn. apply list_elem_of_fmap in Hi as (r & -> & Hr).
  apply list_elem_of_fmap_2, list_elem_of_filter. split; [|done]. rewrite Forall_forall in T4. by apply T4.
Qed.

(** ** A task whose peers are honest *)
Abbreviation active t := (active_chunks_ (sched_ (at_mgr t))).

Record honest_task (got : list PieceTask) (t : ActiveTask) : Prop := {
  ht_inv : task_inv sha256 speed sd bf t;
  ht_true : truthful (active t) (at_pools t);
  ht_kept : pieces_kept got (at_pools t);
  ht_active i : i ∈ active t -> 0 <= i < zlength (chunks sd) /\ flagged bf i = false;
  ht_dead : tracker_dead t = false;
  ht_state : at_state t = "downloading"%string \/ at_state t = "complete"%string;
}.

(** The pieces a step hands to the I/O threads. *)
Definition handed_by (t : ActiveTask) (o : task_op) (now : Z) : list PieceTask :=
  match o with
  | TNet o => match run_mgr inet_addr (at_mgr t) o now with Some (_, out) => handed out | None => [] end
  | _ => []
  end.

(** The steps: what the event loop and the threads can do, with the tracker not
    given up. *)
Definition downloads (t : ActiveTask) (o : task_op) (now : Z) : Prop :=
  match o with
  | TNet o' => verifies o' = false /\ mgr_fits (at_mgr t) o' now
  | TTracker _ dead => dead = false
  | _ => True
  end.

(** The pieces are genuine, of chunks that were not on disk. *)
Definition honest_fits (t : ActiveTask) (o : task_op) (now : Z) : Prop :=
  downloads t o now /\
  Forall (fun x => genuine sd data x /\ flagged bf (pt_chunk_idx x) = false) (handed_by t o now).

Inductive honest_reach (t0 : ActiveTask) : list PieceTask -> ActiveTask -> Prop :=
| honest_here : honest_reach t0 [] t0
| honest_next got t o now t' :
    honest_reach t0 got t -> honest_fits t o now -> run_task sha256 inet_addr t o now = Some t' ->
    honest_reach t0 (got ++ handed_by t o now) t'.

Lemma honest_task_fits got t o now :
  honest_task got t -> honest_fits t o now -> task_fits inet_addr sd bf t o now.
Proof using Hseed Hentries Hdata.
  intros [H1 H2 H3 _ _ _] [Hf Hp]. destruct o as [o|i| |iso|c dead]; cbn in *; try done.
  - destruct Hf as [Hv Hf]. split; [done|]. split; [done|]. intros m out Hr. rewrite Hr in Hp.
    eapply Forall_impl; [exact Hp|]. intros x [Hg Hx]. split; [by apply genuine_task_ok|done].
  - intros x q Hx. apply (genuine_late_ok (active t)); [apply H1|done|].
    apply H3. exists i, (x :: q). split; [done|]. by left.
Qed.

Lemma tick_fields t now iso t' :
  tick_work t now iso = Some t' ->
  at_pools t' = (drain_results (at_pools t)).1 /\ tracker_dead t' = tracker_dead t /\
  (tracker_dead t = false -> at_state t' = at_state t \/ at_state t' = "complete"%string).
Proof using.
  unfold tick_work. intros Ht. destruct (run_sched _ _ _) as [m|]; [|done]. cbn [mbind option_bind] in Ht.
  destruct (drain_results (at_pools t)) as [p rs]. destruct (take_results _ _ _ _ _ _) as [[[m1 d] ps]|]; [|done].
  cbn [mbind option_bind] in Ht. destruct (match ps with [] => _ | _ => _ end) as [m2|]; [|done].
  cbn [mbind option_bind] in Ht. injection Ht as <-. unfold check_complete.
  destruct ((_ <=? _) && _); cbv zeta; [destruct (dpos _)|]; cbn;
    rewrite ?andb_false_r; destruct (tracker_dead t); cbn; split_and!; try done; auto; case_match; done.
Qed.

Lemma honest_step got t o now t' :
  honest_task got t -> honest_fits t o now -> run_task sha256 inet_addr t o now = Some t' ->
  honest_task (got ++ handed_by t o now) t'.
Proof using Hseed Hentries Hdata.
  intros Ht Hf Hr. pose proof (honest_task_fits _ _ _ _ Ht Hf) as Hfits.
  destruct (run_task_inv sha256 inet_addr speed sd bf Hseed Hentries t o now (ht_inv _ _ Ht) Hfits)
    as (t1 & Hr1 & Hi). rewrite Hr in Hr1. injection Hr1 as <-.
  destruct Ht as [H1 H2 H3 H4 H5 H6]. destruct o as [o|i| |iso|c dead]; cbn [run_task] in Hr.
  - destruct Hf as [[Hv Hf] Hp]. cbn [handed_by] in *.
    destruct (run_mgr_session_ok inet_addr speed _ _ _ o now (proj1 (sizes_ok sd Hseed Hentries))
      (proj2 (sizes_ok sd Hseed Hentries)) (ti_mgr _ _ _ _ _ H1) Hf Hv) as (m & out & Hm & Hmo).
    rewrite Hm in Hr, Hp |- *. cbn [mbind option_bind] in Hr.
    destruct (dispatch_all _ _) as [p|] eqn:Ed; [|done]. injection Hr as <-.
    destruct (dispatch_all_true (active t) (handed out) got (at_pools t) p H2 H3) as [T K]; [|done|].
    { eapply Forall_impl; [exact Hp|]. by intros x [? _]. }
    split; cbn; rewrite ?(mo_active _ _ _ _ Hmo); try done.
  - destruct (io_worker_step _ i) as [p|] eqn:E; [|done]. injection Hr as <-. rewrite app_nil_r.
    destruct (io_step_true (active t) got _ i p (ti_pools _ _ _ _ _ H1) H2 H3 E). by split.
  - destruct (verify_step _ _) as [p|] eqn:E; [|done]. injection Hr as <-. rewrite app_nil_r.
    destruct (verify_step_true (active t) got _ p (ti_pools _ _ _ _ _ H1) H2 H3 E). by split.
  - destruct (tick_inv sha256 inet_addr speed sd bf Hseed Hentries t now iso H1) as (t2 & Ht2 & _ & Ha & _).
    rewrite Hr in Ht2. injection Ht2 as <-. destruct (tick_fields _ _ _ _ Hr) as (F1 & F2 & F3).
    destruct (drain_true (active t) (active t') got _ H2 H3 Ha) as [T K]. rewrite app_nil_r.
    split; rewrite ?F1, ?F2; try done; [intros i [Hx _]%Ha; by apply H4|].
    destruct (F3 H5) as [->|]; [done|by right].
  - destruct Hf as [Hdead _]. injection Hr as <-. rewrite app_nil_r. by split.
Qed.

Lemma honest_runs got t o now :
  honest_task got t -> honest_fits t o now -> is_Some (run_task sha256 inet_addr t o now).
Proof using Hseed Hentries Hdata.
  intros Ht Hf. pose proof (honest_task_fits _ _ _ _ Ht Hf) as Hfits.
  destruct (run_task_inv sha256 inet_addr speed sd bf Hseed Hentries t o now (ht_inv _ _ Ht) Hfits)
    as (t1 & -> & _). by eexists.
Qed.

Lemma honest_reach_inv t0 got t : honest_task [] t0 -> honest_reach t0 got t -> honest_task got t.
Proof using Hseed Hentries Hdata. intros H0. induction 1; [done|by eapply honest_step]. Qed.

(** ** The threads run out of work *)
(** A thread finds something in its queue. *)
Definition productive (t : ActiveTask) (o : task_op) : Prop :=
  match o with
  | TIo i => exists x q, zget (io_queues_ (at_pools t)) i = Some (x :: q)
  | TVerify => task_queue_ (at_pools t) <> []
  | _ => False
  end.

Definition thread_step (t t' : ActiveTask) : Prop :=
  exists o now, productive t o /\ run_task sha256 inet_addr t o now = Some t'.

Definition queue_sizes (l : list (list PieceTask)) : nat := sum_list_with length l.

(** A piece can still become a verification. *)
Definition work (t : ActiveTask) : nat :=
  2 * queue_sizes (io_queues_ (at_pools t)) + length (task_queue_ (at_pools t)).

Lemma queue_sizes_pop l : forall i x q,
  zget l i = Some (x :: q) -> queue_sizes l = S (queue_sizes (zupd l i q)).
Proof using.
  intros i x q Hi. unfold zupd. rewrite (proj2 (in_range_iff l i)) by (by eapply zget_range).
  apply zget_Some in Hi as [_ Hi]. revert Hi. generalize (Z.to_nat i) as k.
  induction l as [|y l IH]; intros [|k] Hk; try done; unfold queue_sizes in *.
  - by injection Hk as ->.
  - change (<[S k := q]> (y :: l)) with (y :: <[k := q]> l). cbn [sum_list_with]. rewrite (IH k Hk). lia.
Qed.

Lemma productive_fits t o now : productive t o -> honest_fits t o now.
Proof using. destruct o; try done; intros _; split; try done; constructor. Qed.

Lemma thread_step_honest got t t' : honest_task got t -> thread_step t t' -> honest_task got t'.
Proof using Hseed Hentries Hdata.
  intros Ht (o & now & Ho & Hr).
  pose proof (honest_step got t o now t' Ht (productive_fits _ _ _ Ho) Hr) as H.
  destruct o; try done; cbn in H; by rewrite app_nil_r in H.
Qed.

Lemma thread_step_work got t t' : honest_task got t -> thread_step t t' -> (work t' < work t)%nat.
Proof using Hseed Hentries Hdata.
  intros Ht (o & now & Ho & Hr). pose proof (ti_pools _ _ _ _ _ (ht_inv _ _ Ht)) as Hp.
  destruct o as [|i| | |]; try done; cbn [run_task productive] in *.
  - destruct Ho as (x & q & Hq). unfold io_worker_step in Hr. rewrite Hq in Hr.
    rewrite zset_zupd in Hr by (by eapply zget_range). cbn [mbind option_bind] in Hr.
    pose proof (pool_pop sha256 sd bf _ _ i x q Hp Hq) as Hp1. set (p1 := { at_pools t with io_queues_ := _ }) in *.
    assert (genuine sd data x) as Hg
      by (apply (ht_kept _ _ Ht); exists i, (x :: q); split; [done|by left]).
    pose proof (genuine_task_ok x Hg) as Hok. destruct Hg as (c & Hc & _).
    pose proof (pi_chunks _ _ _ _ _ Hp1) as Hcs. rewrite <-Hcs in Hok, Hc.
    destruct (process_piece_ok p1 x c (pi_ok _ _ _ _ _ Hp1) Hok Hc) as (p2 & Hp2 & He).
    rewrite Hp2 in Hr. cbn [mbind option_bind] in Hr. injection Hr as <-.
    destruct (process_piece_detail _ _ _ Hp2) as (a & a' & r & l & _ & _ & _ & Hl & Hr).
    unfold work. cbn. rewrite Hl, (pe_queues _ _ _ _ He). cbn. rewrite (queue_sizes_pop _ _ _ _ Hq), length_app.
    apply (f_equal length) in Hr. rewrite length_fmap in Hr.
    unfold queue_sizes. destruct r; cbn in Hr; lia.
  - unfold verify_step in Hr. pose proof (pi_alive _ _ _ _ _ Hp) as Ha.
    destruct (task_queue_ (at_pools t)) as [|v q] eqn:Eq; [done|]. apply Forall_cons in Ha as [Hne _].
    cbv zeta in Hr. rewrite (proj2 (Z.eqb_neq _ _) Hne) in Hr.
    destruct (task_bytes _ v) as [bs|]; [|done]. cbn [mbind option_bind] in Hr. injection Hr as <-.
    unfold work. cbn. rewrite Eq. unfold queue_sizes. cbn. lia.
Qed.

Lemma thread_steps_bounded got t n t' :
  honest_task got t -> nsteps thread_step n t t' -> (n + work t' <= work t)%nat.
Proof using Hseed Hentries Hdata.
  intros Ht Hn. revert Ht. induction Hn as [|n t1 t2 t3 Hs _ IH]; intros Ht; [lia|].
  pose proof (thread_step_work _ _ _ Ht Hs). pose proof (IH (thread_step_honest _ _ _ Ht Hs)). lia.
Qed.

(** When no thread can step the queues are empty. *)
Lemma no_step_idle got t :
  honest_task got t ->
  (exists t', thread_step t t') \/ (task_queue_ (at_pools t) = [] /\ forall x, ~ queued (at_pools t) x).
Proof using Hseed Hentries Hdata.
  intros Ht.
  assert (forall o, productive t o -> exists t', thread_step t t') as Hstep.
  { intros o Ho. pose proof (honest_task_fits got t o 0 Ht (productive_fits _ _ _ Ho)) as Hf.
    destruct (run_task_inv sha256 inet_addr speed sd bf Hseed Hentries t o 0 (ht_inv _ _ Ht) Hf) as (t' & Hr & _).
    exists t', o, 0. done. }
  destruct (task_queue_ (at_pools t)) as [|v q] eqn:Eq; [|left; apply (Hstep TVerify); cbn; by rewrite Eq].
  destruct (decide (Forall (fun q => length q = 0%nat) (io_queues_ (at_pools t)))) as [Hall|Hnot].
  - right. split; [done|]. intros x (i & q & [_ Hi]%zget_Some & Hx).
    pose proof (Forall_lookup_1 _ _ _ _ Hall Hi) as Hl. destruct q; [by apply not_elem_of_nil in Hx|done].
  - left. apply not_Forall_Exists in Hnot; [|apply _]. apply Exists_exists in Hnot as (q & (i & Hi)%list_elem_of_lookup_1 & Hq).
    destruct q as [|x q]; [by destruct Hq|]. apply (Hstep (TIo (Z.of_nat i))). exists x, q. by rewrite zget_of_nat.
Qed.

(** ** The end of the download *)
(** Every sub-block of the chunks that were missing has been handed over. *)
Definition all_received (got : list PieceTask) : Prop :=
  forall i c b, zget (chunks sd) i = Some c -> flagged bf i = false -> 0 <= b < ce_length c ->
    b mod SUB_BLOCK_SIZE = 0 -> exists x, x ∈ got /\ pt_chunk_idx x = i /\ pt_begin x = b.

Lemma idle_finished got t i c :
  honest_task got t -> all_received got -> (forall x, ~ queued (at_pools t) x) ->
  zget (chunks sd) i = Some c -> flagged bf i = false -> finished (at_pools t) i.
Proof using Hseed Hentries Hdata.
  intros Ht Hall Hq Hc Hf. destruct (chunk_inside _ _ Hc) as (_ & Hl & _).
  apply (marked_finished (active t) _ i c); [apply Ht|done|]. intros s Hs.
  destruct (Hall i c (s * SUB_BLOCK_SIZE) Hc Hf) as (x & Hx & Hi & Hb).
  - unfold SUB_BLOCK_SIZE in *. Z.div_mod_to_equations. lia.
  - apply Z.mod_mul. done.
  - destruct (pk_kept _ _ (ht_kept _ _ Ht) x Hx) as [Hx'|Hm]; [by destruct (Hq x)|].
    by rewrite Hi, Hb, Z.div_mul in Hm by done.
Qed.

Lemma idle_tick got t now iso :
  honest_task got t -> all_received got -> task_queue_ (at_pools t) = [] ->
  (forall x, ~ queued (at_pools t) x) ->
  exists t', tick_work t now iso = Some t' /\ honest_task got t' /\ at_state t' = "complete"%string /\
    (forall i, i ∉ active t').
Proof using Hseed Hentries Hdata inet_addr.
  intros Ht Hall Htq Hq.
  destruct (tick_inv sha256 inet_addr speed sd bf Hseed Hentries t now iso (ht_inv _ _ Ht)) as (t' & Hr & Hi & Ha & Hc).
  assert (honest_task got t') as Ht'.
  { pose proof (honest_step got t (TTick iso) now t' Ht) as Hh. rewrite app_nil_r in Hh. apply Hh; [|done].
    split; [done|constructor]. }
  exists t'. split; [done|]. split; [done|].
  assert (forall i, i ∉ active t') as Hnone.
  { intros i [Hx Hn]%Ha. destruct (ht_active _ _ Ht i Hx) as [Hrange Hf].
    destruct (proj2 (zget_is_Some (chunks sd) i) Hrange) as [c Hz].
    destruct (tr_finished _ _ (ht_true _ _ Ht) i Hf (idle_finished got t i c Ht Hall Hq Hz Hf)) as [Hrep|]; [|done].
    unfold reported in Hrep. rewrite Htq in Hrep. cbn in Hrep. apply Hn.
    apply list_elem_of_fmap in Hrep as (r & -> & Hrr). apply list_elem_of_fmap_2, list_elem_of_filter.
    split; [|done]. pose proof (tr_passed _ _ (ht_true _ _ Ht)) as Hp. rewrite Forall_forall in Hp. by apply Hp. }
  split; [|done]. destruct (ht_state _ _ Ht) as [Hd|Hd].
  - apply Hc; [done|]. rewrite (ti_bytes _ _ _ _ _ Hi).
    rewrite (done_bytes_none sd Hseed) by auto. lia.
  - destruct (tick_fields _ _ _ _ Hr) as (_ & _ & F). by destruct (F (ht_dead _ _ Ht)) as [->|].
Qed.

(** The bytes that were fetched are the file's. *)
Lemma inactive_slice got t i c :
  honest_task got t -> zget (chunks sd) i = Some c -> i ∉ active t -> flagged bf i = false ->
  zslice (pl_mem (at_pools t)) (ce_offset c) (ce_length c) = zslice data (ce_offset c) (ce_length c).
Proof using Hseed Hentries Hdata.
  intros Ht Hc Hna Hf. pose proof (ti_pools _ _ _ _ _ (ht_inv _ _ Ht)) as Hp.
  destruct (pi_inactive _ _ _ _ _ Hp i c Hc Hna) as [_ [Hx|Hfin]]; [congruence|].
  pose proof (finished_slice _ _ i c 0 (ce_length c) Hp (ht_true _ _ Ht) Hc Hfin) as Hs.
  rewrite Z.add_0_r in Hs. apply Hs; lia.
Qed.
End honest.

Lemma started_honest sha256 speed sd bf data mem t :
  seed_consistent sd -> describes sha256 sd data -> started sha256 sd bf mem t ->
  mgr_ok speed (ce_length <$> chunks sd) (active_chunks_ (sched_ (at_mgr t))) (at_mgr t) ->
  honest_task sha256 speed sd bf data [] t.
Proof.
  intros Hs Hd Hst Hm. pose proof (started_inv sha256 speed sd bf Hs mem t Hst Hm) as Hi.
  pose proof Hst as [S1 S2 [P1 P2 P3 [n P4] P5 P6] S4 _ S6 _ _ _ Hdead].
  assert (forall i a, zget (pl_assemblers (at_pools t)) i = Some a -> exists c, asm_fresh (zlength mem) a c) as Hfresh.
  { intros i a [_ Ha]%zget_Some. destruct (Forall2_lookup_l _ _ _ _ _ P3 Ha) as (c & _ & ?). by eauto. }
  split; try done; [| |by intros i; apply S6|by left].
  - split; try done.
    + by rewrite P2, S4, (ds_size _ _ _ Hd).
    + intros i c s _ (a & Ha & Hm'). destruct (Hfresh i a Ha) as (c' & _ & b & ->).
      cbn in Hm'. by rewrite slot_done_zeros in Hm'.
    + intros i _ Hf. unfold finished in Hf. destruct (zget _ i) as [a|] eqn:Ha; [|done].
      destruct (Hfresh i a Ha) as (c' & Hc'). apply asm_fresh_counted in Hc' as [_ Hn]. by injection Hf.
    + by rewrite P6.
  - split; [|by intros x ?%not_elem_of_nil]. intros x (i & q & [_ Hi']%zget_Some & Hx). rewrite P4 in Hi'.
    apply lookup_replicate_1 in Hi' as [-> _]. by apply not_elem_of_nil in Hx.
Qed.

(** A file made of its chunks. *)
Lemma covers_find cs : forall off size k,
  covers off size cs -> off <= k < size ->
  exists i c, zget cs i = Some c /\ ce_offset c <= k < ce_offset c + ce_length c.
Proof.
  induction cs as [|c cs IH]; intros off size k; cbn; [lia|]. intros (Eo & Hl & Ht) Hk.
  destruct (Z.ltb_spec k (ce_offset c + ce_length c)); [exists 0, c; split; [done|lia]|].
  destruct (IH _ _ k Ht) as (i & d & Hd & ?); [lia|]. exists (i + 1), d. split; [|done].
  apply zget_Some in Hd as [Hi Hd]. apply zget_Some. split; [lia|].
  by replace (Z.to_nat (i + 1)) with (S (Z.to_nat i)) by lia.
Qed.

Lemma slices_equal (mem data : bytes) cs :
  covers 0 (zlength data) cs -> zlength mem = zlength data ->
  (forall i c, zget cs i = Some c ->
     zslice mem (ce_offset c) (ce_length c) = zslice data (ce_offset c) (ce_length c)) -> mem = data.
Proof.
  intros Hc Hl Hs. apply list_eq. intros k. rewrite <-!zget_of_nat.
  destruct (Z.ltb_spec (Z.of_nat k) (zlength data)) as [Hk|Hk].
  - destruct (covers_find cs 0 _ (Z.of_nat k) Hc) as (i & c & Hi & Hr); [lia|]. pose proof (Hs i c Hi) as E.
    apply zget_Some in Hi as [_ Hi].
    destruct (covers_entry _ _ _ c Hc) as (? & ? & ?); [by eapply list_elem_of_lookup_2|].
    apply (f_equal (fun l => zget l (Z.of_nat k - ce_offset c))) in E.
    rewrite !zget_zslice in E by lia. by replace (ce_offset c + _) with (Z.of_nat k) in E by lia.
  - rewrite !zget_of_nat, !lookup_ge_None_2; [done|unfold zlength in *; lia..].
Qed.

(** What remains to be done for a task that has received everything. *)
Lemma received_completes sha256 inet_addr speed sd bf data got t :
  seed_consistent sd -> Forall entry_ok (chunks sd) -> describes sha256 sd data ->
  honest_task sha256 speed sd bf data got t -> all_received sd bf got ->
  (forall n t', nsteps (thread_step sha256 inet_addr) n t t' -> (n <= work t)%nat) /\
  forall t', rtc (thread_step sha256 inet_addr) t t' ->
    (exists t'', thread_step sha256 inet_addr t' t'') \/
    forall now iso, exists t'', tick_work t' now iso = Some t'' /\ at_state t'' = "complete"%string /\
      bytes_done t'' = file_size (header sd) /\
      (forall i c, zget (chunks sd) i = Some c -> flagged bf i = false ->
         zslice (pl_mem (at_pools t'')) (ce_offset c) (ce_length c) = zslice data (ce_offset c) (ce_length c)) /\
      ((forall i, flagged bf i = false) -> pl_mem (at_pools t'') = data).
Proof.
  intros Hs He Hd Ht Hall.
  split.
  { intros n t' Hn. pose proof (thread_steps_bounded sha256 inet_addr speed sd bf data Hs He Hd got t n t' Ht Hn). lia. }
  intros t' Hsteps.
  assert (honest_task sha256 speed sd bf data got t') as Ht'.
  { revert Ht. clear -Hs He Hd Hsteps. induction Hsteps as [|t1 t2 t3 H12 _ IH]; [done|].
    intros Ht1. by apply IH, (thread_step_honest sha256 inet_addr speed sd bf data Hs He Hd got t1 t2). }
  destruct (no_step_idle sha256 inet_addr speed sd bf data Hs He Hd got t' Ht') as [?|[Htq Hq]]; [by left|].
  right. intros now iso.
  destruct (idle_tick sha256 inet_addr speed sd bf data Hs He Hd got t' now iso Ht' Hall Htq Hq)
    as (t'' & Hr & Hh & Hc & Hnone).
  assert (forall i c, zget (chunks sd) i = Some c -> flagged bf i = false ->
    zslice (pl_mem (at_pools t'')) (ce_offset c) (ce_length c) = zslice data (ce_offset c) (ce_length c)) as Hsl
    by (intros i c Hi; by apply (inactive_slice sha256 speed sd bf data Hs He Hd got)).
  exists t''. split_and!; [done|done| |done|].
  - rewrite (ti_bytes _ _ _ _ _ (ht_inv _ _ _ _ _ _ _ Hh)). apply (done_bytes_none sd Hs). by intros i _.
  - intros Hf. apply (slices_equal _ _ (chunks sd)).
    + rewrite (ds_size _ _ _ Hd). apply Hs.
    + apply Hh.
    + intros i c Hi. by apply (Hsl i).
Qed.


(** The sub-blocks a serving session delivers are genuine. *)
Lemma fetched_genuine sd data i c seeder leecher sc now b t :
  seed_consistent sd -> zlength data = file_size (header sd) -> zget (chunks sd) i = Some c ->
  regular_chunk data (ce_offset c) (ce_length c) -> ce_length c < 2 ^ 32 -> is_u32 i ->
  0 <= b < ce_length c -> b mod SUB_BLOCK_SIZE = 0 ->
  seeder_ready seeder i (ce_offset c) -> io_pool_ leecher = true -> sched_fine sc ->
  fetch_subblock data seeder leecher sc now i b = Some t -> genuine sd data t.
Proof.
  intros Hs Hsz Hc (Ho & Hl & Hf & H64 & Hreg) Hu Hi Hb Hmod Hr Hio Hsc Hft.
  assert (is_u32 b) as Hbu by (unfold is_u32; lia).
  assert (ce_offset c + b < zlength data < 2 ^ 64) as Hlt by lia.
  pose proof (fetch_subblock_spec data seeder leecher sc now i _ b Hi Hbu Ho Hlt Hr Hio Hsc) as Hsp.
  rewrite Hft in Hsp. injection Hsp as ->. exists c. cbn. split_and!; [done|lia|lia|done|].
  rewrite (subblock_slice data (ce_offset c) (ce_length c) SUB_BLOCK_SIZE b) by done.
  apply zslice_zslice; [lia|lia|..]; unfold slot_len, SUB_BLOCK_SIZE in *; Z.div_mod_to_equations; lia.
Qed.

(** ** An instance *)
(** The second chunk of "ab" is missing; a peer connects and sends it. *)
Definition demo_accept : task_op := TNet (MAccept true (Some ("10.0.0.2"%string, 5000))).
Definition demo_send : task_op := TNet (MMessage 0 (msg_code PIECE) (piece_payload 1 0 [Byte.x62])).
Definition demo_got : PieceTask := {|
  pt_chunk_idx := 1; pt_begin := 0; pt_length := 1; pt_peer_slot := 0; pt_data := [Byte.x62];
|}.
Definition no_addr : string -> Z := fun _ => 0.

Definition demo_resumed : option ActiveTask := demo_add [Byte.x61; Byte.xff].
Definition demo_connected : option ActiveTask :=
  t ← demo_resumed; run_task demo_sha no_addr t demo_accept 0.
Definition demo_sent : option ActiveTask :=
  t ← demo_connected; run_task demo_sha no_addr t demo_send 0.

Lemma demo_describes : describes demo_sha demo_old_seed [Byte.x61; Byte.x62].
Proof. split; [done|]. repeat constructor. Qed.

Lemma demo_reach t0 t : demo_resumed = Some t0 -> demo_sent = Some t ->
  honest_reach demo_sha no_addr demo_old_seed [true; false] [Byte.x61; Byte.x62] t0 [demo_got] t.
Proof.
  intros H0 Ht. unfold demo_sent in Ht. destruct demo_connected as [t1|] eqn:H1; [|done].
  cbn [mbind option_bind] in Ht.
  assert ((fun t => next_slot_id_ (at_mgr t)) <$> demo_resumed = Some 0) as E0 by (vm_compute; reflexivity).
  assert (handed_by no_addr t0 demo_accept 0 = []) as G0 by done.
  assert ((fun t => (next_slot_id_ (at_mgr t), handed_by no_addr t demo_send 0)) <$> demo_connected =
    Some (1, [demo_got])) as E1 by (vm_compute; reflexivity).
  rewrite H0 in E0. rewrite H1 in E1. injection E0 as E0. injection E1 as E1 G1.
  change (handed_by no_addr t1 demo_send 0 = [demo_got]) in G1.
  unfold demo_connected in H1. rewrite H0 in H1. cbn [mbind option_bind] in H1.
  change [demo_got] with (([] ++ []) ++ [demo_got]). rewrite <-G1. rewrite <-G0 at 2.
  eapply honest_next; [eapply honest_next; [constructor| |exact H1]| |exact Ht]; split.
  - split; [done|]. cbn -[Z.pow]. rewrite E0. lia.
  - rewrite G0. constructor.
  - split; [done|]. split; [|done]. rewrite E1. change (zlength _) with 9. lia.
  - rewrite G1. constructor; [|constructor]. split; [|done].
    exists (demo_chunk 1 Byte.x62). split_and!; [reflexivity|cbn; lia|cbn; lia|reflexivity|vm_compute; reflexivity].
Qed.

Lemma demo_received : all_received demo_old_seed [true; false] [demo_got].
Proof.
  intros i c b Hc Hf Hb _. exists demo_got. split; [by left|]. cbn.
  assert (i = 0 \/ i = 1) as [-> | ->] by (apply zget_range in Hc; unfold zlength in Hc; cbn in Hc; lia).
  - done.
  - injection Hc as <-. cbn in Hb. split; [done|lia].
Qed.

