(* ===== verification/Serving.v ===== *)
(** * Tasks that serve their file

    A seeding task, as [cmd_seed] of src/src/daemon/task_manager.cpp leaves it,
    and the sessions of its peer manager: whatever happens to them, they keep
    the descriptor and the chunk table they were given, and an idle writer has
    an empty queue.  So a request of a peer they do not choke is answered with
    the bytes of the file ([Transfer]), which is what a download needs
    ([Download]). *)

From S2P Require Import Prelude Text Json FileUtil Platform Hash Seed FastCDC Protocol ChunkAssembler SegmentIO Scheduler SchedulerProofs SchedulerSpec PeerSession PeerSessionSpec NetUtil Tracker PeerManager PeerManagerSpec Workers Transfer TaskManager TaskStart TaskRun Download.
Import OCamlLikeNotations.

(** ** What a session serves from *)
Definition serving_of (s : PeerSession) : bool * Z * option (list Z) * bool :=
  (io_pool_ s, file_fd_ s, chunk_offsets_ s, use_sendfile_ s).

Definition serving_set (m : PeerManager) : bool * Z * option (list Z) * bool :=
  (true, mgr_file_fd_ m, mgr_chunk_offsets_ m, mgr_sendfile_env m).

(** The session serves from [k], and an idle writer has nothing queued. *)
Definition prepared (k : bool * Z * option (list Z) * bool) (s : PeerSession) : Prop :=
  serving_of s = k /\ (is_writing_ s = false -> write_queue_ s = []).

Section sessions.
Context (k : bool * Z * option (list Z) * bool).
Implicit Types s : PeerSession.

Lemma prepared_same s s' :
  serving_of s' = serving_of s -> is_writing_ s' = is_writing_ s -> write_queue_ s' = write_queue_ s ->
  prepared k s -> prepared k s'.
Proof. intros H1 H2 H3 [H4 H5]. split; [congruence|]. rewrite H2, H3. done. Qed.

Lemma do_write_prepared s : serving_of s = k -> is_writing_ s = true -> prepared k (do_write s).
Proof. intros Hk Hw. unfold do_write. destruct (write_queue_ s) eqn:E; (split; [done|]); cbn; congruence. Qed.

Lemma send_message_prepared s b : prepared k s -> prepared k (send_message s b).
Proof.
  intros [H1 H2]. unfold send_message. cbv zeta. cbn [is_writing_ apply_update].
  destruct (is_writing_ s) eqn:E; [split; [done|cbn; congruence]|]. by apply do_write_prepared.
Qed.

Lemma disconnect_prepared s : prepared k s -> prepared k (disconnect s).
Proof.
  intros H. unfold disconnect. destruct (state_ s); [| |done]; cbn;
    destruct (on_disconnect_ s); by apply (prepared_same s).
Qed.

Lemma write_done_prepared s ok : prepared k s -> prepared k (write_done s ok).
Proof.
  intros H. unfold write_done. destruct (in_flight_ s) as [|m fl]; [done|]. destruct ok.
  - cbn. destruct (write_queue_ s) as [|x q] eqn:E; [by split; [apply H|]|].
    apply do_write_prepared; [apply H|]. cbn. destruct (is_writing_ s) eqn:Ew; [done|].
    destruct H as [_ H]. by rewrite H in E.
  - apply disconnect_prepared. by apply (prepared_same s).
Qed.

Lemma send_handshake_prepared s rnd : prepared k s -> prepared k (send_handshake s rnd).
Proof.
  intros H. unfold send_handshake. cbv zeta.
  eapply prepared_same; [..|apply (send_message_prepared s), H]; done.
Qed.

Lemma handshake_prepared s buf rnd now : prepared k s -> prepared k (handle_handshake s buf rnd now).
Proof.
  intros H. unfold handle_handshake. destruct buf as [b|]; [|by apply disconnect_prepared].
  destruct (parse_handshake b) as [h|]; [|by apply disconnect_prepared].
  case_bool_decide; [|by apply disconnect_prepared]. cbv zeta.
  set (s1 := { s with remote_speed_mbps_ := _; remote_listen_port_ := _ }).
  set (s2 := if handshake_sent_ s1 then s1 else send_handshake s1 rnd).
  assert (prepared k s2) as H2.
  { assert (prepared k s1) by (by apply (prepared_same s)).
    subst s2. destruct (handshake_sent_ s1); [done|by apply send_handshake_prepared]. }
  clearbody s2. unfold start_eval_timer. cbn. destruct (on_handshake_done_ s2); by apply (prepared_same s2).
Qed.

Lemma send_interested_prepared s s' : send_interested s = Some s' -> prepared k s -> prepared k s'.
Proof.
  unfold send_interested. destruct (am_interested_ s); [by intros [= ->]|].
  destruct build_interested as [b|]; [|done]. cbn [mbind option_bind]. intros [= <-] H.
  apply send_message_prepared. by apply (prepared_same s).
Qed.

Lemma interest_prepared s sc s' : interest_if_wanted s sc = Some s' -> prepared k s -> prepared k s'.
Proof.
  unfold interest_if_wanted. destruct sc as [sc|]; [|by intros [= ->]].
  destruct (wants_peer _ _); [apply send_interested_prepared|by intros [= ->]].
Qed.

Lemma pex_entries_prepared op n : forall s data, prepared k s -> prepared k (pex_entries op s data n).
Proof.
  induction n as [|n IH]; intros s data H; [done|]. cbn [pex_entries]. apply IH.
  unfold pex_entry. cbv zeta. destruct (_ && _);
    [destruct (on_pex_remove_ s)|destruct (_ && _)]; by apply (prepared_same s).
Qed.

Lemma piece_prepared s sc data now s' sc' :
  handle_piece_msg s sc data now = Some (s', sc') -> prepared k s -> prepared k s'.
Proof.
  unfold handle_piece_msg. destruct (_ || _); [by intros [= -> ->]|].
  destruct (read_u32 data 0) as [i|]; [|done]. destruct (read_u32 data 4) as [b|]; [|done].
  cbn [mbind option_bind]. cbv zeta. destruct (with_sched _ _) as [sc1|]; [|done]. cbn [mbind option_bind].
  intros [= <- <-] H. unfold dec_pending, note_response.
  destruct (0 <? _); cbn; destruct (pending_times_ s !! _); by apply (prepared_same s).
Qed.

Lemma request_prepared s data s' : handle_request_msg s data = Some s' -> prepared k s -> prepared k s'.
Proof.
  unfold handle_request_msg. destruct (choking_peer_ s); [by intros [= ->]|].
  destruct (read_u32 data 0), (read_u32 data 4), (read_u32 data 8); try done.
  cbn [mbind option_bind]. case_bool_decide; [by intros [= ->]|].
  destruct (0 <=? _); [|by intros [= ->]]. cbv zeta. intros Hs [H1 H2].
  destruct (_ && _); injection Hs as <-; by split.
Qed.

Lemma dispatch_prepared s sc id data now s' sc' :
  dispatch_message s sc id data now = Some (s', sc') -> prepared k s -> prepared k s'.
Proof.
  unfold dispatch_message. intros Hd H. destruct (msg_of_code id) as [m|]; [|by injection Hd as <-].
  destruct m.
  - injection Hd as <- _. by apply (prepared_same s).
  - destruct sc as [sc|]; [|injection Hd as <- _; by apply (prepared_same s)]. cbv zeta in Hd.
    destruct (if 0 <? _ then _ else _) as [s1|] eqn:E; [|done]. injection Hd as <- _.
    destruct (0 <? _); [eapply send_interested_prepared; [exact E|]|injection E as <-]; by apply (prepared_same s).
  - cbv zeta in Hd. destruct (choking_peer_ _); [|injection Hd as <- _; by apply (prepared_same s)].
    destruct (build_message _ _) as [b|]; [|done]. injection Hd as <- _.
    apply send_message_prepared. by apply (prepared_same s).
  - injection Hd as <- _. by apply (prepared_same s).
  - unfold handle_have_msg in Hd. destruct (read_u32 data 0) as [ci|]; [|done]. cbn [mbind option_bind] in Hd.
    destruct (with_sched _ _) as [sc1|]; [|done]. cbn [mbind option_bind] in Hd.
    destruct (interest_if_wanted _ _) as [s1|] eqn:E; [|done]. injection Hd as <- _.
    eapply interest_prepared; [exact E|]. unfold record_have. destruct (_ <? _); by apply (prepared_same s).
  - unfold handle_bitfield_msg in Hd. cbv zeta in Hd. destruct (with_sched _ _) as [sc1|]; [|done].
    cbn [mbind option_bind] in Hd. destruct (interest_if_wanted _ _) as [s1|] eqn:E; [|done].
    injection Hd as <- _. eapply interest_prepared; [exact E|]. by apply (prepared_same s).
  - destruct (handle_request_msg s data) as [s1|] eqn:E; [|done]. injection Hd as <- _.
    by eapply request_prepared.
  - by eapply piece_prepared.
  - unfold handle_cancel_msg in Hd. destruct (read_u32 data 0), (read_u32 data 4); try done.
    injection Hd as <- _. by apply (prepared_same s).
  - injection Hd as <- _. unfold handle_pex_msg. destruct (_ <? 3); [done|]. cbv zeta.
    destruct (_ <? _); [done|]. by apply pex_entries_prepared.
Qed.

Lemma read_done_prepared s j n data s' : read_done s j n data = Some s' -> prepared k s -> prepared k s'.
Proof.
  unfold read_done. destruct (closed_ s); [by intros [= ->]|]. destruct (_ && _); [|by intros [= ->]].
  destruct (if _ <=? _ then _ else _) as [body|]; [|done]. cbn [mbind option_bind].
  destruct (build_piece _ _ _) as [b|]; [|done]. cbn [mbind option_bind]. intros [= <-] H.
  apply send_message_prepared. by apply (prepared_same s).
Qed.

Lemma timeout_loop_prepared now es : forall s s',
  timeout_loop s now es = Some s' -> prepared k s -> prepared k s'.
Proof.
  induction es as [|[[ci begin] t] es IH]; intros s s'; cbn [timeout_loop]; [by intros [= ->]|].
  destruct (_ <=? _); [|apply IH]. destruct (build_cancel _ _ _) as [b|]; [|done]. cbn [mbind option_bind].
  cbv zeta. intros Hl H. apply (IH _ _ Hl). pose proof (send_message_prepared s b H) as H1.
  destruct (on_request_timeout_ _); by apply (prepared_same (send_message s b)).
Qed.

Lemma eval_prepared s sc now s' sc' :
  do_eval_tick s sc now = Some (s', sc') -> prepared k s -> prepared k s'.
Proof.
  unfold do_eval_tick. intros Hd H. destruct (negb _); [by injection Hd as <- _|].
  destruct (_ <? _); [by injection Hd as <- _|]. cbv zeta in Hd.
  destruct (timeout_loop _ _ _) as [s1|] eqn:E; [|done]. cbn [mbind option_bind] in Hd.
  assert (prepared k s1) as H1 by (eapply timeout_loop_prepared; [exact E|]; by apply (prepared_same s)).
  destruct (_ <=? _); [injection Hd as <- _; by apply disconnect_prepared|].
  destruct (next_cap _) as [cap|]; [|done]. cbn [mbind option_bind] in Hd.
  apply (prepared_same s1); [..|done];
    (destruct sc as [sc|]; [destruct (peer_slot _ _); [destruct (to_u32 _); [|done]|]|]);
    by injection Hd as <- _.
Qed.

Lemma update_rates_prepared now s s' : update_rates now s = Some s' -> prepared k s -> prepared k s'.
Proof.
  unfold update_rates, update_download_rate, update_upload_rate. cbv zeta.
  destruct (if 0 <? _ then _ else _) as [r|]; [|done]. cbn.
  destruct (if 0 <? _ then _ else _) as [r'|]; [|done]. cbn. intros [= <-]. by apply prepared_same.
Qed.
End sessions.

(** ** What a manager's sessions serve from *)
Section manager.
Context (inet_addr : string -> Z).
Implicit Types m : PeerManager.

Definition all_prepared (m : PeerManager) : Prop := Forall (prepared (serving_set m)) (sessions_ m).

(** What a manager is given at the start. *)
Definition given (m : PeerManager) : bool * Z * option (list Z) * bool * list bool :=
  (serving_set m, initial_bitfield_ m).

(** A step that keeps what is served. *)
Definition keeps (m m' : PeerManager) : Prop :=
  given m' = given m /\ (all_prepared m -> all_prepared m').

Lemma given_serving m m' : given m' = given m -> serving_set m' = serving_set m.
Proof. by intros [= ? ? ? ?]; unfold serving_set; congruence. Qed.

Lemma keeps_refl m : keeps m m.
Proof. done. Qed.

Lemma keeps_trans m1 m2 m3 : keeps m1 m2 -> keeps m2 m3 -> keeps m1 m3.
Proof. intros [H1 H2] [H3 H4]. split; [congruence|auto]. Qed.

Lemma keeps_sessions m m' : given m' = given m -> sessions_ m' = sessions_ m -> keeps m m'.
Proof. intros H1 H2. split; [done|]. unfold all_prepared. by rewrite (given_serving m m' H1), H2. Qed.

Lemma keeps_fmap m (f : PeerSession -> PeerSession) :
  (forall k s, prepared k s -> prepared k (f s)) -> keeps m { m with sessions_ ::= fmap f }.
Proof.
  intros Hf. split; [done|]. unfold all_prepared. cbn. intros H. apply Forall_fmap.
  eapply Forall_impl; [exact H|]. cbn. intros s. apply Hf.
Qed.

Lemma put_keeps m slot s s' :
  get_session m slot = Some s -> (forall k, prepared k s -> prepared k s') -> keeps m (put_session m slot s').
Proof.
  intros Hs Hf. split; [done|]. unfold all_prepared, put_session. cbn. intros H. apply Forall_fmap.
  apply get_session_Some in Hs as [Hin _]. pose proof H as H'. rewrite Forall_forall in H'.
  eapply Forall_impl; [exact H|]. intros x Hx. cbn. destruct (_ =? _); [|exact Hx]. by apply Hf, H'.
Qed.

Lemma apply_call_keeps m c now m' : apply_call m c now = Some m' -> keeps m m'.
Proof.
  destruct c as [slot ch b len|slot ch b len|ch| |slot]; cbn [apply_call]; intros Hc.
  - destruct (get_session m slot) as [s|] eqn:E; [|by injection Hc as <-].
    destruct (build_request _ _ _) as [x|]; [|done]. injection Hc as <-. apply (put_keeps m slot s); [done|].
    intros k Hk. apply (prepared_same k (send_message s x)); [done..|]. by apply send_message_prepared.
  - destruct (get_session m slot) as [s|] eqn:E; [|by injection Hc as <-].
    destruct (build_cancel _ _ _) as [x|]; [|done]. injection Hc as <-. apply (put_keeps m slot s); [done|].
    intros k Hk. unfold dec_pending. pose proof (send_message_prepared k s x Hk).
    destruct (0 <? _); by apply (prepared_same k (send_message s x)).
  - destruct (build_have _) as [x|]; [|done]. injection Hc as <-. apply keeps_fmap.
    intros k s. apply send_message_prepared.
  - destruct build_not_interested as [x|]; [|done]. injection Hc as <-. apply keeps_fmap.
    intros k s. apply send_message_prepared.
  - destruct (get_session m slot) as [s|] eqn:E; [|by injection Hc as <-].
    destruct (send_not_interested s) as [s'|] eqn:Es; [|done]. injection Hc as <-.
    apply (put_keeps m slot s); [done|]. intros k Hk. unfold send_not_interested in Es.
    destruct (negb _); [by injection Es as <-|]. destruct build_not_interested as [x|]; [|done].
    injection Es as <-. apply send_message_prepared. by apply (prepared_same k s).
Qed.

Lemma apply_calls_keeps cs now : forall m m', apply_calls m cs now = Some m' -> keeps m m'.
Proof.
  induction cs as [|c cs IH]; intros m m'; cbn [apply_calls]; [by intros [= ->]|].
  destruct (apply_call m c now) as [m1|] eqn:E; [|done]. cbn [mbind option_bind]. intros H.
  eapply keeps_trans; [by eapply apply_call_keeps|by apply IH].
Qed.

Lemma run_sched_keeps m f now m' : run_sched m f now = Some m' -> keeps m m'.
Proof.
  unfold run_sched. destruct (f (sched_ m)) as [sc|]; [|done]. cbn [mbind option_bind]. intros H.
  eapply keeps_trans; [|by eapply apply_calls_keeps]. by apply keeps_sessions.
Qed.

(** A new session is prepared. *)
Lemma new_session_prepared m now : prepared (serving_set m) (new_session m now).
Proof. split; reflexivity. Qed.

Lemma connected_keeps m s : prepared (serving_set m) s -> keeps m (on_peer_connected m s).
Proof.
  intros Hs. split; [done|]. unfold all_prepared, on_peer_connected. cbn. intros H. apply Forall_app.
  split; [exact H|]. constructor; [|constructor]. by apply (prepared_same _ s).
Qed.

Lemma start_inbound_prepared k s sock : prepared k s -> prepared k (start_inbound s sock).
Proof. by apply prepared_same. Qed.

Lemma start_outbound_prepared k s host port : prepared k s -> prepared k (start_outbound s host port).
Proof. by apply prepared_same. Qed.

Lemma connect_to_keeps m ip port flags now : keeps m (connect_to inet_addr m ip port flags now).
Proof.
  unfold connect_to. do 4 (case_match; [apply keeps_refl|]).
  apply connected_keeps, start_outbound_prepared, new_session_prepared.
Qed.

Lemma do_accept_keeps m ok sock now : keeps m (do_accept m ok sock now).
Proof.
  unfold do_accept. destruct ok; [|apply keeps_refl]. case_match; [apply keeps_refl|].
  apply connected_keeps, start_inbound_prepared, new_session_prepared.
Qed.

Lemma handshake_done_keeps m slot now m' : on_handshake_done inet_addr m slot now = Some m' -> keeps m m'.
Proof.
  unfold on_handshake_done. destruct (get_session m slot) as [s|] eqn:E; [|by intros [= ->]]. cbv zeta.
  set (m1 := note_recent_connect _ _ _ _).
  assert (keeps m m1 /\ get_session m1 slot = Some s) as [Hk Hs].
  { subst m1. unfold note_recent_connect. destruct (negb _); (split; [by apply keeps_sessions|done]). }
  clearbody m1. intros H. eapply keeps_trans; [exact Hk|].
  destruct (match initial_bitfield_ m1 with [] => _ | _ => _ end) as [s1|] eqn:E1; [|done].
  assert (forall k, prepared k s -> prepared k s1) as Hs1.
  { intros k Hk'. destruct (initial_bitfield_ m1); [by injection E1 as <-|].
    destruct (build_bitfield _) as [x|]; [|done]. injection E1 as <-. by apply send_message_prepared. }
  cbn [mbind option_bind] in H. destruct (match make_full_pex_list _ _ _ with [] => _ | _ => _ end) as [s2|] eqn:E2; [|done].
  cbn [mbind option_bind] in H. injection H as <-. apply (put_keeps m1 slot s); [done|]. intros k Hk'.
  specialize (Hs1 k Hk'). destruct (make_full_pex_list _ _ _); [by injection E2 as <-|].
  destruct (build_pex _ _) as [x|]; [|done]. injection E2 as <-. by apply send_message_prepared.
Qed.

Lemma handle_event_keeps m slot e now m' out : handle_event inet_addr m slot e now = Some (m', out) -> keeps m m'.
Proof.
  destruct e as [t|j|j|ip port flags|ip port|c b| |]; cbn [handle_event];
    try (by intros [= <- _]; apply keeps_sessions).
  - intros [= <- _]. unfold on_pex_peer. do 3 (case_match; [apply keeps_refl|]). apply connect_to_keeps.
  - destruct (on_handshake_done _ _ _ _) as [m1|] eqn:E; [|done]. intros [= <- _].
    by eapply handshake_done_keeps.
  - intros [= <- _]. destruct (get_session m slot) as [s|]; [|apply keeps_refl].
    assert (forall m1, sessions_ m1 = sessions_ m -> given m1 = given m ->
      keeps m { m1 with sessions_ ::= filter (fun x => slot_id_ x <> slot_id_ s) }) as H.
    { intros m1 H1 H2. split; [exact H2|]. intros H.
      change (Forall (prepared (serving_set m1)) (filter (fun x => slot_id_ x <> slot_id_ s) (sessions_ m1))).
      rewrite H1, (given_serving m m1 H2). eapply Forall_sublist; [apply sublist_filter|exact H]. }
    unfold on_peer_disconnected, note_recent_disconnect. cbv zeta. destruct (negb _); by apply H.
Qed.

Lemma handle_events_keeps slot es now : forall m m' out,
  handle_events inet_addr m slot es now = Some (m', out) -> keeps m m'.
Proof.
  induction es as [|e es IH]; intros m m' out; cbn [handle_events]; [by intros [= -> _]|].
  destruct (handle_event _ _ _ _ _) as [[m1 o1]|] eqn:E; [|done]. cbn [mbind option_bind].
  destruct (handle_events _ _ _ _ _) as [[m2 o2]|] eqn:E2; [|done]. intros [= <- _].
  eapply keeps_trans; [by eapply handle_event_keeps|by eapply IH].
Qed.

Lemma session_step_keeps m slot f now m' out :
  (forall k s sc s' sc', f s sc = Some (s', sc') -> prepared k s -> prepared k s') ->
  session_step inet_addr m slot f now = Some (m', out) -> keeps m m'.
Proof.
  intros Hf. unfold session_step. destruct (get_session m slot) as [s|] eqn:E; [|by intros [= -> _]].
  destruct (f s _) as [[s' sc]|] eqn:Ef; [|done]. cbn [mbind option_bind]. cbv zeta.
  destruct (run_sched _ _ _) as [m1|] eqn:Er; [|done]. cbn [mbind option_bind]. intros H.
  eapply keeps_trans; [|eapply keeps_trans; [by eapply run_sched_keeps|by eapply handle_events_keeps]].
  apply (put_keeps m slot s); [done|]. intros k. by eapply Hf.
Qed.

(** *** Choke rounds *)
Lemma set_choked_prepared k ss i v : Forall (prepared k) ss -> Forall (prepared k) (set_choked ss i v).
Proof.
  intros H. apply Forall_alter; [exact H|]. intros s _ Hs. by apply (prepared_same k s).
Qed.

Lemma tit_for_tat_prepared k order : forall ss n,
  Forall (prepared k) ss -> Forall (prepared k) (tit_for_tat_loop ss order n).
Proof.
  induction order as [|i order IH]; intros ss n H; [done|]. cbn [tit_for_tat_loop].
  destruct (0 <? n); [|done]. destruct (ss !! i) as [s|]; [|by apply IH].
  destruct (peer_interested_ s); apply IH; [by apply set_choked_prepared|done].
Qed.

Lemma optimistic_prepared k order : forall ss,
  Forall (prepared k) ss -> Forall (prepared k) (optimistic_loop ss order).
Proof.
  unfold optimistic_loop. induction order as [|i order IH]; intros ss H; [done|]. cbn [fold_left].
  by apply IH, set_choked_prepared.
Qed.

Lemma anti_starvation_prepared k order : forall ss n,
  Forall (prepared k) ss -> Forall (prepared k) (anti_starvation_loop ss order n).
Proof.
  induction order as [|i order IH]; intros ss n H; [done|]. cbn [anti_starvation_loop].
  destruct (n =? 0); [done|]. destruct (ss !! i) as [s|]; [|by apply IH].
  destruct (_ && _); apply IH; [by apply set_choked_prepared|done].
Qed.

Lemma mapM_prepared k (f : PeerSession -> option PeerSession) ss ss' :
  (forall s s', f s = Some s' -> prepared k s -> prepared k s') ->
  mapM f ss = Some ss' -> Forall (prepared k) ss -> Forall (prepared k) ss'.
Proof.
  intros Hf H%mapM_Some. induction H as [|s s' ss ss' Hs _ IH]; [done|].
  intros [Hx Hxs]%Forall_cons. constructor; [by eapply Hf|auto].
Qed.

Lemma tick_choke_keeps m shuffle now m' : tick_choke m shuffle now = Some m' -> keeps m m'.
Proof.
  unfold tick_choke. destruct (sessions_ m) as [|s0 ss0] eqn:E; [by intros [= ->]|]. rewrite <-E. cbv zeta.
  destruct (mapM (update_rates now) _) as [ss|] eqn:E1; [|done]. cbn [mbind option_bind].
  destruct (mapM _ (choose_unchoked _ _ _)) as [ss'|] eqn:E2; [|done]. cbn [mbind option_bind].
  intros [= <-]. split; [done|]. unfold all_prepared. intros H.
  change (Forall (prepared (serving_set m)) ss').
  eapply mapM_prepared; [|exact E2|].
  { cbn beta. intros s s'. destruct (choke_message s) as [b|]; [|done]. intros [= <-]. apply send_message_prepared. }
  unfold choose_unchoked. cbv zeta. apply anti_starvation_prepared, optimistic_prepared, tit_for_tat_prepared.
  eapply mapM_prepared; [|exact E1|]; [intros s s'; apply update_rates_prepared|].
  apply Forall_fmap. eapply Forall_impl; [exact H|]. intros s. by apply prepared_same.
Qed.

Lemma tick_pex_keeps m now m' : tick_pex inet_addr m now = Some m' -> keeps m m'.
Proof.
  unfold tick_pex. cbv zeta. destruct (_ ++ _) as [|p delta]; [intros [= <-]; by apply keeps_sessions|].
  destruct (build_pex _ _) as [b|]; [|done]. cbn [mbind option_bind]. intros [= <-].
  apply (keeps_trans m (to_all m b)); [|by apply keeps_sessions].
  apply keeps_fmap. intros k s. apply send_message_prepared.
Qed.

Lemma run_mgr_keeps m o now m' out : run_mgr inet_addr m o now = Some (m', out) -> keeps m m'.
Proof.
  destruct o; cbn [run_mgr];
    try (intros H; eapply session_step_keeps; [|exact H]; cbn; intros k s sc s' sc'); clear.
  - intros [= <- _]. apply do_accept_keeps.
  - intros [= <- _]. apply connect_to_keeps.
  - intros [= <- _] Hs. unfold connect_done. destruct ok; [|by apply disconnect_prepared].
    apply send_handshake_prepared. by apply (prepared_same k s).
  - intros [= <- _]. apply handshake_prepared.
  - apply dispatch_prepared.
  - intros [= <- _]. apply disconnect_prepared.
  - intros [= <- _]. apply write_done_prepared.
  - destruct (read_done s j n data) as [s1|] eqn:E; [|done]. intros [= <- _]. by eapply read_done_prepared.
  - apply eval_prepared.
  - destruct (run_sched _ _ _) as [m1|] eqn:E; [|done]. intros [= <- _]. by eapply run_sched_keeps.
  - destruct (run_sched _ _ _) as [m1|] eqn:E; [|done]. intros [= <- _]. by eapply run_sched_keeps.
  - destruct (run_sched _ _ _) as [m1|] eqn:E; [|done]. intros [= <- _]. by eapply run_sched_keeps.
  - destruct (tick_pex _ _ _) as [m1|] eqn:E; [|done]. intros [= <- _]. by eapply tick_pex_keeps.
  - destruct (tick_choke _ _ _) as [m1|] eqn:E; [|done]. intros [= <- _]. by eapply tick_choke_keeps.
Qed.
End manager.

(** ** A seeding task *)
Section seeding.
Context (sha256 sha1 : bytes -> bytes) (inet_addr : string -> Z) (resolves : text -> bool).
Context `{JsonReader}.

(** The pools of a seeding task: no assembler has an address, nothing is
    written and nothing verified. *)
Record pools_idle (sd : TSeedFile) (p : Pools) : Prop := {
  idle_len : length (pl_assemblers p) = length (chunks sd);
  idle_base : Forall (fun a => base_ a = None /\ sub_block_size_ a = SUB_BLOCK_SIZE) (pl_assemblers p);
  idle_queues : io_queues_ p <> [];
  idle_pieces : Forall (Forall (fun t => 0 <= pt_chunk_idx t < zlength (chunks sd))) (io_queues_ p);
  idle_tasks : task_queue_ p = [];
  idle_results : result_queue_ p = [];
}.

Record seeding (e : cmd_env) (sd : TSeedFile) (t : ActiveTask) : Prop := {
  se_seed : at_seed t = sd;
  se_state : at_state t = "seeding"%string;
  se_pools : pools_idle sd (at_pools t);
  se_mgr : mgr_ok (env_speed e) (ce_length <$> chunks sd) [] (at_mgr t);
  se_serving : serving_set (at_mgr t) =
    (true, sys_fd (env_open e), Some (ce_offset <$> chunks sd), env_sendfile e);
  se_sessions : all_prepared (at_mgr t);
}.

Lemma announce_seeding e tm sd t :
  seeding e sd t -> seeding e sd (announce_task_now resolves tm t).1 /\
  task_id (announce_task_now resolves tm t).1 = task_id t /\
  (announce_task_now resolves tm t).2 =
    if resolves (announce_target tm sd).1 then None else Some (ClientFailed ResolveFailed).
Proof.
  intros [H1 H2 H3 H4 H5 H6]. unfold announce_task_now.
  rewrite H1. destruct (announce_target tm sd) as [host port]. cbv zeta. unfold client_announce, do_announce.
  cbn [fst]. destruct (resolves host); by split_and!; [split|..].
Qed.

Lemma start_pools_idle sd cores :
  exists p, start_pools (chunks sd) ((fun c => assembler_init None (ce_length c) SUB_BLOCK_SIZE) <$> chunks sd)
    [] cores = Some p /\ pools_idle sd p.
Proof.
  unfold start_pools, io_start. pose proof (io_threads_range cores) as Hr.
  replace (_ && _) with true by lia. eexists. split; [done|]. split; cbn; try done.
  - by rewrite length_fmap.
  - apply Forall_fmap, Forall_true. done.
  - destruct (Z.to_nat (io_threads cores)) eqn:E; [lia|done].
  - apply Forall_replicate. constructor.
Qed.

Lemma cmd_seed_starts fs tm e seed_path file_path sd :
  read_tseed sha256 sha1 (fs !! seed_path) = Ok sd -> seed_consistent sd ->
  exists tm' r, cmd_seed sha256 sha1 inet_addr resolves fs tm e seed_path file_path = Some (fs, tm', r) /\
    (tm' = tm /\ (sys_fd (env_open e) < 0 /\ r = Replied (error_reply "cannot open file for seeding") \/
                  env_bind_ok e = false /\ r = Threw BindFailed) \/
     0 <= sys_fd (env_open e) /\ r = accepted resolves tm sd (id_reply (env_tid e)) /\
     exists t, tasks_ tm' = <[env_tid e := t]> (tasks_ tm) /\ seeding e sd t).
Proof.
  intros Hr Hc. destruct (read_tseed_typed sha256 sha1 _ _ Hr) as [_ _ _ _ _ _ Hok].
  unfold cmd_seed. rewrite Hr. destruct (Z.ltb_spec (sys_fd (env_open e)) 0) as [Hfd|Hfd].
  { do 2 eexists. split; [done|]. left. split; [done|]. by left. }
  cbv zeta. destruct (start_pools_idle sd (env_cores e)) as (p & -> & Hp). cbn [mbind option_bind].
  destruct (env_bind_ok e) eqn:Eb; cbn [negb]; [|do 2 eexists; split; [done|]; left; split; [done|]; by right].
  set (full := replicate (length (chunks sd)) true).
  destruct (start_manager_ok inet_addr tm e sd false true full (sys_fd (env_open e)) Hok Hc)
    as (Hm & _ & Ha); [done|by unfold full; rewrite length_replicate|done|].
  set (m := start_manager _ _ _ _ _ _ _) in *.
  assert (active_chunks_ (sched_ m) = []) as Hact.
  { destruct (active_chunks_ (sched_ m)) as [|i l]; [done|]. destruct (proj1 (Ha i)) as [Hi Hfi]; [by left|].
    unfold flagged, full in Hfi. rewrite zget_replicate in Hfi.
    replace (_ && _) with true in Hfi by (unfold zlength in Hi; lia). done. }
  rewrite Hact in Hm. unfold store_task. set (t := new_task _ _ _ _ _ _ _ _ _ _).
  assert (seeding e sd t) as Ht by (split; try done; constructor).
  destruct (announce_seeding e tm sd t Ht) as (Ht' & Hid & Herr).
  destruct (announce_task_now resolves tm t) as [t' err]. cbn in Ht', Hid, Herr. subst err.
  do 2 eexists. split; [done|]. right. split; [done|]. unfold accepted.
  destruct (resolves _); (split; [done|]); exists t'; by rewrite Hid.
Qed.

(** *** Everything that happens to it *)
Lemma idle_dispatch sd p x :
  pools_idle sd p -> 0 <= pt_chunk_idx x < zlength (chunks sd) ->
  exists p', io_dispatch p x = Some p' /\ pools_idle sd p'.
Proof using.
  intros [H1 H2 H3 H4 H5 H6] Hx. unfold io_dispatch. cbv zeta.
  assert (0 < zlength (io_queues_ p)) as Hn by (destruct (io_queues_ p); [done|unfold zlength; simpl; lia]).
  replace (_ =? 0) with false by lia.
  assert (0 <= worker_of x (zlength (io_queues_ p)) < zlength (io_queues_ p)) as Hw
    by (apply Z.mod_pos_bound; lia).
  destruct (proj2 (zget_is_Some (io_queues_ p) _) Hw) as [q Hq]. rewrite Hq. cbn [mbind option_bind].
  rewrite zset_zupd by done. cbn [mbind option_bind]. eexists. split; [done|]. split; cbn; try done.
  - intros Hz. apply H3. apply (f_equal length) in Hz. rewrite length_zupd in Hz. by destruct (io_queues_ p).
  - apply Forall_zupd; [done|]. apply Forall_app. split; [|by constructor].
    apply zget_Some in Hq as [_ Hq]. by apply (Forall_lookup_1 _ _ _ _ H4 Hq).
Qed.

Lemma idle_dispatch_all sd xs : forall p,
  pools_idle sd p -> Forall (fun x => 0 <= pt_chunk_idx x < zlength (chunks sd)) xs ->
  exists p', TaskRun.dispatch_all p xs = Some p' /\ pools_idle sd p'.
Proof using.
  induction xs as [|x xs IH]; intros p Hp Hxs; cbn [TaskRun.dispatch_all]; [by eauto|].
  apply Forall_cons in Hxs as [Hx Hxs]. destruct (idle_dispatch sd p x Hp Hx) as (p1 & -> & Hp1). by apply IH.
Qed.

Lemma idle_io_step sd p i :
  pools_idle sd p -> exists p', io_worker_step p i = Some p' /\ pools_idle sd p'.
Proof using.
  intros Hp. pose proof Hp as [H1 H2 H3 H4 H5 H6]. unfold io_worker_step.
  destruct (zget (io_queues_ p) i) as [[|x q]|] eqn:E; [by eauto| |by eauto].
  rewrite zset_zupd by (by eapply zget_range). cbn [mbind option_bind]. apply zget_Some in E as [_ E].
  pose proof (Forall_lookup_1 _ _ _ _ H4 E) as [Hx Hq]%Forall_cons. unfold process_piece. cbn.
  destruct (proj2 (zget_is_Some (pl_assemblers p) (pt_chunk_idx x))) as [a Ha]; [unfold zlength in *; lia|].
  apply zget_Some in Ha as Hl. destruct Hl as [_ Hl].
  destruct (Forall_lookup_1 _ _ _ _ H2 Hl) as [Hb Hs]. rewrite Ha. cbn [mbind option_bind].
  unfold on_piece. rewrite Hb, Hs. cbn [mbind option_bind]. change (SUB_BLOCK_SIZE =? 0) with false. cbn iota.
  cbn [mbind option_bind]. rewrite zset_zupd by (by eapply zget_range). cbn [mbind option_bind].
  eexists. split; [done|]. split; cbn; try done.
  - by rewrite length_zupd.
  - by apply Forall_zupd.
  - intros Hz. apply H3. apply (f_equal length) in Hz. rewrite length_zupd in Hz. by destruct (io_queues_ p).
  - by apply Forall_zupd.
Qed.

(** The pieces handed over name chunks there are. *)
Definition seed_fits (sd : TSeedFile) (t : ActiveTask) (o : task_op) (now : Z) : Prop :=
  match o with
  | TNet o => verifies o = false /\ mgr_fits (at_mgr t) o now /\
    forall m out, run_mgr inet_addr (at_mgr t) o now = Some (m, out) ->
      Forall (fun x => 0 <= pt_chunk_idx x < zlength (chunks sd)) (handed out)
  | _ => True
  end.

Inductive seed_reach (sd : TSeedFile) (t0 : ActiveTask) : ActiveTask -> Prop :=
| seed_here : seed_reach sd t0 t0
| seed_next t o now t' :
    seed_reach sd t0 t -> seed_fits sd t o now -> run_task sha256 inet_addr t o now = Some t' ->
    seed_reach sd t0 t'.

Lemma seed_tick e sd t now iso :
  seed_consistent sd -> Forall entry_ok (chunks sd) -> seeding e sd t ->
  exists t', tick_work t now iso = Some t' /\ seeding e sd t'.
Proof using inet_addr.
  intros Hc Hok [H1 H2 H3 H4 H5 H6]. unfold tick_work.
  destruct (run_sched_event inet_addr (env_speed e) sd Hc Hok [] (at_mgr t) MSchedTick
    (fun sc => sched_tick sc (now_ms now)) now H4 I) as (m & act' & Hr & Hm & ->); [done|].
  rewrite Hr. cbn [mbind option_bind]. unfold drain_results. rewrite (idle_results _ _ H3).
  cbn [take_results mbind option_bind]. eexists. split; [done|]. unfold check_complete. cbn.
  rewrite H2, bool_decide_eq_false_2, !andb_false_r by done. cbn.
  destruct (run_sched_keeps _ _ _ _ Hr) as [Hs%given_serving Hp].
  split; cbn; try done; [|by rewrite Hs|by apply Hp].
  destruct H3 as [P1 P2 P3 P4 P5 P6]. by split.
Qed.

Lemma seed_step e sd t o now :
  seed_consistent sd -> Forall entry_ok (chunks sd) -> seeding e sd t -> seed_fits sd t o now ->
  exists t', run_task sha256 inet_addr t o now = Some t' /\ seeding e sd t'.
Proof using.
  intros Hc Hok Ht Hf. pose proof Ht as [H1 H2 H3 H4 H5 H6].
  destruct o as [o|i| |iso|c dead]; cbn [run_task seed_fits] in *.
  - destruct Hf as (Hv & Hf & Hp). destruct (sizes_ok sd Hc Hok) as [Hn Hz].
    destruct (run_mgr_session_ok inet_addr _ _ _ _ o now Hn Hz H4 Hf Hv) as (m & out & Hr & Hm).
    rewrite Hr. cbn [mbind option_bind].
    destruct (idle_dispatch_all sd _ _ H3 (Hp m out Hr)) as (p & -> & Hp'). cbn [mbind option_bind].
    destruct (run_mgr_keeps inet_addr _ _ _ _ _ Hr) as [Hs%given_serving Hpr].
    eexists. split; [done|]. split; cbn; try done; [by rewrite Hs|by apply Hpr].
  - destruct (idle_io_step sd _ i H3) as (p & -> & Hp). eexists. split; [done|]. by split.
  - unfold verify_step. rewrite (idle_tasks _ _ H3). eexists. split; [done|]. by split.
  - by apply seed_tick.
  - eexists. split; [done|]. by split.
Qed.

Lemma seed_reach_inv e sd t0 t :
  seed_consistent sd -> Forall entry_ok (chunks sd) -> seeding e sd t0 -> seed_reach sd t0 t -> seeding e sd t.
Proof using.
  intros Hc Hok H0. induction 1 as [|t o now t' _ IH Hf Hr]; [done|].
  destruct (seed_step e sd t o now Hc Hok IH Hf) as (t1 & Hr1 & Ht1). congruence.
Qed.

(** A session of a seeding task that is open and does not choke its peer is
    ready to serve. *)
Lemma seeding_ready e sd t s i c :
  seeding e sd t -> 0 <= sys_fd (env_open e) -> env_sendfile e = false -> s ∈ sessions_ (at_mgr t) ->
  closed_ s = false -> choking_peer_ s = false -> (forall b, (i, b) ∉ cancelled_set_ s) ->
  zget (chunks sd) i = Some c -> seeder_ready s i (ce_offset c).
Proof using.
  intros [H1 H2 H3 H4 H5 H6] Hfd Hsf Hs Hcl Hch Hca Hc. unfold all_prepared in H6. rewrite Forall_forall in H6.
  destruct (H6 s Hs) as [Hk Hw]. rewrite H5 in Hk. unfold serving_of in Hk. injection Hk as K1 K2 K3 K4.
  split; try done; [by rewrite K2|congruence|]. exists (ce_offset <$> chunks sd).
  by rewrite zget_fmap, Hc.
Qed.

Lemma seeding_answers e sd data t s i c b leecher sc now :
  seed_consistent sd -> Forall entry_ok (chunks sd) -> zlength data = file_size (header sd) ->
  seeding e sd t -> 0 <= sys_fd (env_open e) -> env_sendfile e = false ->
  s ∈ sessions_ (at_mgr t) -> closed_ s = false ->
  choking_peer_ s = false -> (forall b, (i, b) ∉ cancelled_set_ s) ->
  zget (chunks sd) i = Some c -> regular_chunk data (ce_offset c) (ce_length c) ->
  0 <= b < ce_length c -> b mod SUB_BLOCK_SIZE = 0 -> io_pool_ leecher = true -> sched_fine sc ->
  exists x, fetch_subblock data s leecher sc now i b = Some x /\ genuine sd data x /\
    pt_chunk_idx x = i /\ pt_begin x = b.
Proof using.
  intros Hc Hok Hsz Ht Hfd Hsf Hs Hcl Hch Hca Hi Hreg Hb Hmod Hio Hsc.
  pose proof (seeding_ready e sd t s i c Ht Hfd Hsf Hs Hcl Hch Hca Hi) as Hready.
  apply zget_Some in Hi as Hl. destruct Hl as [Hi0 Hl].
  pose proof (Forall_lookup_1 _ _ _ _ Hok Hl) as (_ & Hlen & _). pose proof (zget_range _ _ _ Hi) as Hr'.
  pose proof (sc_count _ Hc) as Hcount.
  assert (is_u32 i) as Hiu by (unfold is_u32, UINT32_MAX in *; lia).
  pose proof Hreg as (Ho & _ & Hf & H64 & _).
  assert (is_u32 b) as Hbu by (unfold is_u32 in *; lia).
  assert (ce_offset c + b < zlength data < 2 ^ 64) as Hlt by lia.
  pose proof (fetch_subblock_spec data s leecher sc now i _ b Hiu Hbu Ho Hlt Hready Hio Hsc) as Hfetch.
  eexists. split; [exact Hfetch|]. split; [|split; reflexivity].
  eapply fetched_genuine; [exact Hc|exact Hsz|exact Hi|exact Hreg|unfold is_u32 in Hlen; lia|exact Hiu|exact Hb|
    exact Hmod|exact Hready|exact Hio|exact Hsc|exact Hfetch].
Qed.

End seeding.

