(* ===== verification/Ipc.v ===== *)
(** * Commands (src/src/daemon/ipc_server.hpp, ipc_server.cpp,
    src/src/cli/tbt.cpp, cli_update of cli_commands.cpp)

    The command line tool sends one line of JSON; the server searches it for
    the fields it needs, calls the task manager and answers with one line of
    JSON.  Doubles are printed as [std::ostream] prints them by default (%g
    with six digits).  [what] gives the messages of exceptions, which only
    show up in error replies. *)

From Stdlib Require Import Ascii Floats.SpecFloat.
From S2P Require Import Prelude Text Json FileUtil Seed Protocol PeerSession Tracker Workers TaskManager TaskStart.
Import OCamlLikeNotations.

(** ** Printing doubles *)
(** The position of the first digit of [num / den]; 700 turns suffice for a
    double. *)
Fixpoint dec_exponent (fuel : nat) (num den x : Z) : Z :=
  match fuel with
  | O => x
  | S fuel =>
    if 10 * den <=? num then dec_exponent fuel num (10 * den) (x + 1)
    else if num <? den then dec_exponent fuel (10 * num) den (x - 1) else x
  end.

(** [num / den] to the nearest integer, ties to even. *)
Definition round_even (num den : Z) : Z :=
  let q := num / den in
  let r := num mod den in
  if (den <? 2 * r) || ((den =? 2 * r) && Z.odd q) then q + 1 else q.

(** Six significant digits and the position of the first. *)
Definition six_digits (num den : Z) : Z * Z :=
  let x := dec_exponent 700 num den 0 in
  let q := if x <=? 5 then round_even (num * 10 ^ (5 - x)) den else round_even num (den * 10 ^ (x - 5)) in
  if q =? 10 ^ 6 then (10 ^ 5, x + 1) else (q, x).

Fixpoint strip_zeros (s : text) : text :=
  match s with
  | [] => []
  | c :: s => match strip_zeros s with
              | [] => if decide (c = "0"%char) then [] else [c]
              | s' => c :: s'
              end
  end.

(** The fraction after a decimal point, if there is one. *)
Definition fraction (s : text) : text := match strip_zeros s with [] => [] | s => "."%char :: s end.

Definition print_finite (num den : Z) : text :=
  let '(q, x) := six_digits num den in
  let ds := print_dec q in
  if (-4 <=? x) && (x <? 6) then
    if 0 <=? x then take (Z.to_nat (x + 1)) ds ++ fraction (drop (Z.to_nat (x + 1)) ds)
    else "0"%char :: fraction (replicate (Z.to_nat (- x - 1)) "0"%char ++ ds)
  else
    take 1 ds ++ fraction (drop 1 ds) ++ txt (if x <? 0 then "e-" else "e+") ++
    (if Z.abs x <? 10 then ["0"%char] else []) ++ print_dec (Z.abs x).

Definition print_double (x : spec_float) : text :=
  match x with
  | S754_zero s => txt (if s then "-0" else "0")
  | S754_infinity s => txt (if s then "-inf" else "inf")
  | S754_nan => txt "nan"
  | S754_finite s m e =>
    (if s then ["-"%char] else []) ++
    (if 0 <=? e then print_finite (Z.pos m * 2 ^ e) 1 else print_finite (Z.pos m) (2 ^ (- e)))
  end.

(** ** The server *)
(** The string that follows the quoted key, a colon and a quote, up to the
    next quote. *)
Definition extract (request key : text) : text :=
  match find (quote :: key ++ quote :: ":"%char :: [quote]) request with
  | None => []
  | Some kp =>
    let vs := (kp + length key + 4)%nat in
    match find_from [quote] request vs with
    | None => []
    | Some ve => substr request vs (ve - vs)
    end
  end.

Definition str : text -> string := String.string_of_list_ascii.

Definition list_entry (i : TaskInfo) : text :=
  js "{'task_id':'" ++ txt (ti_task_id i) ++ js "','state':'" ++ txt (ti_state i) ++
  js "','progress':" ++ print_double (ti_progress i) ++ js ",'bytes_done':" ++ print_dec (ti_bytes_done i) ++
  js ",'speed_mib_s':" ++ print_double (ti_speed_mib_s i) ++ js ",'file_path':'" ++ txt (ti_file_path i) ++
  js "','seed_path':'" ++ txt (ti_seed_path i) ++ js "','started_at':'" ++ txt (ti_started_at i) ++
  js "','finished_at':'" ++ txt (ti_finished_at i) ++ js "'}".

Definition list_reply (infos : list TaskInfo) : text :=
  js "{'status':'ok','data':{'tasks':[" ++ commas (list_entry <$> infos) ++ txt "]}}".

Definition status_reply (i : TaskInfo) : text :=
  js "{'status':'ok','data':{'task_id':'" ++ txt (ti_task_id i) ++ js "','state':'" ++ txt (ti_state i) ++
  js "','progress':" ++ print_double (ti_progress i) ++ js ",'speed_mib_s':" ++
  print_double (ti_speed_mib_s i) ++ js ",'bytes_done':" ++ print_dec (ti_bytes_done i) ++
  js ",'file_path':'" ++ txt (ti_file_path i) ++ js "','seed_path':'" ++ txt (ti_seed_path i) ++
  js "','started_at':'" ++ txt (ti_started_at i) ++ js "','finished_at':'" ++ txt (ti_finished_at i) ++
  js "'}}".

(** The query form of [update]. *)
Definition task_status (tm : TaskManager) (task_id : text) : text :=
  match list_find (fun i => ti_task_id i = str task_id) (cmd_list tm) with
  | Some (_, i) => status_reply i
  | None => error_reply "task not found"
  end.

Section server.
Context (sha256 sha1 : bytes -> bytes) (inet_addr : string -> Z) (resolves : text -> bool).
Context (what : task_error -> text).

(** The reply to a command that may throw. *)
Definition answer (r : option (FileSystem * TaskManager * reply)) : option (FileSystem * TaskManager * text) :=
  '(fs, tm, rep) ← r;
  Some (fs, tm, match rep with
                | Replied t => t
                | Threw e => js "{'status':'error','error':'" ++ what e ++ js "'}"
                end).

Definition handle (fs : FileSystem) (tm : TaskManager) (e : cmd_env) (request : text)
  : option (FileSystem * TaskManager * text) :=
  let get key := extract request (txt key) in
  let cmd := get "cmd" in
  if decide (cmd = txt "seed") then
    answer (cmd_seed sha256 sha1 inet_addr resolves fs tm e (str (get "seed_path")) (str (get "file_path")))
  else if decide (cmd = txt "add") then
    let seed_path := get "seed_path" in
    if decide (seed_path = []) then Some (fs, tm, error_reply "missing seed_path")
    else
      let save_path := get "save_path" in
      let save_path := if decide (save_path = []) then txt "downloaded_file" else save_path in
      answer (cmd_add sha256 sha1 inet_addr resolves fs tm e (str seed_path) (str save_path))
  else if decide (cmd = txt "list") then Some (fs, tm, list_reply (cmd_list tm))
  else if decide (cmd = txt "remove") then
    let '(tm, r) := cmd_remove tm (str (get "task_id")) in Some (fs, tm, r)
  else if decide (cmd = txt "update") then
    let new_seed := get "new_seed" in
    let task_id := get "task_id" in
    if decide (new_seed <> []) then
      answer (cmd_update sha256 sha1 inet_addr resolves fs tm e (str new_seed) (str (get "new_file"))
                (str (get "old_seed")) (str (get "old_file")))
    else if decide (task_id <> []) then Some (fs, tm, task_status tm task_id)
    else Some (fs, tm, error_reply "update requires task_id or new_seed")
  else if decide (cmd = txt "peers") then
    let task_id := get "task_id" in
    if decide (task_id = []) then Some (fs, tm, error_reply "missing task_id")
    else Some (fs, tm, cmd_peers tm (str task_id))
  else Some (fs, tm, error_reply "unknown command").

(** [received] is what the first read returns; the reply is one line. *)
Definition handle_client (fs : FileSystem) (tm : TaskManager) (e : cmd_env) (ec : bool) (received : text)
  : option (FileSystem * TaskManager * option text) :=
  match ec, received with
  | false, _ :: _ =>
    '(fs, tm, response) ← handle fs tm e (take (Z.to_nat 65536) received);
    Some (fs, tm, Some (response ++ [newline]))
  | _, _ => Some (fs, tm, None)
  end.
End server.

(** ** The command line *)
(** [atoi]. *)
Definition atoi (s : text) : Z := match strtol s with Some (v, _) => v | None => 0 end.

(** The options before the command: the port and the index of the command.
    [i] is the index of the first argument of [args]. *)
Fixpoint ipc_options (args : list text) (i : nat) (port : Z) : Z * nat :=
  match args with
  | a :: rest =>
    if decide (a = txt "--ipc-port") then
      match rest with
      | v :: rest => ipc_options rest (S (S i)) (u16 (atoi v))
      | [] => (port, i)
      end
    else (port, i)
  | [] => (port, 1%nat)
  end.

(** What the tool does: nothing (usage), a command of its own, or a request. *)
Inductive action := Usage | Make (args : list text) | Info (args : list text) | Send (request : text) (port : Z)
| BadCommand.

Definition add_request (seed_path save_path : text) : text :=
  js "{'cmd':'add','args':{'seed_path':'" ++ seed_path ++ js "','save_path':'" ++ save_path ++ js "'}}".
Definition seed_request (seed_path file_path : text) : text :=
  js "{'cmd':'seed','args':{'seed_path':'" ++ seed_path ++ js "','file_path':'" ++ file_path ++ js "'}}".
Definition list_request : text := js "{'cmd':'list','args':{}}".
Definition task_request (cmd : string) (task_id : text) : text :=
  js "{'cmd':'" ++ txt cmd ++ js "','args':{'task_id':'" ++ task_id ++ js "'}}".
Definition cli_update (new_seed new_file old_seed old_file : text) : text :=
  js "{'cmd':'update','args':{'new_seed':'" ++ new_seed ++ js "','new_file':'" ++ new_file ++
  js "','old_seed':'" ++ old_seed ++ js "','old_file':'" ++ old_file ++ js "'}}".

(** [send_ipc] ends the request with a newline. *)
Definition tbt (argv : list text) : action :=
  let '(port, first_cmd) := ipc_options (drop 1 argv) 1 16888 in
  let send req := Send (req ++ [newline]) port in
  match drop first_cmd argv with
  | [] => Usage
  | cmd :: args =>
    if decide (cmd = txt "make") then Make args
    else
      match args with
      | [] => if decide (cmd = txt "list") then send list_request else BadCommand
      | a :: rest =>
        if decide (cmd = txt "info") then Info args
        else if decide (cmd = txt "add") then
          send (add_request a (match rest with p :: _ => p | [] => txt "downloaded_file" end))
        else if decide (cmd = txt "list") then send list_request
        else if decide (cmd = txt "peers") then send (task_request "peers" a)
        else if decide (cmd = txt "remove") then send (task_request "remove" a)
        else if decide (cmd = txt "seed") then
          match rest with f :: _ => send (seed_request a f) | [] => BadCommand end
        else if decide (cmd = txt "update") then
          match rest with
          | nf :: os :: old :: _ => send (cli_update a nf os old)
          | _ => send (task_request "update" a)
          end
        else BadCommand
      end
  end.

(** ** Fields of a request *)
(** What [extract] finds in a text cut at its quotes. *)
Fixpoint scan (k : text) (l : list text) : text :=
  match l with
  | [] => []
  | w :: l' =>
    if decide (k = w) then
      match l' with
      | c :: v :: post => if decide (c = txt ":") then (match post with [] => [] | _ => v end) else scan k l'
      | _ => []
      end
    else scan k l'
  end.

(** What follows the key. *)
Definition colon_quote : text := ":"%char :: [quote].

Lemma find_from_drop c x y n :
  find_from c (x ++ y) (length x + n) = Nat.add (length x) <$> find_from c y n.
Proof.
  unfold find_from. rewrite length_app. destruct (decide (n <= length y)%nat).
  - rewrite decide_True by lia. rewrite drop_app_add. destruct (find c (drop n y)); [|done]. cbn. f_equal. lia.
  - rewrite decide_False by lia. done.
Qed.

Lemma extract_skip k x y :
  find (quote :: k ++ quote :: colon_quote) (x ++ y) =
    Nat.add (length x) <$> find (quote :: k ++ quote :: colon_quote) y ->
  extract (x ++ y) k = extract y k.
Proof.
  intros Hf. unfold extract. fold colon_quote. rewrite Hf.
  destruct (find (quote :: _) y) as [n|]; [|done]. cbn [fmap option_fmap option_map].
  cbv zeta. replace (length x + n + length k + 4)%nat with (length x + (n + length k + 4))%nat by lia.
  rewrite find_from_drop. destruct (find_from _ y _) as [m|] eqn:E; [|done]. cbn.
  unfold substr. rewrite drop_app_add. f_equal. lia.
Qed.

Lemma is_prefix_colon c l : unquoted c -> l <> [] -> is_prefix colon_quote (pieces (c :: l)) = bool_decide (c = txt ":").
Proof.
  intros Hc Hl. rewrite pieces_cons by done. destruct c as [|x c]; [by rewrite bool_decide_false|].
  cbn [colon_quote app is_prefix]. apply not_elem_of_cons in Hc as [Hx Hc]. destruct c as [|y c].
  - cbn [app is_prefix]. rewrite (bool_decide_true (quote = quote)) by done. rewrite andb_true_r.
    apply bool_decide_ext. change (txt ":") with [":"%char]. split; congruence.
  - apply not_elem_of_cons in Hc as [Hy _]. cbn [app is_prefix].
    rewrite (bool_decide_false (quote = y)) by congruence. rewrite andb_false_r.
    by rewrite bool_decide_false.
Qed.

Lemma is_prefix_unquoted k t w : unquoted w -> is_prefix (k ++ quote :: t) w = false.
Proof.
  revert w. induction k as [|a k IH]; intros [|b w] Hw; try done; apply not_elem_of_cons in Hw as [Hb Hw];
    cbn [app is_prefix].
  - by rewrite bool_decide_false.
  - by rewrite IH, andb_false_r.
Qed.

Lemma find_quote_none w : unquoted w -> find [quote] w = None.
Proof. intros Hw. rewrite <-(app_nil_r w). by rewrite find_skip. Qed.

Lemma find_step pat c s : is_prefix pat (c :: s) = false -> find pat (c :: s) = S <$> find pat s.
Proof. intros Hf. cbn [find]. by rewrite Hf. Qed.

(** A match of the key at the front. *)
Lemma extract_here k v post :
  Forall unquoted (v :: post) ->
  extract (quote :: k ++ quote :: ":"%char :: quote :: pieces (v :: post)) k =
  match post with [] => [] | _ => v end.
Proof.
  intros [Hv Hpost]%Forall_cons. unfold extract. set (x := quote :: k ++ quote :: ":"%char :: [quote]).
  assert (quote :: k ++ quote :: ":"%char :: quote :: pieces (v :: post) = x ++ pieces (v :: post)) as ->
    by (unfold x; cbn; by rewrite <-app_assoc).
  assert (find x (x ++ pieces (v :: post)) = Some 0%nat) as ->.
  { rewrite <-(app_nil_r x) at 1. unfold x at 1 2. cbn [find app]. fold x.
    change (quote :: (k ++ quote :: ":"%char :: [quote]) ++ []) with (x ++ []).
    change (quote :: (k ++ quote :: ":"%char :: [quote]) ++ pieces (v :: post)) with (x ++ pieces (v :: post)).
    by rewrite is_prefix_app. }
  assert (length x = (0 + length k + 4)%nat) as Hx by (unfold x; cbn; rewrite length_app; cbn; lia).
  rewrite <-Hx. replace (length x) with (length x + 0)%nat at 1 by lia. rewrite find_from_drop.
  unfold find_from. rewrite decide_True, drop_0 by lia. destruct post as [|p post].
  - cbn [pieces]. by rewrite find_quote_none.
  - rewrite pieces_cons by done. rewrite find_char by done. cbn.
    unfold substr. rewrite drop_app_length. apply take_app_length'. lia.
Qed.

Lemma extract_quote k l :
  unquoted k -> Forall unquoted l -> l <> [] -> extract (quote :: pieces l) k = scan k l.
Proof.
  intros Hk. induction l as [|w l' IH]; [done|]. intros [Hw Hl]%Forall_cons _.
  assert (l' <> [] -> is_prefix (quote :: k ++ quote :: colon_quote) (quote :: w ++ quote :: pieces l') = false ->
    extract (quote :: w ++ quote :: pieces l') k = scan k l') as Hskip.
  { intros Hne Hf. rewrite <-IH by done. apply (extract_skip k (quote :: w) (quote :: pieces l')).
    change ((quote :: w) ++ quote :: pieces l') with (quote :: w ++ quote :: pieces l').
    rewrite (find_step _ quote _ Hf), find_skip by done.
    by destruct (find (quote :: k ++ quote :: colon_quote) (quote :: pieces l')). }
  cbn [is_prefix] in Hskip. rewrite (bool_decide_true (quote = quote)) in Hskip by done. cbn [andb] in Hskip.
  destruct l' as [|c l''].
  { cbn [pieces scan]. assert (extract (quote :: w) k = []) as ->.
    { unfold extract. fold colon_quote. cbn [find is_prefix]. rewrite is_prefix_unquoted by done.
      rewrite andb_false_r. rewrite <-(app_nil_r w). by rewrite find_skip. }
    by case_decide. }
  rewrite pieces_cons by done. rewrite is_prefix_quoted in Hskip by done.
  apply Forall_cons in Hl as [Hc Hl]. destruct l'' as [|v post].
  { rewrite Hskip; [|done|cbn [pieces]; rewrite (is_prefix_unquoted [":"%char] []) by done; apply andb_false_r].
    cbn [scan]. by repeat case_decide. }
  rewrite (is_prefix_colon c) in Hskip by done. cbn [scan]. case_decide as Hkw.
  - subst w. case_decide as Hcc.
    + subst c. rewrite pieces_cons by done. by apply extract_here.
    + rewrite Hskip; [done|done|]. by rewrite (bool_decide_false (c = _)), andb_false_r.
  - rewrite Hskip; [done|done|]. by rewrite (bool_decide_false (k = w)).
Qed.

Lemma extract_pieces k w0 l :
  unquoted k -> unquoted w0 -> Forall unquoted l -> l <> [] -> extract (pieces (w0 :: l)) k = scan k l.
Proof.
  intros Hk H0 Hl Hne. rewrite pieces_cons by done. rewrite extract_skip; [by apply extract_quote|].
  by apply find_skip.
Qed.

(** A value is never taken for a key: it is followed by a comma or the end. *)
Lemma scan_value k v l : l <> [] -> scan k (v :: txt "," :: l) = scan k (txt "," :: l).
Proof. intros Hl. cbn [scan]. case_decide; [|done]. by destruct l. Qed.

Lemma scan_last k v w : scan k [v; w] = [].
Proof. cbn [scan]. by repeat case_decide. Qed.

(** The words of a request. *)
Definition words (cmd : string) (rest : list text) : list text :=
  txt "cmd" :: txt ":" :: txt cmd :: txt "," :: txt "args" :: rest.

Definition last_word : text := txt "}}" ++ [newline].

Ltac regroup := rewrite <-!app_assoc; cbn; rewrite <-?app_assoc; cbn; reflexivity.

Lemma add_request_words a b :
  add_request a b ++ [newline] = pieces (txt "{" :: words "add"
    [txt ":{"; txt "seed_path"; txt ":"; a; txt ","; txt "save_path"; txt ":"; b; last_word]).
Proof. unfold add_request. regroup. Qed.

Lemma seed_request_words a b :
  seed_request a b ++ [newline] = pieces (txt "{" :: words "seed"
    [txt ":{"; txt "seed_path"; txt ":"; a; txt ","; txt "file_path"; txt ":"; b; last_word]).
Proof. unfold seed_request. regroup. Qed.

Lemma update_request_words a b c d :
  cli_update a b c d ++ [newline] = pieces (txt "{" :: words "update"
    [txt ":{"; txt "new_seed"; txt ":"; a; txt ","; txt "new_file"; txt ":"; b; txt ",";
     txt "old_seed"; txt ":"; c; txt ","; txt "old_file"; txt ":"; d; last_word]).
Proof. unfold cli_update. regroup. Qed.

Lemma task_request_words cmd a :
  task_request cmd a ++ [newline] = pieces (txt "{" :: words cmd [txt ":{"; txt "task_id"; txt ":"; a; last_word]).
Proof. unfold task_request, words. regroup. Qed.

Lemma unquoted_closed s : bool_decide (quote ∈ s) = false -> unquoted s.
Proof. by intros Hs%bool_decide_eq_false. Qed.

#[local] Hint Extern 1 (unquoted (txt _)) => (apply unquoted_closed; reflexivity) : thinbt.
#[local] Hint Extern 1 (unquoted last_word) => (apply unquoted_closed; reflexivity) : thinbt.

(** The side conditions of [extract_pieces]. *)
Ltac words_side :=
  solve [ done | by auto with thinbt
        | repeat (apply Forall_cons; split); [..|by constructor]; by auto with thinbt ].

Section calls.
Context (sha256 sha1 : bytes -> bytes) (inet_addr : string -> Z) (resolves : text -> bool).
Context (what : task_error -> text).

Abbreviation handle := (handle sha256 sha1 inet_addr resolves what).

(** Reads the fields of a request made of words. *)
Ltac read_fields ws :=
  unfold Ipc.handle; cbv zeta;
  match goal with |- context [extract (pieces (_ :: ?l)) _] =>
    set (ws := l);
    let Hx := fresh in
    assert (forall k, unquoted k -> extract (pieces (txt "{" :: ws)) k = scan k ws) as Hx
      by (let k := fresh in let Hk := fresh in intros k Hk; apply extract_pieces; words_side);
    rewrite !Hx by words_side; clear Hx
  end.

Lemma handle_add fs tm e a b :
  unquoted a -> unquoted b -> a <> [] -> b <> [] ->
  handle fs tm e (add_request a b ++ [newline]) =
  answer what (cmd_add sha256 sha1 inet_addr resolves fs tm e (str a) (str b)).
Proof.
  intros Ha Hb Hna Hnb. rewrite add_request_words. read_fields ws.
  replace (scan (txt "cmd") ws) with (txt "add") by reflexivity.
  replace (scan (txt "seed_path") ws) with a by reflexivity.
  replace (scan (txt "save_path") ws) with b.
  - rewrite (decide_False (P := a = [])), (decide_False (P := b = [])) by done. reflexivity.
  - symmetry. exact (scan_value _ a [txt "save_path"; txt ":"; b; last_word] ltac:(done)).
Qed.

Lemma handle_seed fs tm e a b :
  unquoted a -> unquoted b ->
  handle fs tm e (seed_request a b ++ [newline]) =
  answer what (cmd_seed sha256 sha1 inet_addr resolves fs tm e (str a) (str b)).
Proof.
  intros Ha Hb. rewrite seed_request_words. read_fields ws.
  replace (scan (txt "cmd") ws) with (txt "seed") by reflexivity.
  replace (scan (txt "seed_path") ws) with a by reflexivity.
  replace (scan (txt "file_path") ws) with b; [reflexivity|].
  symmetry. exact (scan_value _ a [txt "file_path"; txt ":"; b; last_word] ltac:(done)).
Qed.

Lemma handle_update fs tm e a b c d :
  unquoted a -> unquoted b -> unquoted c -> unquoted d -> a <> [] ->
  handle fs tm e (cli_update a b c d ++ [newline]) =
  answer what (cmd_update sha256 sha1 inet_addr resolves fs tm e (str a) (str b) (str c) (str d)).
Proof.
  intros Ha Hb Hc Hd Hna. rewrite update_request_words. read_fields ws.
  set (l1 := [txt "old_file"; txt ":"; d; last_word]).
  set (l2 := txt "old_seed" :: txt ":" :: c :: txt "," :: l1).
  set (l3 := txt "new_file" :: txt ":" :: b :: txt "," :: l2).
  assert (forall k, scan k (a :: txt "," :: l3) = scan k (txt "," :: l3)) as H1 by (intros k; by apply scan_value).
  assert (forall k, scan k (b :: txt "," :: l2) = scan k (txt "," :: l2)) as H2 by (intros k; by apply scan_value).
  assert (forall k, scan k (c :: txt "," :: l1) = scan k (txt "," :: l1)) as H3 by (intros k; by apply scan_value).
  replace (scan (txt "cmd") ws) with (txt "update") by reflexivity.
  replace (scan (txt "new_seed") ws) with a by reflexivity.
  replace (scan (txt "new_file") ws) with b by (symmetry; exact (H1 (txt "new_file"))).
  replace (scan (txt "old_seed") ws) with c
    by (symmetry; etransitivity; [exact (H1 (txt "old_seed"))|exact (H2 (txt "old_seed"))]).
  replace (scan (txt "old_file") ws) with d.
  - rewrite (decide_True (P := a <> [])) by done. reflexivity.
  - symmetry. etransitivity; [exact (H1 (txt "old_file"))|].
    etransitivity; [exact (H2 (txt "old_file"))|exact (H3 (txt "old_file"))].
Qed.

Lemma handle_task fs tm e a :
  unquoted a -> a <> [] ->
  handle fs tm e (task_request "peers" a ++ [newline]) = Some (fs, tm, cmd_peers tm (str a)) /\
  handle fs tm e (task_request "remove" a ++ [newline]) =
    (let '(tm', r) := cmd_remove tm (str a) in Some (fs, tm', r)) /\
  handle fs tm e (task_request "update" a ++ [newline]) = Some (fs, tm, task_status tm a).
Proof.
  intros Ha Hna. split_and!; rewrite task_request_words; read_fields ws.
  - replace (scan (txt "cmd") ws) with (txt "peers") by reflexivity.
    replace (scan (txt "task_id") ws) with a by reflexivity.
    rewrite (decide_False (P := a = [])) by done. reflexivity.
  - replace (scan (txt "cmd") ws) with (txt "remove") by reflexivity. reflexivity.
  - replace (scan (txt "cmd") ws) with (txt "update") by reflexivity.
    replace (scan (txt "task_id") ws) with a by reflexivity.
    replace (scan (txt "new_seed") ws) with ([] : text) by (symmetry; exact (scan_last (txt "new_seed") a last_word)).
    rewrite (decide_True (P := a <> [])) by done. reflexivity.
Qed.

(** The tool sends one request, to the default port, and the server's reply
    to it is [r]. *)
Definition calls (args : list text) (fs : FileSystem) (tm : TaskManager) (e : cmd_env)
  (r : option (FileSystem * TaskManager * text)) : Prop :=
  exists request, tbt (txt "tbt" :: args) = Send request 16888 /\ handle fs tm e request = r.

End calls.

