(* ===== verification/Cli.v ===== *)
(** * Making and showing seeds (cli_make and cli_info of
    src/src/cli/cli_commands.cpp)

    [tbt make] chunks a file and writes its seed; [tbt info] prints one.  The
    theorem ties the command to the rest of the program: what it writes is a
    seed the daemon reads, consistent, about exactly the file, with a tracker
    URL that leads to the address asked for. *)

From Stdlib Require Import Ascii.
From S2P Require Import Prelude Text Json FileUtil Platform Hash Seed FastCDC NetUtil TaskManager TaskStart Ipc.
Import OCamlLikeNotations.

(** ** Messages of exceptions *)
Definition hash_what (path : text) (e : hash_error) : text :=
  match e with
  | DigestFailed => txt "sha256: EVP_Digest failed"
  | CannotOpen => txt "sha256_file: cannot open " ++ path
  | CtxNewFailed => txt "sha256_file: EVP_MD_CTX_new failed"
  | DigestInitFailed => txt "sha256_file: EVP_DigestInit_ex failed"
  | DigestUpdateFailed => txt "sha256_file: EVP_DigestUpdate failed"
  | DigestFinalFailed => txt "sha256_file: EVP_DigestFinal_ex failed"
  end.

(** [path] is the seed, [file] the file it is about. *)
Definition seed_what (path file : text) (e : seed_error) : text :=
  match e with
  | SeedHash e => hash_what file e
  | CannotCreate => txt "Cannot create .tseed: " ++ path
  | WriteFailed => txt "Write failed: " ++ path
  | CannotOpenSeed => txt "Cannot open .tseed: " ++ path
  | UnexpectedEof => txt "Failed to read .tseed: unexpected EOF"
  | BadMagic digest => txt "Invalid .tseed magic number: 0x" ++ txt digest
  | BadVersion v => txt "Unsupported .tseed version: " ++ print_dec v
  end.

Definition exception_reply (msg : text) : text := js "{'status':'error','error':'" ++ msg ++ js "'}".

(** ** tbt make *)
Record MakeOptions := {
  opt_output : text;
  opt_announce_ip : text;
  opt_tracker_port : Z;
}.

Definition make_options_eta (o : MakeOptions) : MakeOptions :=
  {| opt_output := opt_output o; opt_announce_ip := opt_announce_ip o; opt_tracker_port := opt_tracker_port o |}.

#[export] Hint Extern 0 (@Setter MakeOptions _ ?g) => set_field make_options_eta g : typeclass_instances.

(** The loop over the options; what is not one is skipped. *)
Fixpoint make_options (args : list text) (o : MakeOptions) : MakeOptions :=
  match args with
  | a :: ((v :: rest) as args') =>
    if decide (a = txt "-o") then make_options rest { o with opt_output := v }
    else if decide (a = txt "--tracker-port") then make_options rest { o with opt_tracker_port := u16 (atoi v) }
    else if decide (a = txt "--announce-ip") then make_options rest { o with opt_announce_ip := v }
    else make_options args' o
  | _ => o
  end.

Definition default_options : MakeOptions :=
  {| opt_output := []; opt_announce_ip := txt "auto"; opt_tracker_port := 8080 |}.

(** What follows the last slash or backslash. *)
Definition base_name (path : text) : text :=
  let sep := match rfind "/" path, rfind backslash path with
             | Some s, Some b => Some (Nat.max s b)
             | Some s, None => Some s
             | None, b => b
             end in
  match sep with Some i => drop (S i) path | None => path end.

Definition bytes_of_text (s : text) : bytes := Ascii.byte_of_ascii <$> s.

Definition make_url (ip : text) (port : Z) : text :=
  txt "thinbt://" ++ ip ++ txt ":" ++ print_dec port ++ txt "/announce".

(** What the system decides: the local address, whether files can be mapped,
    opened, created and written, and what is left of a failed write. *)
Record make_env := {
  mk_local_ip : text;
  mk_map_file : bool;
  mk_fopen : bool;
  mk_created : bool;
  mk_written : bool;
  mk_partial : bytes;
}.

(** The seed to write and the address to announce. *)
Definition make_output (file_path : text) (o : MakeOptions) : text :=
  match opt_output o with [] => file_path ++ txt ".tseed" | p => p end.

Definition make_ip (e : make_env) (o : MakeOptions) : text :=
  if decide (opt_announce_ip o = txt "auto") then mk_local_ip e else opt_announce_ip o.

Definition make_reply (seed_path info_hash : text) (chunk_count file_size : Z) : text :=
  js "{'status':'ok','data':{'seed_path':'" ++ seed_path ++ js "','info_hash':'" ++ info_hash ++
  js "','chunk_count':" ++ print_dec chunk_count ++ js ",'file_size':" ++ print_dec file_size ++ txt "}}".

Section make.
Context (sha256 sha1 : bytes -> bytes).

(** [None]: the exception of the last [sha256_file] is not caught. *)
Definition cli_make (fs : FileSystem) (e : make_env) (args : list text) : option (FileSystem * text) :=
  match args with
  | [] => Some (fs, error_reply
      "usage: tbt make <file> [-o output] [--tracker-port 8080] [--announce-ip auto]")
  | file_path :: opts =>
    let o := make_options opts default_options in
    let output_path := make_output file_path o in
    let local_ip := make_ip e o in
    match local_ip with
    | [] => Some (fs, error_reply "cannot detect local IP")
    | _ =>
      let announce_url := make_url local_ip (opt_tracker_port o) in
      let content := fs !! str file_path in
      let chunks := fastcdc_scan_file sha256 (if mk_map_file e then content else None)
                      (if mk_fopen e then content else None) default_config in
      match chunks with
      | [] => Some (fs, error_reply "file is empty or unreadable")
      | _ =>
        match write_tseed sha256 (mk_created e) (mk_written e) content (bytes_of_text (base_name file_path))
                (bytes_of_text announce_url) chunks (cfg_min_size default_config)
                (cfg_avg_size default_config) (cfg_max_size default_config) with
        | Err err =>
          let fs := match err with WriteFailed => <[str output_path := mk_partial e]> fs | _ => fs end in
          Some (fs, exception_reply (seed_what output_path file_path err))
        | Ok seed =>
          let fs := <[str output_path := seed]> fs in
          data ← fs !! str file_path;
          let info_hash := sha1_hex (sha1 (info_hash_input (sha256 data) chunks)) in
          Some (fs, make_reply output_path (txt info_hash) (u32 (zlength chunks)) (total_file_size 0 chunks))
        end
      end
    end
  end.

(** ** tbt info *)
Definition info_reply (seed_path : text) (sd : TSeedFile) : text :=
  js "{'status':'ok','data':{'seed_path':'" ++ seed_path ++ js "','file_name':'" ++
  text_of_bytes (file_name sd) ++ js "','file_size':" ++ print_dec (file_size (header sd)) ++
  js ",'info_hash':'" ++ txt (sha1_hex (info_hash sd)) ++ js "','chunk_count':" ++
  print_dec (chunk_count (header sd)) ++ js ",'min_chunk_size':" ++ print_dec (min_chunk_size (header sd)) ++
  js ",'avg_chunk_size':" ++ print_dec (avg_chunk_size (header sd)) ++ js ",'max_chunk_size':" ++
  print_dec (max_chunk_size (header sd)) ++ js ",'announce_url':'" ++ text_of_bytes (announce_url sd) ++ js "'}}".

Definition cli_info (fs : FileSystem) (args : list text) : text :=
  match args with
  | [] => error_reply "usage: tbt info <.tseed>"
  | seed_path :: _ =>
    match read_tseed sha256 sha1 (fs !! str seed_path) with
    | Err err => exception_reply (seed_what seed_path [] err)
    | Ok sd => info_reply seed_path sd
    end
  end.
End make.

(** ** What [make] writes *)
Lemma tiles_total_size sha256 data cs : forall off size,
  tiles sha256 data off size cs -> 0 <= off -> size < 2 ^ 64 -> total_file_size off cs = size.
Proof.
  induction cs as [|c cs IH]; intros off size; cbn [tiles total_file_size]; [done|].
  intros (Ho & Hl & _ & Ht) H0 Hs. pose proof (tiles_covers _ _ _ _ _ Ht) as Hc.
  assert (off + ce_length c <= size) as Hle.
  { clear -Hc. revert Hc. generalize (off + ce_length c) as o. induction cs as [|d cs IH]; intros o; cbn [covers];
      [lia|]. intros (_ & ? & H). apply IH in H. lia. }
  rewrite Ho, u64_small by (unfold is_u64; lia). replace (off <? off + ce_length c) with true by lia.
  apply IH; [done|lia|done].
Qed.

Lemma scan_entries_ok sha256 data cfg :
  (forall b, zlength (sha256 b) = 32) -> is_u32 (cfg_max_size cfg) -> zlength data < 2 ^ 64 ->
  Forall entry_ok (fastcdc_scan_buffer sha256 data cfg).
Proof.
  intros Hsha Hm Hd. pose proof (scan_buffer_tiles sha256 data cfg Hm) as Ht.
  pose proof (scan_buffer_max sha256 data cfg Hm) as Hmax. rewrite Forall_forall in Hmax |- *.
  intros c Hc. destruct (tiles_entry _ _ _ _ _ _ Ht Hc) as (H0 & H1 & H2 & H3). specialize (Hmax c Hc). cbn in Hmax.
  split_and!; [unfold is_u64; lia|unfold is_u32 in *; lia|]. by rewrite H3.
Qed.

(** A name or an IPv4 address. *)
Definition plain_host (h : text) : Prop :=
  h <> [] /\ head h <> Some "["%char /\ (":"%char ∉ h) /\ ("/"%char ∉ h) /\ (NUL ∉ h).

Lemma c_str_id s : NUL ∉ s -> c_str s = s.
Proof.
  induction s as [|c s IH]; [done|]. intros [Hc Hs]%not_elem_of_cons. cbn [c_str].
  rewrite decide_False by congruence. by rewrite IH.
Qed.

Lemma make_url_parses ip port :
  plain_host ip -> 1 <= port <= 65535 ->
  parse_tracker_url (make_url ip port) = Some {| url_host := ip; url_port := port |}.
Proof.
  intros (H1 & H2 & H3 & H4 & H5) Hp. apply parse_tracker_url_spec. cbn [url_host url_port].
  exists (ip ++ txt ":" ++ print_dec port ++ txt "/announce"), ip, (print_dec port ++ txt "/announce"), (txt "/announce").
  split_and!; [done|right; by split_and!| |apply strtol_print; [unfold LONG_MAX; lia|done]|lia|lia].
  apply (c_str_id (ip ++ txt ":" ++ print_dec port ++ txt "/announce")).
  rewrite !not_elem_of_app. split_and!; [done| | |].
  - by apply (bool_decide_eq_false_1 (NUL ∈ txt ":")).
  - intros Hin. destruct (print_dec_spec port) as (Hd & _); [lia|]. rewrite Forall_forall in Hd. by apply Hd in Hin.
  - by apply (bool_decide_eq_false_1 (NUL ∈ txt "/announce")).
Qed.

Lemma text_of_bytes_of_text s : text_of_bytes (bytes_of_text s) = s.
Proof.
  unfold text_of_bytes, bytes_of_text. rewrite <-list_fmap_compose. rewrite <-(list_fmap_id s) at 2.
  apply list_fmap_ext. intros i c _. cbn. apply Ascii.ascii_of_byte_of_ascii.
Qed.

Lemma zlength_bytes_of_text s : zlength (bytes_of_text s) = zlength s.
Proof. unfold zlength, bytes_of_text. by rewrite length_fmap. Qed.

Lemma base_name_length p : 0 <= zlength (base_name p) <= zlength p.
Proof.
  unfold base_name, zlength. destruct (rfind "/" p), (rfind backslash p); rewrite ?length_drop; lia.
Qed.

Lemma print_digits_length fuel : forall n, (length (print_digits fuel n) <= fuel)%nat.
Proof.
  induction fuel as [|fuel IH]; intros n; [done|]. cbn [print_digits]. destruct (n <? 10); [cbn; lia|].
  rewrite length_app. specialize (IH (n / 10)). cbn. lia.
Qed.

Lemma make_url_length ip port : 1 <= port <= 65535 -> 0 <= zlength (make_url ip port) <= zlength ip + 64.
Proof.
  intros Hp. split; [apply zlength_nonneg|]. unfold make_url, zlength. rewrite !length_app.
  pose proof (print_digits_length (S (Z.to_nat (Z.log2 port))) port) as Hl.
  assert (Z.log2 port <= 16) by (apply (Z.log2_le_mono port 65536); lia).
  fold (print_dec port) in Hl. cbn [length txt String.list_ascii_of_string]. lia.
Qed.

(** The seed, and what it says about the file. *)
Lemma make_seed sha256 sha1 fs e file_path opts data :
  let o := make_options opts default_options in
  let out := make_output file_path o in
  let ip := make_ip e o in
  (forall b, zlength (sha256 b) = 32) ->
  fs !! str file_path = Some data -> 0 < zlength data <= 2 ^ 57 ->
  zlength (fastcdc_scan_buffer sha256 data default_config) < 2 ^ 32 - 8 ->
  zlength file_path < 2 ^ 32 -> zlength ip < 2 ^ 31 ->
  str out <> str file_path -> plain_host ip -> 1 <= opt_tracker_port o <= 65535 ->
  mk_map_file e = true -> mk_created e = true -> mk_written e = true ->
  exists fs' sd, read_tseed sha256 sha1 (fs' !! str out) = Ok sd /\ seed_consistent sd /\
    cli_make sha256 sha1 fs e (file_path :: opts) =
      Some (fs', make_reply out (txt (sha1_hex (info_hash sd))) (zlength (chunks sd)) (zlength data)) /\
    chunks sd = fastcdc_scan_buffer sha256 data (cdc_config (header sd)) /\
    cdc_config (header sd) = default_config /\ file_size (header sd) = zlength data /\ fs' !! str file_path = Some data /\
    parse_tracker_url (text_of_bytes (announce_url sd)) =
      Some {| url_host := ip; url_port := opt_tracker_port o |}.
Proof.
  intros o out ip Hsha Hfs Hd Hn Hfp Hipl Hne Hip Hport Hmap Hcr Hwr.
  set (cs := fastcdc_scan_buffer sha256 data default_config) in *.
  assert (tiles sha256 data 0 (zlength data) cs) as Ht by (apply scan_buffer_tiles; done).
  assert (total_file_size 0 cs = zlength data) as Hsz by (eapply tiles_total_size; [exact Ht|lia|lia]).
  assert (write_args_ok sha256 data (bytes_of_text (base_name file_path)) (bytes_of_text (make_url ip (opt_tracker_port o)))
    cs (cfg_min_size default_config) (cfg_avg_size default_config) (cfg_max_size default_config)) as Hargs.
  { pose proof (make_url_length ip (opt_tracker_port o) Hport). pose proof (base_name_length file_path).
    pose proof (zlength_nonneg ip). pose proof (zlength_nonneg cs).
    split; rewrite ?zlength_bytes_of_text; [apply Hsha|unfold is_u32; lia..| |done|done|done].
    apply scan_entries_ok; [done|done|lia]. }
  set (sd := {| header := build_header (sha256 data) (bytes_of_text (base_name file_path))
      (bytes_of_text (make_url ip (opt_tracker_port o))) cs (cfg_min_size default_config)
      (cfg_avg_size default_config) (cfg_max_size default_config);
    file_name := bytes_of_text (base_name file_path);
    announce_url := bytes_of_text (make_url ip (opt_tracker_port o)); chunks := cs;
    info_hash := sha1 (info_hash_input (sha256 data) cs) |}).
  exists (<[str out := seed_bytes true (header sd) (file_name sd) (announce_url sd) cs]> fs), sd.
  assert (cs <> []) as Hcs by (intros E; rewrite E in Ht; cbn in Ht; lia).
  split_and!.
  - rewrite lookup_insert_eq. by apply read_seed_bytes, seed_ok_build.
  - split; cbn; [rewrite Hsz; by apply tiles_covers in Ht|lia|lia].
  - unfold cli_make. cbv zeta. fold o. fold ip. fold out. rewrite Hfs, Hmap, Hcr, Hwr. cbn [fastcdc_scan_file].
    fold cs. destruct Hip as [Hnil _]. clearbody ip cs. destruct ip as [|i0 ip]; [done|].
    destruct cs as [|c0 cs]; [done|]. rewrite write_tseed_bytes, lookup_insert_ne, Hfs by done. cbn [mbind option_bind].
    rewrite Hsz, u32_small; [done|]. unfold is_u32. pose proof (zlength_nonneg (c0 :: cs)). lia.
  - done.
  - done.
  - done.
  - by rewrite lookup_insert_ne.
  - cbn. rewrite text_of_bytes_of_text. by apply make_url_parses.
Qed.

(** C12: [tbt make] on a file writes a seed that the daemon reads back: its
    chunk table is the chunking of exactly this file (so that the file is
    recognised as complete), sizes and counts agree, its tracker URL leads to
    the address and port asked for, and the info-hash printed is the one the
    daemon computes from the seed.  The file itself is left as it is. *)
Theorem make_writes_consistent_seed sha256 sha1 fs e file_path opts data :
  let o := make_options opts default_options in
  let out := make_output file_path o in
  let ip := make_ip e o in
  (forall b, zlength (sha256 b) = 32) ->
  fs !! str file_path = Some data -> 0 < zlength data <= 2 ^ 57 ->
  zlength (fastcdc_scan_buffer sha256 data default_config) < 2 ^ 32 - 8 ->
  zlength file_path < 2 ^ 32 -> zlength ip < 2 ^ 31 ->
  str out <> str file_path -> plain_host ip -> 1 <= opt_tracker_port o <= 65535 ->
  mk_map_file e = true -> mk_created e = true -> mk_written e = true ->
  exists fs' sd, read_tseed sha256 sha1 (fs' !! str out) = Ok sd /\ seed_consistent sd /\
    cli_make sha256 sha1 fs e (file_path :: opts) =
      Some (fs', make_reply out (txt (sha1_hex (info_hash sd))) (zlength (chunks sd)) (zlength data)) /\
    chunks sd = fastcdc_scan_buffer sha256 data (cdc_config (header sd)) /\
    file_size (header sd) = zlength data /\ fs' !! str file_path = Some data /\
    parse_tracker_url (text_of_bytes (announce_url sd)) =
      Some {| url_host := ip; url_port := opt_tracker_port o |}.
Proof.
  intros o out ip Hsha Hfs Hd Hn Hfp Hipl Hne Hip Hport Hmap Hcr Hwr.
  destruct (make_seed sha256 sha1 fs e file_path opts data Hsha Hfs Hd Hn Hfp Hipl Hne Hip Hport Hmap Hcr Hwr)
    as (fs' & sd & Hr & Hc & Hrun & Hcs & _ & Hrest). by exists fs', sd.
Qed.

(** ** Instance *)
Definition demo_make_env : make_env := {|
  mk_local_ip := txt "10.0.0.5"; mk_map_file := true; mk_fopen := true; mk_created := true;
  mk_written := true; mk_partial := [];
|}.

Definition demo_make_fs : FileSystem := {["dir/f"%string := [Byte.x61; Byte.x62; Byte.x63]]}.

Lemma demo_sha_length b : zlength (demo_sha b) = 32.
Proof. unfold demo_sha, zlength. rewrite length_take, length_app, length_replicate. lia. Qed.

Lemma make_writes_consistent_seed_witness :
  exists fs' sd, read_tseed demo_sha demo_sha (fs' !! "dir/f.tseed"%string) = Ok sd /\ seed_consistent sd /\
    cli_make demo_sha demo_sha demo_make_fs demo_make_env [txt "dir/f"; txt "--tracker-port"; txt "9000"] =
      Some (fs', make_reply (txt "dir/f.tseed") (txt (sha1_hex (info_hash sd))) (zlength (chunks sd)) 3) /\
    chunks sd = fastcdc_scan_buffer demo_sha [Byte.x61; Byte.x62; Byte.x63] (cdc_config (header sd)) /\
    file_size (header sd) = 3 /\ fs' !! "dir/f"%string = Some [Byte.x61; Byte.x62; Byte.x63] /\
    parse_tracker_url (text_of_bytes (announce_url sd)) = Some {| url_host := txt "10.0.0.5"; url_port := 9000 |}.
Proof.
  apply (make_writes_consistent_seed demo_sha demo_sha demo_make_fs demo_make_env (txt "dir/f")
    [txt "--tracker-port"; txt "9000"] [Byte.x61; Byte.x62; Byte.x63]).
  - apply demo_sha_length.
  - reflexivity.
  - done.
  - vm_compute. reflexivity.
  - done.
  - done.
  - discriminate.
  - repeat split; try discriminate; by apply (bool_decide_eq_false_1 (_ ∈ _)).
  - vm_compute. split; discriminate.
  - done.
  - done.
  - done.
Defined.
