(* ===== verification/Distribution.v ===== *)
(** * A file on its way from one host to another

    The publisher runs [tbt make] and seeds the file; somebody else is given
    the seed and adds it.  [served] says that a piece is what a session of the
    seeding task answered, [transfer] runs the download with such pieces, in
    any order and among whatever else happens on the two hosts.  The theorem
    puts [Cli], [FastCDC], [Serving], [TaskStart] and [Download] together. *)

From S2P Require Import Prelude Text Json FileUtil Platform Hash Seed FastCDC Protocol ChunkAssembler SegmentIO Scheduler SchedulerProofs SchedulerSpec PeerSession PeerSessionSpec NetUtil Tracker PeerManager PeerManagerSpec Workers Transfer TaskManager TaskStart TaskRun Download Serving Ipc Cli.
Import OCamlLikeNotations.

(** ** The chunks [tbt make] lists *)
Lemma made_tiles sha256 data :
  tiles sha256 data 0 (zlength data) (fastcdc_scan_buffer sha256 data default_config).
Proof. by apply scan_buffer_tiles. Qed.

(** They have full length, a multiple of the sub-block size, up to the last
    one, which ends with the file. *)
Lemma made_regular sha256 data c :
  zlength data <= 2 ^ 57 -> c ∈ fastcdc_scan_buffer sha256 data default_config ->
  regular_chunk data (ce_offset c) (ce_length c).
Proof.
  intros Hd Hc. destruct (tiles_entry _ _ _ _ _ _ (made_tiles sha256 data) Hc) as (? & ? & ? & _).
  split_and!; [lia|lia|lia|lia|].
  destruct (scan_full_or_last sha256 data default_config c) as [-> |]; [done|done|done|by left|by right].
Qed.

Lemma made_max sha256 data :
  Forall (fun c => ce_length c <= MAX_CHUNK_SIZE) (fastcdc_scan_buffer sha256 data default_config).
Proof. eapply Forall_impl; [by apply scan_buffer_max|]. done. Qed.

(** There are few enough of them. *)
Lemma full_chunks_count sha256 data len cs : forall off size,
  tiles sha256 data off size cs -> all_but_last (fun c => ce_length c = len) cs ->
  0 <= len -> (zlength cs - 1) * len <= size - off.
Proof.
  induction cs as [|c cs IH]; intros off size Ht Hall H0; [change (zlength []) with 0; cbn in Ht; lia|].
  destruct Ht as (_ & Hc & _ & Ht). assert (zlength (c :: cs) = 1 + zlength cs) as -> by (unfold zlength; simpl; lia).
  destruct cs as [|d cs].
  - cbn in Ht. change (zlength []) with 0. lia.
  - destruct Hall as [Hl Hall]. specialize (IH _ _ Ht Hall H0). lia.
Qed.

Lemma made_count sha256 data :
  zlength data <= 2 ^ 51 -> zlength (fastcdc_scan_buffer sha256 data default_config) < 2 ^ 32 - 8.
Proof.
  intros Hd. pose proof (full_chunks_count sha256 data (2 ^ 20) _ _ _ (made_tiles sha256 data)
    (scan_cuts_at_max sha256 data default_config ltac:(done) ltac:(done)) ltac:(done)). lia.
Qed.

Lemma made_describes sha256 sd data :
  chunks sd = fastcdc_scan_buffer sha256 data default_config -> file_size (header sd) = zlength data ->
  describes sha256 sd data.
Proof.
  intros Hcs Hsz. split; [done|]. rewrite Hcs. apply Forall_forall. intros c Hc.
  destruct (tiles_entry _ _ _ _ _ _ (made_tiles sha256 data) Hc) as (_ & _ & _ & Hh).
  unfold chunk_good. by rewrite Hh.
Qed.

Section distribution.
Context (sha256 sha1 : bytes -> bytes) (inet_addr : string -> Z) (resolves : text -> bool).

(** What [tbt make] needs: a file of at most 2 PiB at a path of its own, an
    address and a port for the tracker, and a system that lets it write. *)
Record publishable (fs : FileSystem) (e : make_env) (file_path : text) (opts : list text) (data : bytes) : Prop := {
  pb_file : fs !! str file_path = Some data;
  pb_size : 0 < zlength data <= 2 ^ 51;
  pb_path : zlength file_path < 2 ^ 32;
  pb_out : str (make_output file_path (make_options opts default_options)) <> str file_path;
  pb_host : plain_host (make_ip e (make_options opts default_options));
  pb_host_len : zlength (make_ip e (make_options opts default_options)) < 2 ^ 31;
  pb_port : 1 <= opt_tracker_port (make_options opts default_options) <= 65535;
  pb_calls : mk_map_file e = true /\ mk_created e = true /\ mk_written e = true;
}.

(** The calls of a daemon that opens and serves, or writes, a file. *)
Definition daemon_calls (e : cmd_env) : Prop :=
  0 <= sys_fd (env_open e) /\ sys_fallocate (env_open e) || sys_ftruncate (env_open e) = true /\
  (forall i, env_mmap_ok e i = true) /\ env_bind_ok e = true.

(** A session that is open, does not choke its peer and was never told not to
    send sub-blocks of the chunk. *)
Definition willing (s : PeerSession) (i : Z) : Prop :=
  closed_ s = false /\ choking_peer_ s = false /\ forall b, (i, b) ∉ cancelled_set_ s.

(** The piece is what a downloader's session handed over when it had asked a
    session of the seeding task, in any state it got into from [t0], for a
    sub-block. *)
Definition served (sd : TSeedFile) (data : bytes) (t0 : ActiveTask) (x : PieceTask) : Prop :=
  exists t s c leecher sc now,
    seed_reach sha256 inet_addr sd t0 t /\ s ∈ sessions_ (at_mgr t) /\ willing s (pt_chunk_idx x) /\
    zget (chunks sd) (pt_chunk_idx x) = Some c /\ 0 <= pt_begin x < ce_length c /\
    pt_begin x mod SUB_BLOCK_SIZE = 0 /\ io_pool_ leecher = true /\ sched_fine sc /\
    fetch_subblock data s leecher sc now (pt_chunk_idx x) (pt_begin x) = Some x.

(** The download [u0] with pieces that the seeding task [t0] serves. *)
Inductive transfer (sd : TSeedFile) (data : bytes) (t0 u0 : ActiveTask) : list PieceTask -> ActiveTask -> Prop :=
| transfer_start : transfer sd data t0 u0 [] u0
| transfer_step got u o now u' :
    transfer sd data t0 u0 got u -> downloads u o now ->
    Forall (served sd data t0) (handed_by inet_addr u o now) ->
    run_task sha256 inet_addr u o now = Some u' ->
    transfer sd data t0 u0 (got ++ handed_by inet_addr u o now) u'.

(** What is served is genuine. *)
Lemma served_genuine e sd data t0 x :
  seed_consistent sd -> Forall entry_ok (chunks sd) -> zlength data = file_size (header sd) ->
  chunks sd = fastcdc_scan_buffer sha256 data default_config ->
  seeding e sd t0 -> 0 <= sys_fd (env_open e) -> env_sendfile e = false ->
  served sd data t0 x -> genuine sd data x.
Proof using.
  intros Hc Hok Hsz Hcs Ht Hfd Hsf (t & s & c & l & sc & now & Hreach & Hs & (Hw1 & Hw2 & Hw3) & Hi & Hb & Hm & Hio & Hsc & Hx).
  apply zget_Some in Hi as Hl. destruct Hl as [_ Hl%list_elem_of_lookup_2].
  assert (regular_chunk data (ce_offset c) (ce_length c)) as Hreg
    by (apply (made_regular sha256); [rewrite Hsz; apply Hc|by rewrite <- Hcs]).
  pose proof (seed_reach_inv sha256 inet_addr e sd t0 t Hc Hok Ht Hreach) as Ht'.
  destruct (seeding_answers e sd data t s _ c (pt_begin x) l sc now Hc Hok Hsz Ht' Hfd Hsf Hs Hw1 Hw2 Hw3 Hi
    Hreg Hb Hm Hio Hsc) as (x' & Hx' & Hg & _). congruence.
Qed.

Lemma served_fits e sd data t0 u o now :
  seed_consistent sd -> Forall entry_ok (chunks sd) -> zlength data = file_size (header sd) ->
  chunks sd = fastcdc_scan_buffer sha256 data default_config ->
  seeding e sd t0 -> 0 <= sys_fd (env_open e) -> env_sendfile e = false ->
  downloads u o now -> Forall (served sd data t0) (handed_by inet_addr u o now) ->
  honest_fits inet_addr sd (replicate (length (chunks sd)) false) data u o now.
Proof using.
  intros Hc Hok Hsz Hcs Ht Hfd Hsf Hd Hs. split; [done|]. eapply Forall_impl; [exact Hs|]. intros x Hx.
  split; [by apply (served_genuine e sd data t0)|apply flagged_none].
Qed.

Lemma transfer_honest e sd data t0 u0 got u :
  seed_consistent sd -> Forall entry_ok (chunks sd) -> zlength data = file_size (header sd) ->
  chunks sd = fastcdc_scan_buffer sha256 data default_config ->
  seeding e sd t0 -> 0 <= sys_fd (env_open e) -> env_sendfile e = false ->
  transfer sd data t0 u0 got u ->
  honest_reach sha256 inet_addr sd (replicate (length (chunks sd)) false) data u0 got u.
Proof using.
  intros Hc Hok Hsz Hcs Ht Hfd Hsf. induction 1 as [|got u o now u' _ IH Hd Hs Hr]; [constructor|].
  econstructor; [exact IH| |exact Hr]. by apply (served_fits e sd data t0).
Qed.

(** *** The two commands *)
Lemma seed_accepted fs tm e seed_path file_path sd :
  read_tseed sha256 sha1 (fs !! seed_path) = Ok sd -> seed_consistent sd -> daemon_calls e ->
  exists tm' t, cmd_seed sha256 sha1 inet_addr resolves fs tm e seed_path file_path =
      Some (fs, tm', accepted resolves tm sd (id_reply (env_tid e))) /\
    tasks_ tm' = <[env_tid e := t]> (tasks_ tm) /\ seeding e sd t.
Proof using.
  intros Hr Hc (Hfd & _ & _ & Hb).
  destruct (cmd_seed_starts sha256 sha1 inet_addr resolves fs tm e seed_path file_path sd Hr Hc)
    as (tm' & r & Hrun & [(_ & [[? _]|[? _]])|(_ & -> & t & ? & ?)]); [lia|congruence|]. by exists tm', t.
Qed.

Lemma add_accepted fs tm e seed_path save_path sd :
  read_tseed sha256 sha1 (fs !! seed_path) = Ok sd -> seed_consistent sd -> daemon_calls e ->
  (forall l, env_shuffle e l ≡ₚ l) -> chunks sd <> [] ->
  Forall (fun c => ce_length c <= MAX_CHUNK_SIZE) (chunks sd) -> fs !! save_path = None ->
  exists mem tm' t, cmd_add sha256 sha1 inet_addr resolves fs tm e seed_path save_path =
      Some (<[save_path := mem]> fs, tm', accepted resolves tm sd (id_reply (env_tid e))) /\
    tasks_ tm' = <[env_tid e := t]> (tasks_ tm) /\
    started sha256 sd (replicate (length (chunks sd)) false) mem t.
Proof using.
  intros Hr Hc (Hfd & Hsz & Hm & Hb) Hsh Hne Hmax Hnew.
  destruct (cmd_add_starts sha256 sha1 inet_addr resolves fs tm e seed_path save_path sd Hr Hc Hsh)
    as (fs' & tm' & r & Hrun & [(_ & _ & [])|(-> & t & mem & Ht & -> & Hst & _)]); [by split|].
  exists mem, tm', t. split; [done|]. split; [done|]. unfold resume_flags in Hst. by rewrite Hnew in Hst.
Qed.

End distribution.

(** ** An instance *)
(** A file of three bytes is published; the seeding task accepts a connection
    and unchokes it; the download accepts one, too, and gets the only piece. *)
Definition demo_data : bytes := [Byte.x61; Byte.x62; Byte.x63].
Definition demo_opts : list text := [txt "--tracker-port"; txt "9000"].

Definition demo_pub : option FileSystem :=
  fst <$> cli_make demo_sha demo_sha demo_make_fs demo_make_env (txt "dir/f" :: demo_opts).

Definition demo_given : FileSystem :=
  partial_alter (fun _ => demo_pub ≫= lookup "dir/f.tseed"%string) "s" ∅.

Definition demo_made : option TSeedFile :=
  fs ← demo_pub;
  match read_tseed demo_sha demo_sha (fs !! "dir/f.tseed"%string) with Ok sd => Some sd | Err _ => None end.

Definition demo_run (t : option ActiveTask) (o : mgr_op) : option ActiveTask :=
  t ← t; run_task demo_sha no_addr t (TNet o) 0.

Definition demo_peer : mgr_op := MAccept true (Some ("10.0.0.2"%string, 5000)).
Definition demo_abc : mgr_op := MMessage 0 (msg_code PIECE) (piece_payload 0 0 demo_data).

Definition demo_publisher : option ActiveTask :=
  fs ← demo_pub;
  '(_, tm, _) ← cmd_seed demo_sha demo_sha no_addr (fun _ => true) fs demo_tm demo_env "dir/f.tseed" "dir/f";
  tasks_ tm !! "t1"%string.

Definition demo_getter : option ActiveTask :=
  '(_, tm, _) ← cmd_add demo_sha demo_sha no_addr (fun _ => true) demo_given demo_tm demo_env "s" "out";
  tasks_ tm !! "t1"%string.

Definition first_session (t : option ActiveTask) : option PeerSession := t ← t; head (sessions_ (at_mgr t)).

Abbreviation demo_unchoked := (demo_run (demo_run demo_publisher demo_peer) (MTickChoke (fun l => l))).
Abbreviation demo_connected := (demo_run demo_getter demo_peer).

Definition demo_x : PieceTask :=
  {| pt_chunk_idx := 0; pt_begin := 0; pt_length := 3; pt_peer_slot := 0; pt_data := demo_data |}.

Lemma demo_made_chunks : chunks <$> demo_made =
  Some [{| ce_offset := 0; ce_length := 3; ce_sha256 := demo_sha demo_data |}].
Proof. vm_compute. reflexivity. Qed.

Lemma demo_willing :
  (fun s => (closed_ s, choking_peer_ s, bool_decide (cancelled_set_ s = ∅))) <$> first_session demo_unchoked =
  Some (false, false, true).
Proof. vm_compute. reflexivity. Qed.

Lemma demo_fetch :
  (s ← first_session demo_unchoked; l ← first_session demo_connected;
   Some (io_pool_ l, fetch_subblock demo_data s l None 0 0 0)) = Some (true, Some demo_x).
Proof. vm_compute. reflexivity. Qed.

Lemma demo_seeder_fits :
  (fun t => next_slot_id_ (at_mgr t)) <$> demo_publisher = Some 0 /\
  (fun t => (fun s => bool_decide (is_Some (update_rates 0 s))) <$> sessions_ (at_mgr t)) <$>
    demo_run demo_publisher demo_peer = Some [true].
Proof. split; vm_compute; reflexivity. Qed.

Lemma demo_getter_fits :
  (fun u => (next_slot_id_ (at_mgr u), handed_by no_addr u (TNet demo_peer) 0)) <$> demo_getter = Some (0, []) /\
  (fun u => (next_slot_id_ (at_mgr u), handed_by no_addr u (TNet demo_abc) 0)) <$> demo_connected = Some (1, [demo_x]).
Proof. split; vm_compute; reflexivity. Qed.

Lemma demo_run_Some t o t' : demo_run (Some t) o = Some t' -> run_task demo_sha no_addr t (TNet o) 0 = Some t'.
Proof. intros H. exact H. Qed.

Lemma demo_seed_reach sd t0 t :
  demo_publisher = Some t0 -> demo_unchoked = Some t -> seed_reach demo_sha no_addr sd t0 t.
Proof.
  intros H0 Ht. destruct demo_seeder_fits as [F0 F1]. rewrite H0 in Ht, F0, F1. injection F0 as F0.
  destruct (demo_run (Some t0) demo_peer) as [t1|] eqn:E1; [|discriminate F1]. injection F1 as F1.
  eapply seed_next; [eapply seed_next; [apply seed_here| |exact (demo_run_Some _ _ _ E1)]| |exact (demo_run_Some _ _ _ Ht)].
  - split; [reflexivity|]. split; [cbn; rewrite F0; lia|]. intros m out [= <- <-]. constructor.
  - split; [reflexivity|]. split.
    + apply Forall_forall. intros s Hs. apply (list_elem_of_fmap_2 (fun s => bool_decide (is_Some (update_rates 0 s)))) in Hs.
      rewrite F1 in Hs. apply list_elem_of_singleton in Hs. exact (bool_decide_eq_true_1 _ Hs).
    + intros m out. cbn. destruct (tick_choke _ _ _); intros [= <- <-]. constructor.
Qed.

Lemma fetched_from (from to : option ActiveTask) :
  (fun s => (closed_ s, choking_peer_ s, bool_decide (cancelled_set_ s = ∅))) <$> first_session from =
    Some (false, false, true) ->
  (s ← first_session from; l ← first_session to;
   Some (io_pool_ l, fetch_subblock demo_data s l None 0 0 0)) = Some (true, Some demo_x) ->
  exists t s l, from = Some t /\ s ∈ sessions_ (at_mgr t) /\ willing s 0 /\ io_pool_ l = true /\
    fetch_subblock demo_data s l None 0 0 0 = Some demo_x.
Proof.
  intros Hw Hf. destruct from as [t|]; [|discriminate Hw].
  destruct (first_session (Some t)) as [s|] eqn:Es; [|discriminate Hw].
  cbn [mbind option_bind fmap option_fmap option_map] in Hw, Hf. injection Hw as W1 W2 W3%bool_decide_eq_true_1.
  destruct (first_session to) as [l|]; [|discriminate Hf]. cbn [mbind option_bind] in Hf.
  apply (inj Some), pair_equal_spec in Hf as [Hio Hf]. exists t, s, l. split; [reflexivity|].
  split; [exact (head_Some_elem_of _ _ Es)|]. split; [|split; assumption].
  split; [exact W1|]. split; [exact W2|]. intros b. rewrite W3. apply not_elem_of_empty.
Qed.

Lemma demo_served sd t0 :
  demo_made = Some sd -> demo_publisher = Some t0 -> served demo_sha no_addr sd demo_data t0 demo_x.
Proof.
  intros Hsd H0. pose proof demo_made_chunks as Hc. rewrite Hsd in Hc. apply (inj Some) in Hc.
  destruct (fetched_from _ _ demo_willing demo_fetch) as (t & s & l & Et & Hs & Hw & Hio & Hf).
  exists t, s, {| ce_offset := 0; ce_length := 3; ce_sha256 := demo_sha demo_data |}, l, None, 0.
  split; [exact (demo_seed_reach sd t0 t H0 Et)|]. split; [exact Hs|]. split; [exact Hw|].
  split; [rewrite Hc; reflexivity|]. split; [cbn; lia|]. split; [reflexivity|]. split; [exact Hio|].
  split; [exact I|exact Hf].
Qed.

Lemma demo_transfer sd t0 u0 u :
  demo_made = Some sd -> demo_publisher = Some t0 -> demo_getter = Some u0 ->
  demo_run demo_connected demo_abc = Some u -> transfer demo_sha no_addr sd demo_data t0 u0 [demo_x] u.
Proof.
  intros Hsd H0 Hu0 Hu. pose proof (demo_served sd t0 Hsd H0) as Hx. destruct demo_getter_fits as [F0 F1].
  rewrite Hu0 in Hu, F0, F1. injection F0 as F0.
  destruct (demo_run (Some u0) demo_peer) as [u1|] eqn:E1; [|discriminate F1]. injection F1 as F1 G1.
  change (handed_by no_addr u1 (TNet demo_abc) 0 = [demo_x]) in G1.
  change [demo_x] with (([] ++ []) ++ [demo_x]). rewrite <- G1.
  eapply transfer_step; [|..|exact (demo_run_Some _ _ _ Hu)].
  - change (@nil PieceTask) with (handed_by no_addr u0 (TNet demo_peer) 0) at 2.
    eapply transfer_step; [apply transfer_start|..|exact (demo_run_Some _ _ _ E1)]; [|constructor].
    split; [reflexivity|]. cbn. rewrite F0. lia.
  - split; [reflexivity|]. split; [rewrite F1; change (zlength _) with 11; lia|].
    intros s _. unfold body_ok. cbn. done.
  - rewrite G1. constructor; [exact Hx|constructor].
Qed.

Lemma demo_all_received sd : demo_made = Some sd -> all_received sd (replicate (length (chunks sd)) false) [demo_x].
Proof.
  intros Hsd. pose proof demo_made_chunks as Hc. rewrite Hsd in Hc. injection Hc as Hc. rewrite Hc.
  intros i c b Hi _ Hb Hm. unfold all_received in *. rewrite Hc in Hi. exists demo_x. split; [by left|].
  assert (i = 0) as -> by (apply zget_range in Hi; unfold zlength in Hi; cbn in Hi; lia).
  injection Hi as <-. cbn in Hb. unfold SUB_BLOCK_SIZE in Hm. split; [reflexivity|].
  cbn. rewrite Z.mod_small in Hm by lia. by symmetry.
Qed.

Lemma demo_publishable : publishable demo_make_fs demo_make_env (txt "dir/f") demo_opts demo_data.
Proof.
  split.
  - reflexivity.
  - vm_compute. split; [reflexivity|discriminate].
  - vm_compute. reflexivity.
  - discriminate.
  - repeat split; try discriminate; by apply (bool_decide_eq_false_1 (_ ∈ _)).
  - vm_compute. reflexivity.
  - vm_compute. split; discriminate.
  - repeat split.
Qed.

