(* ===== verification/Daemon.v ===== *)
(** * The daemon (src/src/daemon/main.cpp)

    The command line, and the heartbeat timer that drives the periodic work
    of the task manager.  An exception of that work ends the heartbeat: the
    timer is not set again.  Signals, the event loop and the log are not
    modelled; what the work needs of the environment (the clock, random
    orders) are arguments. *)

From Stdlib Require Import Ascii.
From S2P Require Import Prelude Text Json FileUtil Seed PeerSession Tracker PeerManager Workers TaskManager TaskStart TaskRun.
Import OCamlLikeNotations.

(** ** The command line *)
Inductive stoi_error := StoiInvalid | StoiRange.

(** [std::stoi]. *)
Definition stoi (s : text) : result stoi_error Z :=
  match strtol s with
  | None => Err StoiInvalid
  | Some (v, _) => if (- 2 ^ 31 <=? v) && (v <? 2 ^ 31) then Ok v else Err StoiRange
  end.

Record DaemonOptions := {
  do_ipc_port : Z;
  do_tracker_host : text;
  do_tracker_port : Z;
  do_p2p_port : Z;
}.

Definition daemon_options_eta (o : DaemonOptions) : DaemonOptions := {|
  do_ipc_port := do_ipc_port o; do_tracker_host := do_tracker_host o;
  do_tracker_port := do_tracker_port o; do_p2p_port := do_p2p_port o;
|}.

#[export] Hint Extern 0 (@Setter DaemonOptions _ ?g) => set_field daemon_options_eta g : typeclass_instances.

Definition daemon_defaults : DaemonOptions :=
  {| do_ipc_port := 16888; do_tracker_host := []; do_tracker_port := 8080; do_p2p_port := 16889 |}.

(** The loop over the arguments; an exception of [stoi] ends the program. *)
Fixpoint daemon_options (args : list text) (o : DaemonOptions) : result stoi_error DaemonOptions :=
  match args with
  | a :: ((v :: rest) as args') =>
    if decide (a = txt "--ipc-port") then
      let! p := stoi v in daemon_options rest { o with do_ipc_port := u16 p }
    else if decide (a = txt "--tracker-host") then daemon_options rest { o with do_tracker_host := v }
    else if decide (a = txt "--tracker-port") then
      let! p := stoi v in daemon_options rest { o with do_tracker_port := u16 p }
    else if decide (a = txt "--p2p-port") then
      let! p := stoi v in daemon_options rest { o with do_p2p_port := u16 p }
    else daemon_options args' o
  | _ => Ok o
  end.

(** ** The heartbeat *)
(** [d_armed]: the timer is waiting. *)
Record Daemon := {
  d_running : bool;
  d_tick_count : Z;
  d_armed : bool;
  d_builtin_tracker : bool;
  d_task_mgr : TaskManager;
}.

Definition daemon_eta (d : Daemon) : Daemon := {|
  d_running := d_running d; d_tick_count := d_tick_count d; d_armed := d_armed d;
  d_builtin_tracker := d_builtin_tracker d; d_task_mgr := d_task_mgr d;
|}.

#[export] Hint Extern 0 (@Setter Daemon _ ?g) => set_field daemon_eta g : typeclass_instances.

Definition daemon_start (o : DaemonOptions) : Daemon := {|
  d_running := true; d_tick_count := 0; d_armed := true;
  d_builtin_tracker := bool_decide (do_tracker_host o = []);
  d_task_mgr := task_manager_new (do_p2p_port o) (do_tracker_host o) (do_tracker_port o);
|}.

(** A call of the loop body: it is made if it is due and nothing was thrown
    before. *)
Definition then_call (due : bool) (f : TaskManager -> option (TaskManager * option task_error))
  (r : option (TaskManager * option task_error)) : option (TaskManager * option task_error) :=
  '(tm, err) ← r;
  match err with
  | Some _ => Some (tm, err)
  | None => if due then f tm else Some (tm, None)
  end.

Section daemon.
Context (inet_addr : string -> Z) (resolves : text -> bool).

Definition periodic (tm : TaskManager) (count : Z) (shuffle : list nat -> list nat) (now : Z) (iso : string)
  : option (TaskManager * option task_error) :=
  then_call (count mod 600 =? 0) (fun tm => tick_pex_all inet_addr tm now)
  (then_call (count mod 300 =? 0) (fun tm => tick_tracker_announce resolves tm)
  (then_call (count mod 60 =? 0)
    (fun tm => Some ({ tm with tracker_ ::= (fun s : TrackerServer => cleanup_stale s 90 now) }, None))
  (then_call (count mod 100 =? 0) (fun tm => tick_choke_all tm shuffle now)
  (tick resolves tm now iso)))).

(** The timer's handler. *)
Definition heartbeat (d : Daemon) (ec : bool) (shuffle : list nat -> list nat) (now : Z) (iso : string)
  : option Daemon :=
  let d := { d with d_armed := false } in
  if ec || negb (d_running d) then Some d
  else
    let count := u64 (d_tick_count d + 1) in
    '(tm, err) ← periodic (d_task_mgr d) count shuffle now iso;
    let d := { d with d_tick_count := count; d_task_mgr := tm } in
    Some (match err with
          | Some _ => { d with d_running := false }
          | None => { d with d_armed := true }
          end).
End daemon.

(** ** A tracker that cannot be resolved ends the heartbeat *)
Lemma announce_unresolved resolves tm t :
  resolves (announce_target tm (at_seed t)).1 = false ->
  exists t', announce_task_now resolves tm t = (t', Some (ClientFailed ResolveFailed)).
Proof.
  intros Hr. unfold announce_task_now. destruct (announce_target tm (at_seed t)) as [host port].
  cbn in Hr. cbv zeta. unfold client_announce, do_announce. rewrite Hr. by eexists.
Qed.

(** A download that is due to announce itself, with a tracker whose name does
    not resolve, ends the heartbeat of the whole daemon: the handler leaves
    the timer unarmed, so no task is ever ticked again. *)
Theorem unresolved_tracker_ends_heartbeat inet_addr resolves d tid t t1 shuffle now iso :
  tasks_ (d_task_mgr d) = {[tid := t]} -> d_running d = true ->
  tick_work t now iso = Some t1 -> is_seed t1 = false -> at_state t1 = "downloading"%string ->
  now < startup_announce_deadline t1 -> next_startup_announce t1 <= now ->
  resolves (announce_target (d_task_mgr d) (at_seed t1)).1 = false ->
  exists d', heartbeat inet_addr resolves d false shuffle now iso = Some d' /\
    d_running d' = false /\ d_armed d' = false.
Proof.
  destruct d as [running count armed builtin tm]. cbn [d_task_mgr d_running].
  intros Ht -> Hw Hseed Hst Hdl Hnext Hres.
  assert (exists tm', tick resolves tm now iso = Some (tm', Some (ClientFailed ResolveFailed)))
    as (tm' & Htick).
  { unfold tick, tasks_in_order. rewrite Ht, map_to_list_singleton. cbn [sort_str foldr insert_str each_task].
    unfold tick_task. rewrite Hw. cbn [mbind option_bind]. unfold startup_announce. rewrite Hseed.
    rewrite (bool_decide_eq_true_2 _ Hst). replace (now <? _) with true by lia.
    replace (next_startup_announce t1 <=? now) with true by lia. cbn [negb andb].
    destruct (announce_unresolved resolves tm { t1 with next_startup_announce := now + 2 * 10 ^ 9 })
      as (t' & ->); [done|]. cbn [mbind option_bind]. by eexists. }
  unfold heartbeat, periodic. cbn [d_running d_task_mgr d_tick_count apply_update orb negb]. rewrite Htick.
  eexists. split; [reflexivity|]. by split.
Qed.

(** Such a download can be added: the command reports the failure of its first
    announce but keeps the task, and two seconds later the heartbeat ends. *)
Theorem add_unresolved_ends_heartbeat :
  exists fs' tm' d',
    cmd_add demo_sha demo_sha (fun _ => 0) (fun _ => false) demo_fs demo_tm demo_env "new.tseed" "copy" =
      Some (fs', tm', Threw (ClientFailed ResolveFailed)) /\
    heartbeat (fun _ => 0) (fun _ => false)
      {| d_running := true; d_tick_count := 20; d_armed := true; d_builtin_tracker := false; d_task_mgr := tm' |}
      false (fun l => l) (2 * 10 ^ 9) "now" = Some d' /\
    d_running d' = false /\ d_armed d' = false.
Proof.
  do 3 eexists. split; [vm_compute; reflexivity|]. split; [vm_compute; reflexivity|]. by split.
Qed.
