(* ===== verification/Requests.v ===== *)
(** * What a request does (ipc_server.cpp with task_manager.cpp, in src/src/daemon)

    A request of the command line tool either changes no task or makes one
    that is ready to run, and its reply says which.  The lemmas collect, for
    the three commands that make tasks, what [TaskStart] and [Serving] show
    and which files are left alone; the theorem is about errors: a request
    that is refused changes nothing but the output file it named. *)

From Stdlib Require Import Ascii.
From S2P Require Import Prelude Text Json FileUtil Seed Protocol SegmentIO Tracker PeerManager PeerManagerSpec Workers TaskManager TaskStart Serving Ipc.
Import OCamlLikeNotations.

(** ** What a request names *)
Section fields.
Context (request : text).

Definition field (key : string) : text := extract request (txt key).

(** The seed file that is read. *)
Definition seed_of : option string :=
  if decide (field "cmd" = txt "seed") then Some (str (field "seed_path"))
  else if decide (field "cmd" = txt "add") then
    if decide (field "seed_path" = []) then None else Some (str (field "seed_path"))
  else if decide (field "cmd" = txt "update") then
    if decide (field "new_seed" <> []) then Some (str (field "new_seed")) else None
  else None.

(** The file that is written. *)
Definition output_of : option string :=
  if decide (field "cmd" = txt "add") then
    if decide (field "seed_path" = []) then None
    else Some (str (if decide (field "save_path" = []) then txt "downloaded_file" else field "save_path"))
  else if decide (field "cmd" = txt "update") then
    if decide (field "new_seed" <> []) then Some (str (field "new_file")) else None
  else None.

(** The task asked about. *)
Definition task_of : option string :=
  if decide (field "cmd" = txt "remove" \/ field "cmd" = txt "peers" /\ field "task_id" <> [] \/
             field "cmd" = txt "update" /\ field "new_seed" = [] /\ field "task_id" <> [])
  then Some (str (field "task_id")) else None.
End fields.

(** The word after ["status":] of a reply. *)
Definition status (reply : text) : text := extract reply (txt "status").

Lemma status_error s : status (js "{'status':'error','error':'" ++ s) = txt "error".
Proof. reflexivity. Qed.

Lemma status_ok s : status (js "{'status':'ok'" ++ s) = txt "ok".
Proof. reflexivity. Qed.

(** ** Asking about tasks *)
Lemma in_order_lookup tm kv : kv ∈ tasks_in_order tm -> tasks_ tm !! kv.1 = Some kv.2.
Proof.
  unfold tasks_in_order. rewrite sort_str_perm. intros Hin. destruct kv. by apply elem_of_map_to_list.
Qed.

Lemma task_status_missing tm id :
  tasks_ tm !! str id = None -> task_status tm id = error_reply "task not found".
Proof.
  intros Hn. unfold task_status. destruct (list_find _ _) as [[k i]|] eqn:E; [|done].
  apply list_find_Some in E as (Hk & Hid & _). unfold cmd_list in Hk.
  apply list_lookup_fmap_Some in Hk as (kv & -> & Hkv). apply list_elem_of_lookup_2, in_order_lookup in Hkv.
  cbn in Hid. congruence.
Qed.

Lemma status_task_status tm id : status (task_status tm id) = txt "error" \/ status (task_status tm id) = txt "ok".
Proof. unfold task_status. destruct (list_find _ _) as [[k i]|]; [by right|by left]. Qed.

Lemma status_peers tm id : status (cmd_peers tm id) = txt "error" \/ status (cmd_peers tm id) = txt "ok".
Proof. unfold cmd_peers. destruct (tasks_ tm !! id); [by right|by left]. Qed.

(** ** Which files a command leaves alone *)
Lemma open_output_frame fs e sd path fs' r q :
  open_output fs e sd path = (fs', r) -> q <> path -> fs' !! q = fs !! q.
Proof.
  unfold open_output. destruct (writer_open _ _ _ _ _ _) as [[ok w] disk]. cbv zeta. intros Ho Hq.
  assert (fs' = match disk with Some d => <[path := d]> fs | None => fs end) as ->.
  { destruct (negb ok); [by injection Ho|]. destruct (init_assemblers _ _ _ _) as [? [?|]]; by injection Ho. }
  destruct disk; [|done]. by apply lookup_insert_ne.
Qed.

Lemma clone_range_frame fs src so dst do_ len n fs' ok q :
  clone_range fs src so dst do_ len n = (fs', ok) -> q <> dst -> fs' !! q = fs !! q.
Proof.
  unfold clone_range. intros Hc Hq. destruct (fs !! src), (fs !! dst); try (by injection Hc as <- _).
  destruct (0 <? n); injection Hc as <- _; [|done]. by apply lookup_insert_ne.
Qed.

Lemma clone_candidates_frame old new want i copied cands q : q <> new -> forall fs k fs' r,
  clone_candidates fs old new want i k copied cands = (fs', r) -> fs' !! q = fs !! q.
Proof.
  intros Hq. induction cands as [|c cands IH]; intros fs k fs' r; cbn [clone_candidates]; [by intros [= <- _]|].
  destruct (negb _); [apply IH|]. destruct (clone_range _ _ _ _ _ _ _) as [fs1 ok] eqn:E.
  apply clone_range_frame with (q := q) in E; [|done]. destruct ok; [intros [= <- _]; done|].
  intros Hc%IH. congruence.
Qed.

Lemma clone_loop_frame old new copied q cs : q <> new -> forall fs index i fs' bf,
  clone_loop fs old new copied index i cs = (fs', bf) -> fs' !! q = fs !! q.
Proof.
  intros Hq. induction cs as [|c cs IH]; intros fs index i fs' bf; cbn [clone_loop]; [by intros [= <- _]|].
  destruct (clone_candidates _ _ _ _ _ _ _ _) as [fs1 used] eqn:E1.
  destruct (clone_loop _ _ _ _ _ _ _) as [fs2 bf2] eqn:E2. intros [= <- _].
  apply IH in E2. apply clone_candidates_frame with (q := q) in E1; [|done]. congruence.
Qed.

Lemma clone_old_frame fs e old new index cs fs' bf q :
  clone_old fs e old new index cs = (fs', bf) -> q <> new -> fs' !! q = fs !! q.
Proof.
  unfold clone_old. intros Hc Hq. destruct index; [|by injection Hc as <- _].
  destruct (_ <? 0); [by injection Hc as <- _|]. by eapply clone_loop_frame.
Qed.

Section requests.
Context (sha256 sha1 : bytes -> bytes) (inet_addr : string -> Z) (resolves : text -> bool).
Context (what : task_error -> text).

(** *** Where the task of a command writes *)
Lemma store_task_output tm t ok tm' r :
  store_task resolves tm t ok = (tm', r) ->
  exists t', tasks_ tm' = <[task_id t := t']> (tasks_ tm) /\ at_file_path t' = at_file_path t /\
    at_writer t' = at_writer t.
Proof.
  unfold store_task, announce_task_now. destruct (announce_target _ _) as [h p]. cbv zeta.
  destruct (client_announce _ _ _ _); intros [= <- _]; by eexists.
Qed.

(** The files and tasks after a command that writes to [path]. *)
Definition writes_only (fs fs' : FileSystem) (tm tm' : TaskManager) (tid path : string) : Prop :=
  (forall q, q <> path -> fs' !! q = fs !! q) /\
  (tasks_ tm' = tasks_ tm \/ exists t, tasks_ tm' = <[tid := t]> (tasks_ tm) /\
     at_file_path t = path /\ is_Some (at_writer t)).

Lemma cmd_add_writes fs tm e seed_path save_path fs' tm' r :
  cmd_add sha256 sha1 inet_addr resolves fs tm e seed_path save_path = Some (fs', tm', r) ->
  writes_only fs fs' tm tm' (env_tid e) save_path.
Proof.
  unfold cmd_add. destruct (read_tseed _ _ _) as [sd|err]; [|intros [= <- <- _]; by split; [|left]].
  cbv zeta. destruct (open_output _ _ _ _) as [fs1 [[[w asms] mem]|msg]] eqn:Eo;
    pose proof (fun q => open_output_frame _ _ _ _ _ _ q Eo) as Hf; [|intros [= <- <- _]; by split; [|left]].
  destruct (start_pools _ _ _ _) as [p|]; [|done]. cbn [mbind option_bind].
  destruct (negb _); [intros [= <- <- _]; by split; [|left]|].
  destruct (store_task _ _ _ _) as [tm1 r1] eqn:Es. intros [= <- <- _]. split; [done|]. right.
  apply store_task_output in Es as (t' & ? & ? & Hw). exists t'. by rewrite Hw.
Qed.

Lemma cmd_update_writes fs tm e ns nf os old fs' tm' r :
  cmd_update sha256 sha1 inet_addr resolves fs tm e ns nf os old = Some (fs', tm', r) ->
  writes_only fs fs' tm tm' (env_tid e) nf.
Proof.
  unfold cmd_update. destruct (read_tseed _ _ _) as [sd|err]; [|intros [= <- <- _]; by split; [|left]].
  cbv zeta. destruct (open_output _ _ _ _) as [fs1 [[[w asms] mem]|msg]] eqn:Eo;
    pose proof (fun q => open_output_frame _ _ _ _ _ _ q Eo) as Hf; [|intros [= <- <- _]; by split; [|left]].
  destruct (clone_old _ _ _ _ _ _) as [fs2 bf] eqn:Ec.
  assert (forall q, q <> nf -> fs2 !! q = fs !! q) as Hf2.
  { intros q Hq. rewrite (clone_old_frame _ _ _ _ _ _ _ _ q Ec Hq). by apply Hf. }
  destruct (start_pools _ _ _ _) as [p|]; [|done]. cbn [mbind option_bind].
  destruct (negb _); [intros [= <- <- _]; by split; [|left]|].
  destruct (store_task _ _ _ _) as [tm1 r1] eqn:Es. intros [= <- <- _]. split; [done|]. right.
  apply store_task_output in Es as (t' & ? & ? & Hw). exists t'. by rewrite Hw.
Qed.

Lemma cmd_seed_writes fs tm e seed_path file_path fs' tm' r :
  cmd_seed sha256 sha1 inet_addr resolves fs tm e seed_path file_path = Some (fs', tm', r) ->
  tasks_ tm' = tasks_ tm \/ exists t, tasks_ tm' = <[env_tid e := t]> (tasks_ tm) /\ at_writer t = None.
Proof.
  unfold cmd_seed. destruct (read_tseed _ _ _) as [sd|err]; [|intros [= _ <- _]; by left].
  destruct (_ <? 0); [intros [= _ <- _]; by left|].
  destruct (start_pools _ _ _ _) as [p|]; [|done]. cbn [mbind option_bind].
  destruct (negb _); [intros [= _ <- _]; by left|].
  destruct (store_task _ _ _ _) as [tm1 r1] eqn:Es. intros [= _ <- _]. right.
  apply store_task_output in Es as (t' & ? & _ & Hw). by exists t'.
Qed.

(** *** A command that cannot listen makes no task *)
Lemma cmd_add_unbound fs tm e seed_path save_path fs' tm' r :
  env_bind_ok e = false ->
  cmd_add sha256 sha1 inet_addr resolves fs tm e seed_path save_path = Some (fs', tm', r) -> tm' = tm.
Proof.
  intros Hb. unfold cmd_add. destruct (read_tseed _ _ _); [|by intros [= _ <- _]]. cbv zeta.
  destruct (open_output _ _ _ _) as [fs1 [[[w asms] mem]|msg]]; [|by intros [= _ <- _]].
  destruct (start_pools _ _ _ _); [|done]. rewrite Hb. by intros [= _ <- _].
Qed.

Lemma cmd_update_unbound fs tm e ns nf os old fs' tm' r :
  env_bind_ok e = false ->
  cmd_update sha256 sha1 inet_addr resolves fs tm e ns nf os old = Some (fs', tm', r) -> tm' = tm.
Proof.
  intros Hb. unfold cmd_update. destruct (read_tseed _ _ _); [|by intros [= _ <- _]]. cbv zeta.
  destruct (open_output _ _ _ _) as [fs1 [[[w asms] mem]|msg]]; [|by intros [= _ <- _]].
  destruct (clone_old _ _ _ _ _ _) as [fs2 bf].
  destruct (start_pools _ _ _ _); [|done]. rewrite Hb. by intros [= _ <- _].
Qed.

Lemma cmd_seed_unbound fs tm e seed_path file_path fs' tm' r :
  env_bind_ok e = false ->
  cmd_seed sha256 sha1 inet_addr resolves fs tm e seed_path file_path = Some (fs', tm', r) -> tm' = tm.
Proof.
  intros Hb. unfold cmd_seed. destruct (read_tseed _ _ _); [|by intros [= _ <- _]].
  destruct (_ <? 0); [by intros [= _ <- _]|]. destruct (start_pools _ _ _ _); [|done]. rewrite Hb. by intros [= _ <- _].
Qed.

(** ** What comes of a request *)
(** A task a command has made: a download that writes to [output], or a
    seeder. *)
Definition made (e : cmd_env) (output : option string) (fs : FileSystem) (t : ActiveTask) : Prop :=
  seed_consistent (at_seed t) /\ Forall entry_ok (chunks (at_seed t)) /\
  match output with
  | Some path => at_file_path t = path /\ is_Some (at_writer t) /\
      exists bf mem, started sha256 (at_seed t) bf mem t /\ fs !! path = Some mem
  | None => at_writer t = None /\ seeding e (at_seed t) t
  end.

(** [st] is the status of the reply. *)
Definition effect (e : cmd_env) (output : option string) (fs : FileSystem) (tm : TaskManager)
  (fs' : FileSystem) (tm' : TaskManager) (st : text) : Prop :=
  (forall q, output <> Some q -> fs' !! q = fs !! q) /\
  (tm' = tm /\ (st = txt "error" \/ st = txt "ok" /\ fs' = fs) \/
   exists t, tasks_ tm' = <[env_tid e := t]> (tasks_ tm) /\ made e output fs' t /\
     st = txt (if resolves (announce_target tm (at_seed t)).1 then "ok" else "error")).

(** The text of a reply. *)
Definition said (r : reply) : text :=
  match r with Replied t => t | Threw e => js "{'status':'error','error':'" ++ what e ++ js "'}" end.

Lemma answer_said fs tm r : answer what (Some (fs, tm, r)) = Some (fs, tm, said r).
Proof. done. Qed.

Lemma status_accepted tm sd s :
  status (said (accepted resolves tm sd (js "{'status':'ok'" ++ s))) =
  txt (if resolves (announce_target tm sd).1 then "ok" else "error").
Proof. unfold accepted. by destruct (resolves _). Qed.

Lemma status_refused e sd r : refused e sd r -> status (said r) = txt "error".
Proof. by intros [[[msg ->]| ->] _]. Qed.

Section fits.
Context (fs : FileSystem) (tm : TaskManager) (e : cmd_env).
Hypothesis Hnew : tasks_ tm !! env_tid e = None.
Hypothesis Hshuffle : forall l, env_shuffle e l ≡ₚ l.

(** The task is the one that is new. *)
Lemma inserted_same (ts : gmap string ActiveTask) (P Q : ActiveTask -> Prop) :
  (exists t, ts = <[env_tid e := t]> (tasks_ tm) /\ P t) ->
  ts = tasks_ tm \/ (exists t, ts = <[env_tid e := t]> (tasks_ tm) /\ Q t) ->
  exists t, ts = <[env_tid e := t]> (tasks_ tm) /\ P t /\ Q t.
Proof using Hnew.
  intros (t & -> & Ht) [Ho|(u & Ho & Hu)]; apply (f_equal (lookup (env_tid e))) in Ho;
    rewrite !lookup_insert_eq in Ho; [congruence|]. injection Ho as ->. by eauto.
Qed.

Lemma download_effect path sd bf mem tm' t s :
  seed_consistent sd -> Forall entry_ok (chunks sd) -> tasks_ tm' = <[env_tid e := t]> (tasks_ tm) ->
  started sha256 sd bf mem t -> writes_only fs (<[path := mem]> fs) tm tm' (env_tid e) path ->
  effect e (Some path) fs tm (<[path := mem]> fs) tm' (status (said (accepted resolves tm sd (js "{'status':'ok'" ++ s)))).
Proof using Hnew.
  intros Hc Hok Hts Hst [Hf Ht]. split; [intros q Hq; apply Hf; congruence|]. right.
  destruct (inserted_same _ _ _ (ex_intro _ t (conj Hts Hst)) Ht) as (t' & -> & Hst' & Hp & Hw).
  exists t'. split; [done|]. rewrite (st_seed _ _ _ _ _ Hst'). split; [|apply status_accepted].
  split_and!; rewrite ?(st_seed _ _ _ _ _ Hst'); try done. do 2 eexists. split; [done|]. apply lookup_insert_eq.
Qed.

Lemma refused_effect output fs' sd r :
  (forall q, output <> Some q -> fs' !! q = fs !! q) -> refused e sd r ->
  effect e output fs tm fs' tm (status (said r)).
Proof using. intros Hf Hr. split; [done|]. left. split; [done|]. left. by eapply status_refused. Qed.

(** A request that changes nothing. *)
Lemma nothing_effect output st : st = txt "error" \/ st = txt "ok" -> effect e output fs tm fs tm st.
Proof using. intros [-> | ->]; (split; [done|]); left; (split; [done|]); [by left|by right]. Qed.

Lemma add_effect seed_path save_path :
  (forall sd, read_tseed sha256 sha1 (fs !! seed_path) = Ok sd -> seed_consistent sd) ->
  exists fs' tm' r, cmd_add sha256 sha1 inet_addr resolves fs tm e seed_path save_path = Some (fs', tm', r) /\
    effect e (Some save_path) fs tm fs' tm' (status (said r)).
Proof using Hnew Hshuffle.
  intros Hc. destruct (read_tseed sha256 sha1 (fs !! seed_path)) as [sd|err] eqn:Hr.
  2: { exists fs, tm, (Threw (SeedFailed err)). unfold cmd_add. rewrite Hr. split; [done|].
       apply nothing_effect. by left. }
  specialize (Hc sd eq_refl). destruct (read_tseed_typed _ _ _ _ Hr) as [_ _ _ _ _ _ Hok].
  destruct (cmd_add_starts sha256 sha1 inet_addr resolves fs tm e seed_path save_path sd Hr Hc Hshuffle)
    as (fs' & tm' & r & Hrun & Hcase). exists fs', tm', r. split; [done|].
  pose proof (cmd_add_writes _ _ _ _ _ _ _ _ Hrun) as Hw.
  destruct Hcase as [[-> Hno]|(-> & t & mem & Hts & -> & Hst & _)]; [|by eapply download_effect].
  eapply refused_effect; [|done]. intros q Hq. apply Hw. congruence.
Qed.

Lemma update_effect new_seed new_file old_seed old_file :
  (forall sd, read_tseed sha256 sha1 (fs !! new_seed) = Ok sd -> seed_consistent sd /\ copies_bounded e (chunks sd)) ->
  old_file <> new_file ->
  exists fs' tm' r,
    cmd_update sha256 sha1 inet_addr resolves fs tm e new_seed new_file old_seed old_file = Some (fs', tm', r) /\
    effect e (Some new_file) fs tm fs' tm' (status (said r)).
Proof using Hnew Hshuffle.
  intros Hc Hne. destruct (read_tseed sha256 sha1 (fs !! new_seed)) as [sd|err] eqn:Hr.
  2: { exists fs, tm, (Threw (SeedFailed err)). unfold cmd_update. rewrite Hr. split; [done|].
       apply nothing_effect. by left. }
  destruct (Hc sd eq_refl) as [Hc' Hcp]. destruct (read_tseed_typed _ _ _ _ Hr) as [_ _ _ _ _ _ Hok].
  destruct (cmd_update_starts sha256 sha1 inet_addr resolves fs tm e new_seed new_file old_seed old_file sd Hr Hc'
    Hshuffle Hne Hcp) as (fs' & tm' & r & Hrun & Hcase). exists fs', tm', r. split; [done|].
  pose proof (cmd_update_writes _ _ _ _ _ _ _ _ _ _ Hrun) as Hw.
  destruct Hcase as [[-> Hno]|(t & mem & bf & -> & Hts & -> & Hst)]; [|by eapply download_effect].
  eapply refused_effect; [|done]. intros q Hq. apply Hw. congruence.
Qed.

Lemma seed_effect seed_path file_path :
  (forall sd, read_tseed sha256 sha1 (fs !! seed_path) = Ok sd -> seed_consistent sd) ->
  exists fs' tm' r, cmd_seed sha256 sha1 inet_addr resolves fs tm e seed_path file_path = Some (fs', tm', r) /\
    effect e None fs tm fs' tm' (status (said r)).
Proof using Hnew.
  intros Hc. destruct (read_tseed sha256 sha1 (fs !! seed_path)) as [sd|err] eqn:Hr.
  2: { exists fs, tm, (Threw (SeedFailed err)). unfold cmd_seed. rewrite Hr. split; [done|].
       apply nothing_effect. by left. }
  specialize (Hc sd eq_refl). destruct (read_tseed_typed _ _ _ _ Hr) as [_ _ _ _ _ _ Hok].
  destruct (cmd_seed_starts sha256 sha1 inet_addr resolves fs tm e seed_path file_path sd Hr Hc)
    as (tm' & r & Hrun & Hcase). exists fs, tm', r. split; [done|].
  destruct Hcase as [[-> Hno]|(_ & -> & t & Hts & Hst)].
  { apply nothing_effect. left. by destruct Hno as [[_ ->]|[_ ->]]. }
  split; [done|]. right. pose proof (cmd_seed_writes _ _ _ _ _ _ _ _ Hrun) as Hw.
  destruct (inserted_same _ _ _ (ex_intro _ t (conj Hts Hst)) Hw) as (t' & -> & Hst' & Hw').
  exists t'. split; [done|]. rewrite (se_seed _ _ _ Hst'). split; [|apply status_accepted].
  split_and!; rewrite ?(se_seed _ _ _ Hst'); done.
Qed.
End fits.

(** A request the theorems speak about: the task it makes has a new id, the
    random order is one, the seed it reads is consistent, copies return what
    the system call promises, an update is not made in place, and it does not
    remove a task. *)
Record request_fits (fs : FileSystem) (tm : TaskManager) (e : cmd_env) (request : text) : Prop := {
  rf_new : tasks_ tm !! env_tid e = None;
  rf_shuffle : forall l, env_shuffle e l ≡ₚ l;
  rf_seed p sd : seed_of request = Some p -> read_tseed sha256 sha1 (fs !! p) = Ok sd ->
    seed_consistent sd /\ copies_bounded e (chunks sd);
  rf_old : field request "cmd" = txt "update" -> field request "new_seed" <> [] ->
    str (field request "old_file") <> str (field request "new_file");
  rf_remove : field request "cmd" = txt "remove" -> tasks_ tm !! str (field request "task_id") = None;
}.

Ltac open_handle := unfold handle; cbv zeta;
  repeat match goal with |- context [extract ?r (txt ?k)] => change (extract r (txt k)) with (field r k) end.

Lemma handle_effect fs tm e request :
  request_fits fs tm e request ->
  exists fs' tm' reply, handle sha256 sha1 inet_addr resolves what fs tm e request = Some (fs', tm', reply) /\
    effect e (output_of request) fs tm fs' tm' (status reply).
Proof.
  intros [Hnew Hsh Hseed Hold Hrm]. unfold seed_of, output_of in *. open_handle.
  assert (forall out st, st = txt "error" \/ st = txt "ok" -> effect e out fs tm fs tm st) as Hnop
    by apply nothing_effect.
  destruct (decide (field request "cmd" = txt "seed")) as [Ec|].
  { destruct (seed_effect fs tm e Hnew (str (field request "seed_path")) (str (field request "file_path")))
      as (fs' & tm' & r & -> & He); [intros sd Hsd; by eapply Hseed|].
    rewrite answer_said, Ec. do 3 eexists. by split. }
  destruct (decide (field request "cmd" = txt "add")).
  { destruct (decide (field request "seed_path" = [])); [do 3 eexists; split; [done|]; apply Hnop; by left|].
    edestruct (add_effect fs tm e Hnew Hsh (str (field request "seed_path"))) as (fs' & tm' & r & -> & He);
      [intros sd Hsd; by eapply Hseed|]. rewrite answer_said. do 3 eexists. by split. }
  destruct (decide (field request "cmd" = txt "list")) as [Ec|].
  { rewrite Ec. do 3 eexists. split; [done|]. apply Hnop. by right. }
  destruct (decide (field request "cmd" = txt "remove")) as [Ec|].
  { rewrite Ec. unfold cmd_remove. rewrite (Hrm Ec). do 3 eexists. split; [done|]. apply Hnop. by left. }
  destruct (decide (field request "cmd" = txt "update")) as [Ec|].
  { destruct (decide (field request "new_seed" <> [])).
    - edestruct (update_effect fs tm e Hnew Hsh (str (field request "new_seed"))) as (fs' & tm' & r & -> & He);
        [intros sd Hsd; by eapply Hseed|by apply Hold|]. rewrite answer_said. do 3 eexists. by split.
    - destruct (decide (field request "task_id" <> [])); (do 3 eexists; split; [done|]; apply Hnop);
        [apply status_task_status|by left]. }
  destruct (decide (field request "cmd" = txt "peers")).
  - destruct (decide (field request "task_id" = [])); (do 3 eexists; split; [done|]; apply Hnop);
      [by left|apply status_peers].
  - do 3 eexists. split; [done|]. apply Hnop. by left.
Qed.

Lemma handle_unbound fs tm e request fs' tm' reply :
  env_bind_ok e = false -> handle sha256 sha1 inet_addr resolves what fs tm e request = Some (fs', tm', reply) ->
  tasks_ tm' ⊆ tasks_ tm.
Proof.
  intros Hb. open_handle. unfold answer.
  destruct (decide _); [|destruct (decide _)]; [|destruct (decide _); [by intros [= _ <- _]|]|].
  - destruct (cmd_seed _ _ _ _ _ _ _ _ _) as [[[fs1 tm1] r]|] eqn:E; [|done]. intros [= _ <- _].
    by rewrite (cmd_seed_unbound _ _ _ _ _ _ _ _ Hb E).
  - destruct (cmd_add _ _ _ _ _ _ _ _ _) as [[[fs1 tm1] r]|] eqn:E; [|done]. intros [= _ <- _].
    by rewrite (cmd_add_unbound _ _ _ _ _ _ _ _ Hb E).
  - destruct (decide _); [by intros [= _ <- _]|]. destruct (decide _).
    { unfold cmd_remove. destruct (tasks_ tm !! _); intros [= _ <- _]; [|done]. apply delete_subseteq. }
    destruct (decide _); [destruct (decide _)|].
    + destruct (cmd_update _ _ _ _ _ _ _ _ _ _ _) as [[[fs1 tm1] r]|] eqn:E; [|done]. intros [= _ <- _].
      by rewrite (cmd_update_unbound _ _ _ _ _ _ _ _ _ _ Hb E).
    + destruct (decide _); by intros [= _ <- _].
    + destruct (decide _); [destruct (decide _)|]; by intros [= _ <- _].
Qed.

(** A request that cannot be served: an unknown command, a field that is
    missing, a seed file that cannot be read, a task that does not exist. *)
Inductive bad_request (fs : FileSystem) (tm : TaskManager) (request : text) : Prop :=
| bad_command : field request "cmd" ∉ txt <$> ["seed"; "add"; "list"; "remove"; "update"; "peers"]%string ->
    bad_request fs tm request
| bad_add : field request "cmd" = txt "add" -> field request "seed_path" = [] -> bad_request fs tm request
| bad_update : field request "cmd" = txt "update" -> field request "new_seed" = [] ->
    field request "task_id" = [] -> bad_request fs tm request
| bad_peers : field request "cmd" = txt "peers" -> field request "task_id" = [] -> bad_request fs tm request
| bad_seed p err : seed_of request = Some p -> read_tseed sha256 sha1 (fs !! p) = Err err ->
    bad_request fs tm request
| bad_task tid : task_of request = Some tid -> tasks_ tm !! tid = None -> bad_request fs tm request.

(** The command of a request is known. *)
Ltac this_command E := rewrite E; repeat (rewrite decide_False by done); rewrite decide_True by done.

Lemma bad_request_refused fs tm e request :
  bad_request fs tm request ->
  exists reply, handle sha256 sha1 inet_addr resolves what fs tm e request = Some (fs, tm, reply) /\
    status reply = txt "error".
Proof.
  intros Hbad. open_handle. destruct Hbad as [Hc|Hc Hs|Hc Hs Ht|Hc Ht|p err Hs Hr|tid Ht Hn].
  - rewrite !decide_False by (intros E; apply Hc; rewrite E; set_solver). by eexists.
  - this_command Hc. rewrite decide_True by done. by eexists.
  - this_command Hc. rewrite !decide_False by (by intros []). by eexists.
  - this_command Hc. rewrite decide_True by done. by eexists.
  - unfold seed_of in Hs. destruct (decide (_ = txt "seed")) as [Hc|].
    { injection Hs as <-. unfold cmd_seed. rewrite Hr. rewrite answer_said. by eexists. }
    destruct (decide (_ = txt "add")) as [Hc|].
    { destruct (decide (_ = [])); [done|]. injection Hs as <-. unfold cmd_add. rewrite Hr, answer_said. by eexists. }
    destruct (decide (_ = txt "update")) as [Hc|]; [|done]. destruct (decide (_ <> [])); [|done].
    injection Hs as <-. rewrite Hc. repeat (rewrite decide_False by done).
    unfold cmd_update. rewrite Hr, answer_said. by eexists.
  - unfold task_of in Ht. destruct (decide _) as [Hc|]; [|done]. injection Ht as <-.
    destruct Hc as [Hc|[[Hc Hid]|(Hc & Hs & Hid)]]; this_command Hc.
    + unfold cmd_remove. rewrite Hn. by eexists.
    + rewrite decide_False by done. unfold cmd_peers. rewrite Hn. by eexists.
    + rewrite decide_False by (intros Hx; by apply Hx). rewrite decide_True by done. rewrite (task_status_missing _ _ Hn). by eexists.
Qed.

End requests.

(** ** The connection of the command line tool *)
(** The results of the calls [send_ipc] makes; [ic_recv] is what one [recv]
    gets after the bytes that were sent, nothing if it fails. *)
Record ipc_calls := {
  ic_wsa : bool;
  ic_socket : bool;
  ic_connect : bool;
  ic_send : bool;
  ic_recv : text -> option text;
}.

(** One [recv] into the buffer. *)
Definition recv_text (r : option text) : text :=
  match r with Some t => take (Z.to_nat 65535) t | None => [] end.

Definition send_ipc (c : ipc_calls) (json : text) : text :=
  if negb (ic_socket c) then error_reply "socket failed"
  else if negb (ic_connect c) then error_reply "connect failed"
  else let req := json ++ [newline] in recv_text (ic_recv c req).

Definition send_ipc_windows (c : ipc_calls) (json : text) : text :=
  if negb (ic_wsa c) then error_reply "WSAStartup failed"
  else if negb (ic_socket c) then error_reply "socket failed"
  else if negb (ic_connect c) then error_reply "connect failed"
  else
    let req := json ++ [newline] in
    if negb (ic_send c) then error_reply "send failed" else recv_text (ic_recv c req).

(** Even when the network delivers a reply at once, the tool shows all of it
    only if it has less than 64 KiB. *)
Theorem reply_shown_iff c json reply :
  ic_wsa c = true -> ic_socket c = true -> ic_connect c = true -> ic_send c = true ->
  ic_recv c (json ++ [newline]) = Some reply ->
  (send_ipc c json = reply <-> zlength reply <= 65535) /\ send_ipc_windows c json = send_ipc c json.
Proof.
  intros H1 H2 H3 H4 H5. unfold send_ipc, send_ipc_windows. cbv zeta. rewrite H1, H2, H3, H4, H5. cbn [negb recv_text].
  split; [|done]. unfold zlength. split.
  - intros E. apply (f_equal length) in E. rewrite length_take in E. lia.
  - intros Hl. apply take_ge. lia.
Qed.

(** ** Task ids *)
Lemma hex_digit_unquoted d : 0 <= d < 16 -> hex_digit d <> quote.
Proof.
  intros Hd. assert (Z.to_nat d < 16)%nat as Hn by lia. rewrite <- (Z2Nat.id d) by lia.
  destruct (Z.to_nat d) as [|n] eqn:E; [done|]. do 15 (destruct n as [|n]; [done|]). lia.
Qed.

(** The id of a new task is eight characters that the tool reads back from the
    reply, and that a later request carries to the task manager unchanged. *)
Theorem task_ids_travel sha256 sha1 inet_addr resolves what draw fs tm e :
  (forall i, 0 <= draw i < 16) ->
  String.length (gen_task_id draw) = 8%nat /\
  extract (id_reply (gen_task_id draw)) (txt "task_id") = txt (gen_task_id draw) /\
  handle sha256 sha1 inet_addr resolves what fs tm e (task_request "peers" (txt (gen_task_id draw)) ++ [newline]) =
    Some (fs, tm, cmd_peers tm (gen_task_id draw)).
Proof.
  intros Hd. set (tid := gen_task_id draw).
  assert (txt tid = (fun i => hex_digit (draw i)) <$> seq 0 8) as Ht by (apply String.list_ascii_of_string_of_list_ascii).
  assert (unquoted (txt tid)) as Hq.
  { rewrite Ht. intros (i & E & _)%list_elem_of_fmap. by apply (hex_digit_unquoted (draw i) (Hd i)). }
  split_and!.
  - done.
  - assert (id_reply tid = pieces (txt "{" :: [txt "status"; txt ":"; txt "ok"; txt ","; txt "data"; txt ":{";
      txt "task_id"; txt ":"; txt tid; txt "}}"])) as -> by (unfold id_reply; cbn; reflexivity).
    rewrite extract_pieces; [|apply unquoted_closed; reflexivity|apply unquoted_closed; reflexivity| |done].
    + reflexivity.
    + repeat (apply Forall_cons; split); [..|by constructor]; (exact Hq || (apply unquoted_closed; reflexivity)).
  - destruct (handle_task sha256 sha1 inet_addr resolves what fs tm e (txt tid) Hq) as (Hp & _); [by rewrite Ht|].
    rewrite Hp. unfold str. by rewrite String.string_of_list_ascii_of_string.
Qed.

