(* ===== verification/System.v ===== *)
(** * The whole daemon (src/src/daemon/main.cpp and what its event loop runs)

    The event loop calls one handler after the other: the heartbeat, the
    statistics timer, a request of the command line tool, a line that reaches
    the tracker, what happens to a task's sessions and threads, the ends of the
    tracker clients' connections and their timers.  [step] is one of them; an
    exception that leaves a handler ends the loop, and the program with it.  A
    task's pools write to the output file through shared mappings, so after a
    step the file on disk is what the task has in [pl_mem].

    The theorem ties the components together: in every state the daemon can
    reach, whatever fits is handled, and a task that is reported as complete
    has its file on disk. *)

From Stdlib Require Import Ascii.
From S2P Require Import Prelude Text Json FileUtil Platform Hash Seed FastCDC Protocol ChunkAssembler SegmentIO Scheduler SchedulerProofs SchedulerSpec PeerSession PeerSessionSpec NetUtil Tracker TrackerSpec PeerManager PeerManagerSpec Workers Transfer TaskManager TaskStart TaskRun Download Serving Ipc Daemon Requests.
Import OCamlLikeNotations.

(** ** State and events *)
(** A listening socket: whether an accept is outstanding, and the number of
    connections whose first read is. *)
Record Acceptor := {
  acc_armed : bool;
  acc_reading : nat;
}.

(** The handler of an accept; [ec] says that it failed. *)
Definition do_accept (a : Acceptor) (ec : bool) : Acceptor :=
  {| acc_armed := true; acc_reading := if ec then acc_reading a else S (acc_reading a) |}.

Definition tracker_do_accept (a : option Acceptor) (ec : bool) : option Acceptor :=
  (fun a => do_accept a ec) <$> a.

Definition acceptor_start : Acceptor := {| acc_armed := true; acc_reading := 0 |}.

(** The first read of a connection has returned. *)
Definition read_returned (a : Acceptor) : Acceptor :=
  {| acc_armed := acc_armed a; acc_reading := pred (acc_reading a) |}.

Record World := {
  w_daemon : Daemon;
  w_files : FileSystem;
  w_stats_armed : bool;
  w_ipc : Acceptor;
  w_tracker : option Acceptor;
}.

Definition world_eta (w : World) : World :=
  {| w_daemon := w_daemon w; w_files := w_files w; w_stats_armed := w_stats_armed w; w_ipc := w_ipc w;
     w_tracker := w_tracker w |}.

#[export] Hint Extern 0 (@Setter World _ ?g) => set_field world_eta g : typeclass_instances.

Abbreviation w_tm w := (d_task_mgr (w_daemon w)).

Definition world_start (o : DaemonOptions) (fs : FileSystem) : World :=
  {| w_daemon := daemon_start o; w_files := fs; w_stats_armed := true; w_ipc := acceptor_start;
     w_tracker := if decide (do_tracker_host o = []) then Some acceptor_start else None |}.

(** [main] up to the loop: an exception of [stoi] or [bind] is not caught and
    aborts the program. *)
Definition main_start (args : list text) (ipc_bound tracker_bound : bool) (fs : FileSystem) : option World :=
  match daemon_options args daemon_defaults with
  | Err _ => None
  | Ok o =>
    if negb ipc_bound then None
    else if bool_decide (do_tracker_host o = []) && negb tracker_bound then None
    else Some (world_start o fs)
  end.

Inductive event :=
| OnHeartbeat (ec : bool) (shuffle : list nat -> list nat) (now : Z) (iso : string)
| OnStats (ec : bool) (now : Z)
| OnSignal
| OnIpcAccept (ec : bool)
| OnTrackerAccept (ec : bool)
| OnRequest (e : cmd_env) (ec : bool) (received : text)
| OnAnnounce (request : text) (remote : option string) (now : Z)
| OnTask (tid : string) (o : task_op) (now : Z)
| OnClientDone (tid : string) (i : nat) (o : outcome) (now : Z)
| OnClientTimer (tid : string) (i : nat) (cancelled : bool).

(** The loop goes on, or the program ends with a code. *)
Inductive world_result := Goes (w : World) | Exits (code : Z).

Definition set_tm (w : World) (tm : TaskManager) : World :=
  { w with w_daemon ::= (fun d : Daemon => { d with d_task_mgr := tm }) }.

(** The task's mappings are shared with the file. *)
Definition put_task (w : World) (tid : string) (t : ActiveTask) : World :=
  let w := set_tm w { w_tm w with tasks_ ::= <[tid := t]> } in
  match at_writer t with
  | Some _ => { w with w_files ::= <[at_file_path t := pl_mem (at_pools t)]> }
  | None => w
  end.

Section system.
Context (sha256 sha1 : bytes -> bytes) (inet_addr : string -> Z) (resolves : text -> bool).
Context (what : task_error -> text).
Context `{JsonReader}.

(** A handler of a task's tracker client; its exceptions leave the loop. *)
Definition client_step (w : World) (tid : string) (f : ActiveTask -> result task_error ActiveTask)
  : world_result :=
  match tasks_ (w_tm w) !! tid with
  | None => Goes w
  | Some t => match f t with Ok t => Goes (put_task w tid t) | Err _ => Exits 1 end
  end.

Definition step (w : World) (ev : event) : option world_result :=
  match ev with
  | OnHeartbeat ec shuffle now iso =>
    d ← heartbeat inet_addr resolves (w_daemon w) ec shuffle now iso;
    Some (Goes { w with w_daemon := d })
  | OnStats ec now =>
    '(tm, _) ← do_stats_tick (w_tm w) ec now;
    Some (Goes { set_tm w tm with w_stats_armed := negb ec })
  | OnSignal => Some (Goes { w with w_daemon ::= (fun d : Daemon => { d with d_running := false }) })
  | OnIpcAccept ec => Some (Goes { w with w_ipc ::= (fun a => do_accept a ec) })
  | OnTrackerAccept ec => Some (Goes { w with w_tracker ::= (fun a => tracker_do_accept a ec) })
  | OnRequest e ec received =>
    '(fs, tm, _) ← handle_client sha256 sha1 inet_addr resolves what (w_files w) (w_tm w) e ec received;
    Some (Goes { set_tm w tm with w_files := fs; w_ipc ::= read_returned })
  | OnAnnounce request remote now =>
    match handle_announce (tracker_ (w_tm w)) request remote now with
    | Ok (s, _) => Some (Goes { set_tm w { w_tm w with tracker_ := s } with w_tracker ::= fmap read_returned })
    | Err _ => Some (Exits 1)
    end
  | OnTask tid o now =>
    match tasks_ (w_tm w) !! tid with
    | None => Some (Goes w)
    | Some t => t ← run_task sha256 inet_addr t o now; Some (Goes (put_task w tid t))
    end
  | OnClientDone tid i o now => Some (client_step w tid (fun t => client_done inet_addr t i o now))
  | OnClientTimer tid i cancelled => Some (client_step w tid (fun t => client_timer_fired resolves t i cancelled))
  end.

(** ** What holds of a task *)
Definition good_download (t : ActiveTask) : Prop :=
  exists speed, seed_consistent (at_seed t) /\ Forall entry_ok (chunks (at_seed t)) /\
    (is_Some (at_writer t) /\ zlength (pl_mem (at_pools t)) = file_size (header (at_seed t))) /\
    task_inv sha256 speed (at_seed t) (initial_bitfield_ (at_mgr t)) t.

Definition good_seeder (t : ActiveTask) : Prop :=
  exists e, seed_consistent (at_seed t) /\ Forall entry_ok (chunks (at_seed t)) /\
    at_writer t = None /\ seeding e (at_seed t) t.

Definition good_task (t : ActiveTask) : Prop := good_download t \/ good_seeder t.

(** Where a task's output is and what it holds. *)
Definition place (t : ActiveTask) : string * option SegmentWriter * bytes :=
  (at_file_path t, at_writer t, pl_mem (at_pools t)).

(** The tasks are good, their outputs are different files, and these hold what
    the tasks have. *)
Record tasks_ok (fs : FileSystem) (ts : gmap string ActiveTask) : Prop := {
  ok_good : map_Forall (fun _ t => good_task t) ts;
  ok_files tid t : ts !! tid = Some t -> is_Some (at_writer t) ->
    fs !! at_file_path t = Some (pl_mem (at_pools t));
  ok_distinct i j t u : ts !! i = Some t -> ts !! j = Some u -> is_Some (at_writer t) ->
    is_Some (at_writer u) -> at_file_path t = at_file_path u -> i = j;
}.

(** A task comes or changes; files that are the output of another are left. *)
Lemma tasks_ok_insert fs fs' ts tid t' :
  tasks_ok fs ts -> good_task t' ->
  (forall k x, k <> tid -> ts !! k = Some x -> is_Some (at_writer x) ->
     fs' !! at_file_path x = fs !! at_file_path x /\
     (is_Some (at_writer t') -> at_file_path x <> at_file_path t')) ->
  (is_Some (at_writer t') -> fs' !! at_file_path t' = Some (pl_mem (at_pools t'))) ->
  tasks_ok fs' (<[tid := t']> ts).
Proof using.
  intros [H1 H2 H3] Hg Hold Hnew. split.
  - by apply map_Forall_insert_2.
  - intros k x [[<- <-]|[Hne Hx]]%lookup_insert_Some Hw; [by apply Hnew|].
    destruct (Hold k x) as [-> _]; [done..|]. by apply (H2 k x).
  - intros i j x y [[<- <-]|[Hi Hx]]%lookup_insert_Some [[<- <-]|[Hj Hy]]%lookup_insert_Some Hwx Hwy Hp;
      [done|..|by apply (H3 i j x y)].
    + destruct (Hold j y) as [_ Hne]; [done..|]. by destruct Hne.
    + destruct (Hold i x) as [_ Hne]; [done..|]. by destruct Hne.
Qed.

(** A task changes, its output does not. *)
Lemma tasks_ok_same fs ts tid t t' :
  tasks_ok fs ts -> ts !! tid = Some t -> good_task t' -> place t' = place t ->
  tasks_ok fs (<[tid := t']> ts).
Proof using.
  intros Hok Ht Hg [= Ep Ew Em]. apply (tasks_ok_insert fs); [done|done|..].
  - intros k x Hne Hx Hw. split; [done|]. rewrite Ew, Ep. intros Hwt E.
    apply Hne. by apply (ok_distinct _ _ Hok k tid x t).
  - rewrite Ew, Ep, Em. by apply (ok_files _ _ Hok tid).
Qed.

(** A task's output changes, and the file with it. *)
Lemma put_task_ok w tid t t' :
  tasks_ok (w_files w) (tasks_ (w_tm w)) -> tasks_ (w_tm w) !! tid = Some t -> good_task t' ->
  at_file_path t' = at_file_path t -> at_writer t' = at_writer t ->
  tasks_ok (w_files (put_task w tid t')) (tasks_ (w_tm (put_task w tid t'))).
Proof using.
  intros Hok Ht Hg Ep Ew.
  assert (forall k x, k <> tid -> tasks_ (w_tm w) !! k = Some x -> is_Some (at_writer x) ->
    is_Some (at_writer t') -> at_file_path x <> at_file_path t') as Hne.
  { intros k x Hk Hx Hw Hw' E. apply Hk. rewrite Ew in Hw'. rewrite Ep in E.
    by apply (ok_distinct _ _ Hok k tid x t). }
  unfold put_task. cbv zeta. destruct (at_writer t') as [wr|] eqn:Hw; cbn;
    (apply (tasks_ok_insert (w_files w)); [done|done|..]; rewrite Hw).
  - intros k x Hk Hx Hwx. split; [|by apply (Hne k)].
    rewrite lookup_insert_ne; [done|]. symmetry. by apply (Hne k).
  - intros _. apply lookup_insert_eq.
  - intros k x _ _ _. split; [done|]. by intros [? [=]].
  - by intros [? [=]].
Qed.

(** ** What no step of a task changes *)
Record same_task (t t' : ActiveTask) : Prop := {
  sm_seed : at_seed t' = at_seed t;
  sm_path : at_file_path t' = at_file_path t;
  sm_writer : at_writer t' = at_writer t;
  sm_mgr : keeps (at_mgr t) (at_mgr t');
}.

Lemma take_results_keeps cs rs now : forall m d ps m' d' ps',
  take_results cs m d ps rs now = Some (m', d', ps') -> keeps m m'.
Proof using.
  induction rs as [|r rs IH]; intros m d ps m' d' ps'; cbn [take_results]; [by intros [= <- _ _]|].
  destruct (vr_passed r); [apply IH|]. destruct (run_sched _ _ _) as [m1|] eqn:E; [|done].
  cbn [mbind option_bind]. intros Hr. eapply keeps_trans; [by eapply run_sched_keeps|by eapply IH].
Qed.

Lemma check_complete_same t now iso :
  same_task t (check_complete t now iso) /\ pl_mem (at_pools (check_complete t now iso)) = pl_mem (at_pools t).
Proof using.
  unfold check_complete. destruct ((_ <=? _) && _); cbv zeta; [destruct (dpos _)|]; (split; [split|]; try done; apply keeps_refl).
Qed.

Lemma tick_same t now iso t' :
  tick_work t now iso = Some t' -> same_task t t' /\ pl_mem (at_pools t') = pl_mem (at_pools t).
Proof using.
  unfold tick_work. intros Ht. destruct (run_sched _ _ _) as [m|] eqn:E1; [|done]. cbn [mbind option_bind] in Ht.
  unfold drain_results in Ht. cbv zeta in Ht.
  destruct (take_results _ _ _ _ _ _) as [[[m1 d] ps]|] eqn:E2; [|done]. cbn [mbind option_bind] in Ht.
  destruct (match ps with [] => _ | _ => _ end) as [m2|] eqn:E3; [|done]. cbn [mbind option_bind] in Ht.
  assert (keeps (at_mgr t) m2) as Hk.
  { eapply keeps_trans; [by eapply run_sched_keeps|]. eapply keeps_trans; [by eapply take_results_keeps|].
    destruct ps; [injection E3 as ->; apply keeps_refl|by eapply run_sched_keeps]. }
  set (t1 := { t with at_mgr := m2; at_pools := { at_pools t with result_queue_ := [] }; bytes_done := d }) in Ht.
  destruct (check_complete_same t1 now iso) as [[S1 S2 S3 S4] S5].
  injection Ht as <-. destruct (_ && bool_decide _); (split; [split|]); try assumption; cbn;
    (eapply keeps_trans; [exact Hk|exact S4]).
Qed.

Lemma run_task_same t o now t' : run_task sha256 inet_addr t o now = Some t' -> same_task t t'.
Proof using.
  destruct o as [o|i| |iso|c dead]; cbn [run_task].
  - destruct (run_mgr _ _ _ _) as [[m out]|] eqn:E; [|done]. cbn [mbind option_bind].
    destruct (TaskRun.dispatch_all _ _) as [p|]; [|done]. intros [= <-]. split; try done.
    by eapply run_mgr_keeps.
  - destruct (io_worker_step _ i) as [p|]; [|done]. intros [= <-]. by split.
  - destruct (verify_step _ _) as [p|]; [|done]. intros [= <-]. by split.
  - intros Ht. by apply (tick_same t now iso).
  - intros [= <-]. by split.
Qed.

(** A download whose tracker was given up stays "waiting", also when all its
    chunks have been verified: it is never reported as complete. *)
Theorem waiting_never_completes t o now t' :
  at_state t = "waiting"%string -> run_task sha256 inet_addr t o now = Some t' -> at_state t' = "waiting"%string.
Proof using.
  intros Hw. destruct o as [o|i| |iso|c dead]; cbn [run_task].
  - destruct (run_mgr _ _ _ _) as [[m out]|]; [|done]. cbn [mbind option_bind].
    destruct (TaskRun.dispatch_all _ _); [|done]. by intros [= <-].
  - destruct (io_worker_step _ i); [|done]. by intros [= <-].
  - destruct (verify_step _ _); [|done]. by intros [= <-].
  - unfold tick_work. destruct (run_sched _ _ _) as [m|]; [|done]. cbn [mbind option_bind].
    destruct (drain_results _) as [p rs]. destruct (take_results _ _ _ _ _ _) as [[[m1 d] ps]|]; [|done].
    cbn [mbind option_bind]. destruct (match ps with [] => _ | _ => _ end) as [m2|]; [|done]. cbn [mbind option_bind].
    unfold check_complete. cbn. rewrite Hw. rewrite !andb_false_r. cbn. rewrite ?Hw, ?andb_false_r. by intros [= <-].
  - by intros [= <-].
Qed.

(** Nor does a step change the size of the file. *)
Lemma memcpy_ptr_size mem p begin data mem' : memcpy_ptr mem p begin data = Some mem' -> zlength mem' = zlength mem.
Proof using.
  unfold memcpy_ptr, memcpy_at. intros Hm. destruct (_ <=? p_lim p); [|done].
  destruct ((0 <=? _) && _) eqn:E; [|done]. injection Hm as <-.
  unfold zlength at 1. rewrite length_blit by lia. done.
Qed.

Lemma io_step_size p i p' : io_worker_step p i = Some p' -> zlength (pl_mem p') = zlength (pl_mem p).
Proof using.
  unfold io_worker_step. destruct (zget _ i) as [[|x q]|]; try (by intros [= <-]).
  destruct (zset _ i q) as [qs|]; [|done]. cbn [mbind option_bind]. unfold process_piece. cbn.
  destruct (zget _ _) as [a|]; [|done]. cbn. intros Hp.
  destruct (on_piece _ _ _ _) as [[[a' mem] done']|] eqn:Eo; [|done]. cbn in Hp.
  assert (zlength mem = zlength (pl_mem p)) as <-.
  { revert Eo. unfold on_piece. destruct (_ =? 0); [done|]. destruct (base_ a) as [base|]; [|by intros [= _ <- _]].
    destruct (_ <? _); [by intros [= _ <- _]|]. destruct (memcpy_ptr _ _ _ _) as [m|] eqn:Em; [|done]. cbn.
    apply memcpy_ptr_size in Em. destruct (fetch_or_slot _ _) as [[a1 []]|]; [..|done]; by intros [= _ <- _]. }
  destruct (zset _ _ a'); [|done]. cbn in Hp. destruct done'; [|by injection Hp as <-].
  revert Hp. unfold verify_enqueue. do 2 destruct (zget _ _); try done. by intros [= <-].
Qed.

Lemma dispatch_all_mem ts : forall p p', TaskRun.dispatch_all p ts = Some p' -> pl_mem p' = pl_mem p.
Proof using.
  induction ts as [|x ts IH]; intros p p'; cbn [TaskRun.dispatch_all]; [by intros [= <-]|].
  destruct (io_dispatch p x) as [p1|] eqn:E; [|done]. cbn [mbind option_bind]. intros ->%IH. revert E.
  unfold io_dispatch. cbv zeta. destruct (_ =? 0); [done|]. destruct (zget _ _); [|done]. cbn.
  destruct (zset _ _ _); [|done]. by intros [= <-].
Qed.

Lemma run_task_size t o now t' :
  run_task sha256 inet_addr t o now = Some t' -> zlength (pl_mem (at_pools t')) = zlength (pl_mem (at_pools t)).
Proof using.
  destruct o as [o|i| |iso|c dead]; cbn [run_task].
  - destruct (run_mgr _ _ _ _) as [[m out]|]; [|done]. cbn [mbind option_bind].
    destruct (TaskRun.dispatch_all _ _) as [p|] eqn:E; [|done]. intros [= <-]. cbn. by rewrite (dispatch_all_mem _ _ _ E).
  - destruct (io_worker_step _ i) as [p|] eqn:E; [|done]. intros [= <-]. by apply (io_step_size _ i).
  - unfold verify_step. destruct (task_queue_ _) as [|x q]; [by intros [= <-]|]. cbv zeta.
    destruct (_ =? UINT32_MAX); [by intros [= <-]|]. destruct (task_bytes _ _); [|done]. by intros [= <-].
  - intros Ht. by destruct (tick_same t now iso t' Ht) as [_ ->].
  - by intros [= <-].
Qed.

(** The events of the network and of the threads. *)
Definition op_fits (t : ActiveTask) (o : task_op) (now : Z) : Prop :=
  match o with
  | TNet o => verifies o = false /\ mgr_fits (at_mgr t) o now /\
    forall m out, run_mgr inet_addr (at_mgr t) o now = Some (m, out) ->
      Forall (fun x => match at_writer t with
                       | Some _ => piece_fits (at_seed t) (initial_bitfield_ (at_mgr t)) x
                       | None => 0 <= pt_chunk_idx x < zlength (chunks (at_seed t))
                       end) (handed out)
  | TIo i => forall x q, zget (io_queues_ (at_pools t)) i = Some (x :: q) -> is_Some (at_writer t) ->
      late_ok (at_pools t) x
  | TVerify => True
  | _ => False
  end.

(** A step that keeps the rest of the task's invariant leaves it good. *)
Lemma good_run t o now :
  good_task t -> op_fits t o now \/ (exists iso, o = TTick iso) ->
  exists t', run_task sha256 inet_addr t o now = Some t' /\ good_task t' /\ same_task t t'.
Proof using.
  intros Hg Hf.
  assert (exists t', run_task sha256 inet_addr t o now = Some t' /\
    ((good_download t /\ exists speed, task_inv sha256 speed (at_seed t) (initial_bitfield_ (at_mgr t)) t') \/
     (exists e, good_seeder t /\ seeding e (at_seed t) t'))) as (t' & Hr & Hinv).
  { destruct Hg as [(speed & Hc & He & Hw & Hi)|(e & Hc & He & Hw & Hi)].
    - destruct (run_task_inv sha256 inet_addr speed _ _ Hc He t o now Hi) as (t' & Hr & Hi').
      + destruct Hf as [Hf|[iso ->]]; [|done]. destruct o; try done; cbn in *.
        * destruct Hf as (? & ? & Hp). split_and!; try done. intros m out Hm. specialize (Hp m out Hm).
          destruct Hw as [[wr Hw] _]. by rewrite Hw in Hp.
        * intros x q Hx. by apply (Hf x q Hx), Hw.
      + exists t'. split; [done|]. left. split; [|by eauto]. by exists speed.
    - destruct (seed_step sha256 inet_addr e (at_seed t) t o now Hc He Hi) as (t' & Hr & Hi').
      + destruct Hf as [Hf|[iso ->]]; [|done]. destruct o; try done; cbn in *.
        destruct Hf as (? & ? & Hp). split_and!; try done. intros m out Hm. specialize (Hp m out Hm).
        by rewrite Hw in Hp.
      + exists t'. split; [done|]. right. exists e. split; [by exists e|done]. }
  exists t'. split; [done|]. pose proof (run_task_same _ _ _ _ Hr) as Hs. split; [|done].
  destruct Hs as [S1 S2 S3 [S4 _]]. destruct Hinv as [[(_ & Hc & He & Hw & _) [speed Hi]]|(e & (_ & Hc & He & Hw & _) & Hi)].
  - left. exists speed. unfold good_download. rewrite S1, S3, (run_task_size _ _ _ _ Hr).
    injection S4 as _ _ _ S5. by rewrite S5.
  - right. exists e. by rewrite S1, S3.
Qed.

(** The fields a task is good for; the rest is for announces and replies. *)
Definition core (t : ActiveTask) : TSeedFile * string * Pools * PeerManager * Z * option SegmentWriter :=
  (at_seed t, at_state t, at_pools t, at_mgr t, bytes_done t, at_writer t).

Lemma good_core t t' : core t' = core t -> good_task t -> good_task t'.
Proof using.
  intros [= E1 E2 E3 E4 E5 E6].
  intros [(speed & Hc & He & Hw & [H1 H2 H3 H4 H5])|(e & Hc & He & Hw & [H1 H2 H3 H4 H5 H6])];
    [left; exists speed|right; exists e]; rewrite E1, E6, ?E3, ?E4; (split; [done|split; [done|split; [done|]]]);
    split; rewrite ?E1, ?E2, ?E3, ?E4, ?E5; done.
Qed.

(** The manager of a task changes. *)
Lemma good_mgr t m :
  good_task t -> keeps (at_mgr t) m ->
  (forall speed act, let sizes := ce_length <$> chunks (at_seed t) in
     zlength sizes < 2 ^ 32 -> Forall is_u32 sizes -> mgr_ok speed sizes act (at_mgr t) ->
     mgr_ok speed sizes act m) ->
  good_task { t with at_mgr := m }.
Proof using.
  intros Hg [[= Hk1 Hk2 Hk3 Hk4] Hk] Hm.
  assert (forall sd, seed_consistent sd -> Forall entry_ok (chunks sd) ->
    zlength (ce_length <$> chunks sd) < 2 ^ 32 /\ Forall is_u32 (ce_length <$> chunks sd)) as Hz.
  { intros sd Hc He. apply (sizes_ok sd Hc He). }
  destruct Hg as [(speed & Hc & He & Hw & [H1 H2 H3 H4 H5])|(e & Hc & He & Hw & [H1 H2 H3 H4 H5 H6])];
    destruct (Hz _ Hc He) as [Hz1 Hz2].
  - left. exists speed. cbn. rewrite Hk4. split; [done|split; [done|split; [done|]]].
    specialize (Hm speed _ Hz1 Hz2 H3). pose proof (mo_active _ _ _ _ Hm) as Ha.
    split; cbn; rewrite ?Ha; done.
  - right. exists e. cbn. split_and!; try done. specialize (Hm _ _ Hz1 Hz2 H4). split; cbn; try done.
    + unfold serving_set in *. congruence.
    + by apply Hk.
Qed.

(** *** The periodic work of one task *)
Definition rates_fit (now : Z) (t : ActiveTask) : Prop :=
  Forall (fun s => is_Some (update_rates now s)) (sessions_ (at_mgr t)).

Definition pex_fits (t : ActiveTask) : Prop :=
  Z.of_nat (size (recent_connects_ (at_mgr t)) + size (recent_disconnects_ (at_mgr t))) < 2 ^ 16.

(** What a loop over the tasks may do with one of them. *)
Definition stays (t t' : ActiveTask) : Prop := good_task t' /\ place t' = place t.

Lemma good_mgr_ok t :
  good_task t -> exists speed act, let sizes := ce_length <$> chunks (at_seed t) in
    zlength sizes < 2 ^ 32 /\ Forall is_u32 sizes /\ mgr_ok speed sizes act (at_mgr t).
Proof using.
  intros [(speed & Hc & He & _ & Hi)|(e & Hc & He & _ & Hi)]; destruct (sizes_ok _ Hc He) as [Hz1 Hz2];
    do 2 eexists; (split_and!; [done|done|apply Hi]).
Qed.

(** An operation of the manager that is not about a session. *)
Lemma mgr_op_stays t o now :
  good_task t -> verifies o = false -> mgr_fits (at_mgr t) o now ->
  exists m out, run_mgr inet_addr (at_mgr t) o now = Some (m, out) /\ stays t { t with at_mgr := m }.
Proof using.
  intros Hg Hv Hf. destruct (good_mgr_ok t Hg) as (speed & act & Hz1 & Hz2 & Hm).
  destruct (run_mgr_session_ok inet_addr speed _ act _ o now Hz1 Hz2 Hm Hf Hv) as (m & out & Hr & _).
  exists m, out. split; [done|]. split; [|done]. apply good_mgr; [done|by eapply run_mgr_keeps|].
  intros speed' act' sizes _ _ Hm'.
  destruct (run_mgr_session_ok inet_addr speed' sizes act' _ o now Hz1 Hz2 Hm' Hf Hv) as (m1 & out1 & Hr1 & ?).
  congruence.
Qed.

Lemma choke_stays t shuffle now :
  good_task t -> rates_fit now t ->
  exists m, tick_choke (at_mgr t) shuffle now = Some m /\ stays t { t with at_mgr := m }.
Proof using inet_addr.
  intros Hg Hf. destruct (mgr_op_stays t (MTickChoke shuffle) now Hg eq_refl Hf) as (m & out & Hr & Hs).
  cbn in Hr. destruct (tick_choke _ _ _) as [m'|]; [|done]. injection Hr as -> _. by eauto.
Qed.

Lemma pex_stays t now :
  good_task t -> pex_fits t ->
  exists m, tick_pex inet_addr (at_mgr t) now = Some m /\ stays t { t with at_mgr := m }.
Proof using.
  intros Hg Hf. destruct (mgr_op_stays t MTickPex now Hg eq_refl Hf) as (m & out & Hr & Hs).
  cbn in Hr. destruct (tick_pex _ _ _) as [m'|]; [|done]. injection Hr as -> _. by eauto.
Qed.

Lemma stats_stays t now :
  good_task t -> rates_fit now t ->
  exists ss, mapM (update_rates now) (sessions_ (at_mgr t)) = Some ss /\
    stays t { t with at_mgr ::= (fun m : PeerManager => { m with sessions_ := ss }) }.
Proof using.
  intros Hg Hf. destruct (mapM_is_Some_2 _ _ Hf) as [ss Hss]. exists ss. split; [done|]. split; [|done].
  apply good_mgr; [done|..].
  - split; [done|]. unfold all_prepared. cbn. intros Hp. apply mapM_Some_1 in Hss.
    eapply Forall2_Forall_r; [exact Hss|]. eapply Forall_impl; [exact Hp|]. cbn.
    intros s Hs s' Hu. by eapply update_rates_prepared.
  - intros speed act sizes _ _ Hm. eapply mgr_ok_same; [..|exact Hm]; try done.
    eapply mapM_slots; [|exact Hss]. apply update_rates_slot.
Qed.

Lemma announce_stays tm t : good_task t -> stays t (announce_task_now resolves tm t).1.
Proof using.
  intros Hg. unfold announce_task_now. destruct (announce_target _ _) as [host port]. cbv zeta.
  destruct (client_announce _ _ _ _); (split; [|done]); cbn; by apply (good_core t).
Qed.

Lemma tick_stays tm t now iso :
  good_task t -> exists t' err, tick_task resolves tm t now iso = Some (t', err) /\ stays t t'.
Proof using inet_addr.
  intros Hg. destruct (good_run t (TTick iso) now Hg) as (t1 & Hr & Hg1 & Hs); [right; by eexists|].
  cbn [run_task] in Hr. unfold tick_task. rewrite Hr. cbn [mbind option_bind].
  destruct (tick_same t now iso t1 Hr) as [[_ S2 S3 _] S5].
  assert (stays t1 (startup_announce resolves tm t1 now).1) as [Hg2 Hp2].
  { unfold startup_announce. destruct (_ && _ && _ && _); [|by split].
    set (t2 := { t1 with next_startup_announce := now + 2 * 10 ^ 9 }).
    change (place t1) with (place t2). apply (announce_stays tm t2). by apply (good_core t1). }
  destruct (startup_announce _ _ _ _) as [t2 err]. cbn in Hg2, Hp2. do 2 eexists. split; [done|].
  assert (place t1 = place t) as Hp1 by (unfold place; congruence).
  destruct err; [split; [done|congruence]|]. split; [by apply (good_core t2)|].
  change (place (update_speed t2)) with (place t2). congruence.
Qed.

(** *** The loops over the tasks *)
Lemma in_order_nodup tm : NoDup (tasks_in_order tm).*1.
Proof using. unfold tasks_in_order. rewrite sort_str_perm. apply NoDup_fst_map_to_list. Qed.

Lemma each_task_ok f fs (Q : ActiveTask -> Prop) :
  (forall tm t, good_task t -> Q t -> exists t' err, f tm t = Some (t', err) /\ stays t t') ->
  forall l tm, tasks_ok fs (tasks_ tm) -> NoDup l.*1 ->
    (forall kv, kv ∈ l -> tasks_ tm !! kv.1 = Some kv.2 /\ Q kv.2) ->
    exists tm' err, each_task f tm l = Some (tm', err) /\ tasks_ok fs (tasks_ tm').
Proof using.
  intros Hf. induction l as [|[tid t] l IH]; intros tm Hok Hnd Hl; cbn [each_task]; [by eauto|].
  destruct (Hl (tid, t)) as [Ht Hq]; [by left|]. cbn in Ht, Hq.
  rewrite fmap_cons in Hnd. apply NoDup_cons in Hnd as [Hni Hnd].
  destruct (Hf tm t) as (t' & err & -> & Hg & Hp); [exact (map_Forall_lookup_1 _ _ _ _ (ok_good _ _ Hok) Ht)|done|].
  cbn [mbind option_bind]. pose proof (tasks_ok_same fs _ tid t t' Hok Ht Hg Hp) as Hok'.
  destruct err; [by eauto|]. apply IH; [done|done|]. intros kv Hkv. cbn. destruct (Hl kv) as [H1 H2]; [by right|].
  split; [|done]. rewrite lookup_insert_ne; [done|]. intros E. apply Hni. cbn. rewrite E. by apply list_elem_of_fmap_2.
Qed.

(** Every task, at the time of a call. *)
Definition all_tasks (Q : ActiveTask -> Prop) (tm : TaskManager) : Prop :=
  map_Forall (fun _ t => Q t) (tasks_ tm).

(** A call the daemon makes on the task manager. *)
Definition handled (fs : FileSystem) (r : option (TaskManager * option task_error)) : Prop :=
  exists tm err, r = Some (tm, err) /\ tasks_ok fs (tasks_ tm).

Lemma all_tasks_handled f fs Q tm :
  (forall tm t, good_task t -> Q t -> exists t' err, f tm t = Some (t', err) /\ stays t t') ->
  tasks_ok fs (tasks_ tm) -> all_tasks Q tm -> handled fs (each_task f tm (tasks_in_order tm)).
Proof using.
  intros Hf Hok HQ. apply (each_task_ok f fs Q Hf); [done|apply in_order_nodup|].
  intros kv Hkv%in_order_lookup. split; [done|]. by apply (HQ kv.1).
Qed.

Lemma tick_handled fs tm now iso : tasks_ok fs (tasks_ tm) -> handled fs (tick resolves tm now iso).
Proof using inet_addr.
  intros Hok. apply (all_tasks_handled _ fs (fun _ => True)); [|done|by intros ???].
  intros tm1 t Hg _. by apply tick_stays.
Qed.

Lemma tracker_announce_handled fs tm : tasks_ok fs (tasks_ tm) -> handled fs (tick_tracker_announce resolves tm).
Proof using.
  intros Hok. apply (all_tasks_handled _ fs (fun _ => True)); [|done|by intros ???].
  intros tm1 t Hg _. set (t1 := { t with at_client := Some (task_client tm1 t) }).
  assert (stays t1 (announce_task_now resolves tm1 t1).1) as Hs by (apply announce_stays; by apply (good_core t)).
  destruct (announce_task_now _ _ _) as [t2 err]. by eexists _, _.
Qed.

Lemma choke_handled fs tm shuffle now :
  tasks_ok fs (tasks_ tm) -> all_tasks (rates_fit now) tm -> handled fs (tick_choke_all tm shuffle now).
Proof using inet_addr.
  intros Hok. apply all_tasks_handled; [|done]. intros tm1 t Hg Hq.
  destruct (choke_stays t shuffle now Hg Hq) as (m & -> & Hs). by eexists _, _.
Qed.

Lemma pex_handled fs tm now :
  tasks_ok fs (tasks_ tm) -> all_tasks pex_fits tm -> handled fs (tick_pex_all inet_addr tm now).
Proof using.
  intros Hok. apply all_tasks_handled; [|done]. intros tm1 t Hg Hq.
  destruct (pex_stays t now Hg Hq) as (m & -> & Hs). by eexists _, _.
Qed.

Lemma stats_handled fs tm ec now :
  tasks_ok fs (tasks_ tm) -> (ec = false -> all_tasks (rates_fit now) tm) -> handled fs (do_stats_tick tm ec now).
Proof using.
  intros Hok Hq. unfold do_stats_tick. destruct ec; [by eexists _, _|]. apply (all_tasks_handled _ fs (rates_fit now)); [|done|by apply Hq].
  intros tm1 t Hg Ht. destruct (stats_stays t now Hg Ht) as (ss & -> & Hs). by eexists _, _.
Qed.

Lemma then_call_handled fs due f r :
  handled fs r ->
  (forall tm, r = Some (tm, None) -> due = true -> tasks_ok fs (tasks_ tm) -> handled fs (f tm)) ->
  handled fs (then_call due f r).
Proof using.
  intros (tm & err & -> & Hok) Hf. cbn. destruct err; [by eexists _, _|].
  destruct due; [by apply Hf|by eexists _, _].
Qed.

(** What the periodic work relies on: the rates fit the casts when the choke
    round is due, and a peer exchange message does not get too long. *)
Definition periodic_fits (tm : TaskManager) (count : Z) (shuffle : list nat -> list nat) (now : Z) (iso : string)
  : Prop :=
  (count mod 100 = 0 -> forall tm1, tick resolves tm now iso = Some (tm1, None) -> all_tasks (rates_fit now) tm1) /\
  (count mod 600 = 0 -> forall tm1,
     then_call true (fun tm => tick_tracker_announce resolves tm)
       (then_call true
         (fun tm => Some ({ tm with tracker_ ::= (fun s : TrackerServer => cleanup_stale s 90 now) }, None))
       (then_call true (fun tm => tick_choke_all tm shuffle now) (tick resolves tm now iso))) =
     Some (tm1, None) -> all_tasks pex_fits tm1).

Lemma periodic_handled fs tm count shuffle now iso :
  tasks_ok fs (tasks_ tm) -> periodic_fits tm count shuffle now iso ->
  handled fs (periodic inet_addr resolves tm count shuffle now iso).
Proof using.
  intros Hok [Hc Hp]. unfold periodic.
  apply then_call_handled; [apply then_call_handled; [apply then_call_handled; [apply then_call_handled|]|]|].
  - by apply tick_handled.
  - intros tm1 Ht Hd%Z.eqb_eq Hok1. apply choke_handled; [done|by apply Hc].
  - intros tm1 _ _ Hok1. by eexists _, _.
  - intros tm1 _ _ Hok1. by apply tracker_announce_handled.
  - intros tm1 Ht Hd%Z.eqb_eq Hok1. apply pex_handled; [done|]. apply Hp; [done|].
    replace (count mod 300) with 0 in Ht by (Z.div_mod_to_equations; lia).
    replace (count mod 60) with 0 in Ht by (Z.div_mod_to_equations; lia).
    replace (count mod 100) with 0 in Ht by (Z.div_mod_to_equations; lia). done.
Qed.

(** ** Requests *)
Lemma made_good e output fs t :
  made sha256 e output fs t -> good_task t /\
    (is_Some (at_writer t) -> output = Some (at_file_path t) /\ fs !! at_file_path t = Some (pl_mem (at_pools t))).
Proof using.
  intros (Hc & He & Hm). destruct output as [path|].
  - destruct Hm as (<- & Hw & bf & mem & Hst & Hf). destruct (st_mgr _ _ _ _ _ Hst) as [speed Hmgr].
    pose proof (started_inv sha256 speed _ bf Hc mem t Hst Hmgr) as Hi.
    pose proof (pf_mem _ _ _ (st_pools _ _ _ _ _ Hst)) as Hmem. split; [|intros _; by rewrite Hmem].
    left. exists speed. rewrite (proj1 (st_bitfield _ _ _ _ _ Hst)), Hmem.
    by split_and!; try apply (st_size _ _ _ _ _ Hst).
  - destruct Hm as [Hw Hs]. split; [|by rewrite Hw; intros []]. right. by exists e.
Qed.

(** The output of a request is not that of a task. *)
Definition output_free (tm : TaskManager) (request : text) : Prop :=
  forall p tid t, output_of request = Some p -> tasks_ tm !! tid = Some t -> is_Some (at_writer t) ->
    at_file_path t <> p.

Lemma request_handled fs tm e request :
  tasks_ok fs (tasks_ tm) -> request_fits sha256 sha1 fs tm e request -> output_free tm request ->
  exists fs' tm' reply, handle sha256 sha1 inet_addr resolves what fs tm e request = Some (fs', tm', reply) /\
    tasks_ok fs' (tasks_ tm').
Proof using.
  intros Hok Hf Hfree.
  destruct (handle_effect sha256 sha1 inet_addr resolves what fs tm e request Hf)
    as (fs' & tm' & reply & -> & Hfs & Hcase). do 3 eexists. split; [done|].
  assert (forall k x, tasks_ tm !! k = Some x -> is_Some (at_writer x) ->
    fs' !! at_file_path x = fs !! at_file_path x) as Hsame.
  { intros k x Hx Hw. apply Hfs. intros Ho. by apply (Hfree _ k x Ho Hx Hw). }
  destruct Hcase as [[-> _]|(t & -> & [Hg Hp]%made_good & _)].
  - destruct Hok as [H1 H2 H3]. split; [done| |done]. intros k x Hx Hw. rewrite (Hsame k x Hx Hw). by apply (H2 k).
  - apply (tasks_ok_insert fs); [done|done|..|apply Hp].
    intros k x _ Hx Hw. split; [by apply (Hsame k)|]. intros [Ho _]%Hp E. by apply (Hfree _ k x Ho Hx Hw).
Qed.

(** ** Tracker clients *)
Lemma connect_peers_ok speed sizes act now peers : forall m,
  mgr_ok speed sizes act m -> next_slot_id_ m + zlength peers < 2 ^ 32 ->
  mgr_ok speed sizes act (connect_peers inet_addr m peers now).
Proof using.
  unfold connect_peers. induction peers as [|p peers IH]; intros m Hm Hn; [done|]. cbn [foldl].
  unfold zlength in Hn. cbn [length] in Hn.
  destruct (connect_to_ok inet_addr speed sizes act m (inet_ntoa (pex_ip p)) (ntoh16 (pex_port p)) (pex_flags p) now
    Hm) as [Hm' Hs]; [lia|]. apply IH; [done|]. unfold zlength. lia.
Qed.

Lemma connect_peers_keeps now peers : forall m, keeps m (connect_peers inet_addr m peers now).
Proof using.
  unfold connect_peers. induction peers as [|p peers IH]; intros m; [apply keeps_refl|]. cbn [foldl].
  eapply keeps_trans; [apply connect_to_keeps|apply IH].
Qed.

Lemma connect_all now pss : forall m,
  foldl (fun m peers => connect_peers inet_addr m peers now) m pss = connect_peers inet_addr m (concat pss) now.
Proof using.
  induction pss as [|ps pss IH]; intros m; [done|]. cbn [foldl concat]. rewrite IH. unfold connect_peers.
  by rewrite foldl_app.
Qed.

(** The slots of the peers an announce returns do not wrap around. *)
Definition delivery_fits (t : ActiveTask) (i : nat) (o : outcome) : Prop :=
  forall c c', at_client t = Some c -> attempt_done inet_addr c i o = Ok c' ->
    next_slot_id_ (at_mgr t) + zlength (concat (drop (length (delivered_ c)) (delivered_ c'))) < 2 ^ 32.

Lemma client_done_stays t i o now t' :
  good_task t -> delivery_fits t i o -> client_done inet_addr t i o now = Ok t' -> stays t t'.
Proof using.
  intros Hg Hf. unfold client_done. destruct (at_client t) as [c|] eqn:Ec; [|by intros [= <-]].
  destruct (attempt_done _ _ _ _) as [c'|] eqn:Ea; [|done]. intros [= <-]. split; [|done].
  rewrite connect_all. set (m := connect_peers _ _ _ _).
  apply (good_core { t with at_mgr := m }); [done|]. apply good_mgr; [done|apply connect_peers_keeps|].
  intros speed act sizes _ _ Hm. apply connect_peers_ok; [done|]. by apply (Hf c c').
Qed.

Lemma client_timer_stays t i cancelled t' :
  good_task t -> client_timer_fired resolves t i cancelled = Ok t' -> stays t t'.
Proof using.
  intros Hg. unfold client_timer_fired. destruct (at_client t) as [c|]; [|by intros [= <-]].
  destruct (timer_fired _ _ _ _) as [c'|]; [|done]. intros [= <-]. split; [by apply (good_core t)|done].
Qed.

Lemma client_step_ok w tid f w' :
  tasks_ok (w_files w) (tasks_ (w_tm w)) ->
  (forall t t', tasks_ (w_tm w) !! tid = Some t -> f t = Ok t' -> stays t t') ->
  client_step w tid f = Goes w' -> tasks_ok (w_files w') (tasks_ (w_tm w')).
Proof using.
  intros Hok Hf. unfold client_step. destruct (tasks_ (w_tm w) !! tid) as [t|] eqn:Et; [|by intros [= <-]].
  destruct (f t) as [t'|] eqn:Ef; [|done]. intros [= <-]. destruct (Hf t t' eq_refl Ef) as [Hg [= Hp Hw _]].
  by apply (put_task_ok w tid t).
Qed.

(** ** The event loop *)
(** Timers fire when they are armed, and what reaches the sessions, the
    threads and the command server is as the components rely on. *)
Definition event_fits (w : World) (ev : event) : Prop :=
  match ev with
  | OnHeartbeat ec shuffle now iso => d_armed (w_daemon w) = true /\
    (ec || negb (d_running (w_daemon w)) = false ->
     periodic_fits (w_tm w) (u64 (d_tick_count (w_daemon w) + 1)) shuffle now iso)
  | OnStats ec now => w_stats_armed w = true /\ (ec = false -> all_tasks (rates_fit now) (w_tm w))
  | OnIpcAccept _ => acc_armed (w_ipc w) = true
  | OnTrackerAccept _ => acc_armed <$> w_tracker w = Some true
  | OnRequest e ec received => (0 < acc_reading (w_ipc w))%nat /\
    request_fits sha256 sha1 (w_files w) (w_tm w) e (take (Z.to_nat 65536) received) /\
    output_free (w_tm w) (take (Z.to_nat 65536) received)
  | OnTask tid o now => forall t, tasks_ (w_tm w) !! tid = Some t -> op_fits t o now
  | OnClientDone tid i o now => forall t, tasks_ (w_tm w) !! tid = Some t -> delivery_fits t i o
  | OnAnnounce _ _ _ => exists a, w_tracker w = Some a /\ (0 < acc_reading a)%nat
  | OnSignal | OnClientTimer _ _ _ => True
  end.

(** [rule] is a further restriction of what may happen. *)
Inductive world_reach (rule : World -> event -> Prop) (w0 : World) : World -> Prop :=
| world_here : world_reach rule w0 w0
| world_next w ev w' :
    world_reach rule w0 w -> event_fits w ev -> rule w ev -> step w ev = Some (Goes w') -> world_reach rule w0 w'.

Definition anything (w : World) (ev : event) : Prop := True.

Definition world_ok (w : World) : Prop := tasks_ok (w_files w) (tasks_ (w_tm w)).

Lemma world_start_ok o fs : world_ok (world_start o fs).
Proof using. split; [by intros k x Hx|by intros k x Hx|by intros i j x y Hx]. Qed.

Lemma step_ok w ev :
  world_ok w -> event_fits w ev ->
  exists r, step w ev = Some r /\ forall w', r = Goes w' -> world_ok w'.
Proof using.
  intros Hok Hf. destruct ev as [ec shuffle now iso|ec now| |ec|ec|e ec received|request remote now|tid o now|tid i o now|
    tid i cancelled]; cbn [step].
  - destruct Hf as [_ Hf]. unfold heartbeat. cbn.
    destruct (ec || negb (d_running (w_daemon w))); cbn; [eexists; split; [done|]; by intros w' [= <-]|].
    destruct (periodic_handled _ _ _ shuffle now iso Hok (Hf eq_refl)) as (tm & err & -> & Htm). cbn.
    eexists. split; [done|]. intros w' [= <-]. by destruct err.
  - destruct Hf as [_ Hf]. destruct (stats_handled _ _ ec now Hok Hf) as (tm & err & -> & Htm). cbn.
    eexists. split; [done|]. by intros w' [= <-].
  - eexists. split; [done|]. by intros w' [= <-].
  - eexists. split; [done|]. by intros w' [= <-].
  - eexists. split; [done|]. by intros w' [= <-].
  - destruct Hf as (_ & Hf & Hfree). unfold handle_client. destruct ec, received as [|x received];
      try (eexists; split; [done|]; by intros w' [= <-]).
    destruct (request_handled _ _ _ _ Hok Hf Hfree) as (fs' & tm' & reply & -> & Hok'). cbn.
    eexists. split; [done|]. by intros w' [= <-].
  - destruct (handle_announce _ _ _ _) as [[s ?]|]; (eexists; split; [done|]); [by intros w' [= <-]|done].
  - destruct (tasks_ (w_tm w) !! tid) as [t|] eqn:Et; [|eexists; split; [done|]; by intros w' [= <-]].
    destruct (good_run t o now (map_Forall_lookup_1 _ _ _ _ (ok_good _ _ Hok) Et) (or_introl (Hf t Et)))
      as (t' & -> & Hg & [_ Hp Hw _]). cbn. eexists. split; [done|]. intros w' [= <-]. by apply (put_task_ok w tid t).
  - eexists. split; [done|]. intros w'. apply client_step_ok; [done|]. intros t t' Ht.
    apply client_done_stays; [exact (map_Forall_lookup_1 _ _ _ _ (ok_good _ _ Hok) Ht)|by apply Hf].
  - eexists. split; [done|]. intros w'. apply client_step_ok; [done|]. intros t t' Ht.
    apply client_timer_stays. exact (map_Forall_lookup_1 _ _ _ _ (ok_good _ _ Hok) Ht).
Qed.

Lemma world_reach_ok rule o fs w : world_reach rule (world_start o fs) w -> world_ok w.
Proof using.
  induction 1 as [|w ev w' _ IH Hf _ Hs]; [apply world_start_ok|].
  destruct (step_ok w ev IH Hf) as (r & Hr & Hok). apply Hok. congruence.
Qed.

(** What [list] shows of a task. *)
Lemma listed_task tm i : i ∈ cmd_list tm -> exists tid t, tasks_ tm !! tid = Some t /\ i = task_info tid t.
Proof using.
  unfold cmd_list. intros ([tid t] & -> & Hin)%list_elem_of_fmap. exists tid, t. split; [|done].
  by apply (in_order_lookup tm (tid, t)).
Qed.

Lemma listed_complete tid t : ti_state (task_info tid t) = "complete"%string -> at_state t = "complete"%string.
Proof using. unfold task_info. cbn. destruct (decide _); [|done]. by destruct (is_seed t). Qed.

(** ** One task *)
(** Every task listens on the port of the daemon.  On Linux a port with a
    listening socket cannot be bound again, whatever [SO_REUSEADDR] says. *)
Definition port_taken (w : World) (ev : event) : Prop :=
  match ev with OnRequest e _ _ => tasks_ (w_tm w) <> ∅ -> env_bind_ok e = false | _ => True end.

Lemma each_task_dom f : forall l tm tm' err,
  (forall kv, kv ∈ l -> is_Some (tasks_ tm !! kv.1)) ->
  each_task f tm l = Some (tm', err) -> dom (tasks_ tm') = dom (tasks_ tm).
Proof using.
  induction l as [|[tid t] l IH]; intros tm tm' err Hl; cbn [each_task]; [by intros [= <- _]|].
  destruct (f tm t) as [[t' er]|]; [|done]. cbn [mbind option_bind].
  assert (dom (<[tid := t']> (tasks_ tm)) = dom (tasks_ tm)) as Hd.
  { apply dom_insert_lookup_L. apply (Hl (tid, t)). by left. }
  destruct er; [by intros [= <- _]|]. intros He. apply IH in He; [cbn in He; congruence|].
  intros kv Hkv. cbn. apply lookup_insert_is_Some'. right. apply Hl. by right.
Qed.

Lemma all_tasks_dom f tm tm' err :
  each_task f tm (tasks_in_order tm) = Some (tm', err) -> dom (tasks_ tm') = dom (tasks_ tm).
Proof using. apply each_task_dom. intros kv Hkv%in_order_lookup. by eexists. Qed.

Lemma then_call_dom due f r tm' err (D : gset string) :
  (forall tm err, r = Some (tm, err) -> dom (tasks_ tm) = D) ->
  (forall tm tm' err, f tm = Some (tm', err) -> dom (tasks_ tm') = dom (tasks_ tm)) ->
  then_call due f r = Some (tm', err) -> dom (tasks_ tm') = D.
Proof using.
  intros Hr Hf. destruct r as [[tm er]|]; [|done]. specialize (Hr tm er eq_refl). cbn.
  destruct er; [by intros [= <- _]|]. destruct due; [|by intros [= <- _]]. intros Ht%Hf. congruence.
Qed.

Lemma periodic_dom tm count shuffle now iso tm' err :
  periodic inet_addr resolves tm count shuffle now iso = Some (tm', err) -> dom (tasks_ tm') = dom (tasks_ tm).
Proof using.
  unfold periodic. apply then_call_dom; [intros t1 e1; apply then_call_dom; [intros t2 e2; apply then_call_dom;
    [intros t3 e3; apply then_call_dom; [intros t4 e4|]|]|]|]; try (intros; by eapply all_tasks_dom).
  by intros t5 t6 e5 [= <- _].
Qed.

Lemma put_task_dom w tid t : is_Some (tasks_ (w_tm w) !! tid) ->
  dom (tasks_ (w_tm (put_task w tid t))) = dom (tasks_ (w_tm w)).
Proof using.
  intros Ht. unfold put_task. cbv zeta. destruct (at_writer t); cbn; by apply dom_insert_lookup_L.
Qed.

Lemma client_step_dom w tid f w' :
  client_step w tid f = Goes w' -> dom (tasks_ (w_tm w')) = dom (tasks_ (w_tm w)).
Proof using.
  unfold client_step. destruct (tasks_ (w_tm w) !! tid) as [t|] eqn:Et; [|by intros [= <-]].
  destruct (f t); [|done]. intros [= <-]. by apply put_task_dom.
Qed.

Lemma client_step_ipc w tid f w' : client_step w tid f = Goes w' -> w_ipc w' = w_ipc w.
Proof using.
  unfold client_step. destruct (tasks_ (w_tm w) !! tid) as [t|]; [|by intros [= <-]].
  destruct (f t) as [t'|]; [|done]. intros [= <-]. unfold put_task. by destruct (at_writer t').
Qed.

(** Only a request changes which tasks there are. *)
Lemma step_dom w ev w' :
  step w ev = Some (Goes w') -> (forall e ec received, ev <> OnRequest e ec received) ->
  dom (tasks_ (w_tm w')) = dom (tasks_ (w_tm w)).
Proof using.
  intros Hs Hne. destruct ev as [ec shuffle now iso|ec now| |ec|ec|e ec received|request remote now|tid o now|tid i o now|
    tid i cancelled]; cbn [step] in Hs.
  - unfold heartbeat in Hs. cbn in Hs. destruct (ec || negb (d_running (w_daemon w))); [by injection Hs as <-|].
    destruct (periodic _ _ _ _ _ _ _) as [[tm err]|] eqn:E; [|done]. cbn in Hs. injection Hs as <-.
    apply periodic_dom in E. by destruct err.
  - unfold do_stats_tick in Hs. destruct ec; [by injection Hs as <-|].
    destruct (each_task _ _ _) as [[tm err]|] eqn:E; [|done]. injection Hs as <-. by apply all_tasks_dom in E.
  - by injection Hs as <-.
  - by injection Hs as <-.
  - by injection Hs as <-.
  - by destruct (Hne e ec received).
  - destruct (handle_announce _ _ _ _) as [[s ?]|]; [|done]. by injection Hs as <-.
  - destruct (tasks_ (w_tm w) !! tid) as [t|] eqn:Et; [|by injection Hs as <-].
    destruct (run_task _ _ _ _ _) as [t'|]; [|done]. injection Hs as <-. by apply put_task_dom.
  - injection Hs as Hs. by apply client_step_dom in Hs.
  - injection Hs as Hs. by apply client_step_dom in Hs.
Qed.

(** A request adds at most one task, and none if its port cannot be bound. *)
Lemma request_tasks w e ec received w' :
  event_fits w (OnRequest e ec received) -> step w (OnRequest e ec received) = Some (Goes w') ->
  tasks_ (w_tm w') = tasks_ (w_tm w) \/ exists t, tasks_ (w_tm w') = <[env_tid e := t]> (tasks_ (w_tm w)).
Proof using.
  intros (_ & Hf & _) Hs. cbn [step] in Hs. unfold handle_client in Hs.
  destruct ec, received as [|x received]; try (injection Hs as <-; by left).
  destruct (handle_effect sha256 sha1 inet_addr resolves what _ _ e _ Hf) as (fs' & tm' & reply & Hh & _ & Hcase).
  rewrite Hh in Hs. injection Hs as <-. cbn. destruct Hcase as [[-> _]|(t & Ht & _)]; [by left|right; by exists t].
Qed.

Lemma request_unbound w e ec received w' :
  env_bind_ok e = false -> step w (OnRequest e ec received) = Some (Goes w') ->
  tasks_ (w_tm w') ⊆ tasks_ (w_tm w).
Proof using.
  intros Hb Hs. cbn [step] in Hs. unfold handle_client in Hs.
  destruct ec, received as [|x received]; try (by injection Hs as <-).
  destruct (handle _ _ _ _ _ _ _ _ _) as [[[fs' tm'] reply]|] eqn:Eh; [|done]. injection Hs as <-. cbn.
  by apply (handle_unbound _ _ _ _ _ _ _ _ _ _ _ _ Hb Eh).
Qed.

(** On Linux a daemon never has more than one task: each task has a listening
    socket of its own on the same port, so the second [bind] fails and the
    command with it. *)
Theorem one_task_per_daemon o fs w :
  world_reach port_taken (world_start o fs) w -> (size (tasks_ (w_tm w)) <= 1)%nat.
Proof using.
  induction 1 as [|w ev w' _ IH Hf Hrule Hs]; [cbn; rewrite map_size_empty; lia|].
  assert ((exists e ec received, ev = OnRequest e ec received) \/ forall e ec received, ev <> OnRequest e ec received)
    as [(e & ec & received & ->)|Hne] by (destruct ev; eauto; right; discriminate).
  - destruct (map_choose_or_empty (tasks_ (w_tm w))) as [(k & t & Hk)|He].
    + assert (tasks_ (w_tm w) <> ∅) as Hne by (intros He; by rewrite He in Hk).
      pose proof (request_unbound _ _ _ _ _ (Hrule Hne) Hs) as Hsub. apply map_subseteq_size in Hsub. lia.
    + destruct (request_tasks _ _ _ _ _ Hf Hs) as [-> |[t ->]]; rewrite He; [rewrite map_size_empty; lia|].
      rewrite insert_empty, map_size_singleton. lia.
  - apply step_dom in Hs; [|done].
    rewrite <- !size_dom in *. by rewrite Hs.
Qed.

(** ** Signals *)
(** SIGINT and SIGTERM stop the heartbeat and nothing else: the acceptor of
    the command server is armed in every state, so the loop never runs out of
    work and [main] does not return; from then on no task is ever ticked. *)
Theorem signals_stop_only_the_heartbeat o fs w :
  world_reach anything (world_start o fs) w ->
  acc_armed (w_ipc w) = true /\
  (d_running (w_daemon w) = false -> forall ec shuffle now iso,
     step w (OnHeartbeat ec shuffle now iso) = Some (Goes { w with w_daemon ::= (fun d : Daemon => { d with d_armed := false }) })).
Proof using.
  intros Hreach. split.
  - induction Hreach as [|w ev w' _ IH Hf _ Hs]; [done|].
    destruct ev; cbn [step] in Hs.
    + destruct (heartbeat _ _ _ _ _ _ _); [|done]. by injection Hs as <-.
    + destruct (do_stats_tick _ _ _) as [[? ?]|]; [|done]. by injection Hs as <-.
    + by injection Hs as <-.
    + by injection Hs as <-.
    + by injection Hs as <-.
    + destruct (handle_client _ _ _ _ _ _ _ _ _ _) as [[[? ?] ?]|]; [|done]. by injection Hs as <-.
    + destruct (handle_announce _ _ _ _) as [[? ?]|]; [|done]. by injection Hs as <-.
    + destruct (tasks_ (w_tm w) !! tid) as [t|]; [|by injection Hs as <-].
      destruct (run_task _ _ _ _ _) as [t'|]; [|done]. injection Hs as <-. unfold put_task. by destruct (at_writer t').
    + injection Hs as Hs. by rewrite (client_step_ipc _ _ _ _ Hs).
    + injection Hs as Hs. by rewrite (client_step_ipc _ _ _ _ Hs).
  - intros Hr ec shuffle now iso. cbn [step]. unfold heartbeat. cbn. by rewrite Hr, orb_true_r.
Qed.
End system.

(** ** An instance *)
(** A daemon is asked to add a download whose file is there already; the next
    heartbeat reports it as complete. *)
Definition demo_options : DaemonOptions :=
  {| do_p2p_port := 6881; do_tracker_port := 9000; do_tracker_host := txt "10.0.0.1"; do_ipc_port := 19527 |}.

Definition demo_step (w : World) (ev : event) : option world_result :=
  step demo_sha demo_sha (fun _ => 0) (fun _ => true) (fun _ => []) w ev.

Definition demo_request : event :=
  OnRequest demo_env false (js "{'cmd':'add','seed_path':'old.tseed','save_path':'file'}").

Definition demo_heartbeat : event := OnHeartbeat false (fun l => l) 100000000 "now".

(** The command line tool has connected. *)
Definition demo_world : World :=
  { world_start demo_options demo_fs with w_ipc ::= (fun a => do_accept a false) }.

Lemma demo_request_fits : event_fits demo_sha demo_sha (fun _ => 0) (fun _ => true) demo_world demo_request.
Proof.
  split_and!.
  - cbn. lia.
  - split; [done|done|..|discriminate|discriminate].
    intros p sd Hp. vm_compute in Hp. injection Hp as <-.
    change (w_files _) with demo_fs. rewrite demo_old_seed_read. intros [= <-].
    split; [apply demo_old_seed_consistent|]. intros i c k Hi. apply zget_Some in Hi as [_ Hi]. cbn.
    destruct (Z.to_nat i) as [|[|n]]; cbn in Hi; simplify_eq; done.
  - intros p tid t _ Ht. done.
Qed.

Lemma demo_heartbeat_fits w :
  d_armed (w_daemon w) = true -> d_tick_count (w_daemon w) = 0 ->
  event_fits demo_sha demo_sha (fun _ => 0) (fun _ => true) w demo_heartbeat.
Proof. intros Ha Hc. split; [done|]. intros _. rewrite Hc. by split. Qed.

