(* ===== verification/Removal.v ===== *)
(** * Removing a task (cmd_remove of src/src/daemon/task_manager.cpp, the
    destructors of ActiveTask, PeerManager, IOWorkerPool and VerifyWorkerPool)

    [tasks_.erase] runs the destructor of the task on the event loop's thread.
    Its members go in the reverse of the order they are declared in: the
    writer, which unmaps the output file, before the pools whose threads use
    it.  [td_step] interleaves the destructors with the steps the threads can
    still make; unmapped memory is an empty file, so that every access is out
    of its range.  The theorem says exactly when a removal is safe. *)

From S2P Require Import Prelude Text Json FileUtil Platform Hash Seed Protocol ChunkAssembler SegmentIO Scheduler SchedulerSpec PeerSession Tracker PeerManager Workers TaskManager TaskStart TaskRun Ipc.
Import OCamlLikeNotations.

(** ** The manager's destructor *)
(** The sessions lose their callbacks and are closed. *)
Definition mute (s : PeerSession) : PeerSession :=
  { s with on_handshake_done_ := false; on_pex_peer_ := false; on_pex_remove_ := false;
           on_request_timeout_ := false; on_disconnect_ := false }.

(** The manager, and the sessions that handlers may keep alive. *)
Definition mgr_destroy (m : PeerManager) : PeerManager * list PeerSession :=
  let ss := disconnect <$> (mute <$> sessions_ m) in ({ m with sessions_ := [] }, ss).

(** They are all closed and have nothing to tell the manager. *)
Lemma mgr_destroy_silent m s :
  s ∈ (mgr_destroy m).2 ->
  state_ s = DISCONNECTED /\ on_disconnect_ s = false /\ exists s0, s0 ∈ sessions_ m /\ events_ s = events_ s0.
Proof.
  unfold mgr_destroy. intros (s1 & -> & (s0 & -> & Hs)%list_elem_of_fmap)%list_elem_of_fmap.
  unfold disconnect. destruct (state_ (mute s0)) eqn:E; cbn; by eauto.
Qed.

(** ** The destructor of a task *)
Record Teardown := {
  td_phase : nat;
  td_task : ActiveTask;
}.

Inductive td_op := Next | RunIo (i : Z) | RunVerify.

(** The next member: writer, tracker client, manager, scheduler, verify pool,
    I/O pool, assemblers. *)
Definition td_next (s : Teardown) : Teardown :=
  let t := td_task s in
  {| td_phase := S (td_phase s);
     td_task :=
       match td_phase s with
       | 0 => match at_writer t with
              | Some _ => { t with at_writer := None; at_pools ::= (fun p : Pools => { p with pl_mem := [] }) }
              | None => t
              end
       | 1 => { t with at_client := None }
       | 2 => { t with at_mgr ::= (fun m => (mgr_destroy m).1) }
       | 4 => { t with at_pools ::= verify_stop }
       | 5 => { t with at_pools ::= io_stop }
       | 6 => { t with at_pools ::= (fun p : Pools => { p with pl_assemblers := [] }) }
       | _ => t
       end%nat |}.

Section teardown.
Context (sha256 : bytes -> bytes).

(** The threads run until their pool's destructor has joined them; a chunk
    that is completed when the verify pool is gone is handed to nobody. *)
Definition td_step (s : Teardown) (o : td_op) : option Teardown :=
  let t := td_task s in
  match o with
  | Next => Some (td_next s)
  | RunIo i =>
    if (td_phase s <=? 5)%nat then
      p ← io_worker_step (at_pools t) i;
      if (4 <? td_phase s)%nat && negb (length (task_queue_ p) =? length (task_queue_ (at_pools t)))%nat then None
      else Some {| td_phase := td_phase s; td_task := { t with at_pools := p } |}
    else Some s
  | RunVerify =>
    if (td_phase s <=? 4)%nat then
      p ← verify_step sha256 (at_pools t);
      Some {| td_phase := td_phase s; td_task := { t with at_pools := p } |}
    else Some s
  end.

Fixpoint td_run (s : Teardown) (ops : list td_op) : option Teardown :=
  match ops with
  | [] => Some s
  | o :: ops => s ← td_step s o; td_run s ops
  end.

Definition td_start (t : ActiveTask) : Teardown := {| td_phase := 0; td_task := t |}.

(** A piece that the assembler of its chunk refuses. *)
Definition refused_piece (p : Pools) (x : PieceTask) : Prop :=
  exists c, zget (pl_chunks p) (pt_chunk_idx x) = Some c /\ ce_length c < pt_begin x + zlength (pt_data x).

(** *** Pieces and tasks after the file is unmapped *)
Lemma on_piece_refused n a c mem begin data :
  asm_ok n a c -> 0 <= begin -> begin + zlength data < 2 ^ 32 -> ce_length c < begin + zlength data ->
  on_piece a mem begin data = Some (a, mem, false).
Proof using.
  intros [Hs Hc _ _ (b & Hb & _) _] H0 Hw Hgt. unfold on_piece. rewrite Hs. change (SUB_BLOCK_SIZE =? 0) with false.
  cbn iota. rewrite Hb, Hc, u32_small by (unfold is_u32, zlength in *; lia).
  by replace (_ <? _) with true by lia.
Qed.

Lemma on_piece_unmapped n a c begin data :
  asm_ok n a c -> 0 <= begin -> data <> [] -> begin + zlength data <= ce_length c ->
  on_piece a [] begin data = None.
Proof using.
  intros [Hs Hc Hl Ho (b & Hb & Hpo & _) _] H0 Hne Hle.
  assert (0 < zlength data) by (destruct data; [done|unfold zlength; cbn; lia]).
  unfold on_piece. rewrite Hs. change (SUB_BLOCK_SIZE =? 0) with false.
  cbn iota. rewrite Hb, Hc, u32_small by (unfold is_u32; lia). replace (_ <? _) with false by lia.
  unfold memcpy_ptr. destruct (_ <=? _); [|done]. unfold memcpy_at. change (zlength []) with 0.
  by replace (p_off b + begin + zlength data <=? 0) with false by lia; rewrite andb_false_r.
Qed.

Lemma verify_unmapped n cs t :
  vtask_ok n cs t -> Forall (fun c => 0 <= ce_offset c /\ 0 < ce_length c) cs -> vt_chunk_idx t <> UINT32_MAX ->
  task_bytes [] t = None.
Proof using.
  intros Hv Hcs Hne. destruct (Hv Hne) as (c & b & Hc & Hd & Ho & Hl & _). apply zget_Some in Hc as [_ Hc].
  destruct (Forall_lookup_1 _ _ _ _ Hcs Hc) as [? ?]. unfold task_bytes. rewrite Hd. cbn [mbind option_bind].
  change (zlength []) with 0. by replace (p_lim b <=? 0) with false by lia; rewrite andb_false_r.
Qed.

Lemma zupd_same {A} (l : list A) i x : zget l i = Some x -> zupd l i x = l.
Proof using.
  intros [_ Hx]%zget_Some. unfold zupd. destruct (in_range l i); [by apply list_insert_id|done].
Qed.

Lemma refused_lookup n p x :
  Forall2 (asm_ok n) (pl_assemblers p) (pl_chunks p) -> 0 <= pt_chunk_idx x < zlength (pl_chunks p) ->
  exists a c, zget (pl_assemblers p) (pt_chunk_idx x) = Some a /\ zget (pl_chunks p) (pt_chunk_idx x) = Some c /\
    asm_ok n a c.
Proof using.
  intros Hf Hr. apply zget_is_Some in Hr as [c Hc]. apply zget_Some in Hc as Hl. destruct Hl as [H0 Hl].
  destruct (Forall2_lookup_r _ _ _ _ _ Hf Hl) as (a & Ha & Hok). exists a, c.
  split_and!; [|done|done]. apply zget_Some. by split.
Qed.

(** A refused piece leaves its queue and nothing else changes. *)
Lemma io_step_refused n p i x q :
  Forall2 (asm_ok n) (pl_assemblers p) (pl_chunks p) -> zget (io_queues_ p) i = Some (x :: q) ->
  task_ok (length (pl_chunks p)) x -> refused_piece p x ->
  io_worker_step p i = Some { p with io_queues_ := zupd (io_queues_ p) i q }.
Proof using.
  intros Hf Hq (Hi & Hb & _ & Hw) (c & Hc & Hgt). unfold io_worker_step. rewrite Hq.
  rewrite zset_zupd by (by eapply zget_range). cbn [mbind option_bind]. unfold process_piece. cbn.
  destruct (refused_lookup n p x Hf Hi) as (a & c' & Ha & Hc' & Hok). replace c' with c in Hok by congruence.
  rewrite Ha. cbn [mbind option_bind]. rewrite (on_piece_refused n a c) by done. cbn [mbind option_bind].
  rewrite (zset_zupd (pl_assemblers p)), (zupd_same (pl_assemblers p)) by (done || by eapply zget_range). cbn [mbind option_bind]. by destruct p.
Qed.

(** *** Nothing is left to do *)
Record quiet (n : Z) (p : Pools) : Prop := {
  qu_asms : Forall2 (asm_ok n) (pl_assemblers p) (pl_chunks p);
  qu_queues : Forall (Forall (fun x => task_ok (length (pl_chunks p)) x /\ refused_piece p x)) (io_queues_ p);
  qu_tasks : Forall (fun t => vt_chunk_idx t = UINT32_MAX) (task_queue_ p);
}.

Lemma quiet_next n s : (td_phase s <= 5)%nat ->
  quiet n (at_pools (td_task s)) -> quiet n (at_pools (td_task (td_next s))).
Proof using.
  intros Hph [H1 H2 H3]. unfold td_next. cbn.
  destruct (td_phase s) as [|[|[|[|[|[|ph]]]]]]; [destruct (at_writer _)|..]; cbn; try (by split).
  - split; cbn; [done|done|]. apply Forall_app. split; [done|]. by apply Forall_replicate.
  - lia.
Qed.

Lemma quiet_step n s o :
  ((td_phase s <= 6)%nat -> quiet n (at_pools (td_task s))) ->
  exists s', td_step s o = Some s' /\ ((td_phase s' <= 6)%nat -> quiet n (at_pools (td_task s'))).
Proof using.
  intros Hq. destruct o as [|i|]; cbn [td_step].
  - eexists. split; [done|]. cbn. intros Hph. apply quiet_next; [lia|apply Hq; lia].
  - destruct (Nat.leb_spec (td_phase s) 5) as [Hph|]; [|by eauto]. specialize (Hq ltac:(lia)).
    destruct (zget (io_queues_ (at_pools (td_task s))) i) as [[|x q]|] eqn:E.
    2: { pose proof (qu_queues _ _ Hq) as Hqs. destruct (zget_Some (io_queues_ (at_pools (td_task s))) i (x :: q)) as [Hz _].
         destruct (Hz E) as [_ Hl]. pose proof (Forall_lookup_1 _ _ _ _ Hqs Hl) as [[Hx Hr] Hrest]%Forall_cons.
         rewrite (io_step_refused n _ _ x q (qu_asms _ _ Hq) E Hx Hr). cbn.
         rewrite Nat.eqb_refl, andb_false_r. eexists. split; [done|]. intros _.
         destruct Hq as [H1 H2 H3]. split; cbn; [done| |done]. by apply Forall_zupd. }
    all: unfold io_worker_step; rewrite E; cbn; rewrite Nat.eqb_refl, andb_false_r; by eauto.
  - destruct (Nat.leb_spec (td_phase s) 4) as [Hph|]; [|by eauto]. specialize (Hq ltac:(lia)).
    unfold verify_step. destruct (task_queue_ (at_pools (td_task s))) as [|t q] eqn:E; [by cbn; eauto|].
    destruct Hq as [H1 H2 H3]. rewrite E in H3. apply Forall_cons in H3 as [-> H3]. cbn. eexists. split; [done|].
    intros _. by split.
Qed.

Lemma quiet_run n ops : forall s,
  ((td_phase s <= 6)%nat -> quiet n (at_pools (td_task s))) -> is_Some (td_run s ops).
Proof using.
  induction ops as [|o ops IH]; intros s Hq; cbn [td_run]; [by eexists|].
  destruct (quiet_step n s o Hq) as (s' & -> & Hq'). by apply IH.
Qed.

(** *** Something is left to do *)
(** With the file unmapped, a schedule that runs I/O thread [i] to the end of
    its queue meets every piece of it. *)
Lemma queue_refused n i q : forall t,
  pl_mem (at_pools t) = [] -> Forall2 (asm_ok n) (pl_assemblers (at_pools t)) (pl_chunks (at_pools t)) ->
  zget (io_queues_ (at_pools t)) i = Some q -> Forall (task_ok (length (pl_chunks (at_pools t)))) q ->
  (forall ops, is_Some (td_run {| td_phase := 1; td_task := t |} ops)) ->
  Forall (refused_piece (at_pools t)) q.
Proof using.
  induction q as [|x q IH]; intros t Hm Hf Hq Hok Hrun; [constructor|]. apply Forall_cons in Hok as [Hx Hok].
  assert (refused_piece (at_pools t) x) as Hr.
  { pose proof Hx as (Hi & Hb & Hne & Hw). destruct (refused_lookup n (at_pools t) x Hf Hi) as (a & c & Ha & Hc & Hac).
    exists c. split; [done|]. destruct (Z.ltb_spec (ce_length c) (pt_begin x + zlength (pt_data x))) as [|Hle]; [done|].
    exfalso. destruct (Hrun [RunIo i]) as [s Hs]. cbn [td_run td_step td_phase td_task] in Hs.
    unfold io_worker_step in Hs. rewrite Hq in Hs. rewrite zset_zupd in Hs by (by eapply zget_range).
    cbn [mbind option_bind Nat.leb] in Hs. unfold process_piece in Hs. cbn in Hs. rewrite Ha in Hs.
    cbn [mbind option_bind] in Hs. by rewrite Hm, (on_piece_unmapped n a c) in Hs. }
  constructor; [done|]. set (p' := { at_pools t with io_queues_ := zupd (io_queues_ (at_pools t)) i q }).
  change (Forall (refused_piece (at_pools { t with at_pools := p' })) q). apply IH; [done|done| |done|].
  - cbn. apply zget_zupd_eq. by eapply zget_range.
  - intros ops. specialize (Hrun (RunIo i :: ops)). cbn [td_run td_step td_phase td_task] in Hrun.
    rewrite (io_step_refused n _ _ x q Hf Hq Hx Hr) in Hrun. exact Hrun.
Qed.

End teardown.

(** ** The accept that is outstanding *)
(** The handler of a task's accept refers to its manager.  The acceptor's
    destructor makes the outstanding accept fail, which queues the handler:
    it runs after the manager is gone. *)
Definition accept_handler (tm : TaskManager) (tid : string) (ok : bool) (sock : option (string * Z)) (now : Z)
  : option TaskManager :=
  t ← tasks_ tm !! tid;
  Some { tm with tasks_ ::= <[tid := { t with at_mgr := do_accept (at_mgr t) ok sock now }]> }.

(** Every removal that succeeds leads to undefined behaviour. *)
Theorem removed_task_accepts tm tid tm' now :
  cmd_remove tm tid = (tm', js "{'status':'ok'}") -> accept_handler tm' tid false None now = None.
Proof.
  unfold cmd_remove, accept_handler. destruct (tasks_ tm !! tid); intros [= <-]. cbn. by rewrite lookup_delete_eq.
Qed.

(** ** An instance *)
(** A download, and the same with a piece that has not been written yet. *)
Lemma demo_piece_ok : task_ok 2 demo_piece.
Proof. repeat split; vm_compute; congruence. Qed.

