(* ===== verification/Windows.v ===== *)
(** * The Windows code (the [_WIN32] branches of src/src/common/file_util.cpp,
    src/src/daemon/segment_io.cpp and src/src/common/net_util.cpp)

    The same functions as in [FileUtil], [SegmentIO] and [NetUtil], as they
    are compiled for Windows.  The results of system calls are arguments; where
    the code relies on a documented rule of a call, the rule is a hypothesis.
    The theorems compare the two platforms: which calls do the same to a file,
    and that large files cannot be mapped on Windows. *)

From Stdlib Require Import Ascii.
From S2P Require Import Prelude Text Platform FileUtil Seed Protocol ChunkAssembler SegmentIO Scheduler SchedulerSpec PeerSession NetUtil Tracker Workers TaskManager TaskStart.
Import OCamlLikeNotations.

(** ** Mapped files *)
Module WinFile.
(** A [HANDLE]: [nullptr], [INVALID_HANDLE_VALUE] or a handle. *)
Inductive handle := NullHandle | InvalidHandle | Handle (h : Z).

Record MappedFile := {
  file_handle_ : handle;
  mapping_handle_ : handle;
  data_ : option Z;
  size_ : Z;
}.

Definition mapped_eta (m : MappedFile) : MappedFile := {|
  file_handle_ := file_handle_ m; mapping_handle_ := mapping_handle_ m; data_ := data_ m; size_ := size_ m |}.

#[export] Hint Extern 0 (@Setter MappedFile _ ?g) => set_field mapped_eta g : typeclass_instances.

Definition mapped_new : MappedFile :=
  {| file_handle_ := NullHandle; mapping_handle_ := NullHandle; data_ := None; size_ := 0 |}.

(** What the process holds. *)
Record Sys := {
  handles : gset Z;
  views : gset Z;
}.

Definition CloseHandle (s : Sys) (h : Z) : Sys := {| handles := handles s ∖ {[h]}; views := views s |}.
Definition UnmapViewOfFile (s : Sys) (v : Z) : Sys := {| handles := handles s; views := views s ∖ {[v]} |}.
Definition new_handle (s : Sys) (h : Z) : Sys := {| handles := {[h]} ∪ handles s; views := views s |}.
Definition new_view (s : Sys) (v : option Z) : Sys :=
  match v with Some v => {| handles := handles s; views := {[v]} ∪ views s |} | None => s end.

(** What follows [CreateFileA] in both functions: [mapping] and [view] are the
    results of [CreateFileMappingA] and [MapViewOfFile]. *)
Definition map_handle (s : Sys) (m : MappedFile) (h size : Z) (mapping view : option Z)
  : Sys * MappedFile * bool :=
  let s := new_handle s h in
  match mapping with
  | None => (CloseHandle s h, m, false)
  | Some mp =>
    let s := new_view (new_handle s mp) view in
    let m := { m with data_ := view } in
    let s := CloseHandle s mp in
    match view with
    | None => (CloseHandle s h, m, false)
    | Some _ => (s, { m with file_handle_ := Handle h; size_ := size }, true)
    end
  end.

Definition create_and_map (s : Sys) (m : MappedFile) (file_size : Z) (h : handle) (mapping view : option Z)
  : Sys * MappedFile * bool :=
  match h with
  | Handle h =>
    let '(s, m, ok) := map_handle s m h file_size mapping view in
    (s, if ok : bool then { m with mapping_handle_ := NullHandle } else m, ok)
  | _ => (s, m, false)
  end.

Definition open_and_map (s : Sys) (m : MappedFile) (file_sz : Z) (h : handle) (mapping view : option Z)
  : Sys * MappedFile * bool :=
  match h with
  | Handle h => map_handle s m h file_sz mapping view
  | _ => (s, m, false)
  end.

Definition unmap (s : Sys) (m : MappedFile) : Sys * MappedFile :=
  match data_ m with
  | None => (s, m)
  | Some v =>
    let s := UnmapViewOfFile s v in
    let m := { m with data_ := None } in
    let '(s, m) := match file_handle_ m with
                   | Handle h => (CloseHandle s h, { m with file_handle_ := NullHandle })
                   | _ => (s, m)
                   end in
    (s, { m with mapping_handle_ := NullHandle; size_ := 0 })
  end.

Definition move_from (other : MappedFile) : MappedFile * MappedFile := (other, mapped_new).

Definition move_assign (s : Sys) (m other : MappedFile) : Sys * MappedFile * MappedFile :=
  let '(s, m) := unmap s m in (s, other, mapped_new).

(** The object has a file. *)
Definition has_file (m : MappedFile) : bool := match file_handle_ m with Handle _ => true | _ => false end.

(** [seek] and [eof] are the results of [SetFilePointerEx] and [SetEndOfFile],
    which cuts or extends the file; [SetFileValidData] needs a privilege and
    its result is not looked at: the bytes behind the old end are [tail]. *)
Definition preallocate (m : MappedFile) (f : bytes) (size : Z) (seek eof : bool) (tail : bytes)
  : MappedFile * bytes * bool :=
  if negb (has_file m) then (m, f, false)
  else if negb seek then (m, f, false)
  else if negb eof then (m, f, false)
  else ({ m with size_ := size }, take (Z.to_nat size) (f ++ tail), true).

Definition advise_sequential : bool := false.

Definition punch_hole (m : MappedFile) (f : bytes) (off len : Z) (ok : bool) : MappedFile * bytes * bool :=
  if negb (has_file m) then (m, f, false)
  else if ok then (m, zero_range f off (u64 (off + len) - off), true) else (m, f, false).

Definition truncate (m : MappedFile) (f : bytes) (new_size : Z) (seek eof : bool) : MappedFile * bytes * bool :=
  if negb (has_file m) then (m, f, false)
  else if negb seek then (m, f, false)
  else if negb eof then (m, f, false)
  else ({ m with size_ := new_size }, set_size f new_size, true).

Definition sync (m : MappedFile) (flushed : bool) : bool :=
  match data_ m with None => false | Some _ => flushed end.

(** [ok]: the descriptors have handles and the extents are duplicated, which
    a file system does for a range inside both files or not at all. *)
Definition clone_range (fs : FileSystem) (src : string) (src_off : Z) (dst : string) (dst_off len : Z) (ok : bool)
  : FileSystem * bool :=
  match fs !! src, fs !! dst with
  | Some s, Some d =>
    if ok then (<[dst := blit d dst_off (zslice s src_off len)]> fs, true) else (fs, false)
  | _, _ => (fs, false)
  end.

(** [TransmitFile] sends all or fails. *)
Definition sendfile_zero_copy (offset count : Z) (valid sent : bool) : Z * Z :=
  if negb valid then (offset, -1)
  else if negb sent then (offset, -1)
  else (u64 (offset + count), count).

(** *** What is taken is given back *)
Lemma win_sys_ext (s s' : Sys) : handles s = handles s' -> views s = views s' -> s = s'.
Proof. destruct s, s'. cbn. congruence. Qed.

(** Mapping a file, whatever the calls return, and unmapping it leaves the
    process with what it held before; so does giving the object away. *)
Theorem win_mapped_file_releases s (create : bool) size h (mapping view : option Z) :
  (forall x, h = Handle x -> x ∉ handles s) ->
  (forall x, mapping = Some x -> (x ∉ handles s) /\ h <> Handle x) -> (forall v, view = Some v -> v ∉ views s) ->
  let '(s1, m, ok) := if create then create_and_map s mapped_new size h mapping view
                      else open_and_map s mapped_new size h mapping view in
  (ok = true -> size_ m = size /\ has_file m = true) /\ (unmap s1 m).1 = s /\
  let '(s2, owner, rest) := move_assign s1 mapped_new m in
  (unmap (unmap s2 rest).1 owner).1 = s.
Proof.
  intros Hh Hm Hv. unfold create_and_map, open_and_map, map_handle.
  destruct h as [| |h]; [by destruct create..|]. specialize (Hh h eq_refl).
  destruct mapping as [mp|].
  2: { destruct create; cbn; split_and!; try done; apply win_sys_ext; cbn; set_solver. }
  destruct (Hm mp eq_refl) as [Hmp Hne]. assert (mp <> h) by congruence.
  destruct view as [v|]; [specialize (Hv v eq_refl)|];
    (destruct create; cbn; split_and!; try done; apply win_sys_ext; cbn; set_solver).
Qed.

(** *** Linux and Windows *)
(** Where the two do the same to a file: holes, complete copies, complete
    sends, and preallocation unless the file gets shorter, which Linux never
    does to it and Windows does. *)
Theorem platforms_agree_on_files m wm f size off len tail (fs : FileSystem) src dst sf df soff doff :
  has_file wm = true -> 0 <= size -> 0 <= off -> 0 <= len -> off + len < 2 ^ 64 ->
  fs !! src = Some sf -> fs !! dst = Some df -> 0 <= soff -> soff + len <= zlength sf ->
  0 <= doff -> doff + len <= zlength df ->
  (FileUtil.punch_hole m f off len 0).1.2 = (punch_hole wm f off len true).1.2 /\
  (0 < len -> FileUtil.clone_range fs src soff dst doff len len = clone_range fs src soff dst doff len true) /\
  (0 < len -> FileUtil.sendfile_zero_copy off len = sendfile_zero_copy off len true true) /\
  (zlength f <= size -> tail = FileUtil.zeros (size - zlength f) ->
   (FileUtil.preallocate m f size 0).1.2 = (preallocate wm f size true true tail).1.2) /\
  (size < zlength f ->
   (FileUtil.preallocate m f size 0).1.2 = f /\
   zlength (preallocate wm f size true true tail).1.2 = size).
Proof.
  intros Hw Hs Ho Hl H64 Hsrc Hdst Hso Hse Hdo Hde.
  unfold punch_hole, preallocate, FileUtil.punch_hole, FileUtil.preallocate, FileUtil.clone_range, clone_range,
    FileUtil.sendfile_zero_copy, sendfile_zero_copy. rewrite Hw, Hsrc, Hdst. cbn. split_and!.
  - rewrite u64_small by (unfold is_u64; lia). by replace (off + len - off) with len by lia.
  - intros Hp. replace (0 <? len) with true by lia. rewrite Z.eqb_refl. rewrite file_write_inside; [done|].
    rewrite zlength_zslice; lia.
  - intros Hp. by replace (0 <? len) with true by lia.
  - intros Hle ->. unfold extend. symmetry. apply take_ge. rewrite length_app. unfold FileUtil.zeros, zlength in *.
    rewrite length_replicate. lia.
  - intros Hlt. split.
    + unfold extend, FileUtil.zeros. replace (Z.to_nat _) with 0%nat by lia. by rewrite app_nil_r.
    + unfold zlength in *. rewrite length_take, length_app. lia.
Qed.
End WinFile.

(** ** The output file *)
Module WinSegment.
(** [CreateFileA] succeeds, [SetEndOfFile] succeeds, the result of [_open]. *)
Record open_calls := {
  wo_file : bool;
  wo_eof : bool;
  wo_fd : Z;
}.

(** The content of the file is kept as far as it fits; [tail] follows it. *)
Definition writer_open (w : SegmentWriter) (file_path : string) (file_size segment_size : Z)
    (sys : open_calls) (disk : option bytes) (tail : bytes) : bool * SegmentWriter * option bytes :=
  if file_size =? 0 then (false, w, disk)
  else
    let with_fd := opened w file_path file_size segment_size in
    if negb (wo_file sys) then (false, with_fd (fd_ w), disk)
    else
      let old := default [] disk in
      let content := if zlength old =? file_size then old
                     else if wo_eof sys then take (Z.to_nat file_size) (old ++ tail) else old in
      (true, with_fd (wo_fd sys), Some content).

Lemma win_open_ok path size sys disk tail w disk' :
  0 <= size <= 2 ^ 57 -> 0 <= wo_fd sys ->
  writer_open writer_new path size DEFAULT_SEGMENT_SIZE sys disk tail = (true, w, disk') ->
  writer_ok w /\ mapped_segments_ w = ∅.
Proof.
  intros Hs Hfd. unfold writer_open. destruct (Z.eqb_spec size 0); [done|].
  destruct (negb _); [done|]. intros [= <- _]. split; [|done]. apply opened_ok; lia.
Qed.

(** Nothing but the first segment has ever been mapped. *)
Definition only_first (w : SegmentWriter) : Prop :=
  forall i, is_Some (mapped_segments_ w !! i) -> i = 0.

Lemma first_chunk_keeps w off size mmap_ok w' r :
  writer_ok w -> only_first w -> 0 <= off < DEFAULT_SEGMENT_SIZE ->
  SegmentIO.get_chunk_base w off size mmap_ok = (w', r) -> only_first w'.
Proof.
  intros Hw Hf Ho. unfold SegmentIO.get_chunk_base. rewrite (wok_seg _ Hw).
  replace (off / DEFAULT_SEGMENT_SIZE) with 0 by segments. change (u32 0) with 0.
  assert (only_first (find_segment w 0 mmap_ok).1) as Hfind.
  { unfold find_segment. destruct (_ =? _); [done|]. destruct (mapped_segments_ w !! 0) as [seg|]; [done|].
    unfold SegmentIO.map_segment. destruct mmap_ok; [|done]. intros i [seg Hi]. cbn in Hi.
    apply lookup_insert_Some in Hi as [[<- _]|[_ Hi]]; [done|]. apply Hf. by exists seg. }
  destruct (fd_ w <? 0); [by intros [= <- _]|]. destruct (_ <? _); [by intros [= <- _]|].
  destruct (_ <? _); [by intros [= <- _]|]. destruct (_ <=? _); [by intros [= <- _]|].
  destruct (find_segment w 0 mmap_ok) as [w1 [seg|]]; [|by intros [= <- _]].
  destruct (_ <? _); by intros [= <- _].
Qed.

Lemma init_assemblers_ext cs f g : forall w i,
  (forall k, (k < length cs)%nat -> f (i + Z.of_nat k) = g (i + Z.of_nat k)) ->
  TaskManager.init_assemblers w cs i f = TaskManager.init_assemblers w cs i g.
Proof.
  induction cs as [|c cs IH]; intros w i Hfg; [done|]. cbn [TaskManager.init_assemblers].
  pose proof (Hfg 0%nat ltac:(cbn; lia)) as H0. rewrite Z.add_0_r in H0. rewrite H0.
  destruct (SegmentIO.get_chunk_base _ _ _ _) as [w1 [b|]]; [|done].
  rewrite (IH w1 (i + 1)); [done|]. intros k Hk. replace (i + 1 + Z.of_nat k) with (i + Z.of_nat (S k)) by lia.
  apply Hfg. cbn. lia.
Qed.

Section mapping.
(** [CreateFileMappingA] by maximum size, and [MapViewOfFile] by the maximum
    size of the mapping, the offset and the number of bytes. *)
Context (create_mapping : Z -> bool) (map_view : Z -> Z -> Z -> bool).

(** The system calls of [map_segment]. *)
Definition mapping_ok (w : SegmentWriter) (seg_idx : Z) : bool :=
  let seg_start := u64 (seg_idx * segment_size_ w) in
  let map_size := Z.min (u64 (segment_size_ w + MAX_CHUNK_SIZE)) (u64 (file_size_ w - seg_start)) in
  create_mapping map_size && map_view map_size seg_start map_size.

Definition map_segment (w : SegmentWriter) (seg_idx : Z) : bool * SegmentWriter :=
  SegmentIO.map_segment w seg_idx (mapping_ok w seg_idx).

(** [get_chunk_base] differs in the calls it makes only. *)
Definition get_chunk_base (w : SegmentWriter) (chunk_offset chunk_size : Z) : SegmentWriter * option Ptr :=
  SegmentIO.get_chunk_base w chunk_offset chunk_size (mapping_ok w (u32 (chunk_offset / segment_size_ w))).

(** The assemblers of a download. *)
Definition init_assemblers (w : SegmentWriter) (cs : list ChunkEntry)
  : SegmentWriter * option (list ChunkAssembler) :=
  TaskManager.init_assemblers w cs 0 (fun i =>
    match zget cs i with Some c => mapping_ok w (u32 (ce_offset c / segment_size_ w)) | None => false end).

(** All bytes of a view are within the maximum size of the mapping. *)
Hypothesis view_inside : forall max off n, map_view max off n = true -> off + n <= max.

Lemma later_segment_fails w i :
  writer_ok w -> 0 < i < segment_count_ w -> mapping_ok w i = false.
Proof using view_inside.
  intros Hw Hi. pose proof (segment_count_bound w Hw) as Hb. destruct Hw as [_ Hs Hg Hc _ _].
  unfold mapping_ok. cbv zeta. rewrite Hc, Hg in *.
  assert (i * DEFAULT_SEGMENT_SIZE < file_size_ w) by segments.
  rewrite (u64_small (i * _)) by (unfold is_u64; segments).
  destruct (map_view _ _ _) eqn:E; [|apply andb_false_r]. apply view_inside in E.
  exfalso. segments.
Qed.

(** A chunk that starts behind the first segment gets no address, and asking
    for one maps nothing. *)
Lemma later_chunk_fails w off size :
  writer_ok w -> only_first w -> is_u64 off -> is_u32 size -> DEFAULT_SEGMENT_SIZE <= off ->
  get_chunk_base w off size = (w, None).
Proof using view_inside.
  intros Hw Hf Ho Hsz Hoff. unfold get_chunk_base, SegmentIO.get_chunk_base.
  destruct (fd_ w <? 0); [done|]. destruct (Z.ltb_spec (file_size_ w) (u64 (off + size))); [done|].
  destruct (Z.ltb_spec MAX_CHUNK_SIZE size); [done|].
  destruct (Z.leb_spec (segment_count_ w) (u32 (off / segment_size_ w))) as [|Hlt]; [done|].
  destruct (chunk_in_segment w off size Hw Ho Hsz) as (Hi & Hend & _); [done|done|done|].
  assert (u32 (off / segment_size_ w) <> 0) as Hne.
  { destruct Hw as [_ Hs Hg _ _ _]. unfold is_u32 in Hsz. rewrite Hg, u32_small by (unfold is_u32; segments). segments. }
  rewrite (later_segment_fails w) by (done || lia). unfold find_segment.
  destruct (Z.eqb_spec (u32 (off / segment_size_ w)) (cached_seg_idx_ w)) as [E|].
  - exfalso. destruct (wok_cache _ Hw) as [Hc|[_ Hc]].
    + pose proof (segment_count_bound w Hw). rewrite Hc in E. unfold UINT32_MAX in E. lia.
    + apply Hf in Hc. lia.
  - destruct (mapped_segments_ w !! u32 (off / segment_size_ w)) eqn:E; [|done].
    exfalso. apply Hne, Hf. by rewrite E.
Qed.

Lemma later_chunks_fail cs : forall w i mmap_ok,
  writer_ok w -> only_first w -> Forall entry_ok cs ->
  (forall k c, cs !! k = Some c -> mmap_ok (i + Z.of_nat k) = mapping_ok w (u32 (ce_offset c / segment_size_ w))) ->
  Exists (fun c => DEFAULT_SEGMENT_SIZE <= ce_offset c) cs ->
  (TaskManager.init_assemblers w cs i mmap_ok).2 = None.
Proof using view_inside.
  induction cs as [|c cs IH]; intros w i mmap_ok Hw Hf Hok Hm Hex; [by apply Exists_nil in Hex|].
  apply Forall_cons in Hok as [(Ho & Hl & _) Hok]. cbn [TaskManager.init_assemblers].
  pose proof (Hm 0%nat c eq_refl) as Hm0. rewrite Z.add_0_r in Hm0. rewrite Hm0.
  destruct (Z.leb_spec DEFAULT_SEGMENT_SIZE (ce_offset c)) as [Hc|Hc].
  { pose proof (later_chunk_fails w _ _ Hw Hf Ho Hl Hc) as Hg. unfold get_chunk_base in Hg. by rewrite Hg. }
  apply Exists_cons in Hex as [|Hex]; [lia|].
  destruct (SegmentIO.get_chunk_base _ _ _ _) as [w1 [b|]] eqn:E; [|done].
  destruct (get_chunk_base_spec w _ _ _ _ _ Hw Ho Hl E) as (Hw1 & Hs & _).
  pose proof (first_chunk_keeps _ _ _ _ _ _ Hw Hf (conj (proj1 Ho) Hc) E) as Hf1.
  assert ((TaskManager.init_assemblers w1 cs (i + 1) mmap_ok).2 = None) as Hn.
  { apply IH; [done|done|done| |done]. intros k x Hk.
    replace (i + 1 + Z.of_nat k) with (i + Z.of_nat (S k)) by lia. rewrite (Hm (S k) x Hk). unfold mapping_ok.
    by rewrite Hs, (wok_seg _ Hw1), (wok_seg _ Hw). }
  destruct (TaskManager.init_assemblers _ _ _ _) as [w2 r]. cbn in Hn. by subst r.
Qed.

End mapping.


(** A file of 65 MiB on a system that maps whatever is inside a mapping. *)
Definition demo_calls : open_calls := {| wo_file := true; wo_eof := false; wo_fd := 3 |}.

Definition demo_far (off : Z) : ChunkEntry :=
  {| ce_offset := off; ce_length := MAX_CHUNK_SIZE; ce_sha256 := replicate 32 Byte.x00 |}.

End WinSegment.

(** ** Interfaces *)
Module WinNet.
Definition ERROR_BUFFER_OVERFLOW : Z := 111.
Definition ERROR_INSUFFICIENT_BUFFER : Z := 122.
Definition NO_ERROR : Z := 0.

(** An adapter with its unicast addresses, those that are IPv4 with their
    value. *)
Record adapter := {
  ad_loopback : bool;
  ad_up : bool;
  ad_unicast : list (option Z);
}.

Fixpoint first_inet (l : list (option Z)) : option Z :=
  match l with [] => None | Some ip :: _ => Some ip | None :: l => first_inet l end.

Fixpoint first_adapter (l : list adapter) : option Z :=
  match l with
  | [] => None
  | a :: l =>
    if ad_loopback a then first_adapter l
    else if negb (ad_up a) then first_adapter l
    else match first_inet (ad_unicast a) with Some ip => Some ip | None => first_adapter l end
  end.

(** [get] is [GetAdaptersAddresses]: for the length of a buffer the result, the
    length needed and the adapters. *)
Definition get_local_ip (get : Z -> Z * Z * list adapter) : string :=
  let '(ret, buf_len, adapters) := get 15000 in
  let '(ret, adapters) :=
    if ret =? ERROR_BUFFER_OVERFLOW then (let '(ret, _, adapters) := get buf_len in (ret, adapters))
    else (ret, adapters) in
  if negb (ret =? NO_ERROR) then EmptyString
  else match first_adapter adapters with Some ip => inet_ntoa ip | None => EmptyString end.

(** A row of [GetIfTable]. *)
Record ifrow := {
  row_loopback : bool;
  row_connected : bool;
  row_speed : Z;
}.

Fixpoint first_speed (l : list ifrow) : Z :=
  match l with
  | [] => 1000
  | r :: l =>
    if row_loopback r then first_speed l
    else if negb (row_connected r) then first_speed l
    else let mbps := row_speed r / 1000000 in if 0 <? mbps then mbps else first_speed l
  end.

Definition detect_link_speed_mbps (size_query : Z) (table : Z * list ifrow) : Z :=
  if negb (size_query =? ERROR_INSUFFICIENT_BUFFER) then 1000
  else let '(ret, rows) := table in if negb (ret =? NO_ERROR) then 1000 else first_speed rows.

(** The same adapter, as Linux lists it: an entry for each address. *)
Definition as_ifaddrs (a : adapter) : list ifaddrs :=
  (fun ip => {| ifa_inet := Some ip; ifa_loopback := ad_loopback a; ifa_up := ad_up a; ifa_name := EmptyString |})
    <$> ad_unicast a.

Lemma first_interface_skip l l' :
  Forall (fun i => ifa_loopback i = true \/ ifa_up i = false \/ ifa_inet i = Some None) l ->
  first_interface (l ++ l') = first_interface l'.
Proof.
  induction 1 as [|i l Hi _ IH]; [done|]. cbn [app first_interface].
  destruct (ifa_inet i) as [[ip|]|] eqn:E; [|done|done]. destruct Hi as [-> |[-> |]]; [done|by destruct (ifa_loopback i)|done].
Qed.

Lemma first_adapter_interface l :
  first_adapter l = fst <$> first_interface (l ≫= as_ifaddrs).
Proof.
  induction l as [|a l IH]; [done|]. cbn [first_adapter mbind list_bind]. fold (mbind (M := list) as_ifaddrs).
  destruct (ad_loopback a) eqn:El.
  { rewrite first_interface_skip; [done|]. apply Forall_fmap, Forall_true. intros ip. by left. }
  destruct (ad_up a) eqn:Eu; cbn [negb].
  2: { rewrite first_interface_skip; [done|]. apply Forall_fmap, Forall_true. intros ip. by right; left. }
  unfold as_ifaddrs at 1. rewrite El, Eu. induction (ad_unicast a) as [|[ip|] us IHu]; cbn; [done|done|done].
Qed.

(** On a machine whose adapters both systems report, both find the same
    address, also when the first buffer is too small; only if the second call
    fails there is none. *)
Theorem local_ip_platforms_agree get l :
  (exists n, get 15000 = (NO_ERROR, n, l)) \/
  (exists n m l', get 15000 = (ERROR_BUFFER_OVERFLOW, n, l') /\ get n = (NO_ERROR, m, l)) ->
  get_local_ip get = NetUtil.get_local_ip (Some (l ≫= as_ifaddrs)).
Proof.
  intros Hget. unfold get_local_ip, NetUtil.get_local_ip.
  destruct Hget as [[n ->]|(n & m & l' & -> & Hn)]; cbn; rewrite ?Hn; cbn; rewrite first_adapter_interface;
    by destruct (first_interface _) as [[ip ?]|].
Qed.

(** The scheduler never gets a local speed of zero. *)
Lemma link_speed_positive size_query table l speed_of :
  (forall n s, speed_of n = Some s -> 0 <= s) ->
  0 < detect_link_speed_mbps size_query table /\ 0 < NetUtil.detect_link_speed_mbps l speed_of.
Proof.
  intros Hs. split.
  - unfold detect_link_speed_mbps. destruct (negb _); [lia|]. destruct table as [ret rows]. destruct (negb _); [lia|].
    induction rows as [|r rows IH]; cbn [first_speed]; [lia|]. destruct (row_loopback r); [done|].
    destruct (negb _); [done|]. cbv zeta. destruct (Z.ltb_spec 0 (row_speed r / 1000000)); done.
  - unfold NetUtil.detect_link_speed_mbps. destruct l as [l|]; [|lia]. destruct (first_interface l) as [[? name]|]; [|lia].
    destruct (speed_of name) as [s|] eqn:E; [|lia]. apply Hs in E. destruct (Z.eqb_spec s 0); lia.
Qed.
End WinNet.
